(* ===== verification/_CoqProject ===== *)
-Q . S2P
Prelude.v
GoLib.v
GoStrings.v
Base64.v
Crypto.v
GoHoare.v
Stravaganza.v
Parser.v
Hooks.v
Hosts.v
Session.v
Dialback.v
Rsm.v
C2SModel.v
LocalRouter.v
Router.v
C2SIn.v
C2SSafety.v
C2SProps.v
StreamQueue.v
StreamMgmt.v
Roster.v
RosterProofs.v
Storage.v
S2SIn.v
S2SOut.v
S2SInProofs.v
S2SOutProofs.v
S2SProvider.v
S2SNet.v
Users.v
Scram.v
ScramProofs.v
ResourceManager.v
Members.v
Repository.v
MemRep.v
Bolt.v
BoltProofs.v
Cached.v
CachedProofs.v
ModLib.v
ModDemo.v
Blocklist.v
Offline.v
Forms.v
Mam.v
Carbons.v
Modules.v
Disco.v
Caps.v
Components.v
ComponentIn.v
Accounts.v
Ping.v
ModuleTable.v
ClusterCalls.v
HookTable.v
JumpHash.v
SrvResolver.v
RedisCache.v
Startup.v
EtcdKV.v
Measured.v
Listeners.v
Transport.v
Pgsql.v
PgsqlProofs.v
ModuleHooks.v
