(* ===== verification/Prelude.v ===== *)
(** * Verification of the jackal XMPP server

    jackal is an XMPP server in Go.  A client connection is a C2S stream
    (src/pkg/c2s/in.go), a state machine that runs on its own run queue; it
    registers with the C2S router, hands stanzas to the global router, and lets
    modules take part through hooks.  Routers find the resources of a user
    through the resource manager and deliver to local streams, to other cluster
    instances, to S2S streams or to components.  Modules (roster, stream
    management, blocklist, message archive, and so on) react to hooks, answer IQs
    and keep their data in a repository, which is a database or a cache in front of
    one.

    ** Files and what they model

    - [Prelude] (this file): outcomes of Go calls ([Ok], [Err], [Crash] for a
      panic), the monad [M] of stateful code, its rules ([keeps], [bind_inv]),
      the hint database [gomonad], list and integer lemmas.
    - [GoLib], [GoStrings], [Base64], [Crypto]: what the code uses of Go's
      standard library: the contract of [sort.Slice] with an instance, [strconv],
      [strings], [encoding/base64], the SHA family and HMAC, with round trips and
      test vectors.
    - [GoHoare]: Hoare triples and invariants for objects that call an outer
      world, the hint database [gohoare], shared by the S2S, SASL and
      administration files.
    - [Stravaganza]: the third-party XML and JID library as classes with the
      documented laws the proofs use, and [TreeLib], an instance on which the
      witnesses run.
    - [Parser] (src/pkg/parser/parser.go): the stack machine that turns XML tokens
      into elements.
    - [Session] (src/pkg/session/session.go): stream headers, namespaces and
      addresses of an XMPP session over a transport.
    - [Hooks] (src/pkg/hook/hooks.go): [AddHook], [RemoveHook], [Run].
    - [Hosts] (src/pkg/host, src/pkg/shaper, src/pkg/util/stringmatcher):
      modules [Host], [Matcher], [Shaper].
    - [Rsm] (src/pkg/module/xep0059/rsm.go): paging of result sets.
    - [C2SModel] (src/pkg/model/c2s/model.go): info map, resource descriptions.
    - [LocalRouter] (src/pkg/c2s/local_router.go, resources.go): the registry of
      local streams; class [StreamRegistry] is what a stream expects of it.
    - [Router] (src/pkg/c2s/router.go, src/pkg/s2s/router.go,
      src/pkg/router/router.go): choice of the targets of a stanza.
    - [C2SIn] (src/pkg/c2s/in.go, flags.go): record [inC2S], one definition per
      method, class [C2SEnv] for what the stream calls, [event] and [step] for
      what can happen to a stream.
    - [C2SSafety]: the interface [C2SEnvOk] of the collaborators, the invariant
      [Inv], and that every method keeps it.
    - [C2SProps]: theorems about the stream, and a concrete environment.
    - [StreamQueue] (src/pkg/module/xep0198/queue/queue.go): the queue of
      unacknowledged stanzas; its pending Go timers are part of the state.
    - [StreamMgmt] (src/pkg/module/xep0198/stream.go): enabling, resuming and
      acknowledging; queues are shared objects in a heap.
    - [Roster] (src/pkg/module/roster/roster.go): subscriptions, roster IQs,
      XML form of items, against the repository interface [RosterEnv].
    - [RosterProofs]: the contract [RosterRepo] of the repository and the
      theorems about the module.
    - [Dialback] (src/pkg/s2s/dialback.go): dialback keys, and requests in the
      key-value store, class [KV] with the single-node store of
      src/pkg/cluster/kv/nop_kv.go and a map as instances.
    - [S2SIn], [S2SOut] (src/pkg/s2s/in.go, out.go, in_hub.go): the two kinds of
      server-to-server streams, in the style of [C2SIn]; [S2SInProofs] and
      [S2SOutProofs] hold their invariants and theorems.
    - [S2SProvider] (src/pkg/s2s/out_provider.go, dialer.go): the dialler, and the
      provider of outgoing streams with concurrent calls as interleaved steps.
    - [S2SNet]: the streams of two servers put together.
    - [Users] (src/pkg/auth/pepper/keys.go, src/pkg/admin/server/service.go):
      pepper keys and the administration of accounts.
    - [Scram], [ScramProofs] (src/pkg/auth/scram.go, external.go): the SASL
      authenticators, a client of RFC 5802, and what holds between them.
    - [ResourceManager] (src/pkg/cluster/resourcemanager/kvmanager.go): the view
      an instance has of the resources of the cluster, and the store as a log of
      changes, class [KVWatch].
    - [Members] (src/pkg/cluster/memberlist/kv_memberlist.go,
      src/pkg/cluster/connmanager, src/pkg/version): the member list with its
      mutex and the connections that follow it.
    - [Storage] (src/pkg/model): the stored entities and their binary form;
      [Repository] (src/pkg/storage/repository): what the modules ask of storage,
      as classes; [MemRep]: an instance in memory for the witnesses.
    - [Bolt] (src/pkg/storage/boltdb): the repository over buckets and cursors,
      with its transactions; [BoltProofs]: the contract of the database, and that
      the repository keeps the contracts of its clients.
    - [Cached] (src/pkg/storage/cached): the repository behind a cache;
      [CachedProofs]: that it answers like the repository itself.
    - [ModLib] (src/pkg/util/xmpp/xmpp.go, src/pkg/hook): stanzas the modules make,
      and what every module is created with, class [ModEnv]; [ModDemo]: a server in
      memory for the witnesses.
    - [Blocklist] (src/pkg/module/xep0191), [Offline] (src/pkg/module/offline),
      [Forms] (src/pkg/module/xep0004), [Mam] (src/pkg/module/xep0313), [Carbons]
      (src/pkg/module/xep0280), [Disco] (src/pkg/module/xep0030), [Caps]
      (src/pkg/module/xep0115), [Ping] (src/pkg/module/xep0199), [Accounts]
      (last activity, private storage, vCard, version and time: src/pkg/module/
      xep0012, xep0049, xep0054, xep0092, xep0202): one definition per request,
      hook handler and helper of each module.
    - [Modules] (src/pkg/module/module.go) and [ModuleTable]
      (src/pkg/jackal/modules.go): the registry of modules, and the modules the
      server has with the name spaces they answer.
    - [Components] (src/pkg/component/component.go, extcomponentmanager): the
      registry of components and its copy of the cluster's; [ComponentIn]
      (src/pkg/component/xep0114): the stream of an external component, its hub and
      its listener.
    - [ClusterCalls] (src/pkg/cluster/server, src/pkg/cluster/connmanager): the
      services of an instance and the clients of the others, over a network that may
      fail before or after a call is served; two instances put together.
    - [HookTable] ([Start] and [Stop] of every module, src/pkg/hook): which method
      is registered for which hook with which priority; [ModuleHooks]: what the
      methods do on a state that holds all modules, so that [Hooks.Run] runs them
      together.
    - [JumpHash] (src/pkg/storage/cached/redis/jumphash.go) with the rounding of
      float64, [SrvResolver] (src/pkg/util/dns/srvresolver.go) and [RedisCache]
      (src/pkg/storage/cached/redis): the cache on a pool of servers, as an instance
      of the interface [Cached.Cache].
    - [EtcdKV] (src/pkg/cluster/kv/etcd/kv.go): the store of a cluster with the lease
      of an instance, as an instance of [Dialback.KV] and its contract.
    - [Measured] (src/pkg/storage/measured): the repository wrapper that counts calls,
      and programs that use a repository.
    - [Pgsql] (src/pkg/storage/pgsql): the statements of the PostgreSQL repository and the
      reading of their results; [PgsqlProofs]: the meaning of the statements on tables,
      and the contract of the database.
    - [Listeners] (src/pkg/c2s/socket_listener.go, src/pkg/s2s/socket_listener.go):
      modules [C2SListener] and [S2SListener], the accept loop, and the logins of streams
      that share the external authenticator.
    - [Transport] (src/pkg/transport, src/pkg/util/ratelimiter): the socket transport
      with its buffers, its limits, TLS and compression.
    - [Startup] (src/pkg/jackal): the parts of the server with the collaborators they
      are created with, and the order in which they are started and stopped.

    ** How the model corresponds to the code

    A method that changes state is a computation in [M]: the state stays changed
    when the method returns an error or panics.  [x ← m; k] is a call whose
    error is returned, [ignore m] a call whose error is dropped, [try m] a call
    whose error is looked at.  A nil dereference, a failed type assertion, an
    index out of range, a division by zero and a second close of a channel are
    values of [crash].  Code outside of the repository, and the parts a
    component only calls, are fields of a class; what a theorem needs of them is
    a law of a second class, and every such class has an instance in a witness.
    Methods of one stream do not interleave (they run on its run queue); hooks
    run inside of them and may change the stream, which [C2SSafety.eff]
    describes.  Go integers that can overflow are kept at their width
    ([uint32], [incH]).

    ** What the theorems show

    - The C2S stream: invariant and absence of a double close in every reachable
      state; flags only grow; no authentication without a successful SASL
      exchange; a terminated stream stays so; the fifth failed login ends the
      stream; message rerouting ends; SASL is accepted without TLS.
    - Stream management: the queue refines a log with an acknowledgement
      position; numbering; acknowledgement is exact without wrap-around and
      loses stanzas with it; timers; valid identifiers; a resumption delivers
      exactly the unacknowledged stanzas; module invariant; effects that precede
      the check of the identifier.
    - Routing: targets of messages, broadcasts and full JIDs; the local registry
      refines a map; a duplicate bind is lost.
    - Roster: store invariant under storage failures; consistency of the two
      sides of a subscription and the two ways it is lost; a roster set cannot
      forge a subscription; probes reveal nothing without one; XML round trip;
      roster versions never match.
    - Hooks run in priority order; paging covers the set, and the requests that
      panic; hosts and shapers.
    - Parser and session: the tokens of a tree give the tree back; no panic up to
      the first error, and the panic after it; the size limit; a session delivers
      only stanzas whose sender it vouches for, after a checked header.
    - S2S: invariants of both kinds of streams; nothing is handled for a peer that
      is not authorised; an outgoing stream is a queue of stanzas and writes
      nothing but the request for TLS before it is secured; dialback requests are
      answered exactly, and each dialback reports once; the dialback handshake of
      two servers succeeds, and two servers of this kind never get to it when
      EXTERNAL fails; one stream per pair of domains under concurrent calls; the
      order of dialling.
    - SASL and accounts: a client of RFC 5802 logs in with the password the
      administration service stored; only a proof of the stored password
      authenticates; requests of the administration change one account.
    - Cluster: after any interleaving of local changes, changes of other
      instances, deliveries and departures, an instance that has seen all changes
      sees what the store holds; the connections are those of the member list;
      the names, values and departures that break this.
    - Storage: the BoltDB repository keeps the contract the roster module is
      verified against and the order of offline messages up to the ninth; the
      deletion of an account that is rolled back; a repository behind the cache
      answers like the repository after any sequence of calls; the interleaving and
      the rollback that leave stale entries.
    - Modules: a block request changes exactly the list of its sender and the
      filter is exact; offline messages are a bounded queue that is delivered in
      order; a data form is read back as it was written; a routed message is in
      both archives and a query is answered with its page; carbon copies go to
      exactly the resources that asked for them; only subscribers are told about an
      account; every entry of the capabilities cache is the hash of a valid
      description, whatever the order it was listed in, and the server passes its
      own verification; private storage gives back what was stored; only silent
      clients are ended; the order of the modules makes no difference.  Next to
      them stand the inputs on which the code does something else.
    - Components: the registry follows the cluster; a component stream closes its
      channel once and has no effect before its handshake; the secret that is not
      stored, the host that stays taken and the shared loop variable.
    - Calls between instances: a call is served at most once, and exactly once when
      it succeeds, with the arguments of the caller; a resumption on another instance
      delivers exactly the unacknowledged stanzas; the queue that does not exist and
      the one that is lost.
    - The modules together: for every order of the modules a routed message is
      archived, then copied, then queued; stopping the modules undoes their start; a
      blocked stanza that is not counted.
    - The Redis cache keeps the contract that the caching repository needs, whatever
      the servers; adding servers moves name spaces to the new ones only; the pool
      follows the SRV record; an SRV record is read as it is written; the answers and
      failures after which the pool is wrong.
    - The etcd store: when an instance stops, the keys it wrote leave with it and the keys of
      others stay;
      a lease that is lost is not noticed.
    - Transport and listeners: nothing received before TLS is read after it; what is
      written is sent in order, and completely once a flush succeeds; after a stop at
      most one connection is served; the mechanisms a stream offers; the login under the
      name of another client, and the write error that compression hides.
    - The PostgreSQL repository keeps the contract of the roster module; the archive
      queries, locks and results that go wrong.
    - No program can tell the measured repository from the one it wraps.
    - Start-up: no part is created without a collaborator it uses, and every part is
      started after the parts it uses and stopped before them.

    ** Fuel

    [C2SIn.sendMsg] has fuel 2: [C2SProps.process_message_terminates] shows that
    more makes no difference and that the fuel is never exhausted.
    [S2SIn.sendMsg] is the same loop, with
    [S2SInProofs.s2s_message_terminates].  [GoLib.FormatUint] has fuel 20, the
    digits of a 64-bit value; [Crypto.chunks] has the length of its list or the
    number of words of a block; [Transport.bufWriteString] has the length of its string
    and two more, which [Transport.written_in_order] shows to be enough.
    [JumpHash.jump] has the number of buckets: [JumpHash.jumpHash_consistent] shows that
    a bucket is always found.  All other recursion is structural.

    ** Not modelled

    Metrics, logging, contexts and deadlines; the float accessors of the info
    map; the feature lists of the modules, which are constants; the PostgreSQL server
    and its driver, the Redis, etcd, BoltDB, TLS and zlib libraries and the network of
    gRPC, which are interfaces here; the listeners of the gRPC servers, which are input
    and output; reading the configuration, and the limits of the process. *)

From stdpp Require Import base list strings gmap relations.
From Stdlib Require Import ZArith Lia.

(** ** Go outcomes

    A Go call returns normally, returns a non-nil [error], or panics.  A panic
    is kept apart from an error because code that discards an error
    ([_ = f()]) does not stop a panic. *)

(** The run-time panics the modelled code can raise.  [OutOfFuel] is not a Go
    panic: it marks a loop that was cut by the fuel of its model, and the
    theorems about such loops show that it does not occur. *)
Inductive crash :=
| NilDeref
| BadTypeAssertion
| IndexOutOfRange
| DivideByZero
| CloseOfClosedChannel
| SendOnClosedChannel
| Deadlock (** not a panic: the goroutine waits for itself *)
| OutOfFuel.

(** Reasons of stream errors (stravaganza's [errors/stream] package). *)
Inductive stream_reason :=
| ConnectionTimeout
| Conflict
| PolicyViolation
| NotAuthorized
| InvalidNamespace
| UnsupportedStanzaType
| SystemShutdown
| HostUnknown
| InvalidFrom
| InvalidXML
| RemoteConnectionFailed
| UnsupportedVersion
| ResourceConstraint
| UndefinedCondition
| InternalServerError.

#[global] Instance stream_reason_eq_dec : EqDecision stream_reason.
Proof. solve_decision. Defined.

(** Error values.  The sentinel errors the code compares against are
    constructors of their own; every other error carries its text. *)
Inductive goerror :=
| ErrStopped
| ErrNotExistingAccount
| ErrResourceNotFound
| ErrUserNotAvailable
| ErrRemoteServerNotFound
| ErrRemoteServerTimeout
| ErrStreamClosedByPeer
| ErrPageNotFound
| ErrInvalidSMID
| ErrReadLimitExceeded
| ErrServerTimeout
| XMLSyntaxError (msg : string) (** [*xml.SyntaxError] *)
| NetError (timeout : bool) (** a [net.Error] *)
| StreamError (r : stream_reason)
| StreamErrorApp (r : stream_reason) (app : string) (** with an application element *)
| StanzaErr (reason : string) (** a stanza error returned as an [error] *)
| NilStreamError (** a nil [*streamerror.Error] stored in an [error]: not the nil error *)
| SASLError (reason : string)
| ErrText (msg : string).

#[global] Instance goerror_eq_dec : EqDecision goerror.
Proof. solve_decision. Defined.

Inductive outcome (A : Type) :=
| Ok (a : A)
| Err (e : goerror)
| Crash (c : crash).
Arguments Ok {A} a.
Arguments Err {A} e.
Arguments Crash {A} c.

(** [no_crash r]: the call did not panic. *)
Definition no_crash {A} (r : outcome A) : Prop :=
  match r with Crash _ => False | _ => True end.

Definition is_ok {A} (r : outcome A) : bool :=
  match r with Ok _ => true | _ => false end.

#[global] Instance outcome_ret : MRet outcome := fun A a => Ok a.
#[global] Instance outcome_bind : MBind outcome := fun A B f r =>
  match r with Ok a => f a | Err e => Err e | Crash c => Crash c end.

Lemma outcome_bind_inv {A B} (r : outcome A) (f : A → outcome B) b :
  r ≫= f = Ok b → ∃ a, r = Ok a ∧ f a = Ok b.
Proof. destruct r; [eauto|done..]. Qed.

(** ** The monad of stateful Go code

    State changes made before an error or a panic stay: the state is outside
    of the outcome. *)
Definition M (S A : Type) : Type := S → outcome A * S.

#[global] Instance M_ret {S} : MRet (M S) := fun A a s => (Ok a, s).
#[global] Instance M_bind {S} : MBind (M S) := fun A B f m s =>
  match m s with
  | (Ok a, s') => f a s'
  | (Err e, s') => (Err e, s')
  | (Crash c, s') => (Crash c, s')
  end.

Definition get {S} : M S S := fun s => (Ok s, s).
Definition gets {S A} (f : S → A) : M S A := fun s => (Ok (f s), s).
Definition modify {S} (f : S → S) : M S unit := fun s => (Ok tt, f s).
Definition fail {S A} (e : goerror) : M S A := fun s => (Err e, s).
Definition crash_with {S A} (c : crash) : M S A := fun s => (Crash c, s).

(** [err := f()]: the error becomes a value, a panic goes on. *)
Definition try {S A} (m : M S A) : M S (goerror + A) := fun s =>
  match m s with
  | (Ok a, s') => (Ok (inr a), s')
  | (Err e, s') => (Ok (inl e), s')
  | (Crash c, s') => (Crash c, s')
  end.

(** [_ = f()]: the error is dropped. *)
Definition ignore {S A} (m : M S A) : M S unit := _ ← try m; mret tt.

(** A dereference of a possibly nil pointer. *)
Definition deref {S A} (o : option A) : M S A :=
  match o with Some a => mret a | None => crash_with NilDeref end.

(** [for _, x := range l { f(x) }], left by the first error. *)
Fixpoint for_each {S A} (l : list A) (f : A → M S unit) : M S unit :=
  match l with
  | [] => mret tt
  | x :: l' => f x;; for_each l' f
  end.

(** ** Reasoning about the monad *)

(** [keeps R m]: every run of [m], whatever its outcome, relates the state
    before to the state after by [R]. *)
Definition keeps {S A} (R : S → S → Prop) (m : M S A) : Prop :=
  ∀ s, R s (m s).2.

(** Hoare triples; the postcondition sees the outcome. *)
Definition triple {S A} (P : S → Prop) (m : M S A)
    (Q : outcome A → S → Prop) : Prop :=
  ∀ s, P s → Q (m s).1 (m s).2.

(** The relation of an invariant: it is a preorder, so [keeps] composes. *)
Definition stable {S} (I : S → Prop) : S → S → Prop := fun s s' => I s → I s'.

#[global] Instance stable_preorder {S} (I : S → Prop) : PreOrder (stable I).
Proof. split; unfold stable; red; auto. Qed.

Section monad_rules.
Context {S : Type}.
Implicit Types (R : S → S → Prop).

Lemma keeps_ret {A} R `{!Reflexive R} (a : A) : keeps R (mret a).
Proof. intros s. simpl. reflexivity. Qed.

Lemma keeps_bind {A B} R `{!Transitive R} (m : M S A) (f : A → M S B) :
  keeps R m → (∀ a, keeps R (f a)) → keeps R (m ≫= f).
Proof.
  intros Hm Hf s. specialize (Hm s). unfold mbind, M_bind.
  destruct (m s) as [[a|e|c] s1]; simpl in *; [|done..].
  etransitivity; [exact Hm|apply Hf].
Qed.

Lemma keeps_try {A} R (m : M S A) : keeps R m → keeps R (try m).
Proof.
  intros Hm s. specialize (Hm s). unfold try.
  by destruct (m s) as [[a|e|c] s1].
Qed.

Lemma keeps_ignore {A} R `{!PreOrder R} (m : M S A) :
  keeps R m → keeps R (ignore m).
Proof.
  intros Hm. unfold ignore.
  apply keeps_bind; [apply _|by apply keeps_try|intros; apply keeps_ret, _].
Qed.

Lemma keeps_gets {A} R `{!Reflexive R} (f : S → A) : keeps R (gets f).
Proof. intros s. simpl. reflexivity. Qed.

Lemma keeps_get R `{!Reflexive R} : keeps R get.
Proof. intros s. simpl. reflexivity. Qed.

Lemma keeps_fail {A} R `{!Reflexive R} e : keeps R (@fail S A e).
Proof. intros s. simpl. reflexivity. Qed.

Lemma keeps_crash {A} R `{!Reflexive R} c : keeps R (@crash_with S A c).
Proof. intros s. simpl. reflexivity. Qed.

Lemma keeps_deref {A} R `{!Reflexive R} (o : option A) : keeps R (@deref S A o).
Proof. destruct o; [apply keeps_ret, _|apply keeps_crash, _]. Qed.

Lemma keeps_modify R f : (∀ s, R s (f s)) → keeps R (modify f).
Proof. intros Hf s. apply Hf. Qed.

Lemma keeps_for_each {A} R `{!PreOrder R} (l : list A) f :
  (∀ x, x ∈ l → keeps R (f x)) → keeps R (for_each l f).
Proof.
  induction l as [|x l IH]; intros Hf; simpl; [apply keeps_ret, _|].
  apply keeps_bind; [apply _| |intros _]; [apply Hf|apply IH; intros; apply Hf];
    by constructor.
Qed.

Lemma keeps_weaken {A} R R' (m : M S A) :
  (∀ s s', R s s' → R' s s') → keeps R m → keeps R' m.
Proof. intros HR Hm s. apply HR, Hm. Qed.

Lemma triple_bind {A B} (P : S → Prop) (m : M S A) (f : A → M S B) Q1 Q :
  triple P m Q1 →
  (∀ a, triple (Q1 (Ok a)) (f a) Q) →
  (∀ e s, Q1 (Err e) s → Q (Err e) s) →
  (∀ c s, Q1 (Crash c) s → Q (Crash c) s) →
  triple P (m ≫= f) Q.
Proof.
  intros Hm Hf He Hc s HP. specialize (Hm s HP). unfold mbind, M_bind.
  destruct (m s) as [[a|e|c] s1]; simpl in *; [by apply Hf|by apply He|by apply Hc].
Qed.

Lemma triple_conseq {A} (P P' : S → Prop) (m : M S A) Q Q' :
  triple P' m Q' → (∀ s, P s → P' s) → (∀ r s, Q' r s → Q r s) → triple P m Q.
Proof. intros Hm HP HQ s Hs. apply HQ, Hm, HP, Hs. Qed.

Lemma fst_Ok {A} (r : outcome A * S) a : r.1 = Ok a → r = (Ok a, r.2).
Proof. destruct r as [r s]. simpl. by intros ->. Qed.

Lemma fst_Ok_pair {A T W} (r : outcome A * (T * W)) a : r.1 = Ok a → r = (Ok a, (r.2.1, r.2.2)).
Proof. destruct r as [r [s w]]. simpl. by intros ->. Qed.

Lemma bind_Ok {A B} (m : M S A) (f : A → M S B) s a s' :
  m s = (Ok a, s') → (m ≫= f) s = f a s'.
Proof. intros H. unfold mbind, M_bind. by rewrite H. Qed.

Lemma bind_ext {A B} (m : M S A) (f g : A → M S B) s :
  (∀ a s1, m s = (Ok a, s1) → f a s1 = g a s1) → (m ≫= f) s = (m ≫= g) s.
Proof. intros Hfg. unfold mbind, M_bind. destruct (m s) as [[a|e|c] s1]; [by apply Hfg|done..]. Qed.

(** Inversion of a bind that succeeds. *)
Lemma bind_inv {A B} (m : M S A) (f : A → M S B) s b s' :
  (m ≫= f) s = (Ok b, s') → ∃ a s1, m s = (Ok a, s1) ∧ f a s1 = (Ok b, s').
Proof. unfold mbind, M_bind. destruct (m s) as [[a|e|c] s1]; [eauto|done..]. Qed.

Lemma bind_Err {A B} (m : M S A) (f : A → M S B) s e s' :
  m s = (Err e, s') → (m ≫= f) s = (Err e, s').
Proof. intros H. unfold mbind, M_bind. by rewrite H. Qed.

End monad_rules.

(** What a computation that keeps [R] did to a state. *)
Lemma keeps_run {S A} (R : S → S → Prop) (m : M S A) s r s' : keeps R m → m s = (r, s') → R s s'.
Proof. intros Hm E. specialize (Hm s). by rewrite E in Hm. Qed.

(** The hint database of the development: structural rules of [keeps]. *)
Create HintDb gomonad.
#[export] Hint Resolve keeps_ret keeps_gets keeps_get keeps_fail keeps_crash
  keeps_deref keeps_try keeps_ignore : gomonad.
#[export] Hint Extern 1 (PreOrder _) => typeclasses eauto : gomonad.
#[export] Hint Extern 1 (Reflexive _) => typeclasses eauto : gomonad.
#[export] Hint Extern 1 (Transitive _) => typeclasses eauto : gomonad.

(** Walks the structure of a monadic term, one bind, branch or match at a
    time, and leaves the primitives that the database does not know. *)
Ltac keeps_step :=
  match goal with
  | |- keeps _ (_ ≫= _) => apply keeps_bind; [typeclasses eauto| |intros ?]
  | |- keeps _ (match ?x with _ => _ end) => destruct x
  | |- keeps _ (let '_ := ?x in _) => destruct x
  | |- keeps _ (for_each _ _) => apply keeps_for_each; [typeclasses eauto|intros ? ?]
  | |- keeps _ (ignore _) => apply keeps_ignore; [typeclasses eauto|]
  | |- keeps _ (try _) => apply keeps_try
  | |- keeps _ _ => progress eauto with gomonad
  end.
Ltac keeps_auto := repeat keeps_step.

(** Case analysis on the scrutinee of the outermost match of the goal. *)
Ltac case_on :=
  match goal with
  | |- context [match ?x with _ => _ end] => destruct x eqn:?
  end.

(** Splits a hypothesis that a sequence of calls succeeded. *)
Tactic Notation "inv_bind" hyp(H) "as" simple_intropattern(a) simple_intropattern(s)
    simple_intropattern(Ha) :=
  apply bind_inv in H; destruct H as (a & s & Ha & H); cbv beta in H.

(** ** Lists *)

Lemma filter_filter {A} (f g : A → bool) (l : list A) :
  List.filter f (List.filter g l) = List.filter (fun x => g x && f x) l.
Proof.
  induction l as [|x l IH]; simpl; [done|].
  destruct (g x); simpl; [destruct (f x)|]; by rewrite IH.
Qed.

Lemma NoDup_fmap_inj {A B} (f : A → B) (l : list A) x y : NoDup (map f l) → x ∈ l → y ∈ l → f x = f y → x = y.
Proof.
  induction l as [|a l IH]; simpl; [by intros _ ?%not_elem_of_nil|].
  intros [Hn Hnd]%NoDup_cons [->|Hx]%elem_of_cons [->|Hy]%elem_of_cons E; [done| | |by apply IH].
  - destruct Hn. rewrite E. by apply list_elem_of_fmap_2.
  - destruct Hn. rewrite <-E. by apply list_elem_of_fmap_2.
Qed.

Lemma filter_none {A} (P : A → Prop) `{!∀ x, Decision (P x)} (l : list A) :
  (∀ x, x ∈ l → ¬ P x) → filter P l = [].
Proof.
  induction l as [|x l IH]; intros Hl; [done|].
  rewrite filter_cons, decide_False by (apply Hl; set_solver). apply IH. set_solver.
Qed.

Lemma filter_all {A} (P : A → Prop) `{!∀ x, Decision (P x)} (l : list A) :
  (∀ x, x ∈ l → P x) → filter P l = l.
Proof.
  induction l as [|x l IH]; intros Hl; [done|].
  rewrite filter_cons, decide_True by (apply Hl; set_solver). f_equal. apply IH. set_solver.
Qed.

Lemma NoDup_filter {A} (P : A → Prop) `{!∀ x, Decision (P x)} (l : list A) : NoDup l → NoDup (filter P l).
Proof. intros Hl. eapply sublist_NoDup; [done|apply sublist_filter]. Qed.
Lemma filter_elem_iff {A} (P Q : A → Prop) `{!∀ x, Decision (P x), !∀ x, Decision (Q x)} (l : list A) :
  (∀ x, x ∈ l → P x ↔ Q x) → filter P l = filter Q l.
Proof.
  induction l as [|x l IH]; intros Hl; [done|]. rewrite !filter_cons, IH by set_solver.
  specialize (Hl x ltac:(set_solver)). repeat case_decide; tauto.
Qed.

(** ** Machine integers *)

Definition uint8 (z : Z) : Z := (z mod 2 ^ 8)%Z.
Definition uint32 (z : Z) : Z := (z mod 2 ^ 32)%Z.
Definition int64 (z : Z) : Z := ((z + 2 ^ 63) mod 2 ^ 64 - 2 ^ 63)%Z.
Definition max_uint32 : Z := (2 ^ 32 - 1)%Z.
