(* ===== verification/GoLib.v ===== *)
(** * The parts of Go's standard library the modelled code uses

    [sort.Slice] (an interface: any sorting algorithm that meets the
    documented contract), [strconv] on decimal numbers, and
    [encoding/base64]'s standard encoding. *)

From stdpp Require Import base list strings gmap sorting.
From Stdlib Require Import ZArith Lia Ascii.
From S2P Require Import Prelude.

(** ** sort.Slice *)

(** What [less] has to be for [sort.Slice] to be specified: a strict weak
    ordering. *)
Class WeakOrder {A} (less : A → A → bool) : Prop := {
  less_irrefl : ∀ x, less x x = false;
  less_asym : ∀ x y, less x y = true → less y x = false;
  less_negtrans : ∀ x y z, less x y = false → less y z = false → less x z = false;
}.

(** "Slice sorts the slice x given the provided less function.  The sort is
    not guaranteed to be stable": the result is a permutation in which no
    element is less than an earlier one. *)
Class SortSlice := {
  sort_slice : ∀ {A : Type}, (A → A → bool) → list A → list A;
  sort_slice_perm : ∀ {A} (less : A → A → bool) l, sort_slice less l ≡ₚ l;
  sort_slice_sorted : ∀ {A} (less : A → A → bool) l, WeakOrder less →
    StronglySorted (fun x y => less y x = false) (sort_slice less l);
}.

(** Descending order on an integer key, the way the code sorts by priority. *)
Definition desc_by {A} (key : A → Z) (x y : A) : bool := (key y <? key x)%Z.

#[global] Instance desc_by_weak {A} (key : A → Z) : WeakOrder (desc_by key).
Proof. split; unfold desc_by; intros; lia. Qed.

(** Ascending order on a string key; strings are compared byte by byte. *)
Definition asc_by {A} (key : A → string) (x y : A) : bool := String.ltb (key x) (key y).

Lemma ltb_lt s t : String.ltb s t = true ↔ String.compare s t = Lt.
Proof. unfold String.ltb. by destruct (String.compare s t). Qed.
Lemma string_compare_spec s t : CompareSpecT (s = t) (String.ltb s t = true) (String.ltb t s = true) (String.compare s t).
Proof.
  apply CompareSpec2Type. destruct (String.compare s t) eqn:E; constructor.
  - by apply String.compare_eq_iff.
  - by apply ltb_lt.
  - apply ltb_lt. by rewrite String.compare_antisym, E.
Qed.

Lemma ascii_lt_trans a b c : Ascii.compare a b = Lt → Ascii.compare b c = Lt → Ascii.compare a c = Lt.
Proof. unfold Ascii.compare. rewrite !N.compare_lt_iff. apply N.lt_trans. Qed.
Lemma string_lt_trans s t u : String.ltb s t = true → String.ltb t u = true → String.ltb s u = true.
Proof.
  rewrite !ltb_lt. revert t u. induction s as [|a s IH]; intros [|b t] [|c u]; simpl; try done.
  destruct (Ascii.compare a b) eqn:Eab, (Ascii.compare b c) eqn:Ebc; try done; intros Hs Ht.
  - apply Ascii.compare_eq_iff in Eab as ->. rewrite Ebc. eauto.
  - apply Ascii.compare_eq_iff in Eab as ->. by rewrite Ebc.
  - apply Ascii.compare_eq_iff in Ebc as <-. by rewrite Eab.
  - by rewrite (ascii_lt_trans a b c).
Qed.
Lemma string_lt_irrefl s : String.ltb s s = false.
Proof.
  apply not_true_is_false. rewrite ltb_lt. pose proof (String.compare_antisym s s).
  by destruct (String.compare s s).
Qed.
Lemma string_lt_total s t : String.ltb s t = false → String.ltb t s = false → s = t.
Proof. destruct (string_compare_spec s t) as [E|E|E]; by rewrite ?E. Qed.

#[global] Instance ltb_weak : WeakOrder String.ltb.
Proof.
  split.
  - apply string_lt_irrefl.
  - intros s t Hst. apply not_true_is_false. intros Hts.
    pose proof (string_lt_trans _ _ _ Hst Hts) as Hc. by rewrite string_lt_irrefl in Hc.
  - intros s t u Hst Htu. apply not_true_is_false. intros Hsu.
    destruct (string_compare_spec t s) as [->|E|E]; [congruence| |congruence].
    rewrite (string_lt_trans t s u E Hsu) in Htu. done.
Qed.
#[global] Instance asc_by_weak {A} (key : A → string) : WeakOrder (asc_by key).
Proof.
  split; unfold asc_by; [intros; apply less_irrefl|intros; by apply less_asym|intros; by eapply less_negtrans].
Qed.

(** The algorithm Go uses on slices of at most twelve elements. *)
Fixpoint insert_sorted {A} (less : A → A → bool) (x : A) (l : list A) : list A :=
  match l with
  | [] => [x]
  | y :: l' => if less x y then x :: l else y :: insert_sorted less x l'
  end.

Definition insertion_sort {A} (less : A → A → bool) (l : list A) : list A :=
  foldl (fun acc x => insert_sorted less x acc) [] l.

Lemma insert_sorted_perm {A} (less : A → A → bool) x l :
  insert_sorted less x l ≡ₚ x :: l.
Proof.
  induction l as [|y l IH]; simpl; [done|].
  case_on; [done|]. rewrite IH. constructor.
Qed.

Lemma insert_sorted_sorted {A} (less : A → A → bool) `{!WeakOrder less} x l :
  StronglySorted (fun x y => less y x = false) l →
  StronglySorted (fun x y => less y x = false) (insert_sorted less x l).
Proof.
  induction 1 as [|y l Hs IH Hy]; simpl; [by repeat constructor|].
  case_on.
  - constructor; [by constructor|]. constructor; [by apply less_asym|].
    eapply Forall_impl; [exact Hy|]. intros z Hz.
    eapply less_negtrans; [exact Hz|]. by apply less_asym.
  - constructor; [done|]. rewrite insert_sorted_perm. by constructor.
Qed.

Lemma insertion_sort_acc {A} (less : A → A → bool) `{!WeakOrder less} l acc :
  StronglySorted (fun x y => less y x = false) acc →
  foldl (fun acc x => insert_sorted less x acc) acc l ≡ₚ l ++ acc ∧
  StronglySorted (fun x y => less y x = false)
    (foldl (fun acc x => insert_sorted less x acc) acc l).
Proof.
  revert acc. induction l as [|x l IH]; intros acc Hacc; simpl; [done|].
  destruct (IH (insert_sorted less x acc)) as [Hp Hs];
    [by apply insert_sorted_sorted|].
  split; [|done]. rewrite Hp, insert_sorted_perm.
  by rewrite <-Permutation_middle.
Qed.

Lemma insertion_sort_perm {A} (less : A → A → bool) l acc :
  foldl (fun acc x => insert_sorted less x acc) acc l ≡ₚ l ++ acc.
Proof.
  revert acc. induction l as [|x l IH]; intros acc; simpl; [done|].
  rewrite IH, insert_sorted_perm. by rewrite <-Permutation_middle.
Qed.

#[global] Instance go_insertion_sort : SortSlice.
Proof.
  refine {| sort_slice := @insertion_sort |}.
  - intros A less l. unfold insertion_sort.
    by rewrite insertion_sort_perm, (right_id_L [] (++)).
  - intros A less l Hw. apply (insertion_sort_acc less l []). constructor.
Defined.

(** ** Strings *)
Lemma string_app_cons c s t : String c s +:+ t = String c (s +:+ t).
Proof. done. Qed.

Lemma string_app_nil s : s +:+ "" = s.
Proof. induction s as [|c s IH]; [done|]. by rewrite string_app_cons, IH. Qed.

Lemma string_app_assoc s t u : s +:+ t +:+ u = (s +:+ t) +:+ u.
Proof. induction s as [|c s IH]; [done|]. by rewrite !string_app_cons, IH. Qed.

(** ** strconv *)

Definition digit_value (c : ascii) : option Z :=
  let n := Z.of_nat (nat_of_ascii c) in
  if ((48 <=? n) && (n <=? 57))%Z then Some (n - 48)%Z else None.

(** The value of a non-empty string of decimal digits. *)
Fixpoint digits_value (acc : Z) (s : string) : option Z :=
  match s with
  | EmptyString => Some acc
  | String c s' => d ← digit_value c; digits_value (10 * acc + d)%Z s'
  end.

Definition parse_digits (s : string) : option Z :=
  match s with EmptyString => None | _ => digits_value 0 s end.

(** A syntax error gives 0; a value out of range is clamped.  Both are
    reported as errors. *)
Definition errSyntax : goerror := ErrText "strconv: invalid syntax".
Definition errRange : goerror := ErrText "strconv: value out of range".

(** [strconv.ParseUint(s, 10, 32)] *)
Definition ParseUint32 (s : string) : Z * option goerror :=
  match parse_digits s with
  | None => (0%Z, Some errSyntax)
  | Some v => if (max_uint32 <? v)%Z then (max_uint32, Some errRange) else (v, None)
  end.

(** [strconv.Atoi(s)] on a 64-bit [int] *)
Definition Atoi (s : string) : Z * option goerror :=
  let '(neg, ds) :=
    match s with
    | String "-" s' => (true, s')
    | String "+" s' => (false, s')
    | _ => (false, s)
    end in
  match parse_digits ds with
  | None => (0%Z, Some errSyntax)
  | Some v =>
    let v := if neg then (- v)%Z else v in
    if (2 ^ 63 - 1 <? v)%Z then ((2 ^ 63 - 1)%Z, Some errRange)
    else if (v <? - 2 ^ 63)%Z then ((- 2 ^ 63)%Z, Some errRange)
    else (v, None)
  end.

(** [strconv.FormatUint(_, 10)] and [strconv.Itoa].  A 64-bit value has at most
    twenty decimal digits, which is the fuel of the loop. *)
Definition digit_char (d : Z) : ascii := ascii_of_nat (Z.to_nat (48 + d)).

Fixpoint udigits (fuel : nat) (n : Z) (acc : string) : string :=
  match fuel with
  | O => acc
  | S fuel' =>
    let acc' := String (digit_char (n mod 10)) acc in
    if (n <? 10)%Z then acc' else udigits fuel' (n / 10) acc'
  end.

Definition FormatUint (n : Z) : string := udigits 20 n "".

Definition Itoa (z : Z) : string :=
  if (z <? 0)%Z then String "-" (FormatUint (- z)) else FormatUint z.

Lemma digit_value_char d : (0 <= d < 10)%Z → digit_value (digit_char d) = Some d.
Proof.
  intros Hd. unfold digit_value, digit_char.
  rewrite nat_ascii_embedding by lia.
  replace (Z.of_nat (Z.to_nat (48 + d))) with (48 + d)%Z by lia.
  destruct (_ && _) eqn:E; [f_equal; lia|lia].
Qed.

Lemma digits_value_udigits fuel : ∀ n acc,
  (0 <= n < 10 ^ Z.of_nat fuel)%Z →
  digits_value 0 (udigits fuel n acc) = digits_value n acc.
Proof.
  induction fuel as [|fuel IH]; intros n acc Hn.
  { simpl in *. by replace n with 0%Z by lia. }
  assert (0 <= n mod 10 < 10)%Z by (apply Z.mod_pos_bound; lia).
  simpl. destruct (Z.ltb_spec n 10).
  - simpl. rewrite digit_value_char by done. simpl. f_equal. rewrite Z.mod_small; lia.
  - rewrite IH.
    + simpl. rewrite digit_value_char by done. simpl. f_equal.
      pose proof (Z.div_mod n 10). lia.
    + rewrite Nat2Z.inj_succ, Z.pow_succ_r in Hn by lia.
      split; [apply Z.div_pos; lia|apply Z.div_lt_upper_bound; lia].
Qed.

Lemma udigits_cons fuel : ∀ n acc, ∃ c s, udigits (S fuel) n acc = String c s ∧
  (0 <= n → ∃ d, 0 <= d < 10 ∧ c = digit_char d)%Z.
Proof.
  induction fuel as [|fuel IH]; intros n acc.
  - exists (digit_char (n mod 10)), acc. split; [simpl; by case_match|].
    intros _. exists (n mod 10)%Z. split; [apply Z.mod_pos_bound; lia|done].
  - change (udigits (S (S fuel)) n acc) with
      (let acc' := String (digit_char (n mod 10)) acc in
       if (n <? 10)%Z then acc' else udigits (S fuel) (n / 10) acc'). simpl.
    destruct (n <? 10)%Z.
    + eexists _, _. split; [done|]. intros _. exists (n mod 10)%Z.
      split; [apply Z.mod_pos_bound; lia|done].
    + destruct (IH (n / 10)%Z (String (digit_char (n mod 10)) acc)) as (c & s & Hs & Hc).
      exists c, s. split; [exact Hs|]. intros Hn. apply Hc, Z.div_pos; lia.
Qed.

Lemma parse_digits_FormatUint n :
  (0 <= n < 10 ^ 20)%Z → parse_digits (FormatUint n) = Some n.
Proof.
  intros Hn. pose proof (digits_value_udigits 20 n "" Hn) as Hd.
  destruct (udigits_cons 19 n "") as (c & s & Hs & _).
  unfold FormatUint, parse_digits. rewrite Hs in *. exact Hd.
Qed.

Lemma digit_char_cases d : (0 <= d < 10)%Z →
  digit_char d ≠ "-"%char ∧ digit_char d ≠ "+"%char.
Proof.
  intros Hd. assert (d = 0 ∨ d = 1 ∨ d = 2 ∨ d = 3 ∨ d = 4 ∨ d = 5 ∨ d = 6 ∨ d = 7 ∨ d = 8 ∨ d = 9)%Z
    as Hc by lia.
  repeat (destruct Hc as [->|Hc]; [by vm_compute|]). subst. by vm_compute.
Qed.

(** [ParseUint(FormatUint(n))] and [Atoi(Itoa(n))] are [n]. *)
Lemma ParseUint32_FormatUint n :
  (0 <= n <= max_uint32)%Z → ParseUint32 (FormatUint n) = (n, None).
Proof.
  intros Hn. unfold ParseUint32, max_uint32 in *.
  rewrite parse_digits_FormatUint by lia. case_match; [lia|done].
Qed.

Lemma Atoi_Itoa z : (- 2 ^ 63 <= z < 2 ^ 63)%Z → Atoi (Itoa z) = (z, None).
Proof.
  intros Hz. unfold Itoa, Atoi. destruct (Z.ltb_spec z 0).
  - cbv iota beta. rewrite parse_digits_FormatUint by lia.
    rewrite Z.opp_involutive. repeat case_match; (done || lia).
  - destruct (udigits_cons 19 z "") as (c & s & Hs & Hc).
    destruct Hc as (d & Hd & ->); [lia|]. destruct (digit_char_cases d Hd) as [Hm Hp].
    pose proof (parse_digits_FormatUint z ltac:(lia)) as Hparse.
    unfold FormatUint in *. rewrite Hs in *.
    assert (∀ T (x y w : T), match digit_char d with
      | "-"%char => x | "+"%char => y | _ => w end = w) as Hmatch.
    { intros. destruct (digit_char d) as [[] [] [] [] [] [] [] []]; done. }
    rewrite Hmatch, Hparse. repeat case_match; (done || lia).
Qed.

(** The first character of [Itoa] is a digit or the minus sign. *)
Lemma Itoa_head z : ∃ c s, Itoa z = String c s ∧ (c = "-"%char ∨ ∃ d, (0 <= d < 10)%Z ∧ c = digit_char d).
Proof.
  unfold Itoa. destruct (Z.ltb_spec z 0); [eexists _, _; split; [done|by left]|].
  destruct (udigits_cons 19 z "") as (c & s & Hs & Hc). exists c, s. split; [exact Hs|].
  right. by apply Hc.
Qed.
