(* ===== verification/GoStrings.v ===== *)
(** * Functions of Go's [strings] package

    [Split], [TrimPrefix], [HasSuffix] and searching for a character, on strings
    as lists of characters, with the facts about strings that hold no
    separator. *)

From stdpp Require Import base list strings gmap.
From Stdlib Require Import ZArith Lia Ascii.
From S2P Require Import Prelude GoLib.

(** [strings.Split(s, sep)] for a separator of one character *)
Fixpoint Split (sep : ascii) (s : string) : list string :=
  match s with
  | EmptyString => [""]
  | String c s' =>
    if Ascii.eqb c sep then "" :: Split sep s'
    else match Split sep s' with
         | [] => [String c ""]
         | p :: ps => String c p :: ps
         end
  end.

(** What is before and after the first, and the last, occurrence of a character
    ([strings.IndexByte] and slices around it) *)
Fixpoint cut (sep : ascii) (s : string) : option (string * string) :=
  match s with
  | EmptyString => None
  | String c s' =>
    if Ascii.eqb c sep then Some ("", s')
    else match cut sep s' with
         | Some (k, v) => Some (String c k, v)
         | None => None
         end
  end.

Fixpoint rcut (sep : ascii) (s : string) : option (string * string) :=
  match s with
  | EmptyString => None
  | String c s' =>
    match rcut sep s' with
    | Some (k, v) => Some (String c k, v)
    | None => if Ascii.eqb c sep then Some ("", s') else None
    end
  end.

(** [strings.CutPrefix] *)
Fixpoint CutPrefix (p s : string) : option string :=
  match p, s with
  | EmptyString, _ => Some s
  | String a p', String b s' => if Ascii.eqb a b then CutPrefix p' s' else None
  | _, EmptyString => None
  end.

(** [strings.TrimPrefix(s, p)] *)
Fixpoint TrimPrefix (s p : string) : string :=
  match p, s with
  | EmptyString, _ => s
  | String a p', String b s' =>
    if String.prefix p s then TrimPrefix s' p' else s
  | _, EmptyString => s
  end.

(** [strings.HasSuffix(s, t)]: some tail of [s] is [t] *)
Fixpoint HasSuffix (s t : string) : bool :=
  String.eqb s t || match s with EmptyString => false | String _ s' => HasSuffix s' t end.

(** ** Strings without a character *)
Fixpoint no_char (c : ascii) (s : string) : bool :=
  match s with
  | EmptyString => true
  | String x s' => negb (Ascii.eqb x c) && no_char c s'
  end.

Lemma no_char_app c s t : no_char c (s +:+ t) = no_char c s && no_char c t.
Proof.
  induction s as [|x s IH]; [done|]. rewrite string_app_cons. simpl. rewrite IH. apply andb_assoc.
Qed.

Lemma Split_none c s : no_char c s = true → Split c s = [s].
Proof.
  induction s as [|x s IH]; simpl; [done|]. intros [Hx Hs]%andb_true_iff.
  apply negb_true_iff in Hx. by rewrite Hx, IH.
Qed.
Lemma Split_app c s t : no_char c s = true → Split c (s +:+ String c t) = s :: Split c t.
Proof.
  induction s as [|x s IH]; simpl.
  - intros _. change ("" +:+ String c t) with (String c t). simpl. by rewrite Ascii.eqb_refl.
  - intros [Hx Hs]%andb_true_iff. apply negb_true_iff in Hx. rewrite ?string_app_cons. simpl.
    by rewrite Hx, IH.
Qed.

Lemma Split_nonempty c s : Split c s ≠ [].
Proof. destruct s as [|x s]; simpl; [done|]. case_match; [done|]. by destruct (Split c s). Qed.

(** A separator splits, whatever comes before. *)
Lemma Split_sep c s t : Split c (s +:+ String c t) = Split c s ++ Split c t.
Proof.
  induction s as [|x s IH]; simpl.
  - change ("" +:+ String c t) with (String c t). simpl. by rewrite Ascii.eqb_refl.
  - rewrite ?string_app_cons. simpl. rewrite IH. case_match; [done|].
    destruct (Split c s) eqn:E; [by apply Split_nonempty in E|done].
Qed.

Lemma Split_length_pos c s : (0 < length (Split c s))%nat.
Proof. destruct (Split c s) eqn:E; [by apply Split_nonempty in E|simpl; lia]. Qed.

Lemma Split_char c s : no_char c s = false → (2 ≤ length (Split c s))%nat.
Proof.
  induction s as [|x s IH]; simpl; [done|].
  destruct (Ascii.eqb x c); simpl.
  - intros _. pose proof (Split_length_pos c s). lia.
  - intros Hs%IH. destruct (Split c s); simpl in *; lia.
Qed.

Lemma last_Split c s t : no_char c t = true → last (Split c (s +:+ String c t)) = Some t.
Proof. intros Ht. rewrite Split_sep, (Split_none c t Ht). apply last_snoc. Qed.

Lemma TrimPrefix_app p s : TrimPrefix (p +:+ s) p = s.
Proof.
  induction p as [|c p IH]; [by destruct s|]. rewrite string_app_cons. simpl.
  assert (String.prefix p (p +:+ s) = true) as ->.
  { clear IH. induction p as [|x p IH]; [by destruct s|]. rewrite string_app_cons. simpl.
    by destruct (ascii_dec x x). }
  by destruct (ascii_dec c c).
Qed.

Lemma HasSuffix_app s t : HasSuffix (s +:+ t) t = true.
Proof.
  induction s as [|c s IH].
  - change ("" +:+ t) with t. destruct t; simpl; [done|]. by rewrite Ascii.eqb_refl, String.eqb_refl.
  - rewrite string_app_cons. simpl. by rewrite IH, orb_true_r.
Qed.

Lemma HasSuffix_inv s t : HasSuffix s t = true → ∃ p, s = p +:+ t.
Proof.
  induction s as [|c s IH]; cbn [HasSuffix]; intros [E|E]%orb_true_iff; try done.
  - apply String.eqb_eq in E. subst. by exists "".
  - apply String.eqb_eq in E. subst. by exists "".
  - destruct (IH E) as [p ->]. by exists (String c p).
Qed.

(** What follows the last separator tells whether a string ends in it. *)
Lemma HasSuffix_last c s t u : no_char c t = true → no_char c u = true →
  HasSuffix (s +:+ String c t) (String c u) = String.eqb t u.
Proof.
  intros Ht Hu. destruct (String.eqb_spec t u) as [->|Hne]; [apply HasSuffix_app|].
  destruct (HasSuffix _ _) eqn:E; [|done]. apply HasSuffix_inv in E as [p Hp].
  exfalso. apply Hne. apply (f_equal (fun x => last (Split c x))) in Hp.
  rewrite !last_Split in Hp by done. congruence.
Qed.

Lemma cut_app c k v : no_char c k = true → cut c (k +:+ String c v) = Some (k, v).
Proof.
  induction k as [|x k IH]; simpl.
  - intros _. change ("" +:+ String c v) with (String c v). simpl. by rewrite Ascii.eqb_refl.
  - intros [Hx Hs]%andb_true_iff. apply negb_true_iff in Hx. rewrite ?string_app_cons. simpl.
    by rewrite Hx, IH.
Qed.

Lemma rcut_none c s : no_char c s = true → rcut c s = None.
Proof.
  induction s as [|x s IH]; simpl; [done|]. intros [Hx Hs]%andb_true_iff.
  apply negb_true_iff in Hx. by rewrite IH, Hx.
Qed.

Lemma rcut_app c k v : no_char c v = true → rcut c (k +:+ String c v) = Some (k, v).
Proof.
  intros Hv. induction k as [|x k IH]; simpl.
  - change ("" +:+ String c v) with (String c v). simpl. by rewrite rcut_none, Ascii.eqb_refl.
  - rewrite ?string_app_cons. simpl. by rewrite IH.
Qed.

Lemma CutPrefix_app p s : CutPrefix p (p +:+ s) = Some s.
Proof.
  induction p as [|x p IH]; [by destruct s|]. rewrite string_app_cons. simpl.
  by rewrite Ascii.eqb_refl.
Qed.

Lemma CutPrefix_no_char c s : no_char c s = true → CutPrefix (String c "") s = None.
Proof.
  destruct s as [|x s]; [done|]. cbn [no_char CutPrefix]. intros [Hx _]%andb_true_iff.
  rewrite Ascii.eqb_sym. by destruct (Ascii.eqb x c).
Qed.

Lemma CutPrefix_inv p s t : CutPrefix p s = Some t → s = p +:+ t.
Proof.
  revert s. induction p as [|x p IH]; intros [|y s]; cbn [CutPrefix]; try done.
  - by intros [= <-].
  - by intros [= <-].
  - destruct (Ascii.eqb_spec x y) as [<-|]; [|done]. intros Ht%IH. subst. by rewrite string_app_cons.
Qed.
