(* ===== verification/Base64.v ===== *)
(** * Bytes and Base64 (Go's [bytes.Split], [encoding/base64])

    Strings as lists of byte values, the split at a separator byte, and the
    standard Base64 encoding with padding; its decoder ignores line breaks and
    does not look at the unused bits of the last digit, as Go's does.
    [RawURLEncoding] differs in two digits and has no padding. *)

From stdpp Require Import base list strings sets.
From Stdlib Require Import ZArith Lia Ascii.
From S2P Require Import Prelude.
Local Open Scope Z_scope.

(** ** Bytes *)
Definition byte_ok (b : Z) : Prop := 0 <= b < 256.

Definition bytes_of_string (s : string) : list Z :=
  map (fun c => Z.of_N (N_of_ascii c)) (String.list_ascii_of_string s).
Definition string_of_bytes (l : list Z) : string :=
  String.string_of_list_ascii (map (fun b => ascii_of_N (Z.to_N b)) l).

Lemma string_bytes_roundtrip s : string_of_bytes (bytes_of_string s) = s.
Proof.
  unfold string_of_bytes, bytes_of_string. rewrite map_map.
  induction s as [|c s IH]; [done|]. simpl.
  rewrite N2Z.id, ascii_N_embedding. f_equal. exact IH.
Qed.

Lemma bytes_of_string_ok s : Forall byte_ok (bytes_of_string s).
Proof.
  unfold bytes_of_string. induction s as [|c s IH]; simpl; constructor; [|done].
  unfold byte_ok. pose proof (N_ascii_bounded c). lia.
Qed.

(** [bytes.Split(b, []byte{sep})] *)
Fixpoint split (sep : Z) (l : list Z) : list (list Z) :=
  match l with
  | [] => [[]]
  | b :: l' =>
    if b =? sep then [] :: split sep l'
    else match split sep l' with
         | [] => [[b]]
         | p :: ps => (b :: p) :: ps
         end
  end.

Lemma split_none sep l : sep ∉ l → split sep l = [l].
Proof.
  induction l as [|b l IH]; intros Hn; simpl; [done|].
  destruct (Z.eqb_spec b sep) as [->|Hne]; [set_solver|]. by rewrite IH by set_solver.
Qed.

Lemma split_two sep l1 l2 : sep ∉ l1 → sep ∉ l2 → split sep (l1 ++ sep :: l2) = [l1; l2].
Proof.
  intros H1 H2. induction l1 as [|b l1 IH]; simpl.
  { by rewrite Z.eqb_refl, split_none. }
  destruct (Z.eqb_spec b sep) as [->|Hne]; [set_solver|]. by rewrite IH by set_solver.
Qed.

Lemma split_app sep l1 l2 : sep ∉ l1 → split sep (l1 ++ sep :: l2) = l1 :: split sep l2.
Proof.
  intros Hn. induction l1 as [|b l1 IH]; simpl.
  { by rewrite Z.eqb_refl. }
  destruct (Z.eqb_spec b sep) as [->|Hne]; [set_solver|]. by rewrite IH by set_solver.
Qed.

(** ** Base64 *)
Definition alphabet : list ascii := Eval vm_compute in
  String.list_ascii_of_string "ABCDEFGHIJKLMNOPQRSTUVWXYZabcdefghijklmnopqrstuvwxyz0123456789+/".

Definition digit (d : Z) : ascii := nth (Z.to_nat d) alphabet "A"%char.

Fixpoint index_of (c : ascii) (l : list ascii) (i : Z) : option Z :=
  match l with
  | [] => None
  | x :: l' => if Ascii.eqb x c then Some i else index_of c l' (i + 1)
  end.
Definition value (c : ascii) : option Z := index_of c alphabet 0.

Definition pad : ascii := "="%char.

(** [StdEncoding.EncodeToString] *)
Fixpoint encode (l : list Z) : list ascii :=
  match l with
  | b0 :: b1 :: b2 :: l' =>
    let v := b0 * 65536 + b1 * 256 + b2 in
    digit (v / 262144 mod 64) :: digit (v / 4096 mod 64) ::
    digit (v / 64 mod 64) :: digit (v mod 64) :: encode l'
  | [b0; b1] =>
    let v := b0 * 65536 + b1 * 256 in
    [digit (v / 262144 mod 64); digit (v / 4096 mod 64); digit (v / 64 mod 64); pad]
  | [b0] =>
    let v := b0 * 65536 in
    [digit (v / 262144 mod 64); digit (v / 4096 mod 64); pad; pad]
  | [] => []
  end.
Definition EncodeToString (l : list Z) : string := String.string_of_list_ascii (encode l).

(** One quantum of four characters; the padded forms end the input. *)
Definition byte_at (v k : Z) : Z := v / k mod 256.
Fixpoint decode_quanta (l : list ascii) : option (list Z) :=
  match l with
  | [] => Some []
  | c0 :: c1 :: c2 :: c3 :: l' =>
    match value c0, value c1 with
    | Some d0, Some d1 =>
      match value c2, value c3 with
      | Some d2, Some d3 =>
        let v := d0 * 262144 + d1 * 4096 + d2 * 64 + d3 in
        rest ← decode_quanta l';
        Some (byte_at v 65536 :: byte_at v 256 :: byte_at v 1 :: rest)
      | Some d2, None =>
        if Ascii.eqb c3 pad && bool_decide (l' = []) then
          let v := d0 * 262144 + d1 * 4096 + d2 * 64 in
          Some [byte_at v 65536; byte_at v 256]
        else None
      | None, _ =>
        if Ascii.eqb c2 pad && Ascii.eqb c3 pad && bool_decide (l' = []) then
          Some [byte_at (d0 * 262144 + d1 * 4096) 65536]
        else None
      end
    | _, _ => None
    end
  | _ => None
  end.

Definition is_newline (c : ascii) : bool := Ascii.eqb c "010" || Ascii.eqb c "013".

(** [StdEncoding.DecodeString] *)
Definition DecodeString (s : string) : option (list Z) :=
  decode_quanta (List.filter (fun c => negb (is_newline c)) (String.list_ascii_of_string s)).

(** ** Round trip *)
Lemma digit_table d : 0 <= d < 64 → value (digit d) = Some d ∧ is_newline (digit d) = false.
Proof.
  intros Hd. assert (In d (map Z.of_nat (seq 0 64))) as Hin.
  { apply in_map_iff. exists (Z.to_nat d). split; [lia|]. apply in_seq. lia. }
  assert (forallb (fun d => bool_decide (value (digit d) = Some d) && negb (is_newline (digit d)))
    (map Z.of_nat (seq 0 64)) = true) as Hall by (vm_compute; reflexivity).
  pose proof (proj1 (forallb_forall _ _) Hall d Hin) as Hb. simpl in Hb.
  apply andb_true_iff in Hb as [Hv Hn]. apply bool_decide_eq_true in Hv.
  apply negb_true_iff in Hn. done.
Qed.

Lemma value_digit x : value (digit (x mod 64)) = Some (x mod 64).
Proof. apply digit_table, Z.mod_pos_bound. lia. Qed.

Lemma digits_of_value v : 0 <= v < 16777216 →
  v / 262144 mod 64 * 262144 + v / 4096 mod 64 * 4096 + v / 64 mod 64 * 64 + v mod 64 = v.
Proof. intros Hv. Z.to_euclidean_division_equations. lia. Qed.

(** Induction over triples of bytes. *)
Lemma triple_ind (P : list Z → Prop) :
  P [] → (∀ a, P [a]) → (∀ a b, P [a; b]) → (∀ a b c l, P l → P (a :: b :: c :: l)) → ∀ l, P l.
Proof.
  intros H0 H1 H2 H3. fix IH 1. intros [|a [|b [|c l]]]; [done|apply H1|apply H2|apply H3, IH].
Qed.

Lemma decode_encode l : Forall byte_ok l → decode_quanta (encode l) = Some l.
Proof.
  induction l as [|a|a b|a b c l IH] using triple_ind; intros Hl;
    rewrite ?Forall_cons in Hl; unfold byte_ok in Hl; cbn [encode decode_quanta]; [done|..];
    rewrite ?value_digit.
  - simpl. f_equal. f_equal. unfold byte_at. Z.to_euclidean_division_equations. lia.
  - simpl. f_equal. f_equal; [|f_equal]; unfold byte_at; Z.to_euclidean_division_equations; lia.
  - rewrite digits_of_value by lia. rewrite IH by apply Hl. simpl. f_equal.
    f_equal; [|f_equal; [|f_equal]]; unfold byte_at; Z.to_euclidean_division_equations; lia.
Qed.

Lemma encode_no_newline l : Forall byte_ok l →
  List.filter (fun c => negb (is_newline c)) (encode l) = encode l.
Proof.
  assert (∀ x, is_newline (digit (x mod 64)) = false) as Hd
    by (intros; apply digit_table, Z.mod_pos_bound; lia).
  induction l as [|a|a b|a b c l IH] using triple_ind; intros Hl; cbn [encode List.filter];
    rewrite ?Hd; cbn [negb]; [done|done|done|].
  rewrite !Forall_cons in Hl. by rewrite IH by apply Hl.
Qed.

Lemma base64_roundtrip l : Forall byte_ok l → DecodeString (EncodeToString l) = Some l.
Proof.
  intros Hl. unfold DecodeString, EncodeToString.
  by rewrite String.list_ascii_of_string_of_list_ascii, encode_no_newline, decode_encode.
Qed.

(** ** [RawURLEncoding] *)
Definition to_url (c : ascii) : ascii :=
  if Ascii.eqb c "+" then "-"%char else if Ascii.eqb c "/" then "_"%char else c.
(** The digit of the standard alphabet; the characters that only the standard
    encoding uses are no digits here. *)
Definition of_url (c : ascii) : ascii :=
  if Ascii.eqb c "-" then "+"%char else if Ascii.eqb c "_" then "/"%char
  else if Ascii.eqb c "+" || Ascii.eqb c "/" || Ascii.eqb c pad then "*"%char else c.

(** [RawURLEncoding.EncodeToString] *)
Definition RawURLEncode (l : list Z) : string :=
  String.string_of_list_ascii (map to_url (List.filter (fun c => negb (Ascii.eqb c pad)) (encode l))).

(** [RawURLEncoding.DecodeString]: the padding that is left out is that of the
    standard encoding. *)
Definition RawURLDecode (s : string) : option (list Z) :=
  let l := map of_url (List.filter (fun c => negb (is_newline c)) (String.list_ascii_of_string s)) in
  decode_quanta (l ++ match length l mod 4 with 2 => [pad; pad] | 3 => [pad] | _ => [] end)%nat.

Lemma url_digit x : let d := digit (x mod 64) in
  Ascii.eqb d pad = false ∧ of_url (to_url d) = d ∧ is_newline (to_url d) = false.
Proof.
  cbv zeta. pose proof (Z.mod_pos_bound x 64 ltac:(lia)) as Hd. set (d := x mod 64) in *. clearbody d.
  assert (In d (map Z.of_nat (seq 0 64))) as Hin.
  { apply in_map_iff. exists (Z.to_nat d). split; [lia|]. apply in_seq. lia. }
  assert (forallb (fun d => negb (Ascii.eqb (digit d) pad) && Ascii.eqb (of_url (to_url (digit d))) (digit d) &&
    negb (is_newline (to_url (digit d)))) (map Z.of_nat (seq 0 64)) = true) as Hall by (vm_compute; reflexivity).
  pose proof (proj1 (forallb_forall _ _) Hall d Hin) as Hb. cbv beta in Hb.
  apply andb_true_iff in Hb as [Hb Hn]. apply andb_true_iff in Hb as [Hp Hu].
  apply negb_true_iff in Hp, Hn. apply Ascii.eqb_eq in Hu. done.
Qed.

(** What the decoder works on is the standard encoding again. *)
Lemma raw_repad l :
  let u := map of_url (List.filter (fun c => negb (is_newline c))
             (map to_url (List.filter (fun c => negb (Ascii.eqb c pad)) (encode l)))) in
  u ++ match length u mod 4 with 2 => [pad; pad] | 3 => [pad] | _ => [] end%nat = encode l.
Proof.
  cbv zeta. induction l as [|a|a b|a b c l IH] using triple_ind; [done|..];
    cbn [encode List.filter];
    rewrite ?(proj1 (url_digit _)); cbn [negb map List.filter];
    rewrite ?(proj2 (proj2 (url_digit _))); cbn [negb map];
    rewrite ?(proj1 (proj2 (url_digit _))).
  - reflexivity.
  - reflexivity.
  - cbn [length app]. do 4 f_equal. etransitivity; [|exact IH]. f_equal.
    rewrite <-(Nat.Div0.mod_add (length _) 1 4).
    replace (length _ + 1 * 4)%nat with (S (S (S (S (length (map of_url (List.filter (fun c => negb (is_newline c))
      (map to_url (List.filter (fun c => negb (Ascii.eqb c pad)) (encode l)))))))))) by lia. done.
Qed.

Lemma raw_url_roundtrip l : Forall byte_ok l → RawURLDecode (RawURLEncode l) = Some l.
Proof.
  intros Hl. unfold RawURLDecode, RawURLEncode.
  rewrite String.list_ascii_of_string_of_list_ascii. cbv zeta. rewrite raw_repad. by apply decode_encode.
Qed.
