(* ===== verification/Crypto.v ===== *)
(** * Hash functions and message authentication codes

    What the code uses of Go's [crypto/sha1], [crypto/sha256], [crypto/sha512],
    [crypto/hmac] and [encoding/hex]: executable definitions on byte strings,
    checked on the published test vectors. *)

From stdpp Require Import base list strings.
From Stdlib Require Import ZArith Lia Ascii.
From S2P Require Import Prelude Base64.
Local Open Scope Z_scope.

(** A [hash.Hash]: its digest function, its size and its block size. *)
Record Hash := MkHash {
  hash_sum : list Z → list Z;
  hash_size : nat;
  hash_block : nat;
}.

(** ** Words *)
Section words.
Context (w : Z).

Definition wrap (x : Z) : Z := x mod 2 ^ w.
Definition rotr (n x : Z) : Z := Z.lor (Z.shiftr x n) (wrap (Z.shiftl x (w - n))).
Definition rotl (n x : Z) : Z := rotr (w - n) x.
Definition wnot (x : Z) : Z := 2 ^ w - 1 - x.

End words.

(** Big-endian value of bytes, and the [n] bytes of a value. *)
Definition be_value (l : list Z) : Z := foldl (fun acc b => acc * 256 + b) 0 l.
Fixpoint be_bytes (n : nat) (x : Z) : list Z :=
  match n with
  | O => []
  | S n' => be_bytes n' (x / 256) ++ [x mod 256]
  end.

(** Cuts a list into pieces of [n] elements; [fuel] bounds their number. *)
Fixpoint chunks {A} (fuel n : nat) (l : list A) : list (list A) :=
  match fuel, l with
  | S fuel', _ :: _ => take n l :: chunks fuel' n (drop n l)
  | _, _ => []
  end.

(** Padding of the SHA family: the bit 1, zeros, and the length in bits. *)
Definition sha_pad (block lenBytes : nat) (msg : list Z) : list Z :=
  let l := Z.of_nat (length msg) in
  let z := (- (l + 1 + Z.of_nat lenBytes)) mod Z.of_nat block in
  msg ++ 128 :: replicate (Z.to_nat z) 0 ++ be_bytes lenBytes (8 * l).

Definition words_of (wordBytes : nat) (block : list Z) : list Z :=
  map be_value (chunks 16 wordBytes block).

Definition sha_blocks (block lenBytes : nat) (msg : list Z) : list (list Z) :=
  let p := sha_pad block lenBytes msg in chunks (length p) block p.

(** ** SHA-2 *)
Record sha2_params := MkSha2 {
  p_w : Z;                    (** word width in bits *)
  p_block : nat;              (** block size in bytes *)
  p_Sigma0 : Z * Z * Z;  p_Sigma1 : Z * Z * Z;
  p_sigma0 : Z * Z * Z;  p_sigma1 : Z * Z * Z;   (** two rotations and a shift *)
  p_K : list Z;
  p_H0 : list Z;
}.

Section sha2.
Context (p : sha2_params).

Definition big_sigma (r : Z * Z * Z) (x : Z) : Z :=
  let '(a, b, c) := r in
  Z.lxor (rotr (p_w p) a x) (Z.lxor (rotr (p_w p) b x) (rotr (p_w p) c x)).
Definition small_sigma (r : Z * Z * Z) (x : Z) : Z :=
  let '(a, b, c) := r in
  Z.lxor (rotr (p_w p) a x) (Z.lxor (rotr (p_w p) b x) (Z.shiftr x c)).

(** The message schedule: [win] holds the last sixteen words, the oldest
    first. *)
Fixpoint schedule (n : nat) (win : list Z) : list Z :=
  match n, win with
  | S n', w0 :: win' =>
    let w1 := nth 0 win' 0 in
    let w9 := nth 8 win' 0 in
    let w14 := nth 13 win' 0 in
    w0 :: schedule n' (win' ++
      [wrap (p_w p) (small_sigma (p_sigma1 p) w14 + w9 + small_sigma (p_sigma0 p) w1 + w0)])
  | _, _ => []
  end.

Definition round (st : list Z) (kw : Z * Z) : list Z :=
  match st with
  | [a; b; c; d; e; f; g; h] =>
    let ch := Z.lxor (Z.land e f) (Z.land (wnot (p_w p) e) g) in
    let t1 := h + big_sigma (p_Sigma1 p) e + ch + kw.1 + kw.2 in
    let maj := Z.lxor (Z.land a b) (Z.lxor (Z.land a c) (Z.land b c)) in
    let t2 := big_sigma (p_Sigma0 p) a + maj in
    [wrap (p_w p) (t1 + t2); a; b; c; wrap (p_w p) (d + t1); e; f; g]
  | _ => st
  end.

Definition compress_block (st : list Z) (block : list Z) : list Z :=
  let ws := schedule (length (p_K p)) (words_of (Z.to_nat (p_w p / 8)) block) in
  zip_with (fun x y => wrap (p_w p) (x + y)) st (foldl round st (zip (p_K p) ws)).

Definition sha2 (msg : list Z) : list Z :=
  flat_map (be_bytes (Z.to_nat (p_w p / 8)))
    (foldl compress_block (p_H0 p)
       (sha_blocks (p_block p) (Z.to_nat (p_w p / 4)) msg)).

End sha2.

(** The round constants and initial values are defined by the standard as the
    first bits of the fractional parts of the cube and square roots of the first
    primes. *)
Definition is_prime (n : Z) : bool :=
  forallb (fun d => negb (n mod d =? 0)) (map Z.of_nat (seq 2 (Z.to_nat (Z.sqrt n) - 1))).
Definition first_primes (n : nat) : list Z :=
  take n (List.filter is_prime (map Z.of_nat (seq 2 408))).

(** The integer cube root of [x], below [acc + 2 ^ n], bit by bit. *)
Fixpoint cbrt_bits (n : nat) (x acc : Z) : Z :=
  match n with
  | O => acc
  | S n' =>
    let acc' := acc + 2 ^ Z.of_nat n' in
    cbrt_bits n' x (if acc' ^ 3 <=? x then acc' else acc)
  end.
Definition cbrt_fraction (w p : Z) : Z := wrap w (cbrt_bits (Z.to_nat w + 3) (p * 2 ^ (3 * w)) 0).
Definition sqrt_fraction (w p : Z) : Z := wrap w (Z.sqrt (p * 2 ^ (2 * w))).

Definition sha256_params : sha2_params := Eval vm_compute in {|
  p_w := 32; p_block := 64;
  p_Sigma0 := (2, 13, 22); p_Sigma1 := (6, 11, 25);
  p_sigma0 := (7, 18, 3); p_sigma1 := (17, 19, 10);
  p_K := map (cbrt_fraction 32) (first_primes 64);
  p_H0 := map (sqrt_fraction 32) (first_primes 8) |}.

Definition sha512_params : sha2_params := Eval vm_compute in {|
  p_w := 64; p_block := 128;
  p_Sigma0 := (28, 34, 39); p_Sigma1 := (14, 18, 41);
  p_sigma0 := (1, 8, 7); p_sigma1 := (19, 61, 6);
  p_K := map (cbrt_fraction 64) (first_primes 80);
  p_H0 := map (sqrt_fraction 64) (first_primes 8) |}.

(** SHA-224 and SHA-384 start from the next eight primes and cut the digest. *)
Definition sha224_params : sha2_params := Eval vm_compute in
  let p := sha256_params in
  MkSha2 (p_w p) (p_block p) (p_Sigma0 p) (p_Sigma1 p) (p_sigma0 p) (p_sigma1 p) (p_K p)
    (map (fun q => wrap 32 (sqrt_fraction 64 q)) (drop 8 (first_primes 16))).
Definition sha384_params : sha2_params := Eval vm_compute in
  let p := sha512_params in
  MkSha2 (p_w p) (p_block p) (p_Sigma0 p) (p_Sigma1 p) (p_sigma0 p) (p_sigma1 p) (p_K p)
    (map (sqrt_fraction 64) (drop 8 (first_primes 16))).

Definition sha256 : Hash := MkHash (sha2 sha256_params) 32 64.
Definition sha512 : Hash := MkHash (sha2 sha512_params) 64 128.
Definition sha224 : Hash := MkHash (fun m => take 28 (sha2 sha224_params m)) 28 64.
Definition sha384 : Hash := MkHash (fun m => take 48 (sha2 sha384_params m)) 48 128.

(** ** SHA-1 *)
Fixpoint schedule1 (n : nat) (win : list Z) : list Z :=
  match n, win with
  | S n', w0 :: win' =>
    w0 :: schedule1 n' (win' ++
      [rotl 32 1 (Z.lxor (nth 12 win' 0) (Z.lxor (nth 7 win' 0) (Z.lxor (nth 1 win' 0) w0)))])
  | _, _ => []
  end.

Definition f1 (t : nat) (b c d : Z) : Z * Z :=
  if (t <? 20)%nat then (Z.lxor (Z.land b c) (Z.land (wnot 32 b) d), 0x5a827999)
  else if (t <? 40)%nat then (Z.lxor b (Z.lxor c d), 0x6ed9eba1)
  else if (t <? 60)%nat then
    (Z.lxor (Z.land b c) (Z.lxor (Z.land b d) (Z.land c d)), 0x8f1bbcdc)
  else (Z.lxor b (Z.lxor c d), 0xca62c1d6).

Definition round1 (st : list Z) (tw : nat * Z) : list Z :=
  match st with
  | [a; b; c; d; e] =>
    let '(f, k) := f1 tw.1 b c d in
    [wrap 32 (rotl 32 5 a + f + e + k + tw.2); a; rotl 32 30 b; c; d]
  | _ => st
  end.

Definition compress_block1 (st : list Z) (block : list Z) : list Z :=
  zip_with (fun x y => wrap 32 (x + y)) st
    (foldl round1 st (zip (seq 0 80) (schedule1 80 (words_of 4 block)))).

Definition sha1_sum (msg : list Z) : list Z :=
  flat_map (be_bytes 4)
    (foldl compress_block1 [0x67452301; 0xefcdab89; 0x98badcfe; 0x10325476; 0xc3d2e1f0]
       (sha_blocks 64 8 msg)).

Definition sha1 : Hash := MkHash sha1_sum 20 64.

(** ** HMAC ([crypto/hmac]) *)
Definition xor_bytes (a b : list Z) : list Z := zip_with Z.lxor a b.

Definition hmac_key (h : Hash) (key : list Z) : list Z :=
  let k := if (hash_block h <? length key)%nat then hash_sum h key else key in
  k ++ replicate (hash_block h - length k) 0.

Definition hmac (h : Hash) (key msg : list Z) : list Z :=
  let k := hmac_key h key in
  hash_sum h (map (Z.lxor 0x5c) k ++ hash_sum h (map (Z.lxor 0x36) k ++ msg)).

(** ** Hexadecimal ([encoding/hex]) *)
Definition hex_digit (d : Z) : Z := if d <? 10 then 48 + d else 87 + d.
Definition hex_encode (l : list Z) : list Z :=
  flat_map (fun b => [hex_digit (b / 16); hex_digit (b mod 16)]) l.

(** Digests of strings as hexadecimal strings. *)
Definition hex_of (h : Hash) (s : string) : string :=
  string_of_bytes (hex_encode (hash_sum h (bytes_of_string s))).

(** ** Test vectors (FIPS 180, RFC 4231) *)
Example sha1_abc : hex_of sha1 "abc" = "a9993e364706816aba3e25717850c26c9cd0d89d".
Proof. vm_compute. reflexivity. Qed.

Example sha256_abc : hex_of sha256 "abc" =
  "ba7816bf8f01cfea414140de5dae2223b00361a396177a9cb410ff61f20015ad".
Proof. vm_compute. reflexivity. Qed.

Example sha256_two_blocks :
  hex_of sha256 "abcdbcdecdefdefgefghfghighijhijkijkljklmklmnlmnomnopnopq" =
  "248d6a61d20638b8e5c026930c3e6039a33ce45964ff2167f6ecedd419db06c1".
Proof. vm_compute. reflexivity. Qed.

Example sha512_abc : hex_of sha512 "abc" =
  "ddaf35a193617abacc417349ae20413112e6fa4e89a97ea20a9eeee64b55d39a2192992a274fc1a836ba3c23a3feebbd454d4423643ce80e2a9ac94fa54ca49f".
Proof. vm_compute. reflexivity. Qed.

Example sha224_abc : hex_of sha224 "abc" = "23097d223405d8228642a477bda255b32aadbce4bda0b3f7e36c9da7".
Proof. vm_compute. reflexivity. Qed.

Example sha384_abc : hex_of sha384 "abc" =
  "cb00753f45a35e8bb5a03d699ac65007272c32ab0eded1631a8b605a43ff5bed8086072ba1e7cc2358baeca134c825a7".
Proof. vm_compute. reflexivity. Qed.

Example hmac_rfc4231 :
  string_of_bytes (hex_encode (hmac sha256 (bytes_of_string "Jefe")
    (bytes_of_string "what do ya want for nothing?"))) =
  "5bdcc146bf60754e6a042426089575c75a003f089d2739839dec58b964ec3843".
Proof. vm_compute. reflexivity. Qed.

(** ** Lengths and ranges *)
Lemma be_bytes_length n : ∀ x, length (be_bytes n x) = n.
Proof. induction n as [|n IH]; intros x; simpl; [done|]. rewrite length_app, IH. simpl. lia. Qed.

Lemma be_bytes_ok n : ∀ x, Forall byte_ok (be_bytes n x).
Proof.
  induction n as [|n IH]; intros x; simpl; [constructor|].
  apply Forall_app. split; [apply IH|]. repeat constructor; apply Z.mod_pos_bound; lia.
Qed.

(** Exclusive or with the same bytes twice gives the bytes back: how a SCRAM
    server recovers the client key from the proof. *)
Lemma xor_bytes_twice a : ∀ b, length a = length b → xor_bytes (xor_bytes a b) b = a.
Proof.
  induction a as [|x a IH]; intros [|y b] Hl; try done. simpl in *. unfold xor_bytes in *. simpl.
  rewrite IH by lia. f_equal. by rewrite Z.lxor_assoc, Z.lxor_nilpotent, Z.lxor_0_r.
Qed.

(** Digests have the size the hash function says. *)
Definition good_hash (h : Hash) : Prop := ∀ m, length (hash_sum h m) = hash_size h.

Lemma flat_map_be_bytes n l : length (flat_map (be_bytes n) l) = (length l * n)%nat.
Proof. induction l as [|x l IH]; simpl; [done|]. rewrite length_app, be_bytes_length, IH. lia. Qed.

Lemma foldl_length {A B} (f : list A → B → list A) (n : nat) :
  (∀ st b, length st = n → length (f st b) = n) →
  ∀ bs st, length st = n → length (foldl f st bs) = n.
Proof. intros Hf. induction bs as [|b bs IH]; intros st Hst; simpl; [done|]. apply IH, Hf, Hst. Qed.

Lemma round_length p st kw : length (round p st kw) = length st.
Proof. do 9 (destruct st as [|? st]; [reflexivity|]). reflexivity. Qed.
Lemma round1_length st tw : length (round1 st tw) = length st.
Proof.
  do 5 (destruct st as [|? st]; [reflexivity|]). destruct st as [|? st]; [|reflexivity].
  unfold round1. by destruct (f1 _ _ _ _).
Qed.

Lemma compress_block_length p st b n : length st = n → length (compress_block p st b) = n.
Proof.
  intros Hst. unfold compress_block. rewrite length_zip_with, (foldl_length _ n); [lia| |done].
  intros st' kw Hst'. by rewrite round_length.
Qed.
Lemma compress_block1_length st b n : length st = n → length (compress_block1 st b) = n.
Proof.
  intros Hst. unfold compress_block1. rewrite length_zip_with, (foldl_length _ n); [lia| |done].
  intros st' kw Hst'. by rewrite round1_length.
Qed.

Lemma sha1_good : good_hash sha1.
Proof.
  intros m. cbn [hash_sum sha1]. unfold sha1_sum. rewrite flat_map_be_bytes, (foldl_length _ 5); [done| |done].
  intros st b. apply compress_block1_length.
Qed.
Lemma sha256_good : good_hash sha256.
Proof.
  intros m. cbn [hash_sum sha256]. unfold sha2. rewrite flat_map_be_bytes, (foldl_length _ 8); [done| |done].
  intros st b. apply compress_block_length.
Qed.
Lemma sha512_good : good_hash sha512.
Proof.
  intros m. cbn [hash_sum sha512]. unfold sha2. rewrite flat_map_be_bytes, (foldl_length _ 8); [done| |done].
  intros st b. apply compress_block_length.
Qed.

Lemma hmac_length h k m : good_hash h → length (hmac h k m) = hash_size h.
Proof. intros Hh. apply Hh. Qed.
