(* ===== verification/GoHoare.v ===== *)
(** * Objects, and a Hoare logic for their methods

    A Go object with its surroundings is a pair of a record [T] and a world
    [W]: methods are computations on the pair, calls to collaborators change the
    world only.  [hoare] is a program logic for such methods that tells apart
    normal returns, errors and panics. *)

From stdpp Require Import base list strings sets.
From S2P Require Import Prelude.

(** ** Methods of an object *)
Section object.
Context {T W : Type}.

(** A call of a collaborator, which does not see the object. *)
Definition onW {A} (m : M W A) : M (T * W) A := fun '(s, w) =>
  let '(r, w') := m w in (r, (s, w')).
(** A pure computation that can fail. *)
Definition pureO {A} (r : outcome A) : M (T * W) A := fun sw => (r, sw).
Definition fld {A} (f : T → A) : M (T * W) A := gets (fun sw => f sw.1).
Definition wfld {A} (f : W → A) : M (T * W) A := gets (fun sw => f sw.2).
Definition setf (f : T → T) : M (T * W) unit := modify (fun '(s, w) => (f s, w)).

Lemma onW_inv {A} (m : M W A) (x x' : T) (w w' : W) r : onW m (x, w) = (r, (x', w')) → x' = x ∧ m w = (r, w').
Proof. unfold onW. destruct (m w) as [r0 w0]. by intros [= -> -> ->]. Qed.

End object.

(** ** The logic

    [hoare C P m Q E]: from [P], [m] ends in [Q] when it succeeds, in [E] when
    it returns an error, and panics only with a crash that [C] allows. *)
Definition hoare {S A} (C : crash → Prop) (P : S → Prop) (m : M S A)
    (Q : A → S → Prop) (E : S → Prop) : Prop :=
  ∀ s, P s → match m s with
             | (Ok a, s') => Q a s'
             | (Err _, s') => E s'
             | (Crash c, _) => C c
             end.

(** A computation that keeps [P], whatever its outcome. *)
Definition inv {S A} (C : crash → Prop) (P : S → Prop) (m : M S A) : Prop :=
  hoare C P m (fun _ => P) P.

Section rules.
Context {S : Type} (C : crash → Prop).
Implicit Types (P E : S → Prop).

Lemma hoare_bind {A B} P (m : M S A) R (f : A → M S B) Q E :
  hoare C P m R E → (∀ a, hoare C (R a) (f a) Q E) → hoare C P (m ≫= f) Q E.
Proof.
  intros Hm Hf s HP. specialize (Hm s HP). unfold mbind, M_bind.
  destruct (m s) as [[a|e|c] s1]; [|done..]. by apply Hf.
Qed.

Lemma hoare_conseq {A} P P' (m : M S A) (Q Q' : A → S → Prop) E E' :
  hoare C P' m Q' E' → (∀ s, P s → P' s) → (∀ a s, Q' a s → Q a s) →
  (∀ s, E' s → E s) → hoare C P m Q E.
Proof.
  intros Hm HP HQ HE s Hs. specialize (Hm s (HP _ Hs)).
  destruct (m s) as [[a|e|c] s1]; auto.
Qed.

Lemma hoare_pre {A} P' P (m : M S A) Q E :
  (∀ s, P s → P' s) → hoare C P' m Q E → hoare C P m Q E.
Proof. intros HP Hm. by eapply hoare_conseq. Qed.

Lemma hoare_ret {A} (Q : A → S → Prop) E a : hoare C (Q a) (mret a) Q E.
Proof. by intros s HP. Qed.

Lemma hoare_gets {A} P E (f : S → A) : hoare C P (gets f) (fun a s => P s ∧ a = f s) E.
Proof. by intros s HP. Qed.

Lemma hoare_modify (Q : unit → S → Prop) E f : hoare C (fun s => Q tt (f s)) (modify f) Q E.
Proof. by intros s HP. Qed.

Lemma hoare_try {A} P (m : M S A) Q E E' :
  hoare C P m Q E →
  hoare C P (try m) (fun r s => match r with inr a => Q a s | inl _ => E s end) E'.
Proof.
  intros Hm s HP. specialize (Hm s HP). unfold try. by destruct (m s) as [[a|e|c] s1].
Qed.

Lemma hoare_deref {A} P E (o : option A) : C NilDeref →
  hoare C P (deref o) (fun a s => P s ∧ o = Some a) E.
Proof. intros Hc s HP. by destruct o. Qed.

Lemma inv_bind {A B} P (m : M S A) (f : A → M S B) :
  inv C P m → (∀ a, inv C P (f a)) → inv C P (m ≫= f).
Proof. intros Hm Hf. by eapply hoare_bind. Qed.
Lemma inv_ret {A} P (a : A) : inv C P (mret a).
Proof. by intros s HP. Qed.
Lemma inv_gets {A} P (f : S → A) : inv C P (gets f).
Proof. by intros s HP. Qed.
Lemma inv_fail {A} P e : inv C P (@fail S A e).
Proof. by intros s HP. Qed.
Lemma inv_crash {A} P c : C c → inv C P (@crash_with S A c).
Proof. by intros Hc s HP. Qed.
Lemma inv_deref {A} P (o : option A) : C NilDeref → inv C P (deref o).
Proof. intros Hc s HP. by destruct o. Qed.
Lemma inv_modify P f : (∀ s, P s → P (f s)) → inv C P (modify f).
Proof. intros Hf s HP. by apply Hf. Qed.
Lemma inv_try {A} P (m : M S A) : inv C P m → inv C P (try m).
Proof.
  intros Hm s HP. specialize (Hm s HP). unfold try. by destruct (m s) as [[a|e|c] s1].
Qed.
Lemma inv_ignore {A} P (m : M S A) : inv C P m → inv C P (ignore m).
Proof. intros Hm. apply inv_bind; [by apply inv_try|intros; apply inv_ret]. Qed.
Lemma hoare_ignore {A} P (m : M S A) Q E :
  hoare C P m (fun _ => Q) Q → hoare C P (ignore m) (fun _ => Q) E.
Proof.
  intros Hm. eapply hoare_bind; [by apply hoare_try|]. intros r s Hs. by destruct r.
Qed.
(** A computation that never returns an error. *)
Definition errless {A} (m : M S A) : Prop :=
  ∀ s, match (m s).1 with Err _ => False | _ => True end.

Lemma inv_errless {A} P (m : M S A) E : inv C P m → errless m → hoare C P m (fun _ => P) E.
Proof.
  intros Hm He s HP. specialize (Hm s HP). specialize (He s). by destruct (m s) as [[] s'].
Qed.
Lemma inv_for_each {A} P (l : list A) f :
  (∀ x, x ∈ l → inv C P (f x)) → inv C P (for_each l f).
Proof.
  induction l as [|x l IH]; intros Hf; simpl; [apply inv_ret|].
  apply inv_bind; [apply Hf; set_solver|intros _; apply IH; set_solver].
Qed.

End rules.

Section object_rules.
Context {T W : Type} (C : crash → Prop).
Implicit Types (P : T * W → Prop).

Lemma inv_fld {A} P (f : T → A) : inv C P (fld f).
Proof. apply inv_gets. Qed.
Lemma inv_wfld {A} P (f : W → A) : inv C P (wfld f).
Proof. apply inv_gets. Qed.
Lemma inv_setf P f : (∀ s w, P (s, w) → P (f s, w)) → inv C P (setf f).
Proof. intros Hf. apply inv_modify. intros [s w]. apply Hf. Qed.
Lemma hoare_setf (Q : unit → T * W → Prop) E f :
  hoare C (fun sw => Q tt (f sw.1, sw.2)) (setf f) Q E.
Proof. intros [s w] HQ. exact HQ. Qed.
Lemma hoare_fld {A} P E (f : T → A) : hoare C P (fld f) (fun a sw => P sw ∧ a = f sw.1) E.
Proof. apply hoare_gets. Qed.
Lemma inv_pureO {A} P (r : outcome A) :
  match r with Crash c => C c | _ => True end → inv C P (pureO r).
Proof. intros Hr s HP. unfold pureO. by destruct r. Qed.

(** A call changes the world by [R]; [P] has to survive such a change. *)
Lemma inv_onW {A} (R : W → W → Prop) P (m : M W A) :
  (∀ w, R w (m w).2) → (∀ w c, (m w).1 = Crash c → C c) →
  (∀ s w w', R w w' → P (s, w) → P (s, w')) → inv C P (onW m).
Proof.
  intros Hm Hc HP [s w] Hs. unfold onW. specialize (Hm w). specialize (Hc w).
  destruct (m w) as [r w']. simpl in *. assert (P (s, w')) by (by eapply HP).
  destruct r; [done|done|by apply Hc].
Qed.

End object_rules.

(** Walks a computation; what is left are the calls that need an argument of
    their own. *)
Create HintDb gohoare.
#[export] Hint Resolve inv_ret inv_gets inv_fail inv_fld inv_wfld : gohoare.

Ltac inv_step :=
  match goal with
  | |- hoare ?C ?P ?m (fun _ => ?P) ?P => change (inv C P m)
  | |- inv _ _ (_ ≫= _) => apply inv_bind; [|intros ?]
  | |- inv _ _ (if decide _ then _ else _) => case_decide
  | |- inv _ _ (match ?x with _ => _ end) => destruct x
  | |- inv _ _ (ignore _) => apply inv_ignore
  | |- inv _ _ (try _) => apply inv_try
  | |- inv _ _ (for_each _ _) => apply inv_for_each; intros ? ?
  | |- inv _ _ _ => solve [eauto with gohoare]
  end.
Ltac inv_walk := repeat inv_step.
