(* ===== verification/Stravaganza.v ===== *)
(** * The XML and JID library the server is written against

    [github.com/jackal-xmpp/stravaganza] is not part of the repository: its
    types and functions are the fields of two classes, with the documented
    facts the theorems rely on as laws.  [TreeLib], at the end, is a small
    implementation of both classes; the witnesses of the development run on
    it. *)

From stdpp Require Import base list strings gmap.
From Stdlib Require Import ZArith Lia Ascii.
From S2P Require Import Prelude GoLib.

(** ** JIDs ([stravaganza/jid]) *)
Class JidLib := {
  JID : Type;
  JID_eq_dec :: EqDecision JID;
  Node : JID → string;
  Domain : JID → string;
  Resource : JID → string;
  JIDString : JID → string;
  ToBareJID : JID → JID;
  IsFull : JID → bool;
  IsFullWithUser : JID → bool;
  IsServer : JID → bool;
  (** [MatchesWithOptions(_, jid.MatchesBare)] *)
  MatchesBare : JID → JID → bool;
  (** [jid.New] and [jid.NewWithString]; the flag skips validation *)
  NewJID : string → string → string → bool → option JID;
  NewWithString : string → bool → option JID;
  (** the bare JID of [n@d/r] is [n@d] *)
  Node_bare : ∀ j, Node (ToBareJID j) = Node j;
  Domain_bare : ∀ j, Domain (ToBareJID j) = Domain j;
  Resource_bare : ∀ j, Resource (ToBareJID j) = "";
  (** a full JID has a resource *)
  IsFull_spec : ∀ j, IsFull j = negb (String.eqb (Resource j) "");
  IsFullWithUser_spec : ∀ j, IsFullWithUser j =
    negb (String.eqb (Node j) "") && negb (String.eqb (Resource j) "");
  MatchesBare_spec : ∀ i j, MatchesBare i j =
    String.eqb (Node i) (Node j) && String.eqb (Domain i) (Domain j);
}.

Lemma bare_not_full_user `{JidLib} j : IsFullWithUser (ToBareJID j) = false.
Proof. rewrite IsFullWithUser_spec, Resource_bare. simpl. apply andb_false_r. Qed.

(** ** XML elements and stanzas *)

(** The dynamic type of an element that is a stanza. *)
Inductive stanza_kind := KIQ | KPresence | KMessage.

#[global] Instance stanza_kind_eq_dec : EqDecision stanza_kind.
Proof. solve_decision. Defined.

(** Reasons of stanza errors ([errors/stanza]). *)
Inductive stanza_reason :=
| SEBadRequest | SEConflict | SEInternalServerError | SENotAllowed
| SERemoteServerNotFound | SERemoteServerTimeout | SEServiceUnavailable
| SEItemNotFound | SEJIDMalformed | SEForbidden | SENotAcceptable
| SESubscriptionRequired.

#[global] Instance stanza_reason_eq_dec : EqDecision stanza_reason.
Proof. solve_decision. Defined.

Class XmlLib `{!JidLib} := {
  Element : Type;
  Element_eq_dec :: EqDecision Element;
  Name : Element → string;
  Text : Element → string;
  (** a missing attribute reads as the empty string *)
  Attribute : Element → string → string;
  AttributeCount : Element → nat;
  AllChildren : Element → list Element;
  Child : Element → string → option Element;
  Children : Element → string → list Element;
  ChildNamespace : Element → string → string → option Element;
  (** the stanza type an element value has, if any *)
  Kind : Element → option stanza_kind;
  FromJID : Element → JID;
  ToJID : Element → JID;
  IsAvailable : Element → bool;
  IsUnavailable : Element → bool;
  Priority : Element → Z;
  (** [NewBuilder(name).WithAttribute(..).WithChildren(..).WithText(..).Build()] *)
  Build : string → list (string * string) → list Element → string → Element;
  (** [New{IQ,Presence,Message}Builder()....Build{IQ,Presence,Message}()] *)
  BuildStanza : stanza_kind → list (string * string) → list Element → option Element;
  (** [NewBuilderFromElement(e).WithAttribute(..).WithChildren(..).Build<kind>()] *)
  BuildFrom : Element → list (string * string) → list Element → stanza_kind → option Element;
  (** [iq.ResultBuilder().WithChildren(..).BuildIQ()] *)
  ResultIQ : Element → list Element → option Element;
  (** [stanzaerror.E(reason, e).Element()] and [.Stanza(false)] *)
  StanzaError : stanza_reason → Element → Element;
  (** [streamerror.E(reason).Element()], with its application element *)
  StreamErrorElement : stream_reason → option Element → Element;
  Name_Build : ∀ n a c t, Name (Build n a c t) = n;
  Attribute_Build : ∀ n a c t k, NoDup a.*1 →
    Attribute (Build n a c t) k = default "" ((list_to_map a : gmap string string) !! k);
  AllChildren_Build : ∀ n a c t, AllChildren (Build n a c t) = c;
  Text_Build : ∀ n a c t, Text (Build n a c t) = t;
  AttributeCount_Build : ∀ n a c t, AttributeCount (Build n a c t) = length a;
  Kind_Build : ∀ n a c t, Kind (Build n a c t) = None;
  Kind_StreamError : ∀ r app, Kind (StreamErrorElement r app) = None;
  Child_spec : ∀ e n, Child e n = head (Children e n);
  Children_spec : ∀ e n,
    Children e n = List.filter (fun c => String.eqb (Name c) n) (AllChildren e);
}.

(** Attribute names and stanza types ([stravaganza] constants). *)
Definition Namespace : string := "xmlns".
Definition AttrFrom : string := "from".
Definition AttrTo : string := "to".
Definition AttrType : string := "type".
Definition AttrID : string := "id".

Definition GetType : string := "get".
Definition SetType : string := "set".
Definition ResultType : string := "result".
Definition ErrorType : string := "error".
Definition AvailableType : string := "".
Definition UnavailableType : string := "unavailable".
Definition SubscribeType : string := "subscribe".
Definition SubscribedType : string := "subscribed".
Definition UnsubscribeType : string := "unsubscribe".
Definition UnsubscribedType : string := "unsubscribed".
Definition ProbeType : string := "probe".

(** How a stanza is made from a received element
    ([NewBuilderFromElement(e).WithAttribute(..).WithoutAttribute(..).Build<kind>()]),
    and the JIDs of a stanza, which are those of its attributes. *)
Class StanzaBuild `{!JidLib} `{!XmlLib} := {
  (** [stravaganza.IsStanza] *)
  IsStanza : Element → bool;
  (** attributes to set and an attribute to remove *)
  BuildStanzaFrom : Element → list (string * string) → string → stanza_kind → option Element;
  BuildStanzaFrom_kind : ∀ e a r k e', BuildStanzaFrom e a r k = Some e' → Kind e' = Some k;
  BuildStanzaFrom_from : ∀ e f t r k e' j,
    BuildStanzaFrom e [(AttrFrom, f); (AttrTo, t)] r k = Some e' →
    NewWithString f true = Some j → FromJID e' = j;
  BuildStanzaFrom_to : ∀ e f t r k e' j,
    BuildStanzaFrom e [(AttrFrom, f); (AttrTo, t)] r k = Some e' →
    NewWithString t true = Some j → ToJID e' = j;
  (** a parsed JID is read back from its string form *)
  NewWithString_reparse : ∀ s b j,
    NewWithString s b = Some j → NewWithString (JIDString j) true = Some j;
}.

(** [ChildrenCount] *)
Definition ChildrenCount `{XmlLib} (e : Element) : nat := length (AllChildren e).

Definition is_stanza `{XmlLib} (e : Element) : bool :=
  match Kind e with Some _ => true | None => false end.

Definition StanzaType `{XmlLib} (e : Element) : string := Attribute e AttrType.
Definition IsGet `{XmlLib} (e : Element) : bool := String.eqb (StanzaType e) GetType.
Definition IsSet `{XmlLib} (e : Element) : bool := String.eqb (StanzaType e) SetType.
Definition IsResult `{XmlLib} (e : Element) : bool := String.eqb (StanzaType e) ResultType.
Definition IsError `{XmlLib} (e : Element) : bool := String.eqb (StanzaType e) ErrorType.

(** ** A concrete implementation *)
Module TreeLib.

Record tjid := MkJid { tnode : string; tdomain : string; tresource : string }.

#[global] Instance tjid_eq_dec : EqDecision tjid.
Proof. solve_decision. Defined.

Definition tjid_string (j : tjid) : string :=
  (if String.eqb (tnode j) "" then "" else tnode j +:+ "@") +:+ tdomain j +:+
  (if String.eqb (tresource j) "" then "" else "/" +:+ tresource j).

(** Splits a string at the first occurrence of a character. *)
Fixpoint split_at (c : ascii) (s : string) : string * option string :=
  match s with
  | EmptyString => (EmptyString, None)
  | String x s' =>
    if Ascii.eqb x c then (EmptyString, Some s')
    else let '(a, b) := split_at c s' in (String x a, b)
  end.

Definition tjid_parse (s : string) (_ : bool) : option tjid :=
  let '(bare, res) := split_at "/" s in
  let r := default "" res in
  match split_at "@" bare with
  | (n, Some d) =>
    match split_at "@" d with
    | (_, Some _) => None
    | (_, None) => if String.eqb d "" then None else Some (MkJid n d r)
    end
  | (d, None) => if String.eqb d "" then None else Some (MkJid "" d r)
  end.

(** What [split_at] splits, it can split again. *)
Lemma split_at_none c s : (split_at c s).2 = None ↔ (split_at c s).1 = s ∧ (split_at c s).2 = None.
Proof.
  split; [|tauto]. induction s as [|x s IH]; simpl; [done|].
  destruct (Ascii.eqb x c); [done|]. destruct (split_at c s) as [a b]. simpl in *.
  intros ->. by destruct IH as [-> _].
Qed.

Lemma split_at_first c s : (split_at c (split_at c s).1) = ((split_at c s).1, None).
Proof.
  induction s as [|x s IH]; simpl; [done|]. destruct (Ascii.eqb x c) eqn:E; [done|].
  destruct (split_at c s) as [a b]. simpl in *. by rewrite E, IH.
Qed.

Lemma split_at_app c s t : (split_at c s).2 = None →
  split_at c (s +:+ String c t) = (s, Some t).
Proof.
  induction s as [|x s IH]; simpl; [by rewrite Ascii.eqb_refl|].
  destruct (Ascii.eqb x c) eqn:E; [done|]. destruct (split_at c s) as [a b]. simpl in *.
  intros Hb. by rewrite IH.
Qed.

Lemma split_at_mono c k s : (split_at k s).2 = None → (split_at k (split_at c s).1).2 = None.
Proof.
  induction s as [|x s IH]; simpl; [done|].
  destruct (Ascii.eqb x k) eqn:Ek; [done|].
  destruct (split_at k s) as [a b] eqn:Es, (Ascii.eqb x c); [done|]. simpl. intros ->.
  destruct (split_at c s) as [a' b']. simpl in *. rewrite Ek.
  specialize (IH eq_refl). destruct (split_at k a'). simpl in *. done.
Qed.

Lemma split_at_mono2 c k s t : (split_at k s).2 = None → (split_at c s).2 = Some t →
  (split_at k t).2 = None.
Proof.
  induction s as [|x s IH]; simpl; [done|].
  destruct (Ascii.eqb x k) eqn:Ek; [done|].
  destruct (split_at k s) as [a b] eqn:Es, (Ascii.eqb x c); simpl.
  - intros Hb [= <-]. by rewrite Es.
  - destruct (split_at c s) as [a' b']. simpl. auto.
Qed.

#[export] Instance tree_jid : JidLib.
Proof.
  refine {|
    JID := tjid; Node := tnode; Domain := tdomain; Resource := tresource;
    JIDString := tjid_string;
    ToBareJID := fun j => MkJid (tnode j) (tdomain j) "";
    IsFull := fun j => negb (String.eqb (tresource j) "");
    IsFullWithUser := fun j =>
      negb (String.eqb (tnode j) "") && negb (String.eqb (tresource j) "");
    IsServer := fun j => String.eqb (tnode j) "";
    MatchesBare := fun i j =>
      String.eqb (tnode i) (tnode j) && String.eqb (tdomain i) (tdomain j);
    NewJID := fun n d r _ => if String.eqb d "" then None else Some (MkJid n d r);
    NewWithString := tjid_parse;
  |}; reflexivity.
Defined.

#[warnings="-register-all"]
Inductive tree :=
| TNode (name : string) (attrs : list (string * string)) (children : list tree)
    (text : string) (kind : option stanza_kind).

Definition t_name (t : tree) : string := let 'TNode n _ _ _ _ := t in n.
Definition t_attrs (t : tree) : list (string * string) := let 'TNode _ a _ _ _ := t in a.
Definition t_children (t : tree) : list tree := let 'TNode _ _ c _ _ := t in c.
Definition t_text (t : tree) : string := let 'TNode _ _ _ x _ := t in x.
Definition t_kind (t : tree) : option stanza_kind := let 'TNode _ _ _ _ k := t in k.

#[export] Instance tree_eq_dec : EqDecision tree.
Proof.
  refine (fix go (x y : tree) {struct x} : Decision (x = y) :=
    let r : EqDecision tree := @go in
    match x, y with
    | TNode n1 a1 c1 t1 k1, TNode n2 a2 c2 t2 k2 =>
      cast_if_and5 (decide (n1 = n2)) (decide (a1 = a2)) (decide (c1 = c2))
        (decide (t1 = t2)) (decide (k1 = k2))
    end); clear r go; abstract congruence.
Defined.

Definition t_attr (t : tree) (k : string) : string :=
  default "" ((list_to_map (t_attrs t) : gmap string string) !! k).

Definition t_named (t : tree) (n : string) : list tree :=
  List.filter (fun c => String.eqb (t_name c) n) (t_children t).

Definition t_jid (t : tree) (k : string) : tjid :=
  default (MkJid "" "" "") (tjid_parse (t_attr t k) true).

Definition kind_name (k : stanza_kind) : string :=
  match k with KIQ => "iq" | KPresence => "presence" | KMessage => "message" end.

(** The attributes [a] override those of [t]. *)
Definition t_with (t : tree) (a : list (string * string)) (c : list tree)
    (k : stanza_kind) : tree :=
  TNode (kind_name k)
    (a ++ List.filter (fun p => negb (existsb (String.eqb p.1) a.*1)) (t_attrs t))
    (t_children t ++ c) (t_text t) (Some k).

Lemma t_with_to t f x c k :
  t_jid (t_with t [(AttrFrom, f); (AttrTo, x)] c k) AttrTo =
  default (MkJid "" "" "") (tjid_parse x true).
Proof.
  unfold t_jid, t_attr, t_with. do 2 f_equal. simpl.
  rewrite lookup_insert_ne by done. by rewrite lookup_insert_eq.
Qed.

(** The parts of a JID that can be read back. *)
Definition tjid_good (j : tjid) : Prop :=
  (split_at "@" (tnode j)).2 = None ∧ (split_at "/" (tnode j)).2 = None ∧
  (split_at "@" (tdomain j)).2 = None ∧ (split_at "/" (tdomain j)).2 = None ∧ tdomain j ≠ "".

Lemma tjid_parse_good s b j : tjid_parse s b = Some j → tjid_good j.
Proof.
  unfold tjid_parse, tjid_good. destruct (split_at "/" s) as [bare res] eqn:Eb.
  pose proof (split_at_first "/" s) as Hb. rewrite Eb in Hb. simpl in Hb.
  assert ((split_at "/" bare).2 = None) as Hb2 by (by rewrite Hb).
  pose proof (split_at_first "@" bare) as Hf.
  pose proof (split_at_mono "@" "/" bare Hb2) as Hm1.
  pose proof (λ t, split_at_mono2 "@" "/" bare t Hb2) as Hm2.
  destruct (split_at "@" bare) as [n [d|]]; simpl in *.
  - specialize (Hm2 d eq_refl). destruct (split_at "@" d) as [? [|]] eqn:Ed; [done|].
    destruct (String.eqb_spec d ""); [done|]. intros [= <-]. simpl.
    rewrite Hf, Ed. done.
  - destruct (String.eqb_spec n ""); [done|]. intros [= <-]. simpl. by rewrite Hf.
Qed.

Lemma split_at_app_other c s t : (split_at c s).2 = None → (split_at c t).2 = None →
  (split_at c (s +:+ t)).2 = None.
Proof.
  induction s as [|x s IH]; simpl; [done|]. destruct (Ascii.eqb x c); [done|].
  destruct (split_at c s) as [a b], (split_at c (s +:+ t)) as [a' b']. simpl in *. auto.
Qed.

Lemma split_at_whole c s : (split_at c s).2 = None → split_at c s = (s, None).
Proof.
  intros Hs. destruct (proj1 (split_at_none c s) Hs) as [H1 H2].
  destruct (split_at c s). simpl in *. congruence.
Qed.

Lemma tjid_reparse j : tjid_good j → tjid_parse (tjid_string j) true = Some j.
Proof.
  destruct j as [n d r]. unfold tjid_good, tjid_string, tjid_parse. simpl.
  intros (Hn1 & Hn2 & Hd1 & Hd2 & Hd).
  set (bare := ((if String.eqb n "" then "" else n +:+ "@") +:+ d)%string).
  assert ((split_at "/" bare).2 = None) as Hbare.
  { unfold bare. apply split_at_app_other; [|done]. destruct (String.eqb n ""); [done|].
    by apply split_at_app_other. }
  assert (split_at "/" ((if String.eqb n "" then "" else n +:+ "@") +:+ d +:+
    (if String.eqb r "" then "" else "/" +:+ r)) =
    (bare, if String.eqb r "" then None else Some r)) as ->.
  { rewrite (string_app_assoc _ d). fold bare. destruct (String.eqb r "").
    - rewrite string_app_nil. by apply split_at_whole.
    - by apply split_at_app. }
  assert (default "" (if String.eqb r "" then None else Some r) = r) as ->.
  { destruct (String.eqb_spec r ""); by subst. }
  unfold bare. destruct (String.eqb_spec n "") as [->|Hne].
  - change ("" +:+ d) with d. rewrite (split_at_whole _ d Hd1). by destruct (String.eqb_spec d "").
  - rewrite <-string_app_assoc. change ("@" +:+ d) with (String "@" d).
    rewrite (split_at_app "@" n d Hn1).
    rewrite (split_at_whole _ d Hd1). by destruct (String.eqb_spec d "").
Qed.

Definition reason_name (r : stanza_reason) : string :=
  match r with
  | SEBadRequest => "bad-request" | SEConflict => "conflict"
  | SEInternalServerError => "internal-server-error" | SENotAllowed => "not-allowed"
  | SERemoteServerNotFound => "remote-server-not-found"
  | SERemoteServerTimeout => "remote-server-timeout"
  | SEServiceUnavailable => "service-unavailable"
  | SEItemNotFound => "item-not-found" | SEJIDMalformed => "jid-malformed"
  | SEForbidden => "forbidden" | SENotAcceptable => "not-acceptable"
  | SESubscriptionRequired => "subscription-required"
  end.

Definition stream_reason_name (r : stream_reason) : string :=
  match r with
  | ConnectionTimeout => "connection-timeout" | Conflict => "conflict"
  | PolicyViolation => "policy-violation" | NotAuthorized => "not-authorized"
  | InvalidNamespace => "invalid-namespace"
  | UnsupportedStanzaType => "unsupported-stanza-type"
  | SystemShutdown => "system-shutdown" | HostUnknown => "host-unknown"
  | InvalidFrom => "invalid-from" | InvalidXML => "invalid-xml"
  | RemoteConnectionFailed => "remote-connection-failed"
  | UnsupportedVersion => "unsupported-version"
  | ResourceConstraint => "resource-constraint"
  | UndefinedCondition => "undefined-condition"
  | InternalServerError => "internal-server-error"
  end.

Definition t_swap (t : tree) : list (string * string) :=
  [(AttrFrom, t_attr t AttrTo); (AttrTo, t_attr t AttrFrom)].

#[export] Instance tree_xml : XmlLib.
Proof.
  refine {|
    Element := tree; Name := t_name; Text := t_text; Attribute := t_attr;
    AttributeCount := fun t => length (t_attrs t); AllChildren := t_children;
    Child := fun t n => head (t_named t n); Children := t_named;
    ChildNamespace := fun t n ns =>
      head (List.filter (fun c => String.eqb (t_attr c "xmlns") ns) (t_named t n));
    Kind := t_kind; FromJID := fun t => t_jid t "from"; ToJID := fun t => t_jid t "to";
    IsAvailable := fun t => String.eqb (t_attr t "type") "";
    IsUnavailable := fun t => String.eqb (t_attr t "type") "unavailable";
    Priority := fun t => match head (t_named t "priority") with
                         | Some p => (Atoi (t_text p)).1 | None => 0%Z end;
    Build := fun n a c t => TNode n a c t None;
    BuildStanza := fun k a c => Some (TNode (kind_name k) a c "" (Some k));
    BuildFrom := fun t a c k => Some (t_with t a c k);
    ResultIQ := fun t c =>
      Some (TNode "iq" (("type", "result") :: ("id", t_attr t "id") :: t_swap t) c "" (Some KIQ));
    StanzaError := fun r t =>
      t_with t (("type", "error") :: t_swap t) [TNode (reason_name r) [] [] "" None]
        (default KIQ (t_kind t));
    StreamErrorElement := fun r app =>
      TNode "stream:error" [] (TNode (stream_reason_name r) [] [] "" None :: option_list app)
        "" None;
  |}; done.
Defined.

Definition t_build (t : tree) (a : list (string * string)) (r : string) (k : stanza_kind) : tree :=
  t_with (TNode (t_name t) (List.filter (fun p => negb (String.eqb p.1 r)) (t_attrs t))
            (t_children t) (t_text t) (t_kind t)) a [] k.

Lemma t_build_from e f t r k j : tjid_parse f true = Some j →
  t_jid (t_build e [(AttrFrom, f); (AttrTo, t)] r k) AttrFrom = j.
Proof.
  intros Hj. unfold t_jid, t_attr, t_build, t_with. simpl. rewrite lookup_insert_eq. simpl.
  by rewrite Hj.
Qed.

Lemma t_build_to e f t r k j : tjid_parse t true = Some j →
  t_jid (t_build e [(AttrFrom, f); (AttrTo, t)] r k) AttrTo = j.
Proof. intros Hj. unfold t_build. rewrite t_with_to. by rewrite Hj. Qed.

Lemma tjid_reparse_parsed s b j : tjid_parse s b = Some j → tjid_parse (tjid_string j) true = Some j.
Proof. intros Hs. by apply tjid_reparse, (tjid_parse_good s b). Qed.

#[export] Instance tree_build : StanzaBuild.
Proof.
  refine {|
    IsStanza := fun t => existsb (String.eqb (t_name t)) ["iq"; "presence"; "message"];
    BuildStanzaFrom := fun t a r k => Some (t_build t a r k);
    NewWithString_reparse := tjid_reparse_parsed;
  |}.
  - abstract (by intros e a r k e' [= <-]).
  - abstract (intros e f t r k e' j [= <-]; apply t_build_from).
  - abstract (intros e f t r k e' j [= <-]; apply t_build_to).
Defined.

End TreeLib.
