(* ===== verification/Parser.v ===== *)
(** * The XML stream parser (pkg/parser/parser.go)

    The parser turns the raw tokens of an XML decoder into elements, one per
    call of [Parse].  The decoder is the list of tokens it will give, each with
    the input offset after it; when the list is used up the decoder returns the
    error [dec_err]. *)

From stdpp Require Import base list strings sets.
From Stdlib Require Import ZArith Lia.
From S2P Require Import Prelude GoHoare Stravaganza.
Local Open Scope Z_scope.

(** [xml.Name] *)
Record xml_Name := MkName { Space : string; Local_ : string }.

(** The tokens [RawToken] gives; comments, directives and processing
    instructions are [OtherToken]. *)
Inductive token :=
| StartElement (n : xml_Name) (attrs : list (xml_Name * string))
| CharData (text : string)
| EndElement (n : xml_Name)
| OtherToken.

Inductive ParsingMode := DefaultMode | SocketStream.

#[global] Instance ParsingMode_eq_dec : EqDecision ParsingMode.
Proof. solve_decision. Defined.

Definition streamName : string := "stream".
Definition rootElementIndex : Z := -1.

Definition ErrTooLargeStanza : goerror := ErrText "parser: too large stanza".
Definition errUnexpectedEnd (name : string) : goerror :=
  ErrText ("xmppparser: unexpected end element </" +:+ name +:+ ">").

(** [xmlName] *)
Definition xmlName (n : xml_Name) : string :=
  if String.eqb (Space n) "" then Local_ n else Space n +:+ ":" +:+ Local_ n.

Definition is_stream (n : xml_Name) : bool :=
  String.eqb (Local_ n) streamName && String.eqb (Space n) streamName.

Section parser.
Context `{XmlLib}.

(** A [stravaganza.Builder]: what [Build] will be called with. *)
Record Builder := MkBuilder {
  b_name : string;
  b_attrs : list (string * string);
  b_children : list Element;
  b_text : string;
}.
Definition build (b : Builder) : Element :=
  Build (b_name b) (b_attrs b) (b_children b) (b_text b).
Definition WithText (t : string) (b : Builder) : Builder :=
  MkBuilder (b_name b) (b_attrs b) (b_children b) t.
Definition WithChild (c : Element) (b : Builder) : Builder :=
  MkBuilder (b_name b) (b_attrs b) (b_children b ++ [c]) (b_text b).

(** [Parser]; the decoder is the rest of its input.  The stack is a Go slice:
    the innermost open element is its last entry. *)
Record Parser := MkParser {
  dec : list (token * Z);
  dec_off : Z;                   (** [dec.InputOffset()] *)
  dec_err : goerror;
  mode : ParsingMode;
  nextElement : option Element;
  stack : list Builder;
  pIndex : Z;
  inElement : bool;
  lastOffset : Z;
  maxStanzaSize : Z;
}.

(** [New] *)
Definition NewParser (input : list (token * Z)) (err : goerror) (m : ParsingMode) (max : Z) : Parser :=
  MkParser input 0 err m None [] rootElementIndex false 0 max.

Definition set_dec (d : list (token * Z)) (off : Z) (p : Parser) : Parser :=
  MkParser d off (dec_err p) (mode p) (nextElement p) (stack p) (pIndex p) (inElement p)
    (lastOffset p) (maxStanzaSize p).
Definition set_next (e : option Element) (p : Parser) : Parser :=
  MkParser (dec p) (dec_off p) (dec_err p) (mode p) e (stack p) (pIndex p) (inElement p)
    (lastOffset p) (maxStanzaSize p).
Definition set_stack (s : list Builder) (p : Parser) : Parser :=
  MkParser (dec p) (dec_off p) (dec_err p) (mode p) (nextElement p) s (pIndex p) (inElement p)
    (lastOffset p) (maxStanzaSize p).
Definition set_pIndex (i : Z) (p : Parser) : Parser :=
  MkParser (dec p) (dec_off p) (dec_err p) (mode p) (nextElement p) (stack p) i (inElement p)
    (lastOffset p) (maxStanzaSize p).
Definition set_inElement (b : bool) (p : Parser) : Parser :=
  MkParser (dec p) (dec_off p) (dec_err p) (mode p) (nextElement p) (stack p) (pIndex p) b
    (lastOffset p) (maxStanzaSize p).
Definition set_lastOffset (o : Z) (p : Parser) : Parser :=
  MkParser (dec p) (dec_off p) (dec_err p) (mode p) (nextElement p) (stack p) (pIndex p)
    (inElement p) o (maxStanzaSize p).

Abbreviation MP := (M Parser).

(** [p.stack[i]] and [p.stack[:i]]; both panic out of range. *)
Definition stack_at (i : Z) : MP Builder :=
  s ← gets stack;
  if 0 <=? i then match s !! Z.to_nat i with Some b => mret b | None => crash_with IndexOutOfRange end
  else crash_with IndexOutOfRange.
Definition stack_put (i : Z) (b : Builder) : MP unit :=
  modify (fun p => set_stack (<[Z.to_nat i := b]> (stack p)) p).
Definition stack_len : MP Z := gets (fun p => Z.of_nat (length (stack p))).

(** [startElement] *)
Definition startElement (n : xml_Name) (attrs : list (xml_Name * string)) : MP unit :=
  let builder := MkBuilder (xmlName n) (map (fun a => (xmlName a.1, a.2)) attrs) [] "" in
  modify (fun p => set_stack (stack p ++ [builder]) p);;
  len ← stack_len;
  modify (set_pIndex (len - 1));;
  modify (set_inElement true).

(** [setElementText] *)
Definition setElementText (t : string) : MP unit :=
  i ← gets pIndex;
  b ← stack_at i;
  stack_put i (WithText t b).

(** [closeElement] *)
Definition closeElement (name : string) : MP unit :=
  i ← gets pIndex;
  if i =? rootElementIndex then fail (errUnexpectedEnd name)
  else
    builder ← stack_at i;
    modify (fun p => set_stack (take (Z.to_nat i) (stack p)) p);;
    let element := build builder in
    if negb (String.eqb name (Name element)) then fail (errUnexpectedEnd name)
    else
      len ← stack_len;
      modify (set_pIndex (len - 1));;
      (if len - 1 =? rootElementIndex then modify (set_next (Some element))
       else
         b ← stack_at (len - 1);
         stack_put (len - 1) (WithChild element b));;
      modify (set_inElement false).

(** [endElement] *)
Definition endElement (n : xml_Name) : MP unit := closeElement (xmlName n).

(** One round of the loop of [Parse]: the token was read; the result tells
    whether the loop is left to the label [done]. *)
Definition processToken (t : token) : MP bool :=
  p ← get;
  if (0 <? maxStanzaSize p) && (maxStanzaSize p <? dec_off p - lastOffset p) then
    fail ErrTooLargeStanza
  else
    match t with
    | StartElement n attrs =>
      startElement n attrs;;
      if bool_decide (mode p = SocketStream) && is_stream n then
        closeElement (xmlName n);; mret true
      else mret false
    | CharData text =>
      (if inElement p then setElementText text else mret tt);; mret false
    | EndElement n =>
      if bool_decide (mode p = SocketStream) && is_stream n then fail ErrStreamClosedByPeer
      else
        endElement n;;
        i ← gets pIndex;
        mret (i =? rootElementIndex)
    | OtherToken => mret false
    end.

(** The label [done] of [Parse]. *)
Definition finishParse : MP (option Element) :=
  modify (fun p => set_lastOffset (dec_off p) p);;
  elem ← gets nextElement;
  modify (set_next None);;
  mret elem.

(** The loop of [Parse], by recursion on the tokens that are left. *)
Fixpoint parseLoop (toks : list (token * Z)) : MP (option Element) :=
  match toks with
  | [] =>
    e ← gets dec_err;
    modify (fun p => set_dec [] (dec_off p) p);;
    fail e
  | (t, off) :: toks' =>
    modify (set_dec toks' off);;
    done ← processToken t;
    if done : bool then finishParse else parseLoop toks'
  end.

(** [Parse] *)
Definition Parse : MP (option Element) :=
  toks ← gets dec;
  parseLoop toks.

(** ** The tokens of an element

    An element written out: start tag, text if there is any, children, end tag.
    Every token ends at the offset [off] gives for its position. *)
Inductive xtree :=
| XNode (n : xml_Name) (attrs : list (xml_Name * string)) (text : string) (children : list xtree).

Fixpoint xelement (x : xtree) : Element :=
  let 'XNode n attrs text children := x in
  Build (xmlName n) (map (fun a => (xmlName a.1, a.2)) attrs) (map xelement children) text.

Fixpoint xtokens (x : xtree) : list token :=
  let 'XNode n attrs text children := x in
  StartElement n attrs :: (if String.eqb text "" then [] else [CharData text]) ++
  flat_map xtokens children ++ [EndElement n].

(** No element of the tree is a stream tag, which the socket mode treats
    specially. *)
Fixpoint no_stream (x : xtree) : bool :=
  let 'XNode n _ _ children := x in negb (is_stream n) && forallb no_stream children.

Definition mid_state (p : Parser) (st : list Builder) (ine : bool) (toks : list (token * Z))
    (off : Z) : Parser :=
  MkParser toks off (dec_err p) (mode p) (nextElement p) st (Z.of_nat (length st) - 1) ine
    (lastOffset p) (maxStanzaSize p).

(** The size check passes at an offset, and at every token of a list. *)
Definition fits1 (p : Parser) (off : Z) : Prop :=
  ((0 <? maxStanzaSize p) && (maxStanzaSize p <? off - lastOffset p)) = false.
Definition fits (p : Parser) (toks : list (token * Z)) : Prop :=
  Forall (fun to => fits1 p to.2) toks.

(** ** Tokens in context

    What the loop does with each kind of token, from a state in which the stack
    is [st] and the index points at its top. *)
Section steps.
Context (p : Parser).
Implicit Types (st : list Builder) (rest : list (token * Z)).

Lemma step_other p0 t off rest :
  processToken t (set_dec rest off p0) = (Ok false, set_dec rest off p0) →
  parseLoop ((t, off) :: rest) p0 = parseLoop rest (set_dec rest off p0).
Proof. intros Ht. simpl. unfold mbind, M_bind. simpl. by rewrite Ht. Qed.

Lemma step_start st ine d o n attrs off rest :
  fits1 p off → is_stream n = false →
  parseLoop ((StartElement n attrs, off) :: rest) (mid_state p st ine d o) =
  parseLoop rest (mid_state p
    (st ++ [MkBuilder (xmlName n) (map (fun a => (xmlName a.1, a.2)) attrs) [] ""]) true rest off).
Proof.
  intros Hf Hs. simpl. unfold processToken, mbind, M_bind. simpl.
  unfold fits1 in Hf; rewrite Hf, Hs, andb_false_r. simpl.
  unfold mid_state. simpl. reflexivity.
Qed.

Lemma top_index st b : Z.to_nat (Z.of_nat (length (st ++ [b])) - 1) = length st.
Proof. rewrite length_app. simpl. lia. Qed.

Lemma lookup_top st b : (st ++ [b]) !! Z.to_nat (Z.of_nat (length (st ++ [b])) - 1) = Some b.
Proof. rewrite top_index. by rewrite list_lookup_middle. Qed.

Lemma top_nonneg st b : (0 <=? Z.of_nat (length (st ++ [b])) - 1) = true.
Proof. apply Z.leb_le. rewrite length_app. simpl. lia. Qed.

Lemma insert_top st b b' :
  <[Z.to_nat (Z.of_nat (length (st ++ [b])) - 1) := b']> (st ++ [b]) = st ++ [b'].
Proof.
  rewrite top_index, <-(Nat.add_0_r (length st)). by rewrite insert_app_r.
Qed.

Lemma take_top st b : take (Z.to_nat (Z.of_nat (length (st ++ [b])) - 1)) (st ++ [b]) = st.
Proof. rewrite top_index. by rewrite take_app_length. Qed.

Lemma step_text st b d o text off rest :
  fits1 p off →
  parseLoop ((CharData text, off) :: rest) (mid_state p (st ++ [b]) true d o) =
  parseLoop rest (mid_state p (st ++ [WithText text b]) true rest off).
Proof.
  intros Hf. simpl. unfold processToken, setElementText, stack_at, stack_put, mbind, M_bind. simpl.
  unfold fits1 in Hf; rewrite Hf. simpl.
  rewrite top_nonneg, lookup_top. simpl. rewrite insert_top. unfold mid_state.
  rewrite !length_app. simpl. reflexivity.
Qed.

(** What an end tag does, up to the test for the end of the loop. *)
Lemma close_inner st b c ine d o :
  closeElement (b_name c) (mid_state p ((st ++ [b]) ++ [c]) ine d o) =
  (Ok tt, mid_state p (st ++ [WithChild (build c) b]) false d o).
Proof.
  unfold closeElement, stack_at, stack_put, stack_len, mbind, M_bind. simpl.
  rewrite (proj2 (Z.eqb_neq _ _)) by (rewrite length_app; simpl; unfold rootElementIndex; lia).
  rewrite top_nonneg, lookup_top. simpl. rewrite take_top.
  unfold build at 1. rewrite Name_Build, String.eqb_refl. simpl.
  rewrite (proj2 (Z.eqb_neq _ _)) by (rewrite length_app; simpl; unfold rootElementIndex; lia).
  rewrite top_nonneg, lookup_top. simpl. rewrite insert_top. unfold mid_state.
  rewrite !length_app. simpl. reflexivity.
Qed.

Lemma close_root c ine d o :
  closeElement (b_name c) (mid_state p [c] ine d o) =
  (Ok tt, set_next (Some (build c)) (mid_state p [] false d o)).
Proof.
  unfold closeElement, stack_at, stack_put, stack_len, mbind, M_bind. simpl.
  unfold build at 1. rewrite Name_Build, String.eqb_refl. reflexivity.
Qed.

Lemma step_end st b c ine d o n off rest :
  fits1 p off → is_stream n = false → b_name c = xmlName n →
  parseLoop ((EndElement n, off) :: rest) (mid_state p ((st ++ [b]) ++ [c]) ine d o) =
  parseLoop rest (mid_state p (st ++ [WithChild (build c) b]) false rest off).
Proof.
  intros Hf Hs Hn. cbn [parseLoop]. unfold processToken. unfold mbind at 1 2 3, M_bind at 1 2 3. simpl.
  unfold fits1 in Hf; rewrite Hf, Hs, andb_false_r. unfold mbind, M_bind, endElement.
  rewrite <-Hn. change (set_dec rest off (mid_state p ((st ++ [b]) ++ [c]) ine d o))
    with (mid_state p ((st ++ [b]) ++ [c]) ine rest off).
  rewrite close_inner. simpl.
  by rewrite (proj2 (Z.eqb_neq _ _)) by (rewrite length_app; simpl; unfold rootElementIndex; lia).
Qed.

Lemma step_end_root c ine d o n off rest :
  fits1 p off → is_stream n = false → b_name c = xmlName n →
  parseLoop ((EndElement n, off) :: rest) (mid_state p [c] ine d o) =
  (Ok (Some (build c)), set_lastOffset off (set_next None (mid_state p [] false rest off))).
Proof.
  intros Hf Hs Hn. cbn [parseLoop]. unfold processToken. unfold mbind at 1 2 3, M_bind at 1 2 3. simpl.
  unfold fits1 in Hf; rewrite Hf, Hs, andb_false_r. unfold mbind, M_bind, endElement.
  rewrite <-Hn. change (set_dec rest off (mid_state p [c] ine d o)) with (mid_state p [c] ine rest off).
  rewrite close_root. reflexivity.
Qed.

End steps.

(** ** Whole elements *)
Lemma xtree_nested_ind (P : xtree → Prop) :
  (∀ n attrs text children, Forall P children → P (XNode n attrs text children)) → ∀ x, P x.
Proof.
  intros HP. fix IH 1. intros [n attrs text children]. apply HP.
  induction children as [|c cs IHcs]; constructor; [apply IH|exact IHcs].
Qed.

(** The offset after some tokens. *)
Definition end_off (l : list (token * Z)) (o : Z) : Z := default o (snd <$> last l).

Lemma end_off_app l1 l2 o : end_off (l1 ++ l2) o = end_off l2 (end_off l1 o).
Proof. unfold end_off. rewrite last_app. by destruct (last l2). Qed.

Definition node_builder (x : xtree) : Builder :=
  let 'XNode n attrs text children := x in
  MkBuilder (xmlName n) (map (fun a => (xmlName a.1, a.2)) attrs) (map xelement children) text.

Lemma build_node x : build (node_builder x) = xelement x.
Proof. by destruct x. Qed.

(** The parser has read an element inside of an open one. *)
Definition reads_child (p : Parser) (x : xtree) : Prop := ∀ l st b ine d o rest,
  l.*1 = xtokens x → no_stream x = true → fits p l →
  parseLoop (l ++ rest) (mid_state p (st ++ [b]) ine d o) =
  parseLoop rest (mid_state p (st ++ [WithChild (xelement x) b]) false rest (end_off l o)).

Lemma reads_children p children : Forall (reads_child p) children →
  ∀ l st b ine d o rest, l.*1 = flat_map xtokens children →
  forallb no_stream children = true → fits p l →
  ∃ ine' d', parseLoop (l ++ rest) (mid_state p (st ++ [b]) ine d o) =
  parseLoop rest (mid_state p (st ++ [MkBuilder (b_name b) (b_attrs b)
    (b_children b ++ map xelement children) (b_text b)]) ine' d' (end_off l o)).
Proof.
  induction 1 as [|x children Hx Hch IH]; intros l st b ine d o rest Hl Hns Hf.
  { apply fmap_nil_inv in Hl as ->. exists ine, d. simpl. rewrite (right_id_L [] (++)). by destruct b. }
  simpl in Hl, Hns. apply andb_true_iff in Hns as [Hn Hns].
  apply fmap_app_inv in Hl as (l1 & l2 & H1 & H2 & ->). apply Forall_app in Hf as [Hf1 Hf2].
  rewrite <-(assoc_L (++)). rewrite Hx by done.
  destruct (IH l2 st (WithChild (xelement x) b) false (l2 ++ rest) (end_off l1 o) rest)
    as (ine' & d' & ->); [done..|].
  exists ine', d'. rewrite end_off_app. simpl. by rewrite <-(assoc_L (++)).
Qed.

(** Start tag, text and children: what is left is the end tag. *)
Lemma reads_body p n attrs text children : Forall (reads_child p) children →
  ∀ l st ine d o rest, l.*1 ++ [EndElement n] = xtokens (XNode n attrs text children) →
  no_stream (XNode n attrs text children) = true → fits p l →
  ∃ ine' d' o', parseLoop (l ++ rest) (mid_state p st ine d o) =
  parseLoop rest (mid_state p (st ++ [node_builder (XNode n attrs text children)]) ine' d' o').
Proof.
  intros Hch l st ine d o rest Hl Hns Hf. simpl in Hl, Hns.
  apply andb_true_iff in Hns as [Hn Hns]. apply negb_true_iff in Hn.
  destruct l as [|[t0 o0] l]; simpl in Hl.
  { injection Hl as Hl. destruct (text =? "")%string; simpl in Hl; destruct children; done. }
  injection Hl as -> Hl. rewrite (assoc_L (++)) in Hl. apply app_inj_tail in Hl as [Hl _].
  apply fmap_app_inv in Hl as (lt & lc & Ht & Hc & ->).
  apply Forall_cons in Hf as [Hf0 Hf]. apply Forall_app in Hf as [Hft Hfc]. simpl in Hf0.
  simpl app. rewrite step_start by done. rewrite <-(assoc_L (++)).
  set (b0 := MkBuilder _ _ [] "").
  assert (∃ d1, parseLoop (lt ++ lc ++ rest) (mid_state p (st ++ [b0]) true (lt ++ lc ++ rest) o0) =
    parseLoop (lc ++ rest) (mid_state p (st ++ [WithText text b0]) true d1 (end_off lt o0))) as [d1 ->].
  { destruct (String.eqb_spec text "") as [->|Hne]; simpl in Ht.
    - symmetry in Ht. apply fmap_nil_inv in Ht as ->. eexists. done.
    - destruct lt as [|[t1 o1] [|]]; try discriminate Ht. injection Ht as <-.
      apply Forall_cons in Hft as [? _]. simpl app. rewrite step_text by done. eexists. done. }
  destruct (reads_children p children Hch lc st (WithText text b0) true d1
    (end_off lt o0) rest) as (ine' & d' & ->); [done..|].
  by eexists ine', d', _.
Qed.

Lemma end_split (n : xml_Name) (l : list (token * Z)) toks :
  l.*1 = toks ++ [EndElement n] → ∃ l' off, l = l' ++ [(EndElement n, off)] ∧ l'.*1 = toks.
Proof.
  intros Hl. apply fmap_app_inv in Hl as (l1 & l2 & H1 & H2 & ->).
  destruct l2 as [|[t off] [|]]; try discriminate H2. injection H2 as <-. eauto.
Qed.

Lemma xtokens_end n attrs text children : ∃ toks,
  xtokens (XNode n attrs text children) = toks ++ [EndElement n].
Proof. simpl. eexists. by rewrite (assoc_L (++)), app_comm_cons. Qed.

Lemma reads_tree p x : reads_child p x.
Proof.
  induction x as [n attrs text children Hch] using xtree_nested_ind.
  intros l st b ine d o rest Hl Hns Hf. destruct (xtokens_end n attrs text children) as [toks Ht].
  rewrite Ht in Hl. destruct (end_split n l toks Hl) as (l' & off & -> & Hl').
  apply Forall_app in Hf as [Hf He]. apply Forall_cons in He as [He _].
  rewrite <-(assoc_L (++)).
  destruct (reads_body p n attrs text children Hch l' (st ++ [b]) ine d o
    ([(EndElement n, off)] ++ rest)) as (ine' & d' & o' & ->); [by rewrite Ht, Hl'|done|done|].
  simpl in Hns. apply andb_true_iff in Hns as [Hn _]. apply negb_true_iff in Hn.
  change ([(EndElement n, off)] ++ rest) with ((EndElement n, off) :: rest).
  rewrite step_end by done. rewrite (build_node (XNode n attrs text children)). by rewrite end_off_app.
Qed.

(** A parser between two elements. *)
Definition idle (p : Parser) : Prop := stack p = [] ∧ pIndex p = rootElementIndex.

(** C13: The tokens of an element give the element back: from a parser between
    two elements, [Parse] reads exactly the tokens of the tree, whatever follows,
    gives its element and is between two elements again.  The tree holds no
    stream tag and stays within the size limit. *)
Theorem parse_roundtrip (x : xtree) (l rest : list (token * Z)) (p : Parser)
    (Hp : idle p) (Hdec : dec p = l ++ rest) (Hl : l.*1 = xtokens x)
    (Hns : no_stream x = true) (Hfit : fits p l) :
  ∃ p', Parse p = (Ok (Some (xelement x)), p') ∧ idle p' ∧ dec p' = rest ∧
    lastOffset p' = end_off l (dec_off p).
Proof.
  destruct Hp as [Hst Hi], x as [n attrs text children].
  destruct (xtokens_end n attrs text children) as [toks Ht].
  rewrite Ht in Hl. destruct (end_split n l toks Hl) as (l' & off & -> & Hl').
  apply Forall_app in Hfit as [Hf He]. apply Forall_cons in He as [He _].
  assert (p = mid_state p [] (inElement p) (dec p) (dec_off p)) as Hp.
  { destruct p; simpl in *; subst; done. }
  assert (Parse p = parseLoop ((l' ++ [(EndElement n, off)]) ++ rest)
    (mid_state p [] (inElement p) (dec p) (dec_off p))) as ->.
  { unfold Parse, mbind, M_bind, gets. rewrite Hdec at 1. by rewrite <-Hdec, <-Hp. }
  rewrite <-(assoc_L (++)).
  destruct (reads_body p n attrs text children
    (Forall_true _ _ (reads_tree p)) l' [] (inElement p) (dec p) (dec_off p)
    ([(EndElement n, off)] ++ rest)) as (ine' & d' & o' & ->); [by rewrite Ht, Hl'|done|done|].
  simpl in Hns. apply andb_true_iff in Hns as [Hn _]. apply negb_true_iff in Hn.
  change ([] ++ [node_builder (XNode n attrs text children)])
    with ([node_builder (XNode n attrs text children)]).
  change ([(EndElement n, off)] ++ rest) with ((EndElement n, off) :: rest).
  rewrite step_end_root by done. rewrite (build_node (XNode n attrs text children)).
  eexists. split; [done|]. rewrite end_off_app. done.
Qed.

(** ** Arbitrary input *)

(** The index points at the top of the stack, and text is only taken into an
    open element. *)
Definition parser_ok (p : Parser) : Prop :=
  pIndex p = Z.of_nat (length (stack p)) - 1 ∧ (inElement p = true → stack p ≠ []).

Definition never (_ : crash) : Prop := False.

Lemma stack_top (s : list Builder) : s ≠ [] → ∃ s' b, s = s' ++ [b].
Proof. intros Hs. destruct (exists_last Hs) as (s' & b & ->). eauto. Qed.

Lemma ok_mid p : parser_ok p → p = mid_state p (stack p) (inElement p) (dec p) (dec_off p).
Proof. intros [Hi _]. destruct p; simpl in *. by rewrite Hi. Qed.

Lemma closeElement_ok name :
  hoare never parser_ok (closeElement name) (fun _ => parser_ok) (fun _ => True).
Proof.
  intros p Hp. pose proof (ok_mid p Hp) as Hm. revert Hm. generalize (inElement p).
  destruct (stack p) as [|b0 s0] eqn:Hs; intros ine Hm.
  { unfold closeElement, mbind, M_bind, gets. rewrite Hm. done. }
  destruct (stack_top (b0 :: s0)) as (s' & c & E); [done|]. rewrite E in Hm. clear E Hs Hp.
  set (d := dec p) in *. set (o := dec_off p) in *.
  destruct (String.eqb_spec name (b_name c)) as [->|Hne].
  - destruct (decide (s' = [])) as [->|Hs'].
    + rewrite Hm. simpl app. rewrite close_root. split; simpl; done.
    + destruct (stack_top s' Hs') as (s2 & b & ->). rewrite Hm, close_inner.
      split; [done|]. simpl. done.
  - rewrite Hm. unfold closeElement, stack_at, mbind, M_bind. simpl.
    rewrite (proj2 (Z.eqb_neq _ _)) by (rewrite length_app; simpl; unfold rootElementIndex; lia).
    rewrite top_nonneg, lookup_top. simpl. unfold build. rewrite Name_Build.
    by rewrite (proj2 (String.eqb_neq _ _)).
Qed.

Lemma setElementText_ok t :
  hoare never (fun p => parser_ok p ∧ inElement p = true) (setElementText t)
    (fun _ => parser_ok) (fun _ => True).
Proof.
  intros p [Hp Hin]. destruct (stack_top (stack p)) as (s' & b & E); [by apply Hp|].
  rewrite (ok_mid p Hp), E, Hin. unfold setElementText, stack_at, stack_put, mbind, M_bind. simpl.
  rewrite top_nonneg, lookup_top. simpl. split; simpl.
  - by rewrite length_insert.
  - rewrite insert_top. by destruct s'.
Qed.

Lemma startElement_ok n attrs :
  hoare never parser_ok (startElement n attrs) (fun _ => parser_ok) (fun _ => True).
Proof. intros p Hp. split; simpl; [done|]. intros _. by destruct (stack p). Qed.

Lemma processToken_ok t :
  hoare never parser_ok (processToken t) (fun _ => parser_ok) (fun _ => True).
Proof.
  unfold processToken. eapply hoare_bind; [apply hoare_gets|intros p0].
  eapply hoare_pre with (P' := fun p => parser_ok p ∧ p = p0); [by intros p [Hp ->]|].
  case_match; [by intros p _|]. destruct t as [n attrs|text|n|].
  - eapply hoare_bind; [eapply hoare_pre; [|apply startElement_ok]; by intros p []|intros ?].
    case_match; [|intros p Hp; exact Hp].
    eapply hoare_bind; [apply closeElement_ok|intros ? p Hp; exact Hp].
  - eapply hoare_bind with (R := fun _ => parser_ok); [|intros ? p Hp; exact Hp].
    destruct (inElement p0) eqn:Hin; [|by intros p []].
    eapply hoare_pre; [|apply setElementText_ok]. by intros p [Hp ->].
  - case_match; [by intros p _|].
    eapply hoare_bind; [eapply hoare_pre; [|apply closeElement_ok]; by intros p []|intros ?].
    intros p Hp. exact Hp.
  - by intros p [].
Qed.

Lemma parseLoop_ok toks :
  hoare never parser_ok (parseLoop toks) (fun _ => parser_ok) (fun _ => True).
Proof.
  induction toks as [|[t off] toks IH]; [by intros p Hp|]. cbn [parseLoop].
  eapply hoare_bind with (R := fun _ => parser_ok); [by intros p Hp|intros _].
  eapply hoare_bind; [apply processToken_ok|intros []]; [|apply IH]. intros p Hp. exact Hp.
Qed.

(** On any input, [Parse] does not panic, up to and including the call that
    returns the first error: a call that succeeds leaves the parser in a state
    from which the next call does not panic either. *)
Theorem parse_no_panic (input : list (token * Z)) (err : goerror) (m : ParsingMode) (max : Z)
    (n : nat) :
  match Nat.iter n (fun r : outcome unit * Parser =>
          match r with
          | (Ok _, p) => let '(r', p') := Parse p in
                         (match r' with Ok _ => Ok tt | Err e => Err e | Crash c => Crash c end, p')
          | _ => r
          end) (Ok tt, NewParser input err m max) with
  | (Crash _, _) => False
  | (Ok _, p) => parser_ok p
  | (Err _, _) => True
  end.
Proof.
  induction n as [|n IH]; [done|]. simpl.
  destruct (Nat.iter n _ _) as [[[]|e|c] p]; [|done..].
  pose proof (parseLoop_ok (dec p) p IH) as Hp. unfold Parse, mbind, M_bind, gets.
  by destruct (parseLoop (dec p) p) as [[]].
Qed.

(** The elements the parser gives are plain elements, not stanza values. *)
Definition plain_next (p : Parser) : Prop := ∀ e, nextElement p = Some e → Kind e = None.

Lemma closeElement_plain name : keeps (stable plain_next) (closeElement name).
Proof.
  unfold closeElement, stack_at, stack_put, stack_len. keeps_auto;
    try (by apply keeps_modify; intros p Hp).
  apply keeps_modify. intros p _ e [= <-]. apply Kind_Build.
Qed.

Lemma processToken_plain t : keeps (stable plain_next) (processToken t).
Proof.
  unfold processToken, startElement, setElementText, endElement, stack_at, stack_put, stack_len.
  keeps_auto; try apply closeElement_plain; try (by apply keeps_modify; intros p Hp).
Qed.

Lemma parseLoop_plain toks : hoare (fun _ => True) plain_next (parseLoop toks)
  (fun r p => plain_next p ∧ ∀ e, r = Some e → Kind e = None) (fun _ => True).
Proof.
  induction toks as [|[t off] toks IH]; [by intros p Hp|]. cbn [parseLoop].
  eapply hoare_bind with (R := fun _ => plain_next); [by intros p Hp|intros _].
  eapply hoare_bind with (R := fun _ => plain_next).
  - intros p Hp. pose proof (processToken_plain t p Hp) as Hp'.
    by destruct (processToken t p) as [[] p'].
  - intros []; [|exact IH]. intros p Hp. simpl. split; [by intros e|]. apply Hp.
Qed.

Lemma Parse_plain p p' r : plain_next p → Parse p = (Ok r, p') →
  plain_next p' ∧ ∀ e, r = Some e → Kind e = None.
Proof.
  intros Hp Hok. pose proof (parseLoop_plain (dec p) p Hp) as Hs.
  unfold Parse, mbind, M_bind, gets in Hok. by rewrite Hok in Hs.
Qed.

(** The fields that only the end of an element and the decoder change. *)
Definition same_span (p p' : Parser) : Prop :=
  lastOffset p' = lastOffset p ∧ maxStanzaSize p' = maxStanzaSize p ∧ dec_off p' = dec_off p.

#[local] Instance same_span_preorder : PreOrder same_span.
Proof. split; [done|]. intros p q r (?&?&?) (?&?&?). repeat split; congruence. Qed.

#[local] Hint Extern 1 (keeps same_span (modify _)) => by apply keeps_modify : gomonad.

Lemma closeElement_span name : keeps same_span (closeElement name).
Proof. unfold closeElement, stack_at, stack_put, stack_len. keeps_auto. Qed.
#[local] Hint Resolve closeElement_span : gomonad.

Lemma processToken_span t : keeps same_span (processToken t).
Proof.
  unfold processToken, startElement, setElementText, endElement, stack_at, stack_put, stack_len.
  keeps_auto.
Qed.

Definition sized (o m : Z) (p : Parser) : Prop := lastOffset p = o ∧ maxStanzaSize p = m.

Lemma parseLoop_sized o m toks : hoare (fun _ => True) (sized o m) (parseLoop toks)
  (fun _ p' => (0 < m → dec_off p' - o <= m) ∧ sized (dec_off p') m p') (fun _ => True).
Proof.
  induction toks as [|[t off] toks IH]; [by intros p Hp|]. cbn [parseLoop].
  eapply hoare_bind with (R := fun _ => sized o m); [by intros p Hp|intros _].
  eapply hoare_bind with (R := fun done p => sized o m p ∧ (0 < m → dec_off p - o <= m)).
  - intros p [<- <-]. pose proof (processToken_span t p) as (Ho & Hm & Hd).
    destruct (processToken t p) as [[b|e|c] p'] eqn:Hp; [|done..]. simpl in *.
    split; [by split|]. rewrite Hd. intros Hpos. unfold processToken, get, mbind, M_bind in Hp.
    simpl in Hp. destruct (_ && _) eqn:Hchk; [done|].
    apply andb_false_iff in Hchk as [Hchk|Hchk]; lia.
  - intros []; [|eapply hoare_pre; [|exact IH]; by intros p []].
    intros p [[Ho Hm] Hb]. simpl. done.
Qed.

(** C39: With a limit set, an element that [Parse] gives took at most that many
    bytes of input since the end of the previous one. *)
Theorem parse_size_bound (p p' : Parser) (e : option Element)
    (Hlim : 0 < maxStanzaSize p) (Hok : Parse p = (Ok e, p')) :
  lastOffset p' = dec_off p' ∧ lastOffset p' - lastOffset p <= maxStanzaSize p.
Proof.
  pose proof (parseLoop_sized (lastOffset p) (maxStanzaSize p) (dec p) p (conj eq_refl eq_refl)) as Hs.
  unfold Parse, mbind, M_bind, gets in Hok. rewrite Hok in Hs. destruct Hs as [Hb [Ho Hm]].
  split; [done|]. rewrite Ho. auto.
Qed.

(** White space between elements, one byte at a time. *)
Definition keepalives (from : Z) (n : nat) : list (token * Z) :=
  map (fun i => (CharData " ", from + Z.of_nat i)) (seq 1 n).

(** The limit counts the white space a client sends between elements to keep
    the connection alive: after as many such bytes as a stanza may have, the next
    one makes [Parse] fail although no element is open. *)
Theorem keepalives_exhaust_limit (p : Parser) (rest : list (token * Z))
    (Hin : inElement p = false) (Hoff : dec_off p = lastOffset p) (Hlim : 0 < maxStanzaSize p)
    (Hdec : dec p = keepalives (dec_off p) (S (Z.to_nat (maxStanzaSize p))) ++ rest) :
  (Parse p).1 = Err ErrTooLargeStanza.
Proof.
  unfold Parse, mbind, M_bind, gets. simpl. rewrite Hdec. clear Hdec.
  set (m := Z.to_nat (maxStanzaSize p)). rewrite Hoff. unfold keepalives.
  assert (∀ (k j : nat) q, (j + k)%nat = S m → (1 <= j)%nat → inElement q = false → lastOffset q = lastOffset p →
    maxStanzaSize q = maxStanzaSize p →
    (parseLoop (map (fun i => (CharData " ", lastOffset p + Z.of_nat i)) (seq j (S k)) ++ rest) q).1 =
    Err ErrTooLargeStanza) as Hloop.
  { induction k as [|k IH]; intros j q Hj H1 Hq Ho Hm.
    - simpl. unfold processToken, get, mbind, M_bind. simpl. rewrite Ho, Hm.
      by rewrite (proj2 (Z.ltb_lt _ _)), (proj2 (Z.ltb_lt _ _)) by lia.
    - change (seq j (S (S k))) with (j :: seq (S j) (S k)). cbn [map app].
      rewrite step_other; [apply (IH (S j)); simpl; (done || lia)|].
      unfold processToken, get, mbind, M_bind. simpl. rewrite Ho, Hm, Hq.
      by rewrite (proj2 (Z.ltb_ge (maxStanzaSize p) _)), andb_false_r by lia. }
  apply (Hloop m 1%nat); done || lia.
Qed.

End parser.

(** ** Witnesses, and input after an error *)
Module ParserDemo.
Import TreeLib.

Definition nm (s : string) : xml_Name := MkName "" s.
Definition doc : xtree :=
  XNode (nm "message") [(nm "to", "juliet@jackal.im")] "" [XNode (nm "body") [] "hello" []].
Definition offsets (from : Z) (l : list token) : list (token * Z) :=
  zip l (map (fun i => from + 8 * Z.of_nat i) (seq 1 (length l))).
Definition parser (l : list (token * Z)) : @Parser tree_jid tree_xml :=
  NewParser l (ErrText "EOF") SocketStream 32768.

Lemma parse_roundtrip_witness : ∃ p',
  Parse (parser (offsets 0 (xtokens doc))) =
    (Ok (Some (TNode "message" [("to", "juliet@jackal.im")] [TNode "body" [] [] "hello" None] "" None)), p') ∧
  idle p' ∧ dec p' = [] ∧ lastOffset p' = 40.
Proof.
  apply (@parse_roundtrip tree_jid tree_xml doc (offsets 0 (xtokens doc)) []);
    [by split|by rewrite (right_id_L [] (++))|vm_compute; reflexivity|vm_compute; reflexivity|].
  unfold fits. repeat constructor.
Defined.

Lemma parse_size_bound_witness :
  lastOffset (Parse (parser (offsets 0 (xtokens doc)))).2 - 0 <= 32768.
Proof.
  eapply (@parse_size_bound tree_jid tree_xml (parser (offsets 0 (xtokens doc))));
    [vm_compute; reflexivity|apply fst_Ok; vm_compute; reflexivity].
Defined.

Lemma keepalives_exhaust_limit_witness :
  (Parse (@NewParser tree_jid tree_xml (keepalives 0 9) (ErrText "EOF") SocketStream 8)).1 =
  Err ErrTooLargeStanza.
Proof.
  apply (@keepalives_exhaust_limit tree_jid tree_xml _ []);
    [done|done|vm_compute; reflexivity|vm_compute; reflexivity].
Defined.

(** An end tag that does not match, followed by text. *)
Definition broken : list (token * Z) :=
  offsets 0 [StartElement (nm "a") []; StartElement (nm "b") []; EndElement (nm "a");
             CharData "text"].

End ParserDemo.

(** After the error of an end tag that does not match the open element, the
    index is left pointing past the stack: text that is already in the input
    buffer makes the next call of [Parse] panic with an index out of range. *)
Theorem parse_after_error_panics :
  let p := ParserDemo.parser ParserDemo.broken in
  (Parse p).1 = Err (errUnexpectedEnd "a") ∧
  (Parse (Parse p).2).1 = Crash IndexOutOfRange.
Proof. vm_compute. auto. Qed.
