(* ===== verification/Hooks.v ===== *)
(** * The hook registry (pkg/hook/hooks.go)

    Modules extend the server by registering handlers under hook names.  A
    handler is a Go function: its behaviour is a computation on the state the
    handlers share, its identity is its code pointer, which [RemoveHook]
    compares. *)

From stdpp Require Import base list strings gmap sorting.
From Stdlib Require Import ZArith Lia.
From S2P Require Import Prelude GoLib.

(** [Priority]: an [int32] *)
Definition LowestPriority : Z := - 2 ^ 31.
Definition LowPriority : Z := - 2 ^ 31 + 1000.
Definition DefaultPriority : Z := 0.
Definition HighPriority : Z := 2 ^ 31 - 1 - 1000.
Definition HighestPriority : Z := 2 ^ 31 - 1.

Section hooks.
Context `{SortSlice} {S : Type}.

Record handler := MkHandler {
  ptr : Z;
  h : M S unit;
  p : Z;
}.

(** [Hooks.handlers], the map of registered handlers; a missing key reads as
    the nil slice. *)
Definition Hooks : Type := gmap string (list handler).

Definition NewHooks : Hooks := ∅.

Definition handlers_of (hook : string) (hk : gmap string (list handler)) : list handler :=
  default [] (hk !! hook).

(** [AddHook] *)
Definition AddHook (hook : string) (hnd_ptr : Z) (hnd : M S unit) (priority : Z)
    (hk : gmap string (list handler)) : gmap string (list handler) :=
  let handlers := handlers_of hook hk ++ [MkHandler hnd_ptr hnd priority] in
  <[hook := sort_slice (desc_by p) handlers]> hk.

(** The loop of [RemoveHook]: the slice without its first handler with that
    code pointer, or [None] when there is none. *)
Fixpoint remove_first (hnd_ptr : Z) (hs : list handler) : option (list handler) :=
  match hs with
  | [] => None
  | hd :: hs' =>
    if Z.eqb (ptr hd) hnd_ptr then Some hs'
    else hs'' ← remove_first hnd_ptr hs'; Some (hd :: hs'')
  end.

(** [RemoveHook] *)
Definition RemoveHook (hook : string) (hnd_ptr : Z)
    (hk : gmap string (list handler)) : gmap string (list handler) :=
  match remove_first hnd_ptr (handlers_of hook hk) with
  | Some hs => <[hook := hs]> hk
  | None => hk
  end.

(** The loop of [Run]. *)
Fixpoint run_handlers (hs : list handler) : M S bool :=
  match hs with
  | [] => mret false
  | hd :: hs' =>
    r ← try (h hd);
    match r with
    | inr _ => run_handlers hs'
    | inl e => if decide (e = ErrStopped) then mret true else fail e
    end
  end.

(** [Run]: the result is [halted]. *)
Definition Run (hook : string) (hk : gmap string (list handler)) : M S bool :=
  run_handlers (handlers_of hook hk).

(** ** Registration histories *)
Inductive hook_op :=
| OpAdd (hook : string) (hnd_ptr : Z) (hnd : M S unit) (priority : Z)
| OpRemove (hook : string) (hnd_ptr : Z).

Definition hook_apply (hk : gmap string (list handler)) (o : hook_op)
    : gmap string (list handler) :=
  match o with
  | OpAdd hook q hnd pr => AddHook hook q hnd pr hk
  | OpRemove hook q => RemoveHook hook q hk
  end.

Definition registered (ops : list hook_op) : gmap string (list handler) :=
  foldl hook_apply NewHooks ops.

Definition by_priority (x y : handler) : Prop := (p y ≤ p x)%Z.

Definition hooks_sorted (hk : gmap string (list handler)) : Prop :=
  ∀ hook, StronglySorted by_priority (handlers_of hook hk).

Lemma sort_by_priority hs : StronglySorted by_priority (sort_slice (desc_by p) hs).
Proof.
  pose proof (sort_slice_sorted (desc_by p) hs _) as Hs.
  induction Hs as [|x l Hs IH Hx]; constructor; [done|].
  eapply Forall_impl; [exact Hx|]. unfold desc_by, by_priority. intros; lia.
Qed.

Lemma remove_first_sublist q hs hs' : remove_first q hs = Some hs' → hs' `sublist_of` hs.
Proof.
  revert hs'. induction hs as [|x hs IH]; intros hs' Hr; simplify_eq/=.
  case_match; simplify_eq/=; [by apply sublist_cons|].
  destruct (remove_first q hs) as [hs''|]; simplify_eq/=.
  constructor. by apply IH.
Qed.

Lemma StronglySorted_sublist {A} (R : A → A → Prop) l k :
  l `sublist_of` k → StronglySorted R k → StronglySorted R l.
Proof.
  induction 1 as [|x l k Hs IH|x l k Hs IH]; intros Hk; [done| |].
  - apply StronglySorted_inv in Hk as [Hk Hx]. constructor; [by apply IH|].
    rewrite Forall_forall in *. intros y Hy. apply Hx. by eapply elem_of_sublist.
  - apply StronglySorted_inv in Hk as [Hk _]. by apply IH.
Qed.

Lemma handlers_of_insert hook hs hk hook' :
  handlers_of hook' (<[hook := hs]> hk) =
    if decide (hook = hook') then hs else handlers_of hook' hk.
Proof. unfold handlers_of. rewrite lookup_insert. by case_decide. Qed.

Lemma hooks_sorted_apply hk o : hooks_sorted hk → hooks_sorted (hook_apply hk o).
Proof.
  intros Hs hook. destruct o as [k q hnd pr|k q]; simpl.
  - unfold AddHook. rewrite handlers_of_insert. case_decide; [apply sort_by_priority|apply Hs].
  - unfold RemoveHook. case_match eqn:Hr; [|apply Hs].
    rewrite handlers_of_insert. case_decide; [subst|apply Hs].
    eapply StronglySorted_sublist; [by eapply remove_first_sublist|apply Hs].
Qed.

Lemma registered_sorted ops : hooks_sorted (registered ops).
Proof.
  unfold registered. assert (hooks_sorted NewHooks) as H0 by (intros hook; constructor).
  revert H0. generalize NewHooks. induction ops as [|o ops IH]; intros hk Hk; simpl; [done|].
  apply IH. by apply hooks_sorted_apply.
Qed.

(** Runs the handlers of a list one after the other, each one returning nil. *)
Fixpoint all_nil (hs : list handler) (s s' : S) : Prop :=
  match hs with
  | [] => s = s'
  | hd :: hs' => ∃ s1, h hd s = (Ok tt, s1) ∧ all_nil hs' s1 s'
  end.

(** How a run of handlers ends: after all of them, or at the one that stops
    the hook, fails or panics. *)
Lemma run_handlers_cases hs s : ∃ pre post s1,
  hs = pre ++ post ∧ all_nil pre s s1 ∧
  match post with
  | [] => run_handlers hs s = (Ok false, s1)
  | hd :: _ =>
    match h hd s1 with
    | (Ok _, _) => False
    | (Err e, s2) => run_handlers hs s =
        (if decide (e = ErrStopped) then Ok true else Err e, s2)
    | (Crash c, s2) => run_handlers hs s = (Crash c, s2)
    end
  end.
Proof.
  revert s. induction hs as [|hd hs IH]; intros s; simpl; [by exists [], [], s|].
  unfold mbind, M_bind, try.
  destruct (h hd s) as [[[]|e|c] s1] eqn:Hh.
  - destruct (IH s1) as (pre & post & s2 & -> & Hpre & Hpost).
    exists (hd :: pre), post, s2. split; [done|]. split; [simpl; eauto|done].
  - exists [], (hd :: hs), s. split; [done|]. split; [done|]. rewrite Hh.
    by case_decide.
  - exists [], (hd :: hs), s. split; [done|]. split; [done|]. by rewrite Hh.
Qed.

Lemma sorted_app_le pre post x y :
  StronglySorted by_priority (pre ++ post) → x ∈ pre → y ∈ post → (p y ≤ p x)%Z.
Proof.
  induction pre as [|z pre IH]; intros Hs Hx Hy; [by apply not_elem_of_nil in Hx|].
  simpl in Hs. apply StronglySorted_inv in Hs as [Hs Hz].
  apply elem_of_cons in Hx as [->|Hx]; [|by apply IH].
  rewrite Forall_forall in Hz. apply Hz. set_solver.
Qed.

(** After any history of [AddHook] and [RemoveHook], [Run] executes the
    handlers of the hook in descending priority: those that ran have a priority
    at least that of those that did not.  It returns [halted] exactly when a
    handler returned [ErrStopped], and the first failing handler's error
    otherwise; no later handler runs. *)
Theorem run_in_priority_order (ops : list hook_op) (hook : string) (s : S) :
  let hk := registered ops in
  ∃ pre post s1, handlers_of hook hk = pre ++ post ∧ all_nil pre s s1 ∧
    (∀ x y, x ∈ pre → y ∈ post → (p y ≤ p x)%Z) ∧
    match post with
    | [] => Run hook hk s = (Ok false, s1)
    | hd :: _ =>
      match h hd s1 with
      | (Ok _, _) => False
      | (Err e, s2) => Run hook hk s =
          (if decide (e = ErrStopped) then Ok true else Err e, s2)
      | (Crash c, s2) => Run hook hk s = (Crash c, s2)
      end
    end.
Proof.
  simpl. destruct (run_handlers_cases (handlers_of hook (registered ops)) s)
    as (pre & post & s1 & Heq & Hpre & Hpost).
  exists pre, post, s1. split; [done|]. split; [done|]. split; [|done].
  intros x y. apply sorted_app_le. rewrite <-Heq. apply registered_sorted.
Qed.

(** Registering a handler and removing it again leaves the hook with the same
    handlers (up to the order of equal priorities), and no other hook changes. *)
Lemma remove_first_perm q hs :
  q ∉ ptr <$> hs → ∀ l x, ptr x = q → l ≡ₚ hs ++ [x] →
  ∃ l', remove_first q l = Some l' ∧ l' ≡ₚ hs.
Proof.
  intros Hq l. revert hs Hq. induction l as [|y l IH]; intros hs Hq x Hx Hl.
  { symmetry in Hl. apply Permutation_nil_r in Hl. by destruct hs. }
  simpl. destruct (Z.eqb_spec (ptr y) q) as [Hy|Hy].
  - exists l. split; [done|].
    assert (y ∈ hs ++ [x]) as Hin by (rewrite <-Hl; set_solver).
    apply elem_of_app in Hin as [Hin|Hin].
    + destruct Hq. apply list_elem_of_fmap. by exists y.
    + apply list_elem_of_singleton in Hin as ->. apply (Permutation_cons_inv (a := x)).
      rewrite Hl. by rewrite Permutation_app_comm.
  - assert (y ∈ hs) as Hin.
    { assert (y ∈ hs ++ [x]) as Hin by (rewrite <-Hl; set_solver).
      apply elem_of_app in Hin as [Hin|Hin]; [done|].
      apply list_elem_of_singleton in Hin as ->. done. }
    apply list_elem_of_split in Hin as (h1 & h2 & ->).
    destruct (IH (h1 ++ h2)) with (x := x) as (l' & Hl' & Hp); [set_solver|done| |].
    + apply (Permutation_cons_inv (a := y)). rewrite Hl.
      by rewrite <-!app_assoc, <-app_comm_cons, <-Permutation_middle.
    + exists (y :: l'). rewrite Hl'. split; [done|]. rewrite Hp.
      by rewrite <-Permutation_middle.
Qed.

(** [RemoveHook] undoes [AddHook]: for a handler that was not registered yet,
    adding and removing it gives the same handlers back, and the other hooks are
    untouched. *)
Theorem add_remove_hook (hk : gmap string (list handler)) (hook : string)
    (q : Z) (hnd : M S unit) (priority : Z)
    (Hnew : q ∉ ptr <$> handlers_of hook hk) :
  let hk' := RemoveHook hook q (AddHook hook q hnd priority hk) in
  handlers_of hook hk' ≡ₚ handlers_of hook hk ∧
  ∀ hook', hook' ≠ hook → handlers_of hook' hk' = handlers_of hook' hk.
Proof.
  simpl. unfold RemoveHook, AddHook. rewrite handlers_of_insert, decide_True by done.
  destruct (remove_first_perm q (handlers_of hook hk) Hnew
    (sort_slice (desc_by p) (handlers_of hook hk ++ [MkHandler q hnd priority]))
    (MkHandler q hnd priority) eq_refl) as (l' & Hl' & Hp); [apply sort_slice_perm|].
  rewrite Hl'. split.
  - by rewrite handlers_of_insert, decide_True.
  - intros hook' Hne. rewrite !handlers_of_insert, !decide_False by done. done.
Qed.

End hooks.

Arguments handler : clear implicits.
Arguments hook_op : clear implicits.

(** Two handlers that log their names, the second one stopping the hook. *)
Lemma add_remove_hook_witness :
  let hk := AddHook "k" 1 (S := list string) (modify (cons "a")) 0 NewHooks in
  let hk' := RemoveHook "k" 2 (AddHook "k" 2 (fail ErrStopped) 5 hk) in
  handlers_of "k" hk' ≡ₚ handlers_of "k" hk ∧
  ∀ hook', hook' ≠ "k" → handlers_of hook' hk' = handlers_of hook' hk.
Proof.
  apply (add_remove_hook (S := list string)
    (AddHook "k" 1 (modify (cons "a")) 0 NewHooks) "k" 2 (fail ErrStopped) 5).
  vm_compute. intros Hin. inversion Hin as [|? ? ? Hin']; subst. inversion Hin'.
Defined.
