(* ===== verification/Hosts.v ===== *)
(** * Local hosts and traffic shapers

    [pkg/host/hosts.go], [pkg/util/stringmatcher] and [pkg/shaper/shaper.go]:
    the configuration every stream consults. *)

From stdpp Require Import base list strings gmap sorting.
From Stdlib Require Import ZArith Lia Ascii.
From S2P Require Import Prelude GoLib Stravaganza.

(** ** Hosts *)
Module Host.
Section hosts.
(** Certificates, and [tlsutil.LoadCertificate(keyFile, certFile, domain)],
    which reads files or generates a self-signed certificate. *)
Context {Certificate : Type}.
Context (LoadCertificate : string → string → string → outcome Certificate).

Record Hosts := MkHosts {
  defaultHost : string;
  hosts : gmap string Certificate;
}.

Record Config := MkConfig {
  cfg_Domain : string;
  CertFile : string;
  PrivateKeyFile : string;
}.

Definition defaultDomain : string := "localhost".

Definition RegisterDefaultHost (h : string) (cer : Certificate) (hs : Hosts) : Hosts :=
  MkHosts h (<[h := cer]> (hosts hs)).

Definition RegisterHost (h : string) (cer : Certificate) (hs : Hosts) : Hosts :=
  MkHosts (defaultHost hs) (<[h := cer]> (hosts hs)).

Definition DefaultHostName (hs : Hosts) : string := defaultHost hs.

Definition IsLocalHost (h : string) (hs : Hosts) : bool :=
  match hosts hs !! h with Some _ => true | None => false end.

(** The order of Go strings is bytewise. *)
Definition string_less (a b : string) : bool := String.ltb a b.

(** [HostNames]: the keys of the map, in sorted order. *)
Definition HostNames `{SortSlice} (hs : Hosts) : list string :=
  sort_slice string_less (map_to_list (hosts hs)).*1.

Definition Certificates (hs : Hosts) : list Certificate := (map_to_list (hosts hs)).*2.

(** The loop of [NewHosts]; [first] tells whether the index is 0. *)
Fixpoint load_hosts (first : bool) (cfg : list Config) (hs : Hosts) : outcome Hosts :=
  match cfg with
  | [] => Ok hs
  | c :: cfg' =>
    cer ← LoadCertificate (PrivateKeyFile c) (CertFile c) (cfg_Domain c);
    load_hosts false cfg'
      (if first then RegisterDefaultHost (cfg_Domain c) cer hs
       else RegisterHost (cfg_Domain c) cer hs)
  end.

(** [NewHosts] *)
Definition NewHosts (cfg : list Config) : outcome Hosts :=
  let hs := MkHosts "" ∅ in
  match cfg with
  | [] =>
    cer ← LoadCertificate "" "" defaultDomain;
    Ok (RegisterDefaultHost defaultDomain cer hs)
  | _ => load_hosts true cfg hs
  end.

(** The domains a configuration names. *)
Definition domains (cfg : list Config) : list string :=
  match cfg with [] => [defaultDomain] | _ => cfg_Domain <$> cfg end.

Lemma IsLocalHost_insert h k cer d hs :
  IsLocalHost h (MkHosts d (<[k := cer]> (hosts hs))) =
    bool_decide (h = k) || IsLocalHost h hs.
Proof.
  unfold IsLocalHost. simpl. rewrite lookup_insert. case_decide.
  - by rewrite bool_decide_true.
  - by rewrite bool_decide_false.
Qed.

Lemma load_hosts_local cfg : ∀ hs hs', load_hosts false cfg hs = Ok hs' →
  defaultHost hs' = defaultHost hs ∧
  ∀ d, IsLocalHost d hs' = bool_decide (d ∈ cfg_Domain <$> cfg) || IsLocalHost d hs.
Proof.
  induction cfg as [|c cfg IH]; intros hs hs' Hl; simpl in Hl.
  { simplify_eq. split; [done|]. intros d. by rewrite bool_decide_false by set_solver. }
  destruct (LoadCertificate _ _ _) as [cer|e|cr]; [|done..].
  apply IH in Hl as [Hd Hloc]. split; [exact Hd|]. intros d. rewrite Hloc.
  unfold RegisterHost. rewrite IsLocalHost_insert, orb_assoc. f_equal.
  rewrite <-bool_decide_or. apply bool_decide_ext. set_solver.
Qed.

(** A successful [NewHosts] makes exactly the configured domains local
    ([localhost] when none is configured) and the first one the default. *)
Theorem new_hosts_spec (cfg : list Config) (hs : Hosts) (Hok : NewHosts cfg = Ok hs) :
  (∀ d, IsLocalHost d hs = true ↔ d ∈ domains cfg) ∧
  head (domains cfg) = Some (DefaultHostName hs) ∧
  IsLocalHost (DefaultHostName hs) hs = true.
Proof.
  assert ((∀ d, IsLocalHost d hs = true ↔ d ∈ domains cfg) ∧
    head (domains cfg) = Some (DefaultHostName hs)) as [H1 H2].
  { destruct cfg as [|c cfg]; simpl in Hok;
      destruct (LoadCertificate _ _ _) as [cer|e|cr]; try done; simpl in Hok.
    - simplify_eq/=. split; [|done]. intros d. unfold RegisterDefaultHost.
      rewrite IsLocalHost_insert, orb_true_iff, bool_decide_eq_true.
      unfold IsLocalHost. simpl. rewrite lookup_empty. set_solver.
    - apply load_hosts_local in Hok as [Hd Hloc]. split; [|unfold DefaultHostName; by rewrite Hd].
      intros d. rewrite Hloc. unfold RegisterDefaultHost. rewrite IsLocalHost_insert.
      unfold IsLocalHost. simpl. rewrite lookup_empty, orb_false_r.
      rewrite orb_true_iff, !bool_decide_eq_true. set_solver. }
  split; [done|]. split; [done|]. apply H1. destruct (domains cfg); set_solver.
Qed.

End hosts.

Lemma new_hosts_spec_witness :
  let cfg := [MkConfig "jackal.im" "" ""; MkConfig "xmpp.org" "" ""] in
  let hs := MkHosts "jackal.im" (<["xmpp.org" := tt]> {["jackal.im" := tt]}) in
  (∀ d, IsLocalHost d hs = true ↔ d ∈ domains cfg) ∧
  head (domains cfg) = Some (DefaultHostName hs) ∧
  IsLocalHost (DefaultHostName hs) hs = true.
Proof. by apply (new_hosts_spec (fun _ _ _ => Ok tt)). Defined.

End Host.

(** ** String matchers *)
Module Matcher.

(** The matchers: [Any], an exact list of strings, a compiled expression. *)
Inductive t :=
| Any
| StringMatcher (strs : list string)
| RegexMatcher (regex : string → bool).

Fixpoint matches_any (strs : list string) (str : string) : bool :=
  match strs with
  | [] => false
  | s :: strs' => if String.eqb s str then true else matches_any strs' str
  end.

Definition Matches (m : t) (str : string) : bool :=
  match m with
  | Any => true
  | StringMatcher strs => matches_any strs str
  | RegexMatcher regex => regex str
  end.

Lemma matches_any_elem strs str : matches_any strs str = true ↔ str ∈ strs.
Proof.
  induction strs as [|s strs IH]; simpl; [set_solver|].
  destruct (String.eqb_spec s str); [set_solver|]. rewrite IH. set_solver.
Qed.

End Matcher.

(** ** Shapers *)
Module Shaper.
Section shaper.
Context `{JidLib}.

Record Shaper := MkShaper {
  sh_Name : string;
  MaxSessions : Z;
  rateLimit : Z;
  burst : Z;
  jidMatcher : Matcher.t;
}.

Definition defaultC2SShaper : Shaper := MkShaper "" 3 131072 65536 Matcher.Any.
Definition defaultS2SShaper : Shaper := MkShaper "" 0 262144 131072 Matcher.Any.

(** Configuration parameters of one shaper. *)
Record Config := MkConfig {
  cfg_Name : string;
  cfg_MaxSessions : Z;
  cfg_Limit : Z;
  cfg_Burst : Z;
  cfg_In : list string;
  cfg_RegEx : string;
}.

(** [New]; [regexp_Compile] is Go's regular expression compiler. *)
Definition New (regexp_Compile : string → outcome (string → bool)) (cfg : Config)
    : outcome Shaper :=
  matcher ←
    match cfg_In cfg with
    | _ :: _ => Ok (Matcher.StringMatcher (cfg_In cfg))
    | [] =>
      if String.eqb (cfg_RegEx cfg) "" then Ok Matcher.Any
      else re ← regexp_Compile (cfg_RegEx cfg); Ok (Matcher.RegexMatcher re)
    end;
  Ok (MkShaper (cfg_Name cfg) (cfg_MaxSessions cfg) (cfg_Limit cfg) (cfg_Burst cfg) matcher).

(** [RateLimiter]: the arguments [rate.NewLimiter] is called with. *)
Definition RateLimiter (s : Shaper) : Z * Z := (rateLimit s, burst s).

(** [Shapers.MatchingJID]; the JID pointer can be nil, and its [String] method
    reads it. *)
Fixpoint MatchingJID (ss : list Shaper) (j : option JID) : outcome Shaper :=
  match ss with
  | s :: ss' =>
    match j with
    | None => Crash NilDeref
    | Some jd => if Matcher.Matches (jidMatcher s) (JIDString jd) then Ok s
                 else MatchingJID ss' j
    end
  | [] =>
    match j with
    | Some jd => Ok (if IsServer jd then defaultS2SShaper else defaultC2SShaper)
    | None => Ok defaultC2SShaper
    end
  end.

Definition DefaultC2S : Shaper := defaultC2SShaper.
Definition DefaultS2S : Shaper := defaultS2SShaper.

(** [MatchingJID] gives the first shaper of the list whose matcher accepts the
    JID, and the built-in default of the JID's kind when none does. *)
Theorem matching_jid_first (ss : list Shaper) (j : JID) :
  (∃ pre s post, ss = pre ++ s :: post ∧ MatchingJID ss (Some j) = Ok s ∧
     Matcher.Matches (jidMatcher s) (JIDString j) = true ∧
     ∀ s', s' ∈ pre → Matcher.Matches (jidMatcher s') (JIDString j) = false) ∨
  ((∀ s, s ∈ ss → Matcher.Matches (jidMatcher s) (JIDString j) = false) ∧
   MatchingJID ss (Some j) = Ok (if IsServer j then defaultS2SShaper else defaultC2SShaper)).
Proof.
  induction ss as [|s ss IH]; simpl; [right; set_solver|].
  destruct (Matcher.Matches (jidMatcher s) (JIDString j)) eqn:Hs.
  - left. exists [], s, ss. set_solver.
  - destruct IH as [(pre & s' & post & -> & Hm & Hacc & Hpre)|[Hall Hm]].
    + left. exists (s :: pre), s', post. set_solver.
    + right. set_solver.
Qed.

End shaper.
End Shaper.
