(* ===== verification/Session.v ===== *)
(** * XMPP sessions (pkg/session/session.go)

    A session writes the stream header and elements to a transport and reads
    elements through the parser of [Parser]: it checks the header of the peer,
    the namespace of each stanza, and its addresses.  The session is a record,
    the transport the world [W]. *)

From stdpp Require Import base list strings gmap.
From Stdlib Require Import ZArith Lia.
From S2P Require Import Prelude GoLib GoHoare Stravaganza Hosts Parser.
Local Open Scope Z_scope.

Definition jabberClientNamespace : string := "jabber:client".
Definition jabberServerNamespace : string := "jabber:server".
Definition jabberComponentNamespace : string := "jabber:component:accept".
Definition streamNamespace : string := "http://etherx.jabber.org/streams".
Definition dialbackNamespace : string := "jabber:server:dialback".

Definition errAlreadyOpened : goerror := ErrText "session: already opened".
Definition errAlreadyClosed : goerror := ErrText "session: already closed".
Definition errInvalidSessionType : goerror := ErrText "session: invalid session type".
Definition errUnsupportedTransport : goerror := ErrText "session: unsupported transport type".

Inductive Type_ := C2SSession | S2SSession | ComponentSession.
#[global] Instance Type_eq_dec : EqDecision Type_.
Proof. solve_decision. Defined.

(** [transport.Type]: the socket, and any other value. *)
Inductive transportType := Socket | OtherTransport.
#[global] Instance transportType_eq_dec : EqDecision transportType.
Proof. solve_decision. Defined.

Record Config := MkConfig { MaxStanzaSize : Z; IsOut : bool }.

(** Attribute names of the stream header. *)
Definition AttrVersion : string := "version".
Definition AttrStreamNamespace : string := "xmlns:stream".

Section session.
Context `{StanzaBuild} {Certificate : Type}.

(** [Session]; [jd] is a JID value whose zero value is [None]. *)
Record Session := MkSession {
  typ : Type_;
  cfg : Config;
  hosts : Host.Hosts (Certificate := Certificate);
  pr : Parser;
  streamID : string;
  jd : option JID;
  opened : bool;
  started : bool;
}.

Definition set_pr (p : Parser) (s : Session) : Session :=
  MkSession (typ s) (cfg s) (hosts s) p (streamID s) (jd s) (opened s) (started s).
Definition set_streamID (i : string) (s : Session) : Session :=
  MkSession (typ s) (cfg s) (hosts s) (pr s) i (jd s) (opened s) (started s).
Definition set_jd (j : option JID) (s : Session) : Session :=
  MkSession (typ s) (cfg s) (hosts s) (pr s) (streamID s) j (opened s) (started s).
Definition set_opened (b : bool) (s : Session) : Session :=
  MkSession (typ s) (cfg s) (hosts s) (pr s) (streamID s) (jd s) b (started s).
Definition set_started (b : bool) (s : Session) : Session :=
  MkSession (typ s) (cfg s) (hosts s) (pr s) (streamID s) (jd s) (opened s) b.

(** The methods of [jid.JID] on the session's JID. *)
Definition jd_domain (j : option JID) : string := match j with Some j => Domain j | None => "" end.
Definition jd_node (j : option JID) : string := match j with Some j => Node j | None => "" end.
Definition jd_resource (j : option JID) : string := match j with Some j => Resource j | None => "" end.
Definition jd_string (j : option JID) : string := match j with Some j => JIDString j | None => "" end.
Definition jd_full (j : option JID) : bool := match j with Some j => IsFullWithUser j | None => false end.

(** What the session calls: the transport, the decoder over it, and [uuid.New].
    [ToXML] is the serialisation of an element, with or without its end tag. *)
Class SessionEnv (W : Type) := {
  tr_Type : transportType;
  tr_WriteString : string → M W unit;
  tr_WriteElement : Element → M W unit; (** [elem.ToXML(tr, true)] *)
  tr_Flush : M W unit;
  ToXML : Element → bool → string;
  (** the tokens and the last error of a new decoder over the transport *)
  tr_tokens : W → list (token * Z);
  tr_readErr : W → goerror;
  uuid_New : M W string;
}.

Section methods.
Context {W : Type} `{!SessionEnv W}.
Abbreviation MS := (M (Session * W)).

(** [getParser]: other transports than the socket are parsed in the default
    mode. *)
Definition getParser (maxStanzaSize : Z) (w : W) : Parser :=
  NewParser (tr_tokens w) (tr_readErr w)
    (match tr_Type with Socket => SocketStream | OtherTransport => DefaultMode end) maxStanzaSize.

(** [New] *)
Definition NewSession (t : Type_) (hs : Host.Hosts) (c : Config) : M W Session :=
  p ← gets (getParser (MaxStanzaSize c));
  i ← (if IsOut c then mret "" else uuid_New);
  mret (MkSession t c hs p i None false false).

Definition StreamID : MS string := fld streamID.

(** [SetFromJID] *)
Definition SetFromJID (j : option JID) : MS unit :=
  j' ← deref j;
  setf (set_jd (Some j')).

(** [namespace] *)
Definition namespace (s : Session) : string :=
  match typ s with
  | C2SSession => jabberClientNamespace
  | S2SSession => jabberServerNamespace
  | ComponentSession => jabberComponentNamespace
  end.

(** [sendString] *)
Definition sendString (str : string) : MS unit :=
  onW (tr_WriteString str);;
  onW tr_Flush.

(** [OpenStream] *)
Definition OpenStream : MS unit :=
  s ← fld (fun s => s);
  if decide (typ s ≠ C2SSession ∧ typ s ≠ S2SSession) then fail errInvalidSessionType
  else if opened s then fail errAlreadyOpened
  else
    match tr_Type with
    | Socket =>
      let base := [(Namespace, namespace s); (AttrVersion, "1.0");
                   (AttrStreamNamespace, streamNamespace)] ++
                  (if decide (typ s = S2SSession) then [("xmlns:db", dialbackNamespace)] else []) in
      let addrs := if IsOut (cfg s)
                   then [(AttrFrom, Host.DefaultHostName (hosts s)); (AttrTo, jd_domain (jd s))]
                   else [(AttrFrom, jd_domain (jd s)); (AttrID, streamID s)] in
      let elem := Build "stream:stream" (base ++ addrs) [] "" in
      sendString ("<?xml version='1.0'?>" +:+ ToXML elem false);;
      setf (set_opened true)
    | OtherTransport => fail errUnsupportedTransport
    end.

(** [OpenComponent] *)
Definition OpenComponent : MS unit :=
  s ← fld (fun s => s);
  if decide (typ s ≠ ComponentSession) then fail errInvalidSessionType
  else if opened s then fail errAlreadyOpened
  else
    let elem := Build "stream:stream"
      [(Namespace, namespace s); (AttrStreamNamespace, streamNamespace);
       (AttrFrom, jd_domain (jd s)); (AttrID, streamID s)] [] "" in
    sendString ("<?xml version='1.0'?>" +:+ ToXML elem false);;
    setf (set_opened true).

(** [Close] *)
Definition Close : MS unit :=
  o ← fld opened;
  if negb o then fail errAlreadyClosed
  else
    sendString (match tr_Type with Socket => "</stream:stream>" | OtherTransport => "" end);;
    setf (set_opened false);;
    setf (set_started false).

(** [Send] *)
Definition Send (elem : Element) : MS unit :=
  onW (tr_WriteElement elem);;
  onW tr_Flush.

(** [Reset] *)
Definition Reset : MS unit :=
  c ← fld cfg;
  (if IsOut c then mret tt else i ← onW uuid_New; setf (set_streamID i));;
  p ← wfld (getParser (MaxStanzaSize c));
  setf (set_pr p);;
  setf (set_opened false);;
  setf (set_started false).

(** [mapErrorToSessionError] *)
Definition mapErrorToSessionError (e : goerror) : goerror :=
  if decide (e = ErrReadLimitExceeded) then StreamErrorApp PolicyViolation "rate-limit-exceeded"
  else if decide (e = ErrTooLargeStanza) then StreamErrorApp PolicyViolation "stanza-too-big"
  else
    match e with
    | XMLSyntaxError _ => StreamError InvalidXML
    | NetError timeout => if timeout then StreamError ConnectionTimeout else e
    | _ => e
    end.

(** [validateStreamElement] *)
Definition validateStreamElement (elem : Element) (s : Session) : outcome unit :=
  _ ← match tr_Type with
      | Socket =>
        if negb (String.eqb (Name elem) "stream:stream") then Err (StreamError UnsupportedStanzaType)
        else if negb (String.eqb (Attribute elem Namespace) (namespace s)) ||
                negb (String.eqb (Attribute elem AttrStreamNamespace) streamNamespace)
        then Err (StreamError InvalidNamespace)
        else Ok tt
      | OtherTransport => Ok tt
      end;
  match typ s with
  | ComponentSession => Ok tt
  | _ =>
    let to := Attribute elem AttrTo in
    if bool_decide (typ s = C2SSession) && negb (String.eqb to "") &&
       negb (Host.IsLocalHost to (hosts s)) then Err (StreamError HostUnknown)
    else if negb (String.eqb (Attribute elem AttrVersion) "1.0")
    then Err (StreamError UnsupportedVersion)
    else Ok tt
  end.

(** [validateNamespace] *)
Definition validateNamespace (elem : Element) (s : Session) : outcome unit :=
  let ns := Attribute elem Namespace in
  if String.eqb ns "" || String.eqb ns (namespace s) then Ok tt
  else Err (StreamError InvalidNamespace).

(** [isValidFrom] *)
Definition isValidFrom (from : string) (s : Session) : bool :=
  match NewWithString from false with
  | Some j =>
    let validFrom := String.eqb (Node j) (jd_node (jd s)) &&
                     String.eqb (Domain j) (jd_domain (jd s)) in
    if negb (String.eqb (Resource j) "")
    then validFrom && String.eqb (Resource j) (jd_resource (jd s))
    else validFrom
  | None => false
  end.

(** [extractAddresses]: the string forms of the two JIDs.  The JID of the
    default host is made without checking the error. *)
Definition extractAddresses (elem : Element) (s : Session) : outcome (string * string) :=
  let from := Attribute elem AttrFrom in
  f ← match typ s with
      | C2SSession =>
        if jd_full (jd s) && negb (String.eqb from "") && negb (isValidFrom from s)
        then Err (StreamError InvalidFrom)
        else Ok (jd_string (jd s))
      | _ =>
        match NewWithString from false with
        | Some j => if String.eqb (Domain j) (jd_domain (jd s)) then Ok (JIDString j)
                    else Err (StreamError InvalidFrom)
        | None => Err (StreamError InvalidFrom)
        end
      end;
  let to := Attribute elem AttrTo in
  t ← (if negb (String.eqb to "") then
         match NewWithString to false with
         | Some j => Ok (JIDString j)
         | None => Err (StanzaErr "jid-malformed")
         end
       else
         match typ s with
         | C2SSession => Ok (jd_string (ToBareJID <$> jd s))
         | _ =>
           match NewWithString (Host.DefaultHostName (hosts s)) true with
           | Some j => Ok (JIDString j)
           | None => Crash NilDeref
           end
         end);
  Ok (f, t).

(** [buildStanza] *)
Definition buildStanza (elem : Element) (s : Session) : outcome Element :=
  _ ← validateNamespace elem s;
  '(f, t) ← extractAddresses elem s;
  let sb k := match BuildStanzaFrom elem [(AttrFrom, f); (AttrTo, t)] Namespace k with
              | Some e => Ok e
              | None => Err (StanzaErr "bad-request")
              end in
  if String.eqb (Name elem) "iq" then sb KIQ
  else if String.eqb (Name elem) "presence" then sb KPresence
  else if String.eqb (Name elem) "message" then sb KMessage
  else Err (StreamError UnsupportedStanzaType).

(** The parser as part of the session. *)
Definition runParser {A} (m : M Parser A) : MS A := fun '(s, w) =>
  let '(r, p) := m (pr s) in (r, (set_pr p s, w)).

(** What [Receive] does with an element of the parser. *)
Definition receiveElement (elem : Element) : MS (option Element) :=
  if String.eqb (Name elem) "stream:error" then mret None
  else
    s ← fld (fun s => s);
    if negb (started s) then
      pureO (validateStreamElement elem s);;
      (if IsOut (cfg s) then setf (set_streamID (Attribute elem AttrID)) else mret tt);;
      setf (set_started true);;
      mret (Some elem)
    else if negb (IsStanza elem) then mret (Some elem)
    else e ← pureO (buildStanza elem s); mret (Some e).

(** [Receive] *)
Definition Receive : MS (option Element) :=
  r ← try (runParser Parse);
  match r with
  | inl e => fail (mapErrorToSessionError e)
  | inr None => mret None
  | inr (Some elem) => receiveElement elem
  end.

(** ** What a session delivers *)

(** The session's parser holds no stanza value; [New] and [Reset] give such
    parsers. *)
Definition session_ok (s : Session) : Prop := plain_next (pr s).

Lemma Receive_inv s w e s' w' : session_ok s →
  Receive (s, w) = (Ok (Some e), (s', w')) →
  ∃ elem p', Parse (pr s) = (Ok (Some elem), p') ∧ Kind elem = None ∧ plain_next p' ∧
    receiveElement elem (set_pr p' s, w) = (Ok (Some e), (s', w')).
Proof.
  intros Hp Hr. unfold Receive, try, runParser, mbind, M_bind in Hr.
  destruct (Parse (pr s)) as [[[elem|]|err|c] p'] eqn:HP; try done.
  destruct (Parse_plain _ _ _ Hp HP) as [Hp' Hk]. exists elem, p'. auto.
Qed.

(** Where a stanza comes from. *)
Lemma Receive_stanza s w e s' w' k : session_ok s →
  Receive (s, w) = (Ok (Some e), (s', w')) → Kind e = Some k →
  started s = true ∧ ∃ elem, buildStanza elem s = Ok e.
Proof.
  intros Hp Hr Hk. destruct (Receive_inv _ _ _ _ _ Hp Hr) as (elem & p' & _ & Hn & _ & He).
  unfold receiveElement, pureO, fld, gets, mbind, M_bind, mret, M_ret in He.
  destruct (String.eqb (Name elem) "stream:error"); [done|]. simpl in He.
  destruct (started s); simpl in He.
  - split; [done|]. exists elem. destruct (IsStanza elem); simpl in He; [|simplify_eq; congruence].
    change (buildStanza elem (set_pr p' s)) with (buildStanza elem s) in He.
    destruct (buildStanza elem s); by simplify_eq/=.
  - exfalso. destruct (validateStreamElement elem (set_pr p' s)); try done. simpl in He.
    destruct (IsOut (cfg s)); simpl in He; injection He; congruence.
Qed.

Lemma buildStanza_from elem s e : buildStanza elem s = Ok e →
  ∃ f t k, extractAddresses elem s = Ok (f, t) ∧
    BuildStanzaFrom elem [(AttrFrom, f); (AttrTo, t)] Namespace k = Some e.
Proof.
  unfold buildStanza. simpl. destruct (validateNamespace elem s); try done. simpl.
  destruct (extractAddresses elem s) as [[f t]| |]; try done. simpl.
  intros He. exists f, t.
  destruct (String.eqb (Name elem) "iq"); [exists KIQ|
    destruct (String.eqb (Name elem) "presence"); [exists KPresence|
      destruct (String.eqb (Name elem) "message"); [exists KMessage|done]]];
    by destruct (BuildStanzaFrom _ _ _ _); simplify_eq/=.
Qed.

(** C38: A stanza that a session delivers carries an address the session
    vouches for.  On a client session its sender is the JID of the session,
    whatever the element claimed; on a server or component session the domain of
    its sender is the domain of the session's peer.  Stanzas are delivered only
    after the peer's stream header was accepted. *)
Theorem session_vouches_for_from (s s' : Session) (w w' : W) (e : Element) (k : stanza_kind)
    (Hok : session_ok s) (Hr : Receive (s, w) = (Ok (Some e), (s', w'))) (Hk : Kind e = Some k) :
  started s = true ∧
  (typ s = C2SSession → ∀ j, jd s = Some j → NewWithString (JIDString j) true = Some j →
    FromJID e = j) ∧
  (typ s ≠ C2SSession → Domain (FromJID e) = jd_domain (jd s)).
Proof.
  destruct (Receive_stanza _ _ _ _ _ _ Hok Hr Hk) as [Hst [elem Hb]].
  destruct (buildStanza_from _ _ _ Hb) as (f & t & k' & Hx & HB).
  split; [done|]. unfold extractAddresses in Hx.
  apply outcome_bind_inv in Hx as (f0 & Hf & Hx).
  apply outcome_bind_inv in Hx as (t0 & _ & [= -> ->]). split; intros Ht.
  - intros j Hj Hpr. eapply BuildStanzaFrom_from; [exact HB|].
    rewrite Ht, Hj in Hf. simpl in Hf. case_match; [done|]. by injection Hf as <-.
  - assert (∃ j, NewWithString (Attribute elem AttrFrom) false = Some j ∧
      Domain j = jd_domain (jd s) ∧ f = JIDString j) as (j & Hj & Hd & ->).
    { destruct (typ s); [done|..];
        (destruct (NewWithString (Attribute elem AttrFrom) false) as [j|]; [|done];
         destruct (String.eqb_spec (Domain j) (jd_domain (jd s))); [|done]; exists j;
         by injection Hf as <-). }
    rewrite (BuildStanzaFrom_from _ _ _ _ _ _ j HB); [done|].
    by eapply NewWithString_reparse.
Qed.

(** The first element a new or reset session delivers on a socket is a stream
    header in the namespaces of the session, of version 1.0 except for
    components; a client's header names a local host or none; an outgoing session
    takes the stream identifier from it. *)
Theorem session_header_checked (s s' : Session) (w w' : W) (e : Element)
    (Hok : session_ok s) (Hnew : started s = false) (Hsock : tr_Type = Socket)
    (Hr : Receive (s, w) = (Ok (Some e), (s', w'))) :
  started s' = true ∧ Name e = "stream:stream" ∧
  Attribute e Namespace = namespace s ∧ Attribute e AttrStreamNamespace = streamNamespace ∧
  (typ s ≠ ComponentSession → Attribute e AttrVersion = "1.0") ∧
  (typ s = C2SSession → Attribute e AttrTo = "" ∨
    Host.IsLocalHost (Attribute e AttrTo) (hosts s) = true) ∧
  streamID s' = (if IsOut (cfg s) then Attribute e AttrID else streamID s).
Proof.
  destruct (Receive_inv _ _ _ _ _ Hok Hr) as (elem & p' & _ & _ & _ & He).
  unfold receiveElement, pureO, fld, gets, mbind, M_bind, mret, M_ret in He.
  destruct (String.eqb (Name elem) "stream:error"); [done|]. simpl in He.
  rewrite Hnew in He. simpl in He.
  destruct (validateStreamElement elem (set_pr p' s)) as [[]|?|?] eqn:Hv; try done. simpl in He.
  assert (e = elem ∧ started s' = true ∧
    streamID s' = (if IsOut (cfg s) then Attribute elem AttrID else streamID s)) as (-> & Hst & Hid).
  { destruct (IsOut (cfg s)); simpl in He; injection He as <- <- <-; done. }
  split; [done|]. unfold validateStreamElement in Hv. rewrite Hsock in Hv. simpl in Hv.
  destruct (String.eqb_spec (Name elem) "stream:stream"); [|done]. simpl in Hv.
  change (namespace (set_pr p' s)) with (namespace s) in Hv.
  destruct (String.eqb_spec (Attribute elem Namespace) (namespace s)); [|done].
  destruct (String.eqb_spec (Attribute elem AttrStreamNamespace) streamNamespace); [|done].
  simpl in Hv. do 3 (split; [done|]).
  assert (typ s = ComponentSession ∨
    (typ s = C2SSession → Attribute elem AttrTo = "" ∨ Host.IsLocalHost (Attribute elem AttrTo) (hosts s) = true) ∧
    Attribute elem AttrVersion = "1.0") as Hc.
  { destruct (typ s); [right|right|by left]; simpl in Hv.
    - destruct (String.eqb_spec (Attribute elem AttrTo) ""), (Host.IsLocalHost _ (hosts s)) eqn:?;
        simpl in Hv; destruct (String.eqb_spec (Attribute elem AttrVersion) "1.0"); try done;
        (split; [|done]); auto.
    - destruct (String.eqb_spec (Attribute elem AttrVersion) "1.0"); done. }
  destruct Hc as [Hc|[Hc1 Hc2]]; [|done]. rewrite Hc. done.
Qed.

End methods.
End session.

(** ** Witnesses *)
Module SessionDemo.
Import TreeLib.

Record world := MkWorld { input : list (token * Z); out : list string }.

#[export] Instance env : SessionEnv world := {|
  tr_Type := Socket;
  tr_WriteString := fun s => modify (fun w => MkWorld (input w) (out w ++ [s]));
  tr_WriteElement := fun e => modify (fun w => MkWorld (input w) (out w ++ [t_name e]));
  tr_Flush := mret tt; ToXML := fun e _ => t_name e;
  tr_tokens := input; tr_readErr := fun _ => ErrText "EOF"; uuid_New := mret "uuid"; |}.

Definition hs : Host.Hosts := Host.MkHosts "jackal.im" {[ "jackal.im" := tt ]}.
Definition session (t : Type_) (j : option tjid) (st : bool) (l : list (token * Z)) :=
  MkSession t (MkConfig 32768 false) hs (ParserDemo.parser l) "sid" j true st.
Definition message (from : string) : xtree :=
  XNode (ParserDemo.nm "message")
    [(ParserDemo.nm "from", from); (ParserDemo.nm "to", "juliet@jackal.im")] "" [].
Abbreviation receives t j st l := (
  Receive (session t j st (ParserDemo.offsets 0 l), MkWorld (ParserDemo.offsets 0 l) [])).

Definition header : list token :=
  [StartElement (MkName "stream" "stream")
     [(ParserDemo.nm "xmlns", "jabber:client"); (MkName "xmlns" "stream", streamNamespace);
      (ParserDemo.nm "version", "1.0"); (ParserDemo.nm "to", "jackal.im")]].

Definition header_elem : tree :=
  TNode "stream:stream" [("xmlns", "jabber:client"); ("xmlns:stream", streamNamespace);
    ("version", "1.0"); ("to", "jackal.im")] [] "" None.

Lemma session_header_checked_witness :
  started (receives C2SSession None false header).2.1 = true ∧ Name header_elem = "stream:stream".
Proof.
  destruct (session_header_checked
      (session C2SSession None false (ParserDemo.offsets 0 header))
      (receives C2SSession None false header).2.1
      (MkWorld (ParserDemo.offsets 0 header) [])
      (receives C2SSession None false header).2.2 header_elem) as (H1 & H2 & _);
    [intros x; vm_compute; discriminate|reflexivity|reflexivity
    |apply fst_Ok_pair; vm_compute; reflexivity|].
  split; [exact H1|exact H2].
Defined.

Definition peer : tjid := MkJid "" "shakespeare.lit" "".
Abbreviation from_romeo := (receives S2SSession (Some peer) true
  (xtokens (message "romeo@shakespeare.lit/x"))).
Definition message_elem : tree :=
  TNode "message" [("from", "romeo@shakespeare.lit/x"); ("to", "juliet@jackal.im")] [] ""
    (Some KMessage).

Lemma session_vouches_for_from_witness : Domain (FromJID message_elem) = "shakespeare.lit".
Proof.
  destruct (session_vouches_for_from
      (session S2SSession (Some peer) true
         (ParserDemo.offsets 0 (xtokens (message "romeo@shakespeare.lit/x")))) from_romeo.2.1
      (MkWorld (ParserDemo.offsets 0 (xtokens (message "romeo@shakespeare.lit/x"))) [])
      from_romeo.2.2 message_elem KMessage) as (_ & _ & Hd);
    [intros x; vm_compute; discriminate|apply fst_Ok_pair; vm_compute; reflexivity|reflexivity|].
  apply Hd. discriminate.
Defined.

End SessionDemo.
