(* ===== verification/Dialback.v ===== *)
(** * Server dialback (pkg/s2s/dialback.go) and the key-value store it uses

    Dialback keys are message authentication codes of the two domains and the
    stream identifier.  A server remembers the keys it handed out as requests in
    the cluster's key-value store ([pkg/cluster/kv]), so that another instance
    can confirm them. *)

From stdpp Require Import base list strings gmap.
From Stdlib Require Import ZArith Lia Ascii.
From S2P Require Import Prelude GoLib Base64 Crypto GoHoare.

(** ** The key-value store *)

(** [kv.KV]; a missing value reads as no bytes.  [kv_IsNop] is [kv.IsNop]. *)
Class KV (W : Type) := {
  kv_IsNop : bool;
  kv_Put : string → string → M W unit;
  kv_Get : string → M W string;
  kv_Del : string → M W unit;
}.

(** What the store promises: it is a map from which a successful call reads, and
    to which it writes.  [kv_other] are the changes of the rest of the world that
    a call may make. *)
Class KVMap (W : Type) `{!KV W} := {
  kv_map : W → gmap string string;
  kv_Put_ok : ∀ k v w w', kv_Put k v w = (Ok tt, w') → kv_map w' = <[k := v]> (kv_map w);
  kv_Get_ok : ∀ k w v w', kv_Get k w = (Ok v, w') →
    v = default "" (kv_map w !! k) ∧ kv_map w' = kv_map w;
  kv_Del_ok : ∀ k w w', kv_Del k w = (Ok tt, w') → kv_map w' = delete k (kv_map w);
}.

(** The store that does nothing ([kv.NewNop]). *)
Module NopKV.
Definition Put {W} (k v : string) : M W unit := mret tt.
Definition Get {W} (k : string) : M W string := mret "".
Definition Del {W} (k : string) : M W unit := mret tt.
Definition nop (W : Type) : KV W :=
  {| kv_IsNop := true; kv_Put := Put; kv_Get := Get; kv_Del := Del |}.
End NopKV.

(** ** Keys and requests *)

(** [dbKey] *)
Definition dbKey (dbSecret sender target streamID : string) : string :=
  let key := hex_encode (hash_sum sha256 (bytes_of_string dbSecret)) in
  string_of_bytes (hex_encode (hmac sha256 key
    (bytes_of_string (target +:+ " " +:+ sender +:+ " " +:+ streamID)))).

(** The value of the repository's own test. *)
Example dbKey_test :
  dbKey "s3cr3tf0rd14lb4ck" "example.org" "xmpp.example.com" "D60000229F" =
  "37c69b1cf07a3f67c04a5ef5902fa5114f2c76fe4a2686482ba5b89323075643".
Proof. vm_compute. reflexivity. Qed.

(** [dbReqKey] and [dbReqVal] *)
Definition dbReqKey (streamID : string) : string := "db://" +:+ streamID.
Definition dbReqVal (sender target : string) : string := sender +:+ " " +:+ target.

(** [fmt.Sscanf(_, "%s %s", ..)] on ASCII input: two words separated by white
    space; a line break ends the scan and a word that is missing reads as the
    empty string. *)
Definition is_space (c : ascii) : bool :=
  Ascii.eqb c " " || Ascii.eqb c "009" || Ascii.eqb c "011" || Ascii.eqb c "012" ||
  Ascii.eqb c "013".
Definition is_break (c : ascii) : bool := Ascii.eqb c "010".

Fixpoint skip_spaces (s : string) : string :=
  match s with
  | String c s' => if is_space c then skip_spaces s' else s
  | EmptyString => EmptyString
  end.

Fixpoint scan_word (s : string) : string * string :=
  match s with
  | String c s' =>
    if is_space c || is_break c then ("", s)
    else let '(w, r) := scan_word s' in (String c w, r)
  | EmptyString => ("", "")
  end.

Definition Sscanf2 (s : string) : string * string :=
  let '(w1, r1) := scan_word (skip_spaces s) in
  if String.eqb w1 "" then ("", "")
  else (w1, (scan_word (skip_spaces r1)).1).

Section requests.
Context {W : Type} `{!KV W}.

(** [registerDbRequest] *)
Definition registerDbRequest (sender target streamID : string) : M W unit :=
  kv_Put (dbReqKey streamID) (dbReqVal sender target).

(** [unregisterDbRequest] *)
Definition unregisterDbRequest (streamID : string) : M W unit := kv_Del (dbReqKey streamID).

(** [isDbRequestOn] *)
Definition isDbRequestOn (sender target streamID : string) : M W bool :=
  if kv_IsNop then mret true
  else
    val ← kv_Get (dbReqKey streamID);
    if String.eqb val "" then mret false
    else
      let '(s0, t0) := Sscanf2 val in
      mret (String.eqb s0 sender && String.eqb t0 target).

End requests.

(** ** Round trip of requests *)

(** A domain is a word: not empty and without white space. *)
Fixpoint no_space (s : string) : bool :=
  match s with
  | String c s' => negb (is_space c) && negb (is_break c) && no_space s'
  | EmptyString => true
  end.
Definition is_domain (s : string) : bool := negb (String.eqb s "") && no_space s.

Lemma scan_word_app s c t : no_space s = true → (is_space c || is_break c) = true →
  scan_word (s +:+ String c t) = (s, String c t).
Proof.
  induction s as [|x s IH]; intros Hs Hc.
  - change ("" +:+ String c t) with (String c t). simpl. by rewrite Hc.
  - rewrite string_app_cons. simpl in *.
    apply andb_true_iff in Hs as [Hx Hs]. apply andb_true_iff in Hx as [H1 H2].
    apply negb_true_iff in H1, H2. rewrite H1, H2. simpl. by rewrite IH.
Qed.

Lemma scan_word_all s : no_space s = true → scan_word s = (s, "").
Proof.
  induction s as [|x s IH]; intros Hs; simpl in *; [done|].
  apply andb_true_iff in Hs as [Hx Hs]. apply andb_true_iff in Hx as [H1 H2].
  apply negb_true_iff in H1, H2. rewrite H1, H2. simpl. by rewrite IH.
Qed.

Lemma skip_spaces_word s t : is_domain s = true → skip_spaces (s +:+ t) = s +:+ t.
Proof.
  unfold is_domain. destruct s as [|x s]; [done|]. rewrite string_app_cons. simpl.
  intros Hs. apply andb_true_iff in Hs as [Hx Hs]. apply andb_true_iff in Hx as [H1 H2].
  apply negb_true_iff in H1. by rewrite H1.
Qed.

Lemma Sscanf2_dbReqVal s t : is_domain s = true → is_domain t = true →
  Sscanf2 (dbReqVal s t) = (s, t).
Proof.
  intros Hs Ht. unfold Sscanf2, dbReqVal. rewrite skip_spaces_word by done.
  change (" " +:+ t) with (String " " t).
  pose proof Hs as Hs'. unfold is_domain in Hs'. apply andb_true_iff in Hs' as [Hne Hsp].
  rewrite scan_word_app by done. apply negb_true_iff in Hne. rewrite Hne.
  change (skip_spaces (String " " t)) with (skip_spaces t).
  pose proof (skip_spaces_word t "" Ht) as Hk. rewrite string_app_nil in Hk. rewrite Hk.
  apply andb_true_iff in Ht as [_ Ht]. by rewrite scan_word_all.
Qed.

Lemma dbReqVal_nonempty s t : dbReqVal s t ≠ "".
Proof. unfold dbReqVal. by destruct s. Qed.

Section lifecycle.
Context {W : Type} `{!KV W, !KVMap W}.

(** What the store says about a stream identifier. *)
Definition requested (w : W) (streamID : string) : option (string * string) :=
  Sscanf2 <$> kv_map w !! dbReqKey streamID.

Lemma isDbRequestOn_spec sender target streamID w b w' :
  kv_IsNop = false → sender ≠ "" →
  isDbRequestOn sender target streamID w = (Ok b, w') →
  kv_map w' = kv_map w ∧ b = bool_decide (requested w streamID = Some (sender, target)).
Proof.
  intros Hn Hs. unfold isDbRequestOn, requested. rewrite Hn. intros Hr.
  inv_bind Hr as val w1 Hg. apply kv_Get_ok in Hg as [-> Hm].
  destruct (kv_map w !! dbReqKey streamID) as [v|]; simpl in *.
  - destruct (decide (v = "")) as [Hv|Hv].
    + subst v. injection Hr as <- <-. split; [done|]. symmetry. apply bool_decide_eq_false.
      intros [= H1 H2]. by vm_compute in H1.
    + rewrite (proj2 (String.eqb_neq _ _) Hv) in Hr.
      destruct (Sscanf2 v) as [s0 t0]. injection Hr as <- <-. split; [done|].
      destruct (String.eqb_spec s0 sender), (String.eqb_spec t0 target); simpl; subst;
        symmetry; [by apply bool_decide_eq_true|apply bool_decide_eq_false; congruence..].
  - injection Hr as <- <-. done.
Qed.

Lemma register_requested sender target streamID w w' :
  is_domain sender = true → is_domain target = true →
  registerDbRequest sender target streamID w = (Ok tt, w') →
  requested w' streamID = Some (sender, target).
Proof.
  intros Hs Ht Hr. apply kv_Put_ok in Hr. unfold requested. rewrite Hr, lookup_insert_eq. simpl.
  by rewrite Sscanf2_dbReqVal.
Qed.

Lemma unregister_requested streamID w w' :
  unregisterDbRequest streamID w = (Ok tt, w') → requested w' streamID = None.
Proof.
  intros Hr. apply kv_Del_ok in Hr. unfold requested. by rewrite Hr, lookup_delete_eq.
Qed.

(** The life of a dialback request in the key-value store: once registered it
    is on for exactly its pair of domains, and after it was unregistered it is
    on for no pair.  The domains are words, as host names are. *)
Theorem db_request_lifecycle (sender target streamID : string) (w0 w1 w2 w3 w4 : W)
    (on off : bool) (s' t' : string)
    (Hnop : kv_IsNop = false) (Hs : is_domain sender = true) (Ht : is_domain target = true)
    (Hs' : s' ≠ "")
    (Hreg : registerDbRequest sender target streamID w0 = (Ok tt, w1))
    (Hon : isDbRequestOn s' t' streamID w1 = (Ok on, w2))
    (Hdel : unregisterDbRequest streamID w2 = (Ok tt, w3))
    (Hoff : isDbRequestOn s' t' streamID w3 = (Ok off, w4)) :
  (on = true ↔ (s', t') = (sender, target)) ∧ off = false.
Proof.
  apply register_requested in Hreg; [|done..].
  apply isDbRequestOn_spec in Hon as [Hm1 ->]; [|done..].
  apply unregister_requested in Hdel.
  apply isDbRequestOn_spec in Hoff as [_ ->]; [|done..].
  rewrite Hreg, Hdel. split; [|by apply bool_decide_eq_false].
  rewrite bool_decide_eq_true. split; congruence.
Qed.

End lifecycle.

(** A store in memory. *)
Module MapKV.
#[export] Instance store : KV (gmap string string) := {|
  kv_IsNop := false;
  kv_Put := fun k v => modify <[k := v]>;
  kv_Get := fun k => gets (fun m => default "" (m !! k));
  kv_Del := fun k => modify (delete k); |}.
#[export] Instance store_map : KVMap (gmap string string).
Proof.
  refine {| kv_map := fun m => m |}; [by intros k v w w' [= <-]| |by intros k w w' [= <-]].
  intros k w v w' [= <- <-]. done.
Defined.

Lemma db_request_lifecycle_witness :
  let w1 := (registerDbRequest "example.org" "xmpp.example.com" "D6" (∅ : gmap string string)).2 in
  (true = true ↔ ("example.org", "xmpp.example.com") = ("example.org", "xmpp.example.com")) ∧
  (isDbRequestOn "example.org" "xmpp.example.com" "D6"
     (unregisterDbRequest "D6" w1).2).1 = Ok false.
Proof.
  intros w1. split; [|vm_compute; reflexivity].
  apply (db_request_lifecycle "example.org" "xmpp.example.com" "D6" ∅ w1 w1
    (unregisterDbRequest "D6" w1).2 (unregisterDbRequest "D6" w1).2 true false
    "example.org" "xmpp.example.com"); (reflexivity || discriminate).
Defined.

End MapKV.
