(* ===== verification/Rsm.v ===== *)
(** * Result set management (pkg/module/xep0059/rsm.go)

    Parsing of a paging request, the XML of a result, and the selection of a
    page.  Integers are Go's 64-bit [int]; divisions by zero and indexing out
    of range are panics. *)

From stdpp Require Import base list strings gmap.
From Stdlib Require Import ZArith Lia.
From S2P Require Import Prelude GoLib Stravaganza.

Local Open Scope Z_scope.

Definition RSMNamespace : string := "http://jabber.org/protocol/rsm".

Record Request := MkRequest {
  After : string;
  Before : string;
  Index : Z;
  Max : Z;
  LastPage : bool;
}.

Record Result := MkResult {
  ResIndex : Z;
  First : string;
  Last : string;
  Count : Z;
  Complete : bool;
}.

Definition nonempty (s : string) : bool := negb (String.eqb s "").

(** ** XML *)
Section xml.
Context `{XmlLib}.

(** An optional child holding a decimal number. *)
Definition child_int (e : Element) (name : string) : outcome Z :=
  match Child e name with
  | None => Ok 0
  | Some c => match Atoi (Text c) with
              | (v, None) => Ok v
              | (_, Some err) => Err err
              end
  end.

(** [NewRequestFromElement] *)
Definition NewRequestFromElement (e : Element) : outcome Request :=
  if negb (String.eqb (Name e) "set") then Err (ErrText "xep0059: invalid set name")
  else if negb (String.eqb (Attribute e Namespace) RSMNamespace) then
    Err (ErrText "xep0059: invalid set namespace")
  else
    max ← child_int e "max";
    index ← child_int e "index";
    let after := match Child e "after" with Some c => Text c | None => "" end in
    let '(before, lastPage) :=
      match Child e "before" with
      | Some c => if nonempty (Text c) then (Text c, false) else ("", true)
      | None => ("", false)
      end in
    Ok (MkRequest after before index max lastPage).

(** [Result.Element] *)
Definition ResultElement (r : Result) : Element :=
  Build "set" [(Namespace, RSMNamespace)]
    ((if nonempty (First r) then [Build "first" [("index", Itoa (ResIndex r))] [] (First r)]
      else []) ++
     (if nonempty (Last r) then [Build "last" [] [] (Last r)] else []) ++
     [Build "count" [] [] (Itoa (Count r))]) "".

End xml.

(** ** Pages *)
Section pages.
Context {T : Type}.

Definition len (rs : list T) : Z := Z.of_nat (length rs).

(** The collecting loop of the three page functions, on what is left of the
    slice from position [i]. *)
Fixpoint collect (i lastIdx max : Z) (page : list T) (res : Z * bool) (rest : list T)
    : list T * (Z * bool) :=
  match rest with
  | [] => (page, res)
  | x :: rest' =>
    if res.1 <? max then
      collect (i + 1) lastIdx max (page ++ [x])
        (res.1 + 1, if i >=? lastIdx then true else res.2) rest'
    else (page, res)
  end.

(** [for i := start; i < len(rs) && res.Count < max; i++]; indexing a slice
    below 0 panics. *)
Definition loop (rs : list T) (start max : Z) : outcome (list T * (Z * bool)) :=
  if (start <? len rs) && (0 <? max) then
    if start <? 0 then Crash IndexOutOfRange
    else Ok (collect start (len rs - 1) max [] (0, false) (drop (Z.to_nat start) rs))
  else Ok ([], (0, false)).

(** [getPageByIndex] *)
Definition getPageByIndex (rs : list T) (idx max : Z) : outcome (list T * Result) :=
  let i := int64 (idx * max) in
  if i >? len rs - 1 then Err ErrPageNotFound
  else
    '(page, (count, complete)) ← loop rs i max;
    Ok (page, MkResult idx "" "" count complete).

(** [getIDIndex] *)
Fixpoint getIDIndex_from (i : Z) (rs : list T) (getID : T → string) (id : string) : Z :=
  match rs with
  | [] => -1
  | x :: rs' => if String.eqb (getID x) id then i else getIDIndex_from (i + 1) rs' getID id
  end.

Definition getIDIndex (rs : list T) (getID : T → string) (id : string) : Z :=
  getIDIndex_from 0 rs getID id.

(** Go's integer division. *)
Definition quot (a b : Z) : outcome Z :=
  if b =? 0 then Crash DivideByZero else Ok (Z.quot a b).

(** [getPageAfterID] *)
Definition getPageAfterID (rs : list T) (getID : T → string) (id : string) (max : Z)
    : outcome (list T * Result) :=
  let idIdx := getIDIndex rs getID id in
  if idIdx =? -1 then Err ErrPageNotFound
  else
    let startIdx := idIdx + 1 in
    '(page, (count, complete)) ← loop rs startIdx max;
    index ← quot startIdx max;
    Ok (page, MkResult index "" "" count complete).

(** [getPageBeforeID] *)
Definition getPageBeforeID (rs : list T) (getID : T → string) (id : string) (max : Z)
    : outcome (list T * Result) :=
  let idIdx := getIDIndex rs getID id in
  if idIdx =? -1 then Err ErrPageNotFound
  else
    let startIdx := int64 (idIdx - max) in
    let startIdx := if startIdx <? 0 then 0 else startIdx in
    '(page, (count, complete)) ← loop rs startIdx max;
    index ← quot startIdx max;
    Ok (page, MkResult index "" "" count complete).

(** [lastIndex] *)
Definition lastIndex (n max : Z) : outcome Z :=
  if max =? 0 then Crash DivideByZero
  else Ok (Z.quot n max - 1 + (if Z.rem n max >? 0 then 1 else 0)).

(** [GetResultSetPage] *)
Definition GetResultSetPage (rs : list T) (req : Request) (getID : T → string)
    : outcome (list T * Result) :=
  if (len rs =? 0) && (Index req =? 0) then Ok ([], MkResult 0 "" "" 0 true)
  else if negb (LastPage req) && negb (Index req >? 0) && negb (nonempty (After req)) &&
          negb (nonempty (Before req)) && (Max req =? 0) then
    Ok ([], MkResult 0 "" "" (len rs) false)
  else
    '(page, res) ←
      (if LastPage req then
         idx ← lastIndex (len rs) (Max req); getPageByIndex rs idx (Max req)
       else if Index req >? 0 then getPageByIndex rs (Index req) (Max req)
       else if nonempty (After req) then getPageAfterID rs getID (After req) (Max req)
       else if nonempty (Before req) then getPageBeforeID rs getID (Before req) (Max req)
       else getPageByIndex rs 0 (Max req));
    match head page, last page with
    | Some f, Some l =>
      Ok (page, MkResult (ResIndex res) (getID f) (getID l) (Count res) (Complete res))
    | _, _ => Crash IndexOutOfRange
    end.

(** ** Lemmas *)

Definition is_nil (l : list T) : bool := match l with [] => true | _ => false end.

Lemma collect_spec rest : ∀ i lastIdx max page count complete,
  collect i lastIdx max page (count, complete) rest =
    (page ++ take (Z.to_nat (max - count)) rest,
     (count + Z.of_nat (length (take (Z.to_nat (max - count)) rest)),
      complete || (negb (is_nil (take (Z.to_nat (max - count)) rest)) &&
        (i + Z.of_nat (length (take (Z.to_nat (max - count)) rest)) - 1 >=? lastIdx)))).
Proof.
  induction rest as [|x rest IH]; intros i lastIdx max page count complete; simpl.
  { rewrite take_nil, app_nil_r. simpl. by rewrite Z.add_0_r, orb_false_r. }
  destruct (Z.ltb_spec count max) as [Hlt|Hge].
  - replace (Z.to_nat (max - count)) with (S (Z.to_nat (max - (count + 1)))) by lia.
    rewrite IH. simpl. rewrite <-app_assoc. simpl. f_equal. f_equal; [lia|].
    destruct (take (Z.to_nat (max - (count + 1))) rest) as [|y ys]; simpl.
    + rewrite orb_false_r. replace (i + Z.of_nat 1 - 1) with i by lia.
      by destruct (i >=? lastIdx), complete.
    + destruct (Z.geb_spec i lastIdx), complete; simpl; try done.
      * symmetry. apply Z.geb_le. lia.
      * f_equal. lia.
  - replace (Z.to_nat (max - count)) with 0%nat by lia. simpl.
    by rewrite app_nil_r, Z.add_0_r, orb_false_r.
Qed.

(** A page of at most [max] elements from [start] on; it is complete when it
    reaches the end of the set. *)
Lemma loop_spec rs start max :
  0 ≤ start → 0 < max →
  loop rs start max =
    let page := take (Z.to_nat max) (drop (Z.to_nat start) rs) in
    Ok (page, (len page, negb (is_nil page) && (start + max >=? len rs))).
Proof.
  intros Hs Hm. unfold loop, len in *. simpl.
  destruct (Z.ltb_spec start (Z.of_nat (length rs))) as [Hlt|Hge]; simpl.
  - replace (0 <? max) with true by lia. replace (start <? 0) with false by lia.
    rewrite collect_spec, Z.sub_0_r. simpl. do 3 f_equal.
    set (page := take (Z.to_nat max) (drop (Z.to_nat start) rs)). f_equal.
    assert (Z.of_nat (length page) = Z.min max (Z.of_nat (length rs) - start)) as Hl.
    { unfold page. rewrite length_take, length_drop. lia. }
    rewrite Hl. lia.
  - rewrite drop_ge by lia. rewrite take_nil. done.
Qed.

Lemma getIDIndex_at pre x post getID : ∀ i,
  getID x ∉ getID <$> pre →
  getIDIndex_from i (pre ++ x :: post) getID (getID x) = i + len pre.
Proof.
  induction pre as [|y pre IH]; intros i Hpre; simpl.
  { rewrite String.eqb_refl. unfold len. simpl. lia. }
  destruct (String.eqb_spec (getID y) (getID x)); [set_solver|].
  rewrite IH by set_solver. unfold len. simpl. lia.
Qed.

Lemma getIDIndex_none rs getID id : ∀ i,
  id ∉ getID <$> rs → getIDIndex_from i rs getID id = -1.
Proof.
  induction rs as [|y rs IH]; intros i Hrs; simpl; [done|].
  destruct (String.eqb_spec (getID y) id); [set_solver|]. apply IH. set_solver.
Qed.

Lemma int64_small z : - 2 ^ 63 ≤ z < 2 ^ 63 → int64 z = z.
Proof. intros Hz. unfold int64. rewrite Z.mod_small; lia. Qed.

Lemma head_last_some (l : list T) : l ≠ [] → ∃ f x, head l = Some f ∧ last l = Some x.
Proof.
  destruct l as [|f l]; [done|]. intros _. destruct (last (f :: l)) eqn:Hl; [by eauto|].
  by apply last_None in Hl.
Qed.

(** The chunk of index [idx]. *)
Definition chunk (rs : list T) (max idx : Z) : list T :=
  take (Z.to_nat max) (drop (Z.to_nat (idx * max)) rs).

Lemma getPageByIndex_spec rs idx max :
  0 ≤ idx → 0 < max → idx * max < 2 ^ 63 →
  getPageByIndex rs idx max =
    if idx * max >=? len rs then Err ErrPageNotFound
    else Ok (chunk rs max idx,
             MkResult idx "" "" (len (chunk rs max idx)) (idx * max + max >=? len rs)).
Proof.
  intros Hi Hm Hov. unfold getPageByIndex. rewrite int64_small by lia.
  assert (0 ≤ idx * max) by nia.
  destruct (Z.geb_spec (idx * max) (len rs)) as [Hge|Hlt].
  - replace (idx * max >? len rs - 1) with true by lia. done.
  - replace (idx * max >? len rs - 1) with false by lia.
    rewrite loop_spec by lia. simpl. unfold chunk.
    set (page := take _ _). assert (page ≠ []) as Hne; [|by destruct page].
    unfold page, len in *. intros Hnil. apply (f_equal length) in Hnil.
    rewrite length_take, length_drop in Hnil. simpl in Hnil. lia.
Qed.

Lemma chunk_nonempty rs max idx :
  0 ≤ idx → 0 < max → idx * max < len rs → chunk rs max idx ≠ [].
Proof.
  intros Hi Hm Hlt Hnil. unfold chunk, len in *. apply (f_equal length) in Hnil.
  assert (0 ≤ idx * max) by nia.
  rewrite length_take, length_drop in Hnil. simpl in Hnil. lia.
Qed.

(** Consecutive chunks make up the set. *)
Lemma chunks_concat max (n : nat) : 0 < max → ∀ rs,
  len rs ≤ Z.of_nat n * max →
  concat ((fun i => chunk rs max (Z.of_nat i)) <$> seq 0 n) = rs.
Proof.
  intros Hm. induction n as [|n IH]; intros rs Hlen.
  { destruct rs; [done|]. unfold len in Hlen. simpl in Hlen. lia. }
  transitivity (take (Z.to_nat max) rs ++ drop (Z.to_nat max) rs); [|apply take_drop].
  simpl. f_equal. transitivity (concat ((fun i => chunk (drop (Z.to_nat max) rs) max
    (Z.of_nat i)) <$> seq 0 n)).
  - rewrite <-fmap_S_seq, <-list_fmap_compose. f_equal. apply list_fmap_ext.
    intros i x _. unfold chunk. simpl. rewrite drop_drop. do 2 f_equal. lia.
  - apply IH. unfold len in *. rewrite length_drop. lia.
Qed.

(** What the selected page becomes in the result. *)
Definition finish (page : list T) (index : Z) (complete : bool) (getID : T → string)
    : outcome (list T * Result) :=
  match head page, last page with
  | Some f, Some l => Ok (page, MkResult index (getID f) (getID l) (len page) complete)
  | _, _ => Crash IndexOutOfRange
  end.

(** A request for the page of index [idx], the first page when it is 0. *)
Definition index_request (idx max : Z) : Request := MkRequest "" "" idx max false.

Lemma by_index_page rs idx max getID :
  0 < len rs → 0 ≤ idx → 0 < max → idx * max < 2 ^ 63 →
  GetResultSetPage rs (index_request idx max) getID =
    if idx * max >=? len rs then Err ErrPageNotFound
    else finish (chunk rs max idx) idx (idx * max + max >=? len rs) getID.
Proof.
  intros Hlen Hi Hm Hov. unfold GetResultSetPage, index_request. simpl.
  replace (len rs =? 0) with false by lia. simpl.
  replace (max =? 0) with false by lia. rewrite andb_false_r.
  replace (if idx >? 0 then getPageByIndex rs idx max else getPageByIndex rs 0 max)
    with (getPageByIndex rs idx max)
    by (destruct (Z.gtb_spec idx 0); [done|by replace idx with 0 by lia]).
  rewrite getPageByIndex_spec by done. unfold finish. case_match; done.
Qed.

Lemma after_page pre x post max getID :
  0 < max → getID x ≠ "" → getID x ∉ getID <$> pre →
  GetResultSetPage (pre ++ x :: post) (MkRequest (getID x) "" 0 max false) getID =
    finish (take (Z.to_nat max) (drop (Z.to_nat (len pre + 1)) (pre ++ x :: post)))
      (Z.quot (len pre + 1) max) (len pre + 1 + max >=? len (pre ++ x :: post)) getID.
Proof.
  intros Hm Hid Hpre. unfold GetResultSetPage. simpl.
  assert (0 < len (pre ++ x :: post)) as Hl by (unfold len; rewrite length_app; simpl; lia).
  replace (len (pre ++ x :: post) =? 0) with false by lia. simpl.
  assert (nonempty (getID x) = true) as ->
    by (unfold nonempty; apply negb_true_iff; by apply String.eqb_neq).
  simpl. unfold getPageAfterID, getIDIndex. rewrite getIDIndex_at by done.
  assert (0 ≤ len pre) by (unfold len; lia).
  replace (0 + len pre =? -1) with false by lia. rewrite Z.add_0_l, loop_spec by lia. simpl.
  unfold quot. replace (max =? 0) with false by lia. simpl. unfold finish.
  by destruct (take _ _).
Qed.

(** ** Properties *)

(** Paging by index is exhaustive and does not overlap: for a positive page
    size the successive pages, concatenated, are the whole result set; each of
    them is non-empty, has at most [max] elements, and only the last one is
    marked complete. *)
Theorem pages_cover_set (rs : list T) (max : Z) (getID : T → string)
    (Hlen : 0 < len rs) (Hm : 0 < max) (Hov : len rs + max < 2 ^ 63) :
  let n := Z.to_nat ((len rs + max - 1) / max) in
  concat ((fun i => chunk rs max (Z.of_nat i)) <$> seq 0 n) = rs ∧
  ∀ i : nat, (i < n)%nat → ∃ f l,
    GetResultSetPage rs (index_request (Z.of_nat i) max) getID =
      Ok (chunk rs max (Z.of_nat i),
          MkResult (Z.of_nat i) (getID f) (getID l) (len (chunk rs max (Z.of_nat i)))
            (Z.of_nat i + 1 =? Z.of_nat n)) ∧
    head (chunk rs max (Z.of_nat i)) = Some f ∧ last (chunk rs max (Z.of_nat i)) = Some l ∧
    len (chunk rs max (Z.of_nat i)) ≤ max.
Proof.
  simpl. set (n := (len rs + max - 1) / max).
  assert (max * n ≤ len rs + max - 1 < max * n + max) as Hn.
  { unfold n. pose proof (Z.div_mod (len rs + max - 1) max).
    pose proof (Z.mod_pos_bound (len rs + max - 1) max). lia. }
  assert (0 ≤ n) by (apply Z.div_pos; lia). split; [apply chunks_concat; [done|lia]|].
  intros i Hi. assert (Z.of_nat i + 1 ≤ n) as Hi' by lia.
  assert ((Z.of_nat i + 1) * max ≤ n * max) as Hmul by (apply Z.mul_le_mono_nonneg_r; lia).
  assert (0 ≤ Z.of_nat i * max) by nia.
  destruct (head_last_some (chunk rs max (Z.of_nat i))) as (f & l & Hf & Hl);
    [apply chunk_nonempty; lia|].
  exists f, l. rewrite by_index_page by lia.
  replace (Z.of_nat i * max >=? len rs) with false by lia.
  unfold finish. rewrite Hf, Hl. split_and!; try done.
  - do 3 f_equal. rewrite Z2Nat.id by done.
    destruct (Z.eqb_spec (Z.of_nat i + 1) n) as [He|He].
    + rewrite <-He in Hn. lia.
    + assert ((Z.of_nat i + 2) * max ≤ n * max) by (apply Z.mul_le_mono_nonneg_r; lia). lia.
  - unfold chunk, len. rewrite length_take. lia.
Qed.

(** A request for an index past the end is refused with [ErrPageNotFound]. *)
Theorem page_past_end (rs : list T) (idx max : Z) (getID : T → string)
    (Hlen : 0 < len rs) (Hi : 0 ≤ idx) (Hm : 0 < max) (Hov : idx * max < 2 ^ 63)
    (Hpast : len rs ≤ idx * max) :
  GetResultSetPage rs (index_request idx max) getID = Err ErrPageNotFound.
Proof. rewrite by_index_page by done. by replace (idx * max >=? len rs) with true by lia. Qed.

(** The page after an element is made of the [max] elements that follow it,
    and asking for what follows the last element of the set makes
    [GetResultSetPage] index an empty page and panic. *)
Theorem page_after_id (pre post : list T) (x : T) (max : Z) (getID : T → string)
    (Hm : 0 < max) (Hid : getID x ≠ "") (Hpre : getID x ∉ getID <$> pre) :
  let rs := pre ++ x :: post in
  let req := MkRequest (getID x) "" 0 max false in
  match post with
  | [] => GetResultSetPage rs req getID = Crash IndexOutOfRange
  | _ => ∃ res, GetResultSetPage rs req getID = Ok (take (Z.to_nat max) post, res) ∧
         Complete res = (max >=? len post)
  end.
Proof.
  simpl. assert (0 ≤ len pre ∧ 0 ≤ len post) as [Hlp Hlq] by (unfold len; lia).
  rewrite after_page by done.
  assert (drop (Z.to_nat (len pre + 1)) (pre ++ x :: post) = post) as ->.
  { unfold len. replace (Z.to_nat (Z.of_nat (length pre) + 1)) with (length (pre ++ [x]))
      by (rewrite length_app; simpl; lia).
    change (x :: post) with ([x] ++ post). rewrite app_assoc. apply drop_app_length. }
  destruct post as [|y post].
  - by rewrite take_nil.
  - destruct (head_last_some (take (Z.to_nat max) (y :: post))) as (f & l & Hf & Hl).
    { by destruct (Z.to_nat max) eqn:?; [lia|]. }
    unfold finish. rewrite Hf, Hl. eexists. split; [done|]. simpl.
    apply eq_true_iff_eq. rewrite !Z.geb_le. unfold len. rewrite length_app. simpl. lia.
Qed.

(** The page before an element holds the [max] elements that precede it when
    there are that many; when there are fewer, the page starts at the beginning
    of the set and still has [max] elements, so that it contains the element
    itself and elements after it. *)
Theorem page_before_id (pre post : list T) (x : T) (max : Z) (getID : T → string)
    (Hm : 0 < max) (Hov : len pre - max < 2 ^ 63 ∧ max < 2 ^ 62)
    (Hid : getID x ≠ "") (Hpre : getID x ∉ getID <$> pre) :
  let rs := pre ++ x :: post in
  let req := MkRequest "" (getID x) 0 max false in
  ∃ page res, GetResultSetPage rs req getID = Ok (page, res) ∧
    if max <=? len pre then page = drop (Z.to_nat (len pre - max)) pre
    else page = pre ++ x :: take (Z.to_nat (max - len pre - 1)) post.
Proof.
  simpl. unfold GetResultSetPage. simpl.
  assert (0 < len (pre ++ x :: post)) as Hl by (unfold len; rewrite length_app; simpl; lia).
  assert (0 ≤ len pre) as Hlp by (unfold len; lia).
  replace (len (pre ++ x :: post) =? 0) with false by lia. simpl.
  assert (nonempty (getID x) = true) as ->
    by (unfold nonempty; apply negb_true_iff; by apply String.eqb_neq).
  simpl. unfold getPageBeforeID, getIDIndex. rewrite getIDIndex_at, Z.add_0_l by done.
  replace (len pre =? -1) with false by lia. rewrite int64_small by lia.
  set (start := if len pre - max <? 0 then 0 else len pre - max).
  assert (0 ≤ start ≤ len pre) as Hs by (unfold start; case_match; lia).
  rewrite loop_spec by lia. unfold quot. replace (max =? 0) with false by lia. simpl.
  assert (take (Z.to_nat max) (drop (Z.to_nat start) (pre ++ x :: post)) =
    if max <=? len pre then drop (Z.to_nat (len pre - max)) pre
    else pre ++ x :: take (Z.to_nat (max - len pre - 1)) post) as Hpage.
  { unfold start, len in *. destruct (Z.leb_spec max (Z.of_nat (length pre))) as [Hle|Hgt].
    - replace (Z.of_nat (length pre) - max <? 0) with false by lia.
      rewrite drop_app_le by lia. rewrite take_app_le by (rewrite length_drop; lia).
      apply take_ge. rewrite length_drop. lia.
    - replace (Z.of_nat (length pre) - max <? 0) with true by lia. rewrite drop_0.
      rewrite take_app_ge by lia. f_equal.
      by replace (Z.to_nat max - length pre)%nat
        with (S (Z.to_nat (max - Z.of_nat (length pre) - 1))) by lia. }
  destruct (head_last_some (take (Z.to_nat max) (drop (Z.to_nat start) (pre ++ x :: post))))
    as (f & l & Hf & Hla).
  { intros Hnil. apply (f_equal length) in Hnil. unfold len in *.
    rewrite length_take, length_drop, length_app in Hnil. simpl in Hnil. lia. }
  rewrite Hf, Hla. eexists _, _. split; [done|]. by destruct (max <=? len pre).
Qed.

(** On a non-empty result set, asking for the last page without a page size
    divides by zero, and any first-page request with a negative page size
    indexes an empty page; both panic. *)
Theorem bad_page_size_panics (rs : list T) (after before : string) (idx max : Z)
    (getID : T → string) (Hlen : 0 < len rs) (Hmax : max < 0) :
  GetResultSetPage rs (MkRequest after before idx 0 true) getID = Crash DivideByZero ∧
  GetResultSetPage rs (MkRequest "" "" 0 max false) getID = Crash IndexOutOfRange.
Proof.
  unfold GetResultSetPage. simpl. replace (len rs =? 0) with false by lia. simpl.
  split; [done|]. replace (max =? 0) with false by lia. simpl.
  unfold getPageByIndex. rewrite Z.mul_0_l.
  replace (int64 0) with 0 by done. replace (0 >? len rs - 1) with false by lia.
  unfold loop. replace (0 <? max) with false by lia. by rewrite andb_false_r.
Qed.

(** The last page of a set is its final chunk and is marked complete. *)
Theorem last_page (rs : list T) (after before : string) (idx max : Z) (getID : T → string)
    (Hlen : 0 < len rs) (Hm : 0 < max) (Hov : len rs + max < 2 ^ 63) :
  ∃ page res, GetResultSetPage rs (MkRequest after before idx max true) getID = Ok (page, res) ∧
    Complete res = true ∧ 0 < len page ≤ max ∧ ∃ pre, rs = pre ++ page.
Proof.
  unfold GetResultSetPage. simpl. replace (len rs =? 0) with false by lia. simpl.
  unfold lastIndex. replace (max =? 0) with false by lia. simpl.
  rewrite Z.quot_div_nonneg, Z.rem_mod_nonneg by lia.
  set (li := len rs / max - 1 + (if len rs mod max >? 0 then 1 else 0)).
  pose proof (Z.div_mod (len rs) max ltac:(lia)) as Hdm.
  pose proof (Z.mod_pos_bound (len rs) max Hm) as Hmb.
  assert (li * max < len rs ≤ li * max + max) as Hli.
  { unfold li. destruct (Z.gtb_spec (len rs mod max) 0); lia. }
  assert (0 ≤ li) as Hli0 by nia.
  rewrite getPageByIndex_spec by lia. replace (li * max >=? len rs) with false by lia. simpl.
  destruct (head_last_some (chunk rs max li)) as (f & l & Hf & Hl);
    [by apply chunk_nonempty; lia|].
  rewrite Hf, Hl. eexists _, _. split; [done|]. simpl. split; [lia|]. split.
  - pose proof (chunk_nonempty rs max li Hli0 Hm ltac:(lia)) as Hne.
    destruct (chunk rs max li) eqn:Hc; [done|]. rewrite <-Hc. split.
    + rewrite Hc. unfold len. simpl. lia.
    + unfold chunk, len. rewrite length_take. lia.
  - exists (take (Z.to_nat (li * max)) rs). unfold chunk.
    rewrite (take_ge (drop _ _)) by (rewrite length_drop; unfold len in *; lia).
    by rewrite take_drop.
Qed.

End pages.

(** ** Witnesses *)
Section witnesses.

Definition ids : list string := ["a"; "b"; "c"; "d"; "e"].

Lemma pages_cover_set_witness :
  concat ((fun i => chunk ids 2 (Z.of_nat i)) <$> seq 0 3) = ids.
Proof.
  destruct (pages_cover_set ids 2 id) as [Hc _]; [by vm_compute..|]. exact Hc.
Defined.

Lemma page_past_end_witness :
  GetResultSetPage ids (index_request 3 2) id = Err ErrPageNotFound.
Proof. apply (page_past_end ids 3 2 id); by vm_compute. Defined.

Lemma page_after_id_witness :
  GetResultSetPage (["a"; "b"; "c"; "d"] ++ ["e"]) (MkRequest "e" "" 0 2 false) id =
    Crash IndexOutOfRange.
Proof.
  apply (page_after_id ["a"; "b"; "c"; "d"] [] "e" 2 id); [done|done|set_solver].
Defined.

Lemma page_before_id_witness : ∃ page res,
  GetResultSetPage (["a"] ++ "b" :: ["c"; "d"; "e"]) (MkRequest "" "b" 0 3 false) id =
    Ok (page, res) ∧ page = ["a"; "b"; "c"].
Proof.
  destruct (page_before_id ["a"] ["c"; "d"; "e"] "b" 3 id) as (page & res & Heq & Hp);
    [done|by vm_compute|done|set_solver|]. exists page, res. split; [exact Heq|exact Hp].
Defined.

Lemma bad_page_size_panics_witness :
  GetResultSetPage ids (MkRequest "" "" 0 0 true) id = Crash DivideByZero ∧
  GetResultSetPage ids (MkRequest "" "" 0 (-1) false) id = Crash IndexOutOfRange.
Proof. apply (bad_page_size_panics ids "" "" 0 (-1) id); by vm_compute. Defined.

Lemma last_page_witness : ∃ page res,
  GetResultSetPage ids (MkRequest "" "" 0 2 true) id = Ok (page, res) ∧
    Complete res = true ∧ 0 < len page ≤ 2 ∧ ∃ pre, ids = pre ++ page.
Proof. apply (last_page ids "" "" 0 2 id); by vm_compute. Defined.

End witnesses.
