(* ===== verification/C2SModel.v ===== *)
(** * Stream info and resource descriptions (pkg/model/c2s/model.go)

    The string map a stream carries with its typed accessors, and the
    read-only description of a resource the cluster shares. *)

From stdpp Require Import base list strings gmap.
From Stdlib Require Import ZArith Lia.
From S2P Require Import Prelude GoLib Stravaganza.

(** ** Info maps *)
Module Info.

(** [infoMap.m]; the floating-point accessors are not modelled. *)
Abbreviation t := (gmap string string).

Definition GetString (k : string) (m : t) : string := default "" (m !! k).

(** [strconv.ParseBool], an error giving [false]; [strconv.FormatBool] *)
Definition ParseBool (s : string) : bool :=
  existsb (String.eqb s) ["1"; "t"; "T"; "TRUE"; "true"; "True"].
Definition FormatBool (b : bool) : string := if b then "true" else "false".

Definition Bool (k : string) (m : t) : bool := ParseBool (GetString k m).

(** [strconv.ParseInt(_, 10, 64)] with its error dropped *)
Definition Int (k : string) (m : t) : Z := (Atoi (GetString k m)).1.

Definition SetString (k v : string) (m : t) : t := <[k := v]> m.
Definition SetBool (k : string) (v : bool) (m : t) : t := <[k := FormatBool v]> m.
Definition SetInt (k : string) (v : Z) (m : t) : t := <[k := Itoa v]> m.

(** [Map], [NewInfoMap], [NewInfoMapFromMap]: copies *)
Definition Map (m : t) : t := m.
Definition NewInfoMap : t := ∅.
Definition NewInfoMapFromMap (m : t) : t := m.

(** What is stored through a typed setter is read back by the getter of the
    same type, for every boolean and every 64-bit integer, and the other keys
    keep their values. *)
Theorem info_roundtrip (m : t) (k k' : string) (b : bool) (z : Z) (v : string)
    (Hz : (- 2 ^ 63 <= z < 2 ^ 63)%Z) (Hk : k' ≠ k) :
  Bool k (SetBool k b m) = b ∧ Int k (SetInt k z m) = z ∧
  GetString k (SetString k v m) = v ∧
  GetString k' (SetBool k b m) = GetString k' m ∧
  GetString k' (SetInt k z m) = GetString k' m ∧
  GetString k' (SetString k v m) = GetString k' m.
Proof.
  unfold Bool, Int, GetString, SetBool, SetInt, SetString.
  rewrite !lookup_insert_eq, !lookup_insert_ne by done. simpl.
  rewrite Atoi_Itoa by done. by destruct b.
Qed.

Lemma info_roundtrip_witness :
  Int "n" (SetInt "n" (-42) (SetBool "b" true NewInfoMap)) = (-42)%Z.
Proof.
  apply (info_roundtrip (SetBool "b" true NewInfoMap) "n" "b" true (-42) ""); [lia|done].
Defined.

End Info.

(** ** Resource descriptions *)
Section resource.
Context `{XmlLib}.

Record ResourceDesc := NewResourceDesc {
  InstanceID : string;
  ResJID : JID;
  ResPresence : option Element;
  ResInfo : Info.t;
}.

Definition ResIsAvailable (r : ResourceDesc) : bool :=
  match ResPresence r with Some pr => IsAvailable pr | None => false end.

Definition ResPriority (r : ResourceDesc) : Z :=
  match ResPresence r with Some pr => Priority pr | None => 0 end.

End resource.
