(* ===== verification/LocalRouter.v ===== *)
(** * The local C2S router (pkg/c2s/local_router.go, pkg/c2s/resources.go)

    Every instance keeps its own streams: the anonymous ones, by identifier,
    and the bound ones, by user name and resource.  A stream is represented by
    its identifier; [Username] and [Resource] are the getters of the stream. *)

From stdpp Require Import base list strings gmap.
From Stdlib Require Import ZArith Lia.
From S2P Require Import Prelude.

(** ** What a stream may expect of the registry it binds to *)
Class StreamRegistry (W : Type) := {
  reg_registered : Z → W → bool;
  reg_Register : Z → M W unit;
  reg_Bind : Z → M W unit;
  reg_Unregister : Z → M W unit;
  (** binding needs a registered stream, and consumes the registration *)
  reg_Bind_ok : ∀ id w, is_ok (reg_Bind id w).1 = reg_registered id w;
  reg_Bind_after : ∀ id id' w, reg_registered id' (reg_Bind id w).2 =
    reg_registered id' w && negb (Z.eqb id id');
  reg_Unregister_after : ∀ id id' w, reg_registered id' (reg_Unregister id w).2 =
    reg_registered id' w && negb (Z.eqb id id');
  reg_Register_after : ∀ id id' w, reg_registered id' (reg_Register id w).2 =
    reg_registered id' w || Z.eqb id id';
  reg_Register_dup : ∀ id w, reg_registered id w = true → is_ok (reg_Register id w).1 = false;
}.

Section router.
Context (Username Resource : Z → string).

(** ** [resources] *)
Definition resources : Type := list Z.

Fixpoint stream (res : string) (stms : list Z) : option Z :=
  match stms with
  | [] => None
  | s :: stms' => if String.eqb (Resource s) res then Some s else stream res stms'
  end.

Definition bind (stm : Z) (stms : list Z) : list Z :=
  if existsb (fun s => String.eqb (Resource s) (Resource stm)) stms then stms
  else stms ++ [stm].

Fixpoint unbind (res : string) (stms : list Z) : list Z :=
  match stms with
  | [] => []
  | s :: stms' => if String.eqb (Resource s) res then stms' else s :: unbind res stms'
  end.

(** [route]: the streams the stanza is handed to *)
Definition route (resource : string) (stms : list Z) : list Z :=
  List.filter (fun s => String.eqb (Resource s) resource) stms.

(** [disconnect]: the stream that is disconnected, if any *)
Definition disconnect (resource : string) (stms : list Z) : option Z :=
  stream resource stms.

(** ** [LocalRouter] *)
Record LocalRouter := MkLocalRouter {
  stms : gset Z;
  bndRes : gmap string (list Z);
}.

Definition NewLocalRouter : LocalRouter := MkLocalRouter ∅ ∅.

Definition errAlreadyRegistered : goerror := ErrText "c2s: stream already registered".
Definition errStreamNotFound : goerror := ErrText "c2s: stream not found".

Definition Route (username resource : string) (r : LocalRouter) : list Z :=
  match bndRes r !! username with None => [] | Some rs => route resource rs end.

Definition Disconnect (username resource : string) (r : LocalRouter) : option Z :=
  match bndRes r !! username with None => None | Some rs => disconnect resource rs end.

Definition Register (id : Z) : M LocalRouter unit := fun r =>
  if decide (id ∈ stms r) then (Err errAlreadyRegistered, r)
  else (Ok tt, MkLocalRouter ({[id]} ∪ stms r) (bndRes r)).

Definition Bind (id : Z) : M LocalRouter Z := fun r =>
  if decide (id ∈ stms r) then
    let username := Username id in
    let rs := default [] (bndRes r !! username) in
    (Ok id, MkLocalRouter (stms r ∖ {[id]}) (<[username := bind id rs]> (bndRes r)))
  else (Err errStreamNotFound, r).

Definition Unregister (id : Z) : M LocalRouter unit := fun r =>
  let stms' := stms r ∖ {[id]} in
  let username := Username id in
  match bndRes r !! username with
  | None => (Ok tt, MkLocalRouter stms' (bndRes r))
  | Some rs =>
    let rs' := unbind (Resource id) rs in
    (Ok tt, MkLocalRouter stms'
       (if decide (rs' = []) then delete username (bndRes r)
        else <[username := rs']> (bndRes r)))
  end.

Definition Stream (username res : string) (r : LocalRouter) : option Z :=
  match bndRes r !! username with None => None | Some rs => stream res rs end.

(** [Stop]: the streams that are told to shut down *)
Definition Stop (r : LocalRouter) : list Z :=
  elements (stms r) ++ concat (map_to_list (bndRes r)).*2.

(** The count [reportMetrics] reports *)
Definition totalCount (r : LocalRouter) : nat :=
  size (stms r) + sum_list (length <$> (map_to_list (bndRes r)).*2).

(** ** Histories *)
Inductive router_op := OpRegister (id : Z) | OpBind (id : Z) | OpUnregister (id : Z).

Definition router_apply (r : LocalRouter) (o : router_op) : LocalRouter :=
  match o with
  | OpRegister id => (Register id r).2
  | OpBind id => (Bind id r).2
  | OpUnregister id => (Unregister id r).2
  end.

Definition router_run (ops : list router_op) : LocalRouter :=
  foldl router_apply NewLocalRouter ops.

(** ** Invariant

    Every list of bound streams is non-empty, belongs to its user and has no
    two streams of the same resource. *)
Definition rs_wf (u : string) (rs : list Z) : Prop :=
  rs ≠ [] ∧ (∀ s, s ∈ rs → Username s = u) ∧ NoDup (Resource <$> rs).

Definition router_wf (r : LocalRouter) : Prop := map_Forall rs_wf (bndRes r).

Lemma stream_Some res rs s : stream res rs = Some s → s ∈ rs ∧ Resource s = res.
Proof.
  induction rs as [|x rs IH]; simpl; [done|].
  destruct (String.eqb_spec (Resource x) res); intros Hs; simplify_eq; set_solver.
Qed.

Lemma stream_None res rs : stream res rs = None ↔ res ∉ Resource <$> rs.
Proof.
  induction rs as [|x rs IH]; simpl; [set_solver|].
  destruct (String.eqb_spec (Resource x) res); [set_solver|]. rewrite IH. set_solver.
Qed.

Lemma existsb_resource res rs :
  existsb (fun s => String.eqb (Resource s) res) rs = true ↔ res ∈ Resource <$> rs.
Proof.
  induction rs as [|x rs IH]; simpl; [set_solver|].
  rewrite orb_true_iff, IH, String.eqb_eq. set_solver.
Qed.

Lemma stream_app res rs x :
  stream res (rs ++ [x]) = match stream res rs with
    | Some s => Some s
    | None => if String.eqb (Resource x) res then Some x else None
    end.
Proof. induction rs as [|y rs IH]; simpl; [done|]. by destruct (String.eqb (Resource y) res). Qed.

Lemma stream_bind res stm rs :
  stream res (bind stm rs) =
    match stream res rs with
    | Some s => Some s
    | None => if String.eqb (Resource stm) res then Some stm else None
    end.
Proof.
  unfold bind. case_match eqn:Hex; [|apply stream_app].
  apply existsb_resource in Hex. destruct (stream res rs) eqn:Hs; [done|].
  apply stream_None in Hs. destruct (String.eqb_spec (Resource stm) res); [|done].
  by subst.
Qed.

Lemma stream_unbind res res' rs : NoDup (Resource <$> rs) →
  stream res (unbind res' rs) = if String.eqb res res' then None else stream res rs.
Proof.
  induction rs as [|x rs IH]; simpl; intros Hnd; [by case_match|].
  apply NoDup_cons in Hnd as [Hx Hnd].
  destruct (String.eqb_spec (Resource x) res') as [<-|Hne].
  - destruct (String.eqb_spec res (Resource x)) as [->|Hr]; [by apply stream_None|].
    by rewrite (proj2 (String.eqb_neq _ _)) by done.
  - simpl. rewrite IH by done.
    destruct (String.eqb_spec (Resource x) res) as [<-|Hxr]; [|done].
    by rewrite (proj2 (String.eqb_neq _ _)) by done.
Qed.

Lemma unbind_sublist res rs : unbind res rs `sublist_of` rs.
Proof. induction rs as [|x rs IH]; simpl; [done|]. case_match; [by apply sublist_cons|by constructor]. Qed.

Lemma unbind_NoDup res rs : NoDup (Resource <$> rs) → NoDup (Resource <$> unbind res rs).
Proof.
  induction rs as [|x rs IH]; simpl; intros Hnd; [done|].
  apply NoDup_cons in Hnd as [Hx Hnd]. case_match; [done|]. simpl.
  apply NoDup_cons. split; [|by apply IH]. intros Hin. apply Hx.
  apply list_elem_of_fmap in Hin as (y & -> & Hy). apply list_elem_of_fmap.
  exists y. split; [done|]. eapply elem_of_sublist; [exact Hy|apply unbind_sublist].
Qed.

Lemma rs_wf_bind id rs :
  (rs = [] ∨ rs_wf (Username id) rs) → rs_wf (Username id) (bind id rs).
Proof.
  unfold bind. intros [->|(Hne & Hu & Hnd)].
  - simpl. split; [done|]. split; [set_solver|]. simpl. apply NoDup_singleton.
  - case_match eqn:Hex; [done|]. split; [by destruct rs|]. split; [set_solver|].
    rewrite fmap_app. apply NoDup_app. split; [done|]. split; [|apply NoDup_singleton].
    intros x Hx Hx'. apply list_elem_of_singleton in Hx' as ->.
    apply existsb_resource in Hx. congruence.
Qed.

Lemma router_wf_apply r o : router_wf r → router_wf (router_apply r o).
Proof.
  intros Hr. destruct o as [id|id|id]; simpl.
  - unfold Register. by case_decide.
  - unfold Bind. case_decide; [|done]. apply map_Forall_insert_2; [|done].
    apply rs_wf_bind. destruct (bndRes r !! Username id) eqn:Hu; simpl; [right|by left].
    by apply Hr.
  - unfold Unregister. destruct (bndRes r !! Username id) as [rs|] eqn:Hu; [|done].
    simpl. case_decide; [by apply map_Forall_delete|].
    apply map_Forall_insert_2; [|done]. destruct (Hr _ _ Hu) as (Hne & Hus & Hnd).
    split; [done|]. split; [|by apply unbind_NoDup].
    intros s Hs. apply Hus. eapply elem_of_sublist; [exact Hs|apply unbind_sublist].
Qed.

Lemma router_wf_run ops : router_wf (router_run ops).
Proof.
  unfold router_run. assert (router_wf NewLocalRouter) as H0 by apply map_Forall_empty.
  revert H0. generalize NewLocalRouter. induction ops as [|o ops IH]; intros r Hr; simpl; [done|].
  apply IH. by apply router_wf_apply.
Qed.

Lemma route_stream res rs : NoDup (Resource <$> rs) →
  route res rs = option_list (stream res rs).
Proof.
  induction rs as [|x rs IH]; simpl; intros Hnd; [done|].
  apply NoDup_cons in Hnd as [Hx Hnd].
  destruct (String.eqb_spec (Resource x) res) as [<-|Hne]; [|by apply IH].
  rewrite IH by done. by apply stream_None in Hx as ->.
Qed.

(** The bound streams as an abstract map: what a key of user name and resource
    refers to after each operation. *)
Lemma Stream_Bind u res id r :
  Stream u res (Bind id r).2 =
    if decide (id ∈ stms r ∧ u = Username id ∧ res = Resource id ∧ Stream u res r = None)
    then Some id else Stream u res r.
Proof.
  unfold Bind. destruct (decide (id ∈ stms r)) as [Hid|Hid];
    [|rewrite decide_False by tauto; done].
  unfold Stream. simpl. rewrite lookup_insert.
  destruct (decide (Username id = u)) as [<-|Hne]; [|rewrite decide_False by naive_solver; done].
  rewrite stream_bind. destruct (bndRes r !! Username id) as [rs|]; simpl.
  - destruct (stream res rs); [rewrite decide_False by naive_solver; done|].
    destruct (String.eqb_spec (Resource id) res); [rewrite decide_True|rewrite decide_False];
      naive_solver.
  - destruct (String.eqb_spec (Resource id) res); [rewrite decide_True|rewrite decide_False];
      naive_solver.
Qed.

Lemma Stream_Unregister u res id r : router_wf r →
  Stream u res (Unregister id r).2 =
    if decide (u = Username id ∧ res = Resource id) then None else Stream u res r.
Proof.
  intros Hr. unfold Unregister, Stream.
  destruct (bndRes r !! Username id) as [rs|] eqn:Hu; simpl.
  - destruct (Hr _ _ Hu) as (_ & _ & Hnd). destruct (decide (u = Username id)) as [->|Hne].
    + rewrite Hu. assert (stream res (unbind (Resource id) rs) =
        if decide (Username id = Username id ∧ res = Resource id) then None else stream res rs)
        as <-.
      { rewrite stream_unbind by done. destruct (String.eqb_spec res (Resource id));
          [rewrite decide_True|rewrite decide_False]; naive_solver. }
      case_decide as Hnil; [rewrite lookup_delete_eq, Hnil; done|by rewrite lookup_insert_eq].
    + rewrite (decide_False (P := u = _ ∧ _)) by naive_solver.
      case_decide; [by rewrite lookup_delete_ne by done|by rewrite lookup_insert_ne by done].
  - case_decide as Hk; [|done]. destruct Hk as [-> ->]. by rewrite Hu.
Qed.

Lemma Stream_key u res s r : router_wf r →
  Stream u res r = Some s → Username s = u ∧ Resource s = res.
Proof.
  intros Hr. unfold Stream. destruct (bndRes r !! u) as [rs|] eqn:Hu; [|done].
  destruct (Hr _ _ Hu) as (_ & Hus & _). intros Hs.
  apply stream_Some in Hs as [Hin Hres]. auto.
Qed.

(** After any history of registrations, bindings and unregistrations, a user
    name and resource name at most one local stream, [Route] hands a stanza to
    exactly that stream, and [Disconnect] disconnects the same one. *)
Theorem local_route_unique (ops : list router_op) (u res : string) :
  let r := router_run ops in
  Route u res r = option_list (Stream u res r) ∧
  Disconnect u res r = Stream u res r ∧
  ∀ s, Stream u res r = Some s → Username s = u ∧ Resource s = res.
Proof.
  simpl. pose proof (router_wf_run ops) as Hr.
  split; [|split; [done|intros s; by apply Stream_key]].
  unfold Route, Stream. destruct (bndRes (router_run ops) !! u) as [rs|] eqn:Hu; [|done].
  destruct (Hr _ _ Hu) as (_ & _ & Hnd). by apply route_stream.
Qed.

(** Refinement of the abstract registry.  Seen as a map from (user name,
    resource) to streams, [Bind] inserts the stream under a free key and
    [Unregister] deletes the key, after any history and for every key. *)
Theorem local_router_refines_map (ops : list router_op) (u res : string) (id : Z) :
  let r := router_run ops in
  Stream u res (router_apply r (OpRegister id)) = Stream u res r ∧
  Stream u res (router_apply r (OpBind id)) =
    (if decide (id ∈ stms r ∧ u = Username id ∧ res = Resource id ∧ Stream u res r = None)
     then Some id else Stream u res r) ∧
  Stream u res (router_apply r (OpUnregister id)) =
    (if decide (u = Username id ∧ res = Resource id) then None else Stream u res r).
Proof.
  simpl. split; [unfold Register; by case_decide|].
  split; [apply Stream_Bind|apply Stream_Unregister, router_wf_run].
Qed.

(** Binding a second stream under a resource that is already taken reports
    success, but the stream is then registered nowhere, and unregistering it
    later removes the first stream instead. *)
Theorem duplicate_bind_lost (ops : list router_op) (id1 id2 : Z)
    (Hreg : id2 ∈ stms (router_run ops)) (Hne : id1 ≠ id2)
    (Hu : Username id1 = Username id2) (Hr : Resource id1 = Resource id2)
    (Hb : Stream (Username id2) (Resource id2) (router_run ops) = Some id1) :
  let r' := (Bind id2 (router_run ops)).2 in
  (Bind id2 (router_run ops)).1 = Ok id2 ∧
  id2 ∉ stms r' ∧ (∀ u res, Stream u res r' ≠ Some id2) ∧
  Stream (Username id1) (Resource id1) (Unregister id2 r').2 = None.
Proof.
  simpl. pose proof (router_wf_run ops) as Hwf.
  pose proof (router_wf_apply _ (OpBind id2) Hwf) as Hwf'. simpl in Hwf'.
  split; [unfold Bind; by rewrite decide_True|].
  split; [unfold Bind; rewrite decide_True by done; set_solver|]. split.
  - intros u res Hs. rewrite Stream_Bind in Hs.
    case_decide as Hc; [destruct Hc as (_ & -> & -> & Hc); congruence|].
    destruct (Stream_key u res id2 _ Hwf Hs) as [<- <-]. congruence.
  - rewrite Stream_Unregister by done. by rewrite decide_True.
Qed.

(** ** The local router implements the registry interface *)
Definition BindUnit (id : Z) : M LocalRouter unit := _ ← Bind id; mret tt.
Definition is_registered (id : Z) (r : LocalRouter) : bool := bool_decide (id ∈ stms r).

Lemma is_registered_remove (id id' : Z) (r : LocalRouter) b :
  is_registered id' (MkLocalRouter (stms r ∖ {[id]}) b) =
    is_registered id' r && negb (Z.eqb id id').
Proof.
  unfold is_registered. simpl. destruct (Z.eqb_spec id id') as [->|Hne]; simpl.
  - rewrite andb_false_r. apply bool_decide_eq_false. set_solver.
  - rewrite andb_true_r. apply bool_decide_ext. set_solver.
Qed.

Lemma stms_Unregister id r : stms (Unregister id r).2 = stms r ∖ {[id]}.
Proof. unfold Unregister. by case_match. Qed.

#[export] Instance local_registry : StreamRegistry LocalRouter.
Proof.
  refine {| reg_registered := is_registered; reg_Register := Register;
    reg_Bind := BindUnit; reg_Unregister := Unregister |}.
  - intros id r. unfold BindUnit, mbind, M_bind, Bind, is_registered.
    case_decide; simpl; symmetry; [by apply bool_decide_eq_true|by apply bool_decide_eq_false].
  - intros id id' r. unfold BindUnit, mbind, M_bind, Bind. case_decide as Hid; simpl.
    + apply is_registered_remove.
    + unfold is_registered. destruct (Z.eqb_spec id id') as [->|Hne]; simpl;
        rewrite ?andb_true_r, ?andb_false_r; [by apply bool_decide_eq_false|done].
  - intros id id' r. rewrite <-(is_registered_remove id id' r (bndRes r)).
    unfold is_registered. by rewrite stms_Unregister.
  - intros id id' r. unfold Register, is_registered. case_decide as Hid; simpl.
    + destruct (Z.eqb_spec id id') as [->|Hne]; rewrite ?orb_true_r, ?orb_false_r;
        [by apply bool_decide_eq_true|done].
    + destruct (Z.eqb_spec id id') as [->|Hne]; rewrite ?orb_true_r, ?orb_false_r;
        [apply bool_decide_eq_true; set_solver|apply bool_decide_ext; set_solver].
  - intros id r. unfold is_registered, Register. rewrite bool_decide_eq_true.
    intros Hid. by rewrite decide_True.
Defined.

End router.

(** Streams 1 and 2 of the same user and resource. *)
Lemma duplicate_bind_lost_witness :
  let un := fun _ : Z => "ortuman" in
  let rs := fun _ : Z => "yard" in
  let r' := (Bind un rs 2 (router_run un rs [OpRegister 1; OpBind 1; OpRegister 2])).2 in
  (Bind un rs 2 (router_run un rs [OpRegister 1; OpBind 1; OpRegister 2])).1 = Ok 2%Z ∧
  2%Z ∉ stms r' ∧ (∀ u res, Stream rs u res r' ≠ Some 2%Z) ∧
  Stream rs "ortuman" "yard" (Unregister un rs 2 r').2 = None.
Proof.
  apply (duplicate_bind_lost (fun _ => "ortuman") (fun _ => "yard")
    [OpRegister 1; OpBind 1; OpRegister 2] 1 2); [vm_compute; set_solver|done..].
Defined.
