(* ===== verification/Router.v ===== *)
(** * Stanza routing (pkg/c2s/router.go, pkg/s2s/router.go, pkg/router/router.go)

    The global router sends a stanza to the C2S router when its domain is
    local and to the S2S router otherwise; the C2S router chooses among the
    resources of the user.  The collaborators (storage, resource manager,
    local and cluster routers, outgoing S2S streams) are the fields of
    [RouterEnv], computations on a world [W]. *)

From stdpp Require Import base list strings gmap sorting.
From Stdlib Require Import ZArith Lia.
From S2P Require Import Prelude GoLib Stravaganza C2SModel.

(** What the routers call. *)
Class RouterEnv `{XmlLib} (W : Type) := {
  rep_UserExists : string → M W bool;
  resMng_GetResources : string → M W (list ResourceDesc);
  local_Route : Element → string → string → M W unit;
  cluster_Route : Element → string → string → string → M W unit;
  local_Disconnect : string → string → stream_reason → M W unit;
  cluster_Disconnect : string → string → stream_reason → string → M W unit;
  instance_ID : string;
  (** [outProvider.GetOut(ctx, sender, target)] followed by [SendElement] on
      the stream it gives: the error tells a timeout from the rest *)
  out_GetOut : string → string → M W unit;
  out_SendElement : string → string → Element → M W unit;
  hosts_IsLocalHost : string → bool;
  hosts_DefaultHostName : string;
  s2s_enabled : bool;
}.

Definition errServerTimeout : goerror := ErrText "s2s: server timeout".

Section router.
Context `{SortSlice} `{XmlLib} {W : Type} `{!RouterEnv W}.

(** [RoutingOptions] *)
Definition CheckUserExistence : Z := 1.

(** ** [c2sRouter] *)

Definition routeTo (stanza : Element) (toRes : ResourceDesc) : M W unit :=
  let username := Node (ResJID toRes) in
  let resource := Resource (ResJID toRes) in
  if String.eqb (InstanceID toRes) instance_ID then local_Route stanza username resource
  else cluster_Route stanza username resource (InstanceID toRes).

(** The loop over a full JID: the first resource with that name. *)
Fixpoint route_full (stanza : Element) (resource : string) (rss : list ResourceDesc)
    : M W (list JID) :=
  match rss with
  | [] => fail ErrResourceNotFound
  | res :: rss' =>
    if String.eqb (Resource (ResJID res)) resource then
      routeTo stanza res;; mret [ResJID res]
    else route_full stanza resource rss'
  end.

(** The loop over the resources of highest priority. *)
Fixpoint route_top (stanza : Element) (p0 : Z) (rss : list ResourceDesc) (targets : list JID)
    : M W (list JID) :=
  match rss with
  | [] => mret targets
  | res :: rss' =>
    if ((ResPriority res <? 0) || negb (ResPriority res =? p0))%Z then mret targets
    else routeTo stanza res;; route_top stanza p0 rss' (targets ++ [ResJID res])
  end.

Fixpoint route_all (stanza : Element) (rss : list ResourceDesc) (targets : list JID)
    : M W (list JID) :=
  match rss with
  | [] => mret targets
  | res :: rss' => routeTo stanza res;; route_all stanza rss' (targets ++ [ResJID res])
  end.

(** [route] *)
Definition route (stanza : Element) (rss : list ResourceDesc) : M W (list JID) :=
  match rss with
  | [] => fail ErrUserNotAvailable
  | _ =>
    let toJID := ToJID stanza in
    if IsFullWithUser toJID then route_full stanza (Resource toJID) rss
    else
      match Kind stanza with
      | Some KMessage =>
        let rss := sort_slice (desc_by ResPriority) rss in
        match rss with
        | [] => crash_with IndexOutOfRange
        | r0 :: _ =>
          targets ← route_top stanza (ResPriority r0) rss [];
          match targets with [] => fail ErrUserNotAvailable | _ => mret targets end
        end
      | _ => route_all stanza rss []
      end
  end.

(** [Route] *)
Definition c2s_Route (stanza : Element) (routingOpts : Z) : M W (list JID) :=
  let username := Node (ToJID stanza) in
  (if (0 <? Z.land routingOpts CheckUserExistence)%Z then
     exists_ ← rep_UserExists username;
     if exists_ : bool then mret tt else fail ErrNotExistingAccount
   else mret tt);;
  rss ← resMng_GetResources username;
  route stanza rss.

(** [Disconnect] *)
Definition c2s_Disconnect (res : ResourceDesc) (r : stream_reason) : M W unit :=
  let username := Node (ResJID res) in
  let resource := Resource (ResJID res) in
  if String.eqb instance_ID (InstanceID res) then local_Disconnect username resource r
  else cluster_Disconnect username resource r (InstanceID res).

(** ** [s2sRouter.Route] *)
Definition s2s_Route (stanza : Element) (senderDomain : string) : M W unit :=
  let targetDomain := Domain (ToJID stanza) in
  r ← try (out_GetOut senderDomain targetDomain);
  match r with
  | inr _ => ignore (out_SendElement senderDomain targetDomain stanza)
  | inl e => if decide (e = errServerTimeout) then fail ErrRemoteServerTimeout
             else fail ErrRemoteServerNotFound
  end.

(** ** [router.Route], [router.route] *)
Definition global_route (stanza : Element) (routingOpts : Z) : M W (list JID) :=
  let toJID := ToJID stanza in
  if hosts_IsLocalHost (Domain toJID) then c2s_Route stanza routingOpts
  else if s2s_enabled then
    s2s_Route stanza hosts_DefaultHostName;; mret [toJID]
  else fail ErrRemoteServerNotFound.

Definition Route (stanza : Element) : M W (list JID) :=
  global_route stanza CheckUserExistence.

(** ** Lemmas *)

(** The highest priority among some resources. *)
Definition max_priority (rss : list ResourceDesc) : Z :=
  match rss with
  | [] => 0
  | r :: rss' => foldr (fun x m => Z.max (ResPriority x) m) (ResPriority r) rss'
  end.

Definition top (rss : list ResourceDesc) : list ResourceDesc :=
  filter (fun r => ResPriority r = max_priority rss) rss.

Lemma max_priority_max rss : rss ≠ [] →
  (∀ r, r ∈ rss → (ResPriority r <= max_priority rss)%Z) ∧
  (∃ r, r ∈ rss ∧ ResPriority r = max_priority rss).
Proof.
  destruct rss as [|r0 rss]; [done|intros _]. simpl.
  induction rss as [|y rss (Hub & r & Hr & Heq)]; simpl.
  { split; [intros r Hr; apply list_elem_of_singleton in Hr as ->; lia|].
    exists r0. split; [set_solver|done]. }
  split.
  - intros x Hx. assert (x = y ∨ x ∈ r0 :: rss) as [->|Hx'] by set_solver; [lia|].
    specialize (Hub x Hx'). lia.
  - destruct (Z.max_spec (ResPriority y) (ResPriority r)) as [[_ Hm]|[_ Hm]];
      rewrite <-Heq, Hm; [exists r|exists y]; set_solver.
Qed.

Lemma max_priority_spec rss p : rss ≠ [] →
  (∀ r, r ∈ rss → (ResPriority r <= p)%Z) → (∃ r, r ∈ rss ∧ ResPriority r = p) →
  max_priority rss = p.
Proof.
  intros Hne Hle (r & Hr & <-).
  destruct (max_priority_max rss Hne) as (Hub & r' & Hr' & Heq).
  specialize (Hub r Hr). specialize (Hle r' Hr'). lia.
Qed.

Lemma max_priority_perm rss rss' : rss ≡ₚ rss' → max_priority rss = max_priority rss'.
Proof.
  intros Hp. destruct (decide (rss' = [])) as [->|Hne].
  { apply Permutation_nil_r in Hp as ->. done. }
  destruct (max_priority_max rss' Hne) as (Hub & r & Hr & Heq). apply max_priority_spec.
  - intros ->. by apply Permutation_nil in Hp.
  - intros x Hx. rewrite Hp in Hx. by apply Hub.
  - exists r. by rewrite Hp.
Qed.

Lemma route_top_targets stanza p0 rss acc w targets w' :
  (0 <= p0)%Z →
  StronglySorted (fun x y => desc_by ResPriority y x = false) rss →
  (∀ r, r ∈ rss → (ResPriority r <= p0)%Z) →
  route_top stanza p0 rss acc w = (Ok targets, w') →
  targets = acc ++ (ResJID <$> filter (fun r => ResPriority r = p0) rss).
Proof.
  intros Hp0. revert acc w. induction rss as [|r rss IH]; intros acc w Hs Hle Hr; simpl in Hr.
  { injection Hr as <- <-. by rewrite app_nil_r. }
  apply StronglySorted_inv in Hs as [Hs Hall]. rewrite Forall_forall in Hall.
  rewrite filter_cons. destruct ((_ || _)%bool) eqn:Hc.
  - injection Hr as <- <-. specialize (Hle r ltac:(set_solver)) as Hrle.
    rewrite decide_False by lia.
    assert (filter (fun r => ResPriority r = p0) rss = []) as ->; [|by rewrite app_nil_r].
    apply filter_none. intros x Hx Hxp. specialize (Hall x Hx). unfold desc_by in Hall. lia.
  - unfold mbind, M_bind in Hr. destruct (routeTo stanza r w) as [[[]|e|c] w1]; [|done..].
    apply IH in Hr; [|done|set_solver]. rewrite Hr, decide_True by lia.
    simpl. by rewrite <-app_assoc.
Qed.

(** Routing to the top resources fails for lack of targets only when every
    priority is negative. *)
Lemma route_top_negative stanza p0 rss w :
  (p0 < 0)%Z → (∃ r rss', rss = r :: rss' ∧ ResPriority r = p0) →
  route_top stanza p0 rss [] w = (Ok [], w).
Proof.
  intros Hp0 (r & rss' & -> & Hr). simpl.
  replace ((ResPriority r <? 0)%Z) with true by lia. done.
Qed.

Lemma sorted_head_max rss r rss' :
  sort_slice (desc_by ResPriority) rss = r :: rss' →
  max_priority rss = ResPriority r ∧ (∀ x, x ∈ r :: rss' → (ResPriority x <= ResPriority r)%Z).
Proof.
  intros Hs. pose proof (sort_slice_sorted (desc_by ResPriority) rss _) as Hss.
  rewrite Hs in Hss. apply StronglySorted_inv in Hss as [_ Hall].
  rewrite Forall_forall in Hall.
  assert (∀ x, x ∈ r :: rss' → (ResPriority x <= ResPriority r)%Z) as Hle.
  { intros x Hx. apply elem_of_cons in Hx as [->|Hx]; [lia|].
    specialize (Hall x Hx). unfold desc_by in Hall. lia. }
  split; [|done]. rewrite <-(max_priority_perm (r :: rss') rss).
  - apply max_priority_spec; [done|done|]. exists r. set_solver.
  - rewrite <-Hs. apply sort_slice_perm.
Qed.

Lemma top_perm rss rss' : rss ≡ₚ rss' →
  ResJID <$> filter (fun r => ResPriority r = max_priority rss') rss ≡ₚ ResJID <$> top rss'.
Proof. intros Hp. unfold top. by rewrite Hp. Qed.

(** ** Properties *)


(** A message to a bare JID is refused with [ErrUserNotAvailable], and nothing
    is sent, when the user has no resource or only resources of negative
    priority. *)
Theorem message_unavailable (stanza : Element) (rss : list ResourceDesc) (w : W)
    (Hmsg : Kind stanza = Some KMessage) (Hbare : IsFullWithUser (ToJID stanza) = false)
    (Hneg : ∀ r, r ∈ rss → (ResPriority r < 0)%Z) :
  route stanza rss w = (Err ErrUserNotAvailable, w).
Proof.
  unfold route. destruct rss as [|r0 rss0] eqn:Hrss; [done|]. rewrite <-Hrss in *.
  rewrite Hbare, Hmsg.
  destruct (sort_slice _ rss) as [|r rs] eqn:Hs.
  { pose proof (sort_slice_perm (desc_by ResPriority) rss) as Hp. rewrite Hs in Hp.
    apply Permutation_nil in Hp. congruence. }
  assert (r ∈ rss) as Hr.
  { rewrite <-(sort_slice_perm (desc_by ResPriority) rss), Hs. set_solver. }
  unfold mbind, M_bind. rewrite route_top_negative; [done|by apply Hneg|eauto].
Qed.

(** A stanza to a full JID goes to one resource, the one the JID names, or is
    refused with [ErrResourceNotFound] when the user has no such resource. *)
Theorem full_jid_routing (stanza : Element) (rss : list ResourceDesc) (w : W)
    (Hne : rss ≠ []) (Hfull : IsFullWithUser (ToJID stanza) = true) :
  let named := filter (fun r => Resource (ResJID r) = Resource (ToJID stanza)) rss in
  route stanza rss w =
    match named with
    | [] => (Err ErrResourceNotFound, w)
    | r :: _ => (routeTo stanza r;; mret [ResJID r]) w
    end.
Proof.
  simpl. unfold route. rewrite Hfull. destruct rss as [|r0 rss0]; [done|].
  generalize (r0 :: rss0). clear Hne r0 rss0. intros rss.
  induction rss as [|r rss IH]; simpl; [done|]. rewrite filter_cons.
  destruct (String.eqb_spec (Resource (ResJID r)) (Resource (ToJID stanza))).
  - by rewrite decide_True.
  - by rewrite decide_False.
Qed.

(** An iq or presence to a bare JID is broadcast to all the resources of the
    user, in the order the resource manager lists them. *)
Theorem broadcast_targets (stanza : Element) (rss : list ResourceDesc) (w w' : W)
    (targets : list JID) (Hkind : Kind stanza ≠ Some KMessage)
    (Hbare : IsFullWithUser (ToJID stanza) = false)
    (Hok : route stanza rss w = (Ok targets, w')) :
  targets = ResJID <$> rss.
Proof.
  unfold route in Hok. destruct rss as [|r0 rss0] eqn:Hrss; [done|]. rewrite <-Hrss in *.
  rewrite Hbare in Hok.
  assert (route_all stanza rss [] w = (Ok targets, w')) as Hall
    by (destruct (Kind stanza) as [[]|]; done). clear Hok Hrss Hkind.
  change (ResJID <$> rss) with ([] ++ (ResJID <$> rss)). revert Hall.
  generalize ([] : list JID). revert w.
  induction rss as [|r rss IH]; intros w acc Hall; simpl in Hall.
  { injection Hall as <- <-. by rewrite app_nil_r. }
  unfold mbind, M_bind in Hall. destruct (routeTo stanza r w) as [[[]|e|c] w1]; [|done..].
  rewrite (IH _ _ Hall). simpl. by rewrite <-app_assoc.
Qed.

(** ** The contract the streams rely on *)

(** None of the collaborators reports [ErrResourceNotFound] itself. *)
Class NoForeignNotFound : Prop := {
  nf_UserExists : ∀ u w, (rep_UserExists u w).1 ≠ Err ErrResourceNotFound;
  nf_GetResources : ∀ u w, (resMng_GetResources u w).1 ≠ Err ErrResourceNotFound;
  nf_local : ∀ e u r w, (local_Route e u r w).1 ≠ Err ErrResourceNotFound;
  nf_cluster : ∀ e u r i w, (cluster_Route e u r i w).1 ≠ Err ErrResourceNotFound;
}.

Lemma routeTo_not_found `{!NoForeignNotFound} stanza r w :
  (routeTo stanza r w).1 ≠ Err ErrResourceNotFound.
Proof. unfold routeTo. case_match; [apply nf_local|apply nf_cluster]. Qed.

Lemma bind_not_found {A B} (m : M W A) (f : A → M W B) w :
  (m w).1 ≠ Err ErrResourceNotFound →
  (∀ a w', (f a w').1 ≠ Err ErrResourceNotFound) →
  ((m ≫= f) w).1 ≠ Err ErrResourceNotFound.
Proof.
  intros Hm Hf. unfold mbind, M_bind.
  destruct (m w) as [[a|e|c] w1]; simpl in *; [apply Hf|congruence|done].
Qed.

Lemma route_top_not_found `{!NoForeignNotFound} stanza p0 rss : ∀ acc w,
  (route_top stanza p0 rss acc w).1 ≠ Err ErrResourceNotFound.
Proof.
  induction rss as [|r rss IH]; intros acc w; simpl; [done|]. case_match; [done|].
  apply bind_not_found; [apply routeTo_not_found|intros; apply IH].
Qed.

Lemma route_all_not_found `{!NoForeignNotFound} stanza rss : ∀ acc w,
  (route_all stanza rss acc w).1 ≠ Err ErrResourceNotFound.
Proof.
  induction rss as [|r rss IH]; intros acc w; simpl; [done|].
  apply bind_not_found; [apply routeTo_not_found|intros; apply IH].
Qed.

Lemma route_not_found `{!NoForeignNotFound} stanza rss w :
  IsFullWithUser (ToJID stanza) = false → (route stanza rss w).1 ≠ Err ErrResourceNotFound.
Proof.
  intros Hbare. unfold route. destruct rss; [done|]. rewrite Hbare.
  destruct (Kind stanza) as [[]|]; try apply route_all_not_found.
  destruct (sort_slice _ _); [done|].
  apply bind_not_found; [apply route_top_not_found|intros ts w']. by destruct ts.
Qed.

(** Only a stanza addressed to a full JID can be answered with
    [ErrResourceNotFound]. *)
Lemma Route_not_found_full `{!NoForeignNotFound} stanza w :
  (Route stanza w).1 = Err ErrResourceNotFound → IsFullWithUser (ToJID stanza) = true.
Proof.
  intros Hr. destruct (IsFullWithUser (ToJID stanza)) eqn:Hf; [done|exfalso]. revert Hr.
  unfold Route, global_route. repeat case_match; [| |done].
  - unfold c2s_Route. apply bind_not_found; [|intros _ w1].
    + case_match; [|done]. apply bind_not_found; [apply nf_UserExists|intros [] ?; done].
    + apply bind_not_found; [apply nf_GetResources|intros; by apply route_not_found].
  - unfold s2s_Route. apply bind_not_found; [|done].
    apply bind_not_found.
    + unfold try. by destruct (out_GetOut _ _ w) as [[]].
    + intros [e|[]] w1; [by case_decide|]. unfold ignore.
      apply bind_not_found; [|done]. unfold try. by destruct (out_SendElement _ _ _ w1) as [[]].
Qed.

End router.

(** ** Witnesses *)
Module RouterDemo.
Import TreeLib.

(** A server with an empty S2S side; the world is the log of deliveries. *)
Definition deliver (u r : string) : M (list (string * string)) unit :=
  modify (fun l => l ++ [(u, r)]).

#[export] Instance env : RouterEnv (list (string * string)) := {|
  rep_UserExists := fun _ => mret true;
  resMng_GetResources := fun _ => mret [];
  local_Route := fun _ u r => deliver u r;
  cluster_Route := fun _ u r _ => deliver u r;
  local_Disconnect := fun _ _ _ => mret tt;
  cluster_Disconnect := fun _ _ _ _ => mret tt;
  instance_ID := "i1";
  out_GetOut := fun _ _ => fail errServerTimeout;
  out_SendElement := fun _ _ _ => mret tt;
  hosts_IsLocalHost := fun d => String.eqb d "jackal.im";
  hosts_DefaultHostName := "jackal.im";
  s2s_enabled := true |}.

Definition res (name prio : string) : ResourceDesc :=
  NewResourceDesc "i1" (MkJid "juliet" "jackal.im" name)
    (Some (TNode "presence" [] [TNode "priority" [] [] prio None] "" (Some KPresence))) ∅.

Definition rss : list ResourceDesc :=
  [res "garden" "5"; res "balcony" "7"; res "hall" "-1"; res "yard" "7"].

Definition stanza_to (k : stanza_kind) (j : string) : Element :=
  TNode (kind_name k) [("to", j)] [] "" (Some k).

Definition targets (k : stanza_kind) : list JID :=
  match route (stanza_to k "juliet@jackal.im") rss [] with (Ok l, _) => l | _ => [] end.


Lemma message_unavailable_witness :
  route (stanza_to KMessage "juliet@jackal.im") [res "hall" "-1"] [] = (Err ErrUserNotAvailable, []).
Proof.
  apply (message_unavailable (stanza_to KMessage "juliet@jackal.im") [res "hall" "-1"]);
    [reflexivity|vm_compute; reflexivity|].
  intros r Hr. apply list_elem_of_singleton in Hr as ->. vm_compute. reflexivity.
Defined.

Lemma full_jid_routing_witness :
  route (stanza_to KMessage "juliet@jackal.im/hall") rss [] =
    (routeTo (stanza_to KMessage "juliet@jackal.im/hall") (res "hall" "-1");;
     mret [ResJID (res "hall" "-1")]) [].
Proof.
  apply (full_jid_routing (stanza_to KMessage "juliet@jackal.im/hall") rss []);
    [discriminate|vm_compute; reflexivity].
Defined.

Lemma broadcast_targets_witness : targets KPresence = ResJID <$> rss.
Proof.
  apply (broadcast_targets (stanza_to KPresence "juliet@jackal.im") rss []
    [("juliet", "garden"); ("juliet", "balcony"); ("juliet", "hall"); ("juliet", "yard")]);
    [discriminate|vm_compute; reflexivity..].
Defined.

End RouterDemo.
