(* ===== verification/C2SIn.v ===== *)
(** * The incoming C2S stream (pkg/c2s/in.go, pkg/c2s/flags.go)

    The state machine of a client connection: stream opening, STARTTLS, SASL,
    compression, resource binding, stanza processing and termination.  The
    stream is a record; every method is a computation on the stream and a world
    [W] that holds everything else.  What the stream calls (session, transport,
    router, resource manager, components, modules, hooks, authenticators) are
    the fields of [C2SEnv].  Every method runs on the stream's run queue, so
    methods do not interleave; hooks and modules run inside of them and can
    change the stream through its exported methods. *)

From stdpp Require Import base list strings gmap relations.
From Stdlib Require Import ZArith Lia.
From S2P Require Import Prelude GoLib Stravaganza Hosts C2SModel.

(** ** Flags (flags.go) *)
Module Flags.
Local Open Scope Z_scope.

Definition fSecured : Z := 1.
Definition fAuthenticated : Z := 2.
Definition fCompressed : Z := 4.
Definition fBinded : Z := 8.
Definition fSessionStarted : Z := 16.

(** [f.flg & mask > 0] and [f.flg | mask], on [uint8] *)
Definition has (mask flg : Z) : bool := 0 <? Z.land flg mask.
Definition set (mask flg : Z) : Z := Z.lor flg mask.

Definition isSecured := has fSecured.
Definition isAuthenticated := has fAuthenticated.
Definition isCompressed := has fCompressed.
Definition isBinded := has fBinded.
Definition isSessionStarted := has fSessionStarted.
Definition setSecured := set fSecured.
Definition setAuthenticated := set fAuthenticated.
Definition setCompressed := set fCompressed.
Definition setBinded := set fBinded.
Definition setSessionStarted := set fSessionStarted.

Definition masks : list Z := [fSecured; fAuthenticated; fCompressed; fBinded; fSessionStarted].

(** The flags value uses the five low bits only. *)
Definition valid (flg : Z) : Prop := 0 <= flg < 32.

Lemma has_set_valid flg : valid flg →
  Forall (fun m => Forall (fun k => valid (set m flg) ∧
    has k (set m flg) = (has k flg || bool_decide (k = m))) masks) masks.
Proof.
  intros Hv. unfold valid in Hv.
  assert (In flg (map Z.of_nat (seq 0 32))) as Hin.
  { apply in_map_iff. exists (Z.to_nat flg). split; [lia|]. apply in_seq. lia. }
  revert Hin. clear Hv.
  assert (forallb (fun flg => forallb (fun m => forallb (fun k =>
    (0 <=? set m flg) && (set m flg <? 32) &&
    Bool.eqb (has k (set m flg)) (has k flg || bool_decide (k = m))) masks) masks)
    (map Z.of_nat (seq 0 32)) = true) as Hall by (vm_compute; reflexivity).
  intros Hin. apply forallb_forall with (x := flg) in Hall; [|done].
  apply Forall_forall. intros m Hm. apply Forall_forall. intros k Hk.
  apply list_elem_of_In in Hm, Hk.
  pose proof (proj1 (forallb_forall _ _) Hall m Hm) as Hall'.
  pose proof (proj1 (forallb_forall _ _) Hall' k Hk) as Hb. simpl in Hb.
  apply andb_true_iff in Hb as [Hr Hb]. apply eqb_prop in Hb.
  split; [unfold valid; lia|done].
Qed.

Lemma has_set k m flg : valid flg → k ∈ masks → m ∈ masks →
  has k (set m flg) = (has k flg || bool_decide (k = m)).
Proof.
  intros Hv Hk Hm. pose proof (has_set_valid flg Hv) as Hf.
  rewrite Forall_forall in Hf. specialize (Hf m Hm).
  rewrite Forall_forall in Hf. apply (Hf k Hk).
Qed.

(** Setting a flag never clears another one, whatever the value. *)
Lemma has_mono k m flg : 0 <= m → 0 <= k → has k flg = true → has k (set m flg) = true.
Proof.
  unfold has, set. rewrite !Z.ltb_lt, Z.land_lor_distr_l. intros Hm Hk Hf.
  assert (0 <= Z.land m k) by (apply Z.land_nonneg; by left).
  assert (0 <= Z.lor (Z.land flg k) (Z.land m k)) by (apply Z.lor_nonneg; lia).
  assert (Z.lor (Z.land flg k) (Z.land m k) ≠ 0); [|lia].
  intros Heq. apply Z.lor_eq_0_iff in Heq as [Heq _]. lia.
Qed.

Lemma valid_set m flg : valid flg → m ∈ masks → valid (set m flg).
Proof.
  intros Hv Hm. pose proof (has_set_valid flg Hv) as Hf.
  rewrite Forall_forall in Hf. specialize (Hf m Hm).
  rewrite Forall_forall in Hf. apply (Hf m Hm).
Qed.

End Flags.

(** ** Types *)
Inductive state :=
| inConnecting
| inConnected
| inAuthenticating
| inAuthenticated
| inBinded
| inDisconnected
| inTerminated.

#[global] Instance state_eq_dec : EqDecision state.
Proof. solve_decision. Defined.

Definition maxAuthFailed : Z := 5.
Definition maxAuthAborted : Z := 1.

Inductive resourceConflict := override | disallow | terminateOld.

#[global] Instance resourceConflict_eq_dec : EqDecision resourceConflict.
Proof. solve_decision. Defined.

Record inCfg := MkCfg {
  maxStanzaSize : Z;
  compressionLevel : Z;
  resConflict : resourceConflict;
  useTLS : bool;
}.

Definition NoCompression : Z := 0.

(** Hook names (pkg/hook/c2s.go). *)
Definition C2SStreamConnected : string := "c2s.stream.connected".
Definition C2SStreamBinded : string := "c2s.stream.binded".
Definition C2SStreamDisconnected : string := "c2s.stream.disconnected".
Definition C2SStreamTerminated : string := "c2s.stream.terminated".
Definition C2SStreamElementReceived : string := "c2s.stream.element_received".
Definition C2SStreamIQReceived : string := "c2s.stream.iq_received".
Definition C2SStreamPresenceReceived : string := "c2s.stream.presence_received".
Definition C2SStreamMessageReceived : string := "c2s.stream.message_received".
Definition C2SStreamWillRouteElement : string := "c2s.stream.will_route_element".
Definition C2SStreamIQRouted : string := "c2s.stream.iq_routed".
Definition C2SStreamPresenceRouted : string := "c2s.stream.presence_routed".
Definition C2SStreamMessageRouted : string := "c2s.stream.message_routed".
Definition C2SStreamElementSent : string := "c2s.stream.element_sent".

(** Namespaces (pkg/c2s/namespace.go). *)
Definition streamNamespace : string := "http://etherx.jabber.org/streams".
Definition saslNamespace : string := "urn:ietf:params:xml:ns:xmpp-sasl".
Definition tlsNamespace : string := "urn:ietf:params:xml:ns:xmpp-tls".
Definition compressNamespace : string := "http://jabber.org/protocol/compress".
Definition bindNamespace : string := "urn:ietf:params:xml:ns:xmpp-bind".
Definition sessionNamespace : string := "urn:ietf:params:xml:ns:xmpp-session".

Section c2s.
Context `{XmlLib}.

(** [hook.C2SStreamInfo] *)
Record C2SStreamInfo := MkInfo {
  hi_ID : string;
  hi_JID : option JID;
  hi_Presence : option Element;
  hi_Element : option Element;
  hi_Targets : list JID;
  hi_DisconnectError : option goerror;
}.

(** [authState]; an authenticator is known by its position in the list the
    stream was created with. *)
Record authState := MkAuth {
  authenticators : list nat;
  active : option nat;
  failedTimes : Z;
  abortTimes : Z;
}.

(** [inC2S]: the fields the methods write, and those that never change.
    [discTm] tells whether the disconnect timer is pending, [done] whether
    [doneCh] is closed. *)
Record inC2S := MkC2S {
  id : Z;
  cfg : inCfg;
  authSt : authState;
  discTm : bool;
  done_ : bool;
  sendDisabled : bool;
  st : state;
  jd : option JID;
  pr : option Element;
  inf : Info.t;
  flags : Z;
}.

Definition set_authSt (v : authState) (s : inC2S) : inC2S :=
  MkC2S (id s) (cfg s) v (discTm s) (done_ s) (sendDisabled s) (st s) (jd s) (pr s) (inf s) (flags s).
Definition set_discTm (v : bool) (s : inC2S) : inC2S :=
  MkC2S (id s) (cfg s) (authSt s) v (done_ s) (sendDisabled s) (st s) (jd s) (pr s) (inf s) (flags s).
Definition set_done (v : bool) (s : inC2S) : inC2S :=
  MkC2S (id s) (cfg s) (authSt s) (discTm s) v (sendDisabled s) (st s) (jd s) (pr s) (inf s) (flags s).
Definition set_sendDisabled (v : bool) (s : inC2S) : inC2S :=
  MkC2S (id s) (cfg s) (authSt s) (discTm s) (done_ s) v (st s) (jd s) (pr s) (inf s) (flags s).
Definition set_st (v : state) (s : inC2S) : inC2S :=
  MkC2S (id s) (cfg s) (authSt s) (discTm s) (done_ s) (sendDisabled s) v (jd s) (pr s) (inf s) (flags s).
Definition set_jd (v : option JID) (s : inC2S) : inC2S :=
  MkC2S (id s) (cfg s) (authSt s) (discTm s) (done_ s) (sendDisabled s) (st s) v (pr s) (inf s) (flags s).
Definition set_pr (v : option Element) (s : inC2S) : inC2S :=
  MkC2S (id s) (cfg s) (authSt s) (discTm s) (done_ s) (sendDisabled s) (st s) (jd s) v (inf s) (flags s).
Definition set_inf (v : Info.t) (s : inC2S) : inC2S :=
  MkC2S (id s) (cfg s) (authSt s) (discTm s) (done_ s) (sendDisabled s) (st s) (jd s) (pr s) v (flags s).
Definition set_flags (v : Z) (s : inC2S) : inC2S :=
  MkC2S (id s) (cfg s) (authSt s) (discTm s) (done_ s) (sendDisabled s) (st s) (jd s) (pr s) (inf s) v.

(** ** What the stream calls *)
Class C2SEnv (W : Type) := {
  (** session *)
  ss_Reset : M W unit;
  ss_SetFromJID : option JID → M W unit;
  ss_OpenStream : M W unit;
  ss_Send : Element → M W unit;
  ss_Close : M W unit;
  (** transport *)
  tr_isSocket : bool;
  tr_SupportsChannelBinding : W → bool;
  tr_SetReadRateLimiter : Z * Z → M W unit;
  tr_StartTLS : M W unit;
  tr_EnableCompression : Z → M W unit;
  tr_Close : M W unit;
  (** the C2S router and the global router *)
  rt_Register : inC2S → M W unit;
  rt_Bind : Z → M W unit;
  rt_Unregister : inC2S → M W unit;
  rt_Disconnect : ResourceDesc → stream_reason → Element → M W unit;
  rt_Route : Element → M W (list JID);
  (** resource manager; [PutResource] gets the fields of the description *)
  rm_PutResource : option JID → option Element → Info.t → M W unit;
  rm_GetResources : string → M W (list ResourceDesc);
  rm_DelResource : string → string → M W unit;
  (** components and modules *)
  comps_IsComponentHost : string → W → bool;
  comps_ProcessStanza : Element → M (inC2S * W) unit;
  mods_IsModuleIQ : Element → W → bool;
  mods_ProcessIQ : Element → M (inC2S * W) unit;
  mods_StreamFeatures : string → M W (list Element);
  (** hooks; the handlers can replace the fields of the info *)
  hk_Run : string → C2SStreamInfo → M (inC2S * W) (bool * C2SStreamInfo);
  (** authenticators; [ProcessElement] gives an answer or a SASL error reason *)
  auth_Mechanism : nat → string;
  auth_UsesChannelBinding : nat → bool;
  auth_ProcessElement : nat → Element → M W (string + Element);
  auth_Authenticated : nat → W → bool;
  auth_Username : nat → W → string;
  auth_Reset : nat → M W unit;
  (** configuration and randomness *)
  shapers : list Shaper.Shaper;
  uuid_New : M W string;
}.

Section methods.
Context {W : Type} `{!C2SEnv W}.

Abbreviation MS := (M (inC2S * W)).

Definition liftW {A} (m : M W A) : MS A := fun '(s, w) =>
  let '(r, w') := m w in (r, (s, w')).
Definition liftO {A} (r : outcome A) : MS A := fun sw => (r, sw).
Definition field {A} (f : inC2S → A) : MS A := gets (fun sw => f sw.1).
Definition wfield {A} (f : W → A) : MS A := gets (fun sw => f sw.2).
Definition upd (f : inC2S → inC2S) : MS unit := modify (fun '(s, w) => (f s, w)).

(** [C2SID.String] *)
Definition idString (i : Z) : string := "c2s:" +:+ FormatUint i.

(** [authState.reset] *)
Definition authReset : MS unit :=
  a ← field (fun s => active (authSt s));
  i ← deref a;
  liftW (auth_Reset i);;
  upd (fun s => set_authSt (MkAuth (authenticators (authSt s)) None
                              (failedTimes (authSt s)) (abortTimes (authSt s))) s).

(** [newInC2S]: the stream record; setting the default rate limiter of the
    transport comes first and can fail. *)
Definition newInC2S (i : Z) (c : inCfg) (auths : list nat) : M W inC2S :=
  tr_SetReadRateLimiter (Shaper.RateLimiter Shaper.DefaultC2S);;
  mret (MkC2S i c (MkAuth auths None 0 0) false false false inConnecting None None
          Info.NewInfoMap (if useTLS c then Flags.setSecured 0 else 0)).

Definition getState : MS state := field st.
Definition setState (v : state) : MS unit := upd (set_st v).
Definition setJID (v : option JID) : MS unit := upd (set_jd v).
Definition setPresence (v : option Element) : MS unit := upd (set_pr v).
Definition setFlag (f : Z → Z) : MS unit := upd (fun s => set_flags (f (flags s)) s).

Definition getJID : MS (option JID) := field jd.
Definition Presence : MS (option Element) := field pr.
Definition username_of (s : inC2S) : string := match jd s with Some j => Node j | None => "" end.
Definition domain_of (s : inC2S) : string := match jd s with Some j => Domain j | None => "" end.
Definition resource_of (s : inC2S) : string := match jd s with Some j => Resource j | None => "" end.

(** [runHook] *)
Definition runHook (name : string) (hi : C2SStreamInfo) : MS (bool * C2SStreamInfo) :=
  hk_Run name hi.

(** The info the methods build from the stream. *)
Definition hookInfo (withPresence : bool) (elem : option Element) (targets : list JID)
    (derr : option goerror) : MS C2SStreamInfo :=
  field (fun s => MkInfo (idString (id s)) (jd s)
    (if withPresence then pr s else None) elem targets derr).

(** [sendElement] *)
Definition sendElement (elem : Element) : MS unit :=
  disabled ← field sendDisabled;
  if disabled : bool then mret tt
  else
    ignore (liftW (ss_Send elem));;
    hi ← hookInfo false (Some elem) [] None;
    _ ← runHook C2SStreamElementSent hi;
    mret tt.

(** [s.resMng.PutResource(ctx, s.getResource())] *)
Definition putResource : MS unit :=
  s ← field (fun s => s);
  liftW (rm_PutResource (jd s) (pr s) (inf s)).

(** [updateRateLimiter] *)
Definition updateRateLimiter : MS unit :=
  j ← getJID;
  sh ← liftO (Shaper.MatchingJID shapers j);
  liftW (tr_SetReadRateLimiter (Shaper.RateLimiter sh)).

(** [bindC2S] *)
Definition bindC2S : MS unit :=
  updateRateLimiter;;
  i ← field id;
  liftW (rt_Bind i);;
  putResource.

(** [Resume] *)
Definition Resume (j : JID) (p : option Element) (m : Info.t) : MS unit :=
  upd (fun s => set_inf (Info.NewInfoMapFromMap m) (set_pr p (set_jd (Some j) s)));;
  liftW (ss_SetFromJID (Some j));;
  bindC2S;;
  setState inBinded;;
  setFlag Flags.setBinded;;
  i ← field id;
  j' ← getJID;
  _ ← runHook C2SStreamBinded (MkInfo (idString i) j' None None [] None);
  mret tt.

(** [SetInfoValue]; a float value is not modelled. *)
Inductive info_value :=
| VString (v : string)
| VBool (v : bool)
| VInt (v : Z)
| VUnsupported.

Definition SetInfoValue (k : string) (v : info_value) : MS unit :=
  match v with
  | VString x => upd (fun s => set_inf (Info.SetString k x (inf s)) s);; putResource
  | VBool x => upd (fun s => set_inf (Info.SetBool k x (inf s)) s);; putResource
  | VInt x => upd (fun s => set_inf (Info.SetInt k x (inf s)) s);; putResource
  | VUnsupported => fail (ErrText "c2s: unsupported info value")
  end.

(** [restartSession] *)
Definition restartSession : MS unit :=
  ignore (liftW ss_Reset);;
  setState inConnecting.

(** ** Termination *)

(** [close(s.doneCh)] *)
Definition closeDone : MS unit :=
  d ← field done_;
  if d : bool then crash_with CloseOfClosedChannel else upd (set_done true).

(** [terminate] *)
Definition terminate : MS unit :=
  s ← field (fun s => s);
  liftW (rt_Unregister s);;
  liftW (rm_DelResource (username_of s) (resource_of s));;
  ignore (liftW tr_Close);;
  i ← field id;
  j ← getJID;
  _ ← runHook C2SStreamTerminated (MkInfo (idString i) j None None [] None);
  closeDone;;
  setState inTerminated.

(** [close] *)
Definition close (disconnectErr : goerror) : MS unit :=
  state ← getState;
  match state with
  | inDisconnected => terminate
  | inTerminated => mret tt
  | _ =>
    setState inDisconnected;;
    upd (set_discTm false);;
    hi ← hookInfo true None [] (Some disconnectErr);
    '(halted, _) ← runHook C2SStreamDisconnected hi;
    if halted : bool then mret tt else terminate
  end.

(** [disconnect]; a stream error has a reason and an optional application
    element. *)
Definition disconnect (streamErr : option (stream_reason * option Element)) : MS unit :=
  state ← getState;
  (if decide (state = inConnecting) then ignore (liftW ss_OpenStream) else mret tt);;
  match streamErr with
  | Some (r, app) => sendElement (StreamErrorElement r app)
  | None => mret tt
  end;;
  ignore (liftW ss_Close);;
  state ← getState;
  if decide (state = inBinded ∧ fst <$> streamErr = Some ConnectionTimeout) then
    upd (set_discTm true);;
    upd (set_sendDisabled true)
  else close (match streamErr with
             | Some (r, _) => StreamError r
             | None => NilStreamError
             end).

Definition disconnectE (r : stream_reason) : MS unit := disconnect (Some (r, None)).

(** ** Stream features *)

(** [unauthenticatedFeatures] *)
Definition unauthenticatedFeatures : MS (list Element) :=
  s ← field (fun s => s);
  cb ← wfield tr_SupportsChannelBinding;
  let secured := Flags.isSecured (flags s) in
  let starttls :=
    if tr_isSocket && negb secured then
      [Build "starttls" [(Namespace, tlsNamespace)] [Build "required" [] [] ""] ""]
    else [] in
  let shouldOfferSASL := negb tr_isSocket || (tr_isSocket && secured) in
  let auths := authenticators (authSt s) in
  let mechanisms :=
    if shouldOfferSASL && (0 <? length auths)%nat then
      [Build "mechanisms" [(Namespace, saslNamespace)]
        (map (fun a => Build "mechanism" [] [] (auth_Mechanism a))
           (List.filter (fun a => negb (auth_UsesChannelBinding a && negb cb)) auths)) ""]
    else [] in
  mret (starttls ++ mechanisms).

(** [authenticatedFeatures] *)
Definition authenticatedFeatures : MS (list Element) :=
  s ← field (fun s => s);
  let compressionAvailable := tr_isSocket && negb (compressionLevel (cfg s) =? NoCompression)%Z in
  let compression :=
    if negb (Flags.isCompressed (flags s)) && compressionAvailable then
      [Build "compression" [(Namespace, "http://jabber.org/features/compress")]
        [Build "method" [] [] "zlib"] ""]
    else [] in
  let bind := Build "bind" [(Namespace, bindNamespace)] [Build "required" [] [] ""] "" in
  let sess := Build "session" [(Namespace, sessionNamespace)] [] "" in
  j ← deref (jd s);
  modFeatures ← liftW (mods_StreamFeatures (Domain j));
  mret (compression ++ [bind; sess] ++ modFeatures).

(** ** Opening, TLS and SASL *)

(** [handleConnecting] *)
Definition handleConnecting (elem : Element) : MS unit :=
  d ← field domain_of;
  (if String.eqb d "" then setJID (NewWithString (Attribute elem AttrTo) true) else mret tt);;
  j ← getJID;
  liftW (ss_SetFromJID j);;
  fl ← field flags;
  features ←
    (if negb (Flags.isAuthenticated fl) then
       fs ← unauthenticatedFeatures;
       setState inConnected;;
       mret fs
     else
       fs ← authenticatedFeatures;
       setState inAuthenticated;;
       mret fs);
  liftW ss_OpenStream;;
  liftW (ss_Send (Build "stream:features"
    [("xmlns:stream", streamNamespace); ("version", "1.0")] features "")).

(** [proceedStartTLS] *)
Definition proceedStartTLS (elem : Element) : MS unit :=
  fl ← field flags;
  if Flags.isSecured fl then disconnectE NotAuthorized
  else
    let ns := Attribute elem Namespace in
    if negb (String.eqb ns "") && negb (String.eqb ns tlsNamespace) then
      disconnectE InvalidNamespace
    else
      setFlag Flags.setSecured;;
      sendElement (Build "proceed" [(Namespace, tlsNamespace)] [] "");;
      liftW tr_StartTLS;;
      restartSession.

(** [continueAuthentication] *)
Definition continueAuthentication (elem : Element) : MS unit :=
  a ← field (fun s => active (authSt s));
  i ← deref a;
  r ← liftW (auth_ProcessElement i elem);
  match r with
  | inl reason => fail (SASLError reason)
  | inr answer => sendElement answer
  end.

(** [finishAuthentication] *)
Definition finishAuthentication : MS unit :=
  a ← field (fun s => active (authSt s));
  i ← deref a;
  username ← wfield (auth_Username i);
  d ← field domain_of;
  setJID (NewJID username d "" true);;
  setFlag Flags.setAuthenticated;;
  updateRateLimiter;;
  authReset;;
  restartSession.

(** [failAuthentication] *)
Definition failAuthentication (reason : string) : MS unit :=
  upd (fun s => set_authSt (MkAuth (authenticators (authSt s)) (active (authSt s))
                              (failedTimes (authSt s) + 1) (abortTimes (authSt s))) s);;
  n ← field (fun s => failedTimes (authSt s));
  if (maxAuthFailed <=? n)%Z then disconnectE PolicyViolation
  else sendElement (Build "failure" [(Namespace, saslNamespace)] [Build reason [] [] ""] "").

(** [abortAuthentication] *)
Definition abortAuthentication : MS unit :=
  upd (fun s => set_authSt (MkAuth (authenticators (authSt s)) (active (authSt s))
                              (failedTimes (authSt s)) (abortTimes (authSt s) + 1)) s);;
  n ← field (fun s => abortTimes (authSt s));
  if (maxAuthAborted <=? n)%Z then disconnectE PolicyViolation
  else authReset;; setState inConnected.

(** What both SASL handlers do with the outcome of [continueAuthentication];
    [k] is what follows when the exchange is not complete. *)
Definition afterExchange (r : goerror + unit) (k : MS unit) : MS unit :=
  match r with
  | inl (SASLError reason) => failAuthentication reason
  | inl e => fail e
  | inr _ =>
    a ← field (fun s => active (authSt s));
    i ← deref a;
    ok ← wfield (auth_Authenticated i);
    if ok : bool then finishAuthentication else k
  end.

(** [startAuthentication] *)
Definition startAuthentication (elem : Element) : MS unit :=
  if negb (String.eqb (Attribute elem Namespace) saslNamespace) then
    disconnectE InvalidNamespace
  else
    auths ← field (fun s => authenticators (authSt s));
    match List.find (fun a => String.eqb (auth_Mechanism a) (Attribute elem "mechanism")) auths with
    | Some a =>
      upd (fun s => set_authSt (MkAuth (authenticators (authSt s)) (Some a)
                                  (failedTimes (authSt s)) (abortTimes (authSt s))) s);;
      r ← try (continueAuthentication elem);
      afterExchange r (setState inAuthenticating)
    | None =>
      sendElement (Build "failure" [(Namespace, saslNamespace)]
        [Build "invalid-mechanism" [] [] ""] "")
    end.

(** [handleConnected] *)
Definition handleConnected (elem : Element) : MS unit :=
  let name := Name elem in
  if String.eqb name "starttls" then proceedStartTLS elem
  else if String.eqb name "auth" then startAuthentication elem
  else if String.eqb name "iq" then
    match ChildNamespace elem "query" "jabber:iq:auth" with
    | Some _ => sendElement (StanzaError SEServiceUnavailable elem)
    | None => disconnectE NotAuthorized
    end
  else if String.eqb name "message" || String.eqb name "presence" then
    disconnectE NotAuthorized
  else disconnectE UnsupportedStanzaType.

(** [handleAuthenticating] *)
Definition handleAuthenticating (elem : Element) : MS unit :=
  if negb (String.eqb (Attribute elem Namespace) saslNamespace) then
    disconnectE InvalidNamespace
  else if String.eqb (Name elem) "abort" then abortAuthentication
  else
    r ← try (continueAuthentication elem);
    afterExchange r (mret tt).

(** [compress] *)
Definition compress (elem : Element) : MS unit :=
  fl ← field flags;
  if negb (String.eqb (Attribute elem Namespace) compressNamespace) || Flags.isCompressed fl then
    disconnectE UnsupportedStanzaType
  else
    let failure reason := sendElement (Build "failure" [(Namespace, compressNamespace)]
                                         [Build reason [] [] ""] "") in
    match Text <$> Child elem "method" with
    | None => failure "setup-failed"
    | Some method =>
      if String.eqb method "" then failure "setup-failed"
      else if negb (String.eqb method "zlib") then failure "unsupported-method"
      else
        sendElement (Build "compressed" [(Namespace, compressNamespace)] [] "");;
        lvl ← field (fun s => compressionLevel (cfg s));
        liftW (tr_EnableCompression lvl);;
        setFlag Flags.setCompressed;;
        restartSession
    end.

(** ** Resource binding *)

(** The last part of [bindResource]: the resource name is chosen. *)
Definition finishBind (iq : Element) (res : string) : MS unit :=
  s ← field (fun s => s);
  match NewJID (username_of s) (domain_of s) res false with
  | None => sendElement (StanzaError SEBadRequest iq)
  | Some userJID =>
    setJID (Some userJID);;
    liftW (ss_SetFromJID (Some userJID));;
    setPresence (BuildStanza KPresence
      [(AttrFrom, JIDString userJID); (AttrTo, JIDString userJID);
       (AttrType, UnavailableType)] []);;
    bindC2S;;
    setState inBinded;;
    setFlag Flags.setBinded;;
    i ← field id;
    j ← getJID;
    _ ← runHook C2SStreamBinded (MkInfo (idString i) j None None [] None);
    j ← getJID;
    j ← deref j;
    resIQ ← deref (ResultIQ iq
      [Build "bind" [(Namespace, bindNamespace)] [Build "jid" [] [] (JIDString j)] ""]);
    sendElement resIQ
  end.

(** [bindResource] *)
Definition bindResource (iq : Element) : MS unit :=
  match ChildNamespace iq "bind" bindNamespace with
  | Some bind =>
    if negb (String.eqb (Attribute iq AttrType) SetType) then
      sendElement (StanzaError SENotAllowed iq)
    else
      username ← field username_of;
      rss ← liftW (rm_GetResources username);
      j ← getJID;
      sh ← liftO (Shaper.MatchingJID shapers j);
      if (Z.of_nat (length rss) =? Shaper.MaxSessions sh)%Z then
        disconnect (Some (PolicyViolation, Some (Build "reached-max-session-count"
          [(Namespace, "urn:xmpp:errors")] [] "")))
      else
        match Child bind "resource" with
        | Some resElem =>
          let res := Text resElem in
          match List.find (fun rs => String.eqb (Resource (ResJID rs)) res) rss with
          | None => finishBind iq res
          | Some rs =>
            conflict ← field (fun s => resConflict (cfg s));
            match conflict with
            | override => res' ← liftW uuid_New; finishBind iq res'
            | terminateOld =>
              liftW (rt_Disconnect rs PolicyViolation
                (Build "resource-conflict" [(Namespace, "urn:xmpp:errors")] [] ""));;
              finishBind iq res
            | disallow => sendElement (StanzaError SEConflict iq)
            end
          end
        | None => res ← liftW uuid_New; finishBind iq res
        end
  | None => sendElement (StanzaError SENotAllowed iq)
  end.

(** [handleAuthenticated] *)
Definition handleAuthenticated (elem : Element) : MS unit :=
  let name := Name elem in
  if String.eqb name "compress" then compress elem
  else if String.eqb name "iq" then
    if decide (Kind elem = Some KIQ) then bindResource elem
    else crash_with BadTypeAssertion
  else disconnectE UnsupportedStanzaType.

(** ** Stanza processing *)

(** The element a hook leaves in its info, as a stanza of a given type: the
    checked assertion [x, ok := e.( *T)]. *)
Definition element_as (k : stanza_kind) (hi : C2SStreamInfo) : option Element :=
  match hi_Element hi with
  | Some e => if decide (Kind e = Some k) then Some e else None
  | None => None
  end.

(** The unchecked assertion [e.( *T)]. *)
Definition assert_kind (k : stanza_kind) (hi : C2SStreamInfo) : MS Element :=
  match element_as k hi with Some e => mret e | None => crash_with BadTypeAssertion end.

(** [processIQ] *)
Definition processIQ (iq : Element) : MS unit :=
  hi ← hookInfo true (Some iq) [] None;
  '(_, hi) ← runHook C2SStreamIQReceived hi;
  iq ← assert_kind KIQ hi;
  if IsSet iq && bool_decide (is_Some (ChildNamespace iq "session" sessionNamespace)) then
    fl ← field flags;
    if negb (Flags.isSessionStarted fl) then
      setFlag Flags.setSessionStarted;;
      res ← deref (ResultIQ iq []);
      sendElement res
    else sendElement (StanzaError SENotAllowed iq)
  else if IsResult iq || IsError iq then mret tt
  else
    isModule ← wfield (mods_IsModuleIQ iq);
    if isModule : bool then mods_ProcessIQ iq
    else
      hi ← hookInfo true (Some iq) [] None;
      '(halted, hi) ← runHook C2SStreamWillRouteElement hi;
      if halted : bool then mret tt
      else
        match element_as KIQ hi with
        | None => mret tt
        | Some iq =>
          r ← try (liftW (rt_Route iq));
          match r with
          | inl ErrResourceNotFound => sendElement (StanzaError SEServiceUnavailable iq)
          | inl ErrRemoteServerNotFound => sendElement (StanzaError SERemoteServerNotFound iq)
          | inl ErrRemoteServerTimeout => sendElement (StanzaError SERemoteServerTimeout iq)
          | inr targets =>
            hi ← hookInfo true (Some iq) targets None;
            _ ← runHook C2SStreamIQRouted hi; mret tt
          | inl ErrUserNotAvailable =>
            hi ← hookInfo true (Some iq) [] None;
            _ ← runHook C2SStreamIQRouted hi; mret tt
          | inl _ => mret tt
          end
        end.

(** [processPresence] *)
Definition processPresence (presence : Element) : MS unit :=
  hi ← hookInfo true (Some presence) [] None;
  '(_, hi) ← runHook C2SStreamPresenceReceived hi;
  presence ← assert_kind KPresence hi;
  if IsFullWithUser (ToJID presence) then
    hi ← hookInfo true (Some presence) [] None;
    '(halted, hi) ← runHook C2SStreamWillRouteElement hi;
    if halted : bool then mret tt
    else
      match element_as KPresence hi with
      | None => mret tt
      | Some presence =>
        r ← try (liftW (rt_Route presence));
        match r with
        | inr targets =>
          hi ← hookInfo false (Some presence) targets None;
          _ ← runHook C2SStreamPresenceRouted hi; mret tt
        | inl ErrUserNotAvailable =>
          hi ← hookInfo false (Some presence) [] None;
          _ ← runHook C2SStreamPresenceRouted hi; mret tt
        | inl _ => mret tt
        end
      end
  else
    j ← getJID;
    j ← deref j;
    (if MatchesBare j (ToJID presence) && (IsAvailable presence || IsUnavailable presence) then
       setPresence (Some presence)
     else mret tt);;
    putResource.

(** The loop of [processMessage], between the label [sendMsg] and the jump back
    to it; [message] is the stanza the client sent, [msg] the one to route. *)
Fixpoint sendMsg (fuel : nat) (message msg : Element) : MS unit :=
  match fuel with
  | O => crash_with OutOfFuel
  | S fuel' =>
    hi ← hookInfo true (Some msg) [] None;
    '(halted, hi) ← runHook C2SStreamWillRouteElement hi;
    if halted : bool then mret tt
    else
      match element_as KMessage hi with
      | None => mret tt
      | Some msg =>
        r ← try (liftW (rt_Route msg));
        let routed (targets : list JID) (unavailable : bool) : MS unit :=
          hi ← hookInfo true (Some msg) targets None;
          h ← try (runHook C2SStreamMessageRouted hi);
          match h with
          | inr (true, _) => mret tt
          | _ =>
            if unavailable then sendElement (StanzaError SEServiceUnavailable message)
            else match h with inl e => fail e | inr _ => mret tt end
          end in
        match r with
        | inl ErrResourceNotFound =>
          msg' ← deref (BuildFrom msg
            [(AttrFrom, JIDString (FromJID message));
             (AttrTo, JIDString (ToBareJID (ToJID message)))] [] KMessage);
          sendMsg fuel' message msg'
        | inl ErrNotExistingAccount => sendElement (StanzaError SEServiceUnavailable message)
        | inl ErrRemoteServerNotFound => sendElement (StanzaError SERemoteServerNotFound message)
        | inl ErrRemoteServerTimeout => sendElement (StanzaError SERemoteServerTimeout message)
        | inr targets => routed targets false
        | inl ErrUserNotAvailable => routed [] true
        | inl e => fail e
        end
      end
  end.

(** [processMessage]; the message is rerouted at most once (see
    [process_message_terminates]), so two rounds of fuel are enough. *)
Definition processMessage (message : Element) : MS unit :=
  hi ← hookInfo true (Some message) [] None;
  '(_, hi) ← runHook C2SStreamMessageReceived hi;
  msg ← assert_kind KMessage hi;
  sendMsg 2 message msg.

(** [processStanza] *)
Definition processStanza (stanza : Element) : MS unit :=
  isComp ← wfield (comps_IsComponentHost (Domain (ToJID stanza)));
  if isComp : bool then comps_ProcessStanza stanza
  else
    match Kind stanza with
    | Some KIQ => processIQ stanza
    | Some KPresence => processPresence stanza
    | Some KMessage => processMessage stanza
    | None => disconnectE UnsupportedStanzaType
    end.

(** [handleBinded] *)
Definition handleBinded (elem : Element) : MS unit :=
  if is_stanza elem then processStanza elem else disconnectE UnsupportedStanzaType.

(** ** The read loop *)

(** [handleElement] *)
Definition handleElement (elem : Element) : MS unit :=
  hi ← hookInfo true (Some elem) [] None;
  '(halted, hi) ← runHook C2SStreamElementReceived hi;
  if halted : bool then mret tt
  else
    state ← getState;
    match state with
    | inConnecting => e ← deref (hi_Element hi); handleConnecting e
    | inConnected => e ← deref (hi_Element hi); handleConnected e
    | inAuthenticating => e ← deref (hi_Element hi); handleAuthenticating e
    | inAuthenticated => e ← deref (hi_Element hi); handleAuthenticated e
    | inBinded => e ← deref (hi_Element hi); handleBinded e
    | inDisconnected | inTerminated => mret tt
    end.

(** [handleSessionError] *)
Definition handleSessionError (err : goerror) : MS unit :=
  (if decide (err = ErrStreamClosedByPeer) then ignore (liftW ss_Close) else mret tt);;
  ignore (close err).

(** [handleSessionResult]: an element, an error, or neither *)
Definition handleSessionResult (r : option (goerror + Element)) : MS unit :=
  match r with
  | Some (inr elem) => ignore (handleElement elem)
  | Some (inl err) => handleSessionError err
  | None => mret tt
  end.

(** [connTimeout] *)
Definition connTimeout : MS unit := ignore (disconnectE ConnectionTimeout).

(** [start], up to the first iteration of [readLoop] *)
Definition start : MS unit :=
  s ← field (fun s => s);
  liftW (rt_Register s);;
  _ ← runHook C2SStreamConnected (MkInfo (idString (id s)) None None None [] None);
  restartSession.

(** The condition on which [readLoop] goes on. *)
Definition readLoop_continues (s : inC2S) : bool :=
  match st s with inDisconnected | inTerminated => false | _ => true end.

(** ** What can happen to a stream

    Each event is one function of the run queue or one exported method. *)
Inductive event :=
| EvSession (r : option (goerror + Element))
| EvSendElement (e : Element)
| EvDisconnect (streamErr : option (stream_reason * option Element))
| EvTimeout
| EvDiscTimer
| EvSetInfo (k : string) (v : info_value).

Definition step (ev : event) : MS unit :=
  match ev with
  | EvSession r => handleSessionResult r
  | EvSendElement e => ignore (sendElement e)
  | EvDisconnect e => ignore (disconnect e)
  | EvTimeout => connTimeout
  | EvDiscTimer =>
    pending ← field discTm;
    if pending : bool then
      upd (set_discTm false);;
      ignore (close (StreamError ConnectionTimeout))
    else mret tt
  | EvSetInfo k v => ignore (SetInfoValue k v)
  end.

Fixpoint run (evs : list event) : MS unit :=
  match evs with
  | [] => mret tt
  | ev :: evs' => step ev;; run evs'
  end.

End methods.
End c2s.
