(* ===== verification/C2SSafety.v ===== *)
(** * Safety of the C2S stream

    The stream is verified against an interface of its environment: what hooks,
    modules and components may do to the stream while one of its methods runs
    ([eff]), and what the registry it binds to promises.  The invariant then
    holds whatever the order of events. *)

From stdpp Require Import base list strings gmap relations.
From Stdlib Require Import ZArith Lia.
From S2P Require Import Prelude GoLib Stravaganza Hosts C2SModel C2SIn.

Section safety.
Context `{XmlLib} {W : Type} `{!C2SEnv W}.
(** Whether this stream is registered and not yet bound. *)
Context (registered : W → bool).

Abbreviation St := (inC2S * W)%type.
Abbreviation MS := (M (inC2S * W)).

Definition isAuth (s : inC2S) : bool := Flags.isAuthenticated (flags s).

(** ** The interface *)

(** One change a collaborator may make while it runs: to the world, without
    registering the stream again; to the info map ([SetInfoValue]); and the two
    stages of [Resume] on an authenticated stream, the second one after a
    successful [Bind]. *)
Inductive eff : relation St :=
| eff_world s w w' :
    (registered w' = true → registered w = true) → eff (s, w) (s, w')
| eff_info s w m : eff (s, w) (set_inf m s, w)
| eff_resume s w j p m :
    isAuth s = true → eff (s, w) (set_inf m (set_pr p (set_jd (Some j) s)), w)
| eff_bound s w w' :
    isAuth s = true → registered w = true → registered w' = false →
    eff (s, w) (set_flags (Flags.setBinded (flags s)) (set_st inBinded s), w').

(** A call that does not register the stream and does not panic on [doneCh]. *)
Definition quiet {A} (m : M W A) : Prop := ∀ w,
  (registered (m w).2 = true → registered w = true) ∧
  (m w).1 ≠ Crash CloseOfClosedChannel.

(** A collaborator that runs inside a method of the stream. *)
Definition tame {A} (m : MS A) : Prop := ∀ sw,
  rtc eff sw (m sw).2 ∧ (m sw).1 ≠ Crash CloseOfClosedChannel.

Class C2SEnvOk : Prop := {
  ok_Reset : quiet ss_Reset;
  ok_SetFromJID : ∀ j, quiet (ss_SetFromJID j);
  ok_OpenStream : quiet ss_OpenStream;
  ok_Send : ∀ e, quiet (ss_Send e);
  ok_Close : quiet ss_Close;
  ok_SetReadRateLimiter : ∀ l, quiet (tr_SetReadRateLimiter l);
  ok_StartTLS : quiet tr_StartTLS;
  ok_EnableCompression : ∀ l, quiet (tr_EnableCompression l);
  ok_tr_Close : quiet tr_Close;
  ok_Register : ∀ s w, (rt_Register s w).1 ≠ Crash CloseOfClosedChannel;
  ok_Bind : ∀ i, quiet (rt_Bind i);
  ok_Bind_registered : ∀ i w, (rt_Bind i w).1 = Ok tt →
    registered w = true ∧ registered (rt_Bind i w).2 = false;
  ok_Unregister : ∀ s, quiet (rt_Unregister s);
  ok_Unregister_gone : ∀ s w, (rt_Unregister s w).1 = Ok tt →
    registered (rt_Unregister s w).2 = false;
  ok_Disconnect : ∀ r x e, quiet (rt_Disconnect r x e);
  ok_Route : ∀ e, quiet (rt_Route e);
  ok_PutResource : ∀ j p m, quiet (rm_PutResource j p m);
  ok_GetResources : ∀ u, quiet (rm_GetResources u);
  ok_DelResource : ∀ u r, quiet (rm_DelResource u r);
  ok_StreamFeatures : ∀ d, quiet (mods_StreamFeatures d);
  ok_auth_ProcessElement : ∀ a e, quiet (auth_ProcessElement a e);
  ok_auth_Reset : ∀ a, quiet (auth_Reset a);
  ok_uuid : quiet uuid_New;
  ok_hooks : ∀ n hi, tame (hk_Run n hi);
  ok_ProcessIQ : ∀ e, tame (mods_ProcessIQ e);
  ok_ProcessStanza : ∀ e, tame (comps_ProcessStanza e);
}.

(** ** The invariant *)
Record Inv (sw : St) : Prop := MkInv {
  inv_valid : Flags.valid (flags sw.1);
  inv_auth : st sw.1 = inAuthenticated ∨ st sw.1 = inBinded → isAuth sw.1 = true;
  inv_bind : st sw.1 = inBinded → Flags.isBinded (flags sw.1) = true;
  inv_bind_auth : Flags.isBinded (flags sw.1) = true → isAuth sw.1 = true;
  inv_active : st sw.1 = inAuthenticating → is_Some (active (authSt sw.1));
  inv_done : st sw.1 = inTerminated ↔ done_ sw.1 = true;
  inv_reg : done_ sw.1 = true → registered sw.2 = false;
}.

(** The invariant of a stream that is not terminated, with an extra fact [F]
    about its fields. *)
Definition alive (F : inC2S → Prop) (sw : St) : Prop :=
  Inv sw ∧ done_ sw.1 = false ∧ F sw.1.

Definition any (_ : inC2S) : Prop := True.
Definition authed (s : inC2S) : Prop := isAuth s = true.
Definition has_active (s : inC2S) : Prop := is_Some (active (authSt s)).

(** Predicates that a running collaborator cannot falsify. *)
Definition estable (P : St → Prop) : Prop := ∀ sw sw', eff sw sw' → P sw → P sw'.
Definition fstable (F : inC2S → Prop) : Prop := ∀ sw sw', eff sw sw' → F sw.1 → F sw'.1.

Lemma mask_nonneg m : m ∈ Flags.masks → (0 <= m)%Z.
Proof.
  unfold Flags.masks. intros Hm.
  repeat (apply elem_of_cons in Hm as [->|Hm]; [by vm_compute|]). by apply not_elem_of_nil in Hm.
Qed.

Lemma isAuth_set m s : m ∈ Flags.masks →
  isAuth s = true → isAuth (set_flags (Flags.set m (flags s)) s) = true.
Proof. intros Hm Ha. apply Flags.has_mono; [by apply mask_nonneg|done|done]. Qed.

Lemma Inv_estable : estable Inv.
Proof.
  intros sw sw' He [Hv Ha Hb Hba Hact Hd Hr].
  destruct He as [s w w' Hreg|s w m|s w j p m Hau|s w w' Hau Hreg Hreg']; simpl in *.
  - split; simpl; try done. intros Hdone. specialize (Hr Hdone).
    destruct (registered w'); [|done]. by rewrite Hreg in Hr.
  - by split.
  - by split.
  - assert (done_ s = false) as Hdn.
    { destruct (done_ s); [|done]. rewrite Hr in Hreg; done. }
    assert (isAuth (set_flags (Flags.setBinded (flags s)) s) = true) as Ha'.
    { apply isAuth_set; [set_solver|done]. }
    split; simpl; try done.
    + apply Flags.valid_set; [done|set_solver].
    + intros _. unfold Flags.isBinded, Flags.setBinded.
      rewrite Flags.has_set, orb_true_r; (done || set_solver).
    + by rewrite Hdn.
Qed.

Lemma alive_estable F : fstable F → estable (alive F).
Proof.
  intros HF sw sw' He (Hi & Hd & Hf). split; [by eapply Inv_estable|].
  split; [by destruct He|by eapply HF].
Qed.

Lemma estable_rtc P sw sw' : estable P → rtc eff sw sw' → P sw → P sw'.
Proof. intros HP Hr. induction Hr; eauto. Qed.

Lemma any_fstable : fstable any.
Proof. done. Qed.

Lemma has_active_fstable : fstable has_active.
Proof. intros sw sw' He. by destruct He. Qed.

Lemma authed_fstable : fstable authed.
Proof.
  intros sw sw' He. destruct He as [| | |s w w' Hau]; simpl; try done.
  intros _. by apply (isAuth_set Flags.fBinded s); [set_solver|].
Qed.

(** ** Hoare logic

    [hoare P m Q E]: from [P], [m] ends in [Q] when it succeeds, in [E] when it
    returns an error, and does not close [doneCh] twice. *)
Definition hoare {A} (P : St → Prop) (m : MS A) (Q : A → St → Prop) (E : St → Prop) : Prop :=
  ∀ sw, P sw → match m sw with
               | (Ok a, sw') => Q a sw'
               | (Err _, sw') => E sw'
               | (Crash c, _) => c ≠ CloseOfClosedChannel
               end.

Section rules.
Context {A B : Type}.
Implicit Types (P E : St → Prop).

Lemma eff_ret P E (a : A) : hoare P (mret a) (fun _ => P) E.
Proof. by intros sw HP. Qed.

Lemma eff_bind P (m : MS A) R (f : A → MS B) Q E :
  hoare P m R E → (∀ a, hoare (R a) (f a) Q E) → hoare P (m ≫= f) Q E.
Proof.
  intros Hm Hf sw HP. specialize (Hm sw HP). unfold mbind, M_bind.
  destruct (m sw) as [[a|e|c] sw1]; [|done..]. by apply Hf.
Qed.

Lemma eff_conseq P P' (m : MS A) (Q Q' : A → St → Prop) E E' :
  hoare P' m Q' E' → (∀ s, P s → P' s) → (∀ a s, Q' a s → Q a s) →
  (∀ s, E' s → E s) → hoare P m Q E.
Proof.
  intros Hm HP HQ HE sw Hs. specialize (Hm sw (HP _ Hs)).
  destruct (m sw) as [[a|e|c] sw1]; auto.
Qed.

Lemma eff_pre P' P (m : MS A) Q E :
  (∀ s, P s → P' s) → hoare P' m Q E → hoare P m Q E.
Proof. intros HP Hm. by eapply eff_conseq. Qed.

Lemma eff_try P (m : MS A) Q E E' :
  hoare P m Q E →
  hoare P (try m) (fun r s => match r with inr a => Q a s | inl _ => E s end) E'.
Proof.
  intros Hm sw HP. specialize (Hm sw HP). unfold try.
  by destruct (m sw) as [[a|e|c] sw1].
Qed.

Lemma eff_gets P E (f : St → A) : hoare P (gets f) (fun a s => P s ∧ a = f s) E.
Proof. by intros sw HP. Qed.

Lemma hoare_crash P E Q c : c ≠ CloseOfClosedChannel → hoare P (@crash_with St A c) Q E.
Proof. by intros Hc sw HP. Qed.

Lemma eff_deref P E (o : option A) : hoare P (deref o) (fun a s => P s ∧ o = Some a) E.
Proof. intros sw HP. by destruct o. Qed.

Lemma hoare_fail P Q e : hoare P (@fail St A e) Q P.
Proof. by intros sw HP. Qed.

Lemma hoare_upd (Q : unit → St → Prop) E f :
  hoare (fun sw => Q tt (f sw.1, sw.2)) (upd f) Q E.
Proof. intros [s w] HQ. exact HQ. Qed.

(** Calls to the world and to collaborators keep what they cannot falsify. *)
Lemma hoare_world P (m : M W A) :
  (∀ s w w', (registered w' = true → registered w = true) → P (s, w) → P (s, w')) →
  quiet m → hoare P (liftW m) (fun _ => P) P.
Proof.
  intros HP Hm [s w] Hs. unfold liftW. specialize (Hm w).
  destruct (m w) as [r w'], Hm as [Hreg Hc]. simpl in *.
  assert (P (s, w')) by (by eapply HP).
  destruct r; [done|done|congruence].
Qed.

Lemma hoare_liftW P (m : M W A) : estable P → quiet m → hoare P (liftW m) (fun _ => P) P.
Proof.
  intros HP. apply hoare_world. intros s w w' Hr. eapply HP. by apply eff_world.
Qed.

Lemma hoare_tame P (m : MS A) : estable P → tame m → hoare P m (fun _ => P) P.
Proof.
  intros HP Hm sw Hs. destruct (Hm sw) as [Hr Hc].
  assert (P (m sw).2) as Hp by (by eapply estable_rtc).
  destruct (m sw) as [[a|e|c] sw1]; simpl in *; [done|done|congruence].
Qed.

End rules.

Lemma eff_ignore {A} P (m : MS A) Q E :
  hoare P m (fun _ => Q) Q → hoare P (ignore m) (fun _ => Q) E.
Proof.
  intros Hm. unfold ignore. eapply eff_bind; [by apply eff_try|].
  intros r sw Hs. simpl. by destruct r.
Qed.

(** A computation that keeps [P], whatever happens. *)
Definition keepsP {A} (P : St → Prop) (m : MS A) : Prop := hoare P m (fun _ => P) P.

Lemma keepsP_bind {A B} P (m : MS A) (f : A → MS B) :
  keepsP P m → (∀ a, keepsP P (f a)) → keepsP P (m ≫= f).
Proof. intros Hm Hf. by eapply eff_bind. Qed.

Lemma keepsP_gets {A} P (f : St → A) : keepsP P (gets f).
Proof. intros sw HP. exact HP. Qed.

Lemma keepsP_deref {A} P (o : option A) : keepsP P (deref o).
Proof. intros sw HP. by destruct o. Qed.

Lemma keepsP_try {A} P (m : MS A) : keepsP P m → keepsP P (try m).
Proof.
  intros Hm. eapply eff_conseq; [by eapply (eff_try _ _ _ _ P)|done| |done].
  by intros [e|a] s.
Qed.

Lemma keepsP_upd P f : (∀ s w, P (s, w) → P (f s, w)) → keepsP P (upd f).
Proof. intros Hf [s w] Hs. simpl. by apply Hf. Qed.

Lemma keepsP_liftO {A} P (r : outcome A) : r ≠ Crash CloseOfClosedChannel → keepsP P (liftO r).
Proof. intros Hr sw HP. unfold liftO. destruct r; [done|done|congruence]. Qed.

Lemma keepsP_ret {A} P (a : A) : keepsP P (mret a).
Proof. apply eff_ret. Qed.

Lemma keepsP_fail {A} P e : keepsP P (@fail St A e).
Proof. apply hoare_fail. Qed.

Lemma keepsP_crash {A} P c : c ≠ CloseOfClosedChannel → keepsP P (@crash_with St A c).
Proof. apply hoare_crash. Qed.

Lemma keepsP_ignore {A} P (m : MS A) : keepsP P m → keepsP P (ignore m).
Proof. apply eff_ignore. Qed.

Lemma keepsP_E {A} P (m : MS A) E :
  keepsP P m → (∀ s, P s → E s) → hoare P m (fun _ => P) E.
Proof. intros Hm HE. by eapply eff_conseq. Qed.

Lemma MatchingJID_quiet ss j : Shaper.MatchingJID ss j ≠ Crash CloseOfClosedChannel.
Proof. induction ss as [|s ss IH]; simpl; destruct j; try done. by case_match. Qed.

(** ** The methods *)
Section methods.
Context `{!C2SEnvOk}.

Create HintDb c2senv.
#[local] Hint Resolve ok_Reset ok_SetFromJID ok_OpenStream ok_Send ok_Close
  ok_SetReadRateLimiter ok_StartTLS ok_EnableCompression ok_tr_Close ok_Bind
  ok_Unregister ok_Disconnect ok_Route ok_PutResource ok_GetResources ok_DelResource
  ok_StreamFeatures ok_auth_ProcessElement ok_auth_Reset ok_uuid ok_hooks
  ok_ProcessIQ ok_ProcessStanza MatchingJID_quiet : c2senv.
#[local] Hint Resolve Inv_estable any_fstable authed_fstable has_active_fstable
  alive_estable : c2senv.

(** Walks a computation whose calls all keep [P]. *)
Ltac kp_step :=
  match goal with
  | |- keepsP _ (_ ≫= _) => apply keepsP_bind; [|intros ?]
  | |- keepsP _ (if decide _ then _ else _) => case_decide
  | |- keepsP _ (match ?x with _ => _ end) => destruct x
  | |- keepsP _ (mret _) => apply keepsP_ret
  | |- keepsP _ (ignore _) => apply keepsP_ignore
  | |- keepsP _ (try _) => apply keepsP_try
  | |- keepsP _ (field _) => apply keepsP_gets
  | |- keepsP _ (wfield _) => apply keepsP_gets
  | |- keepsP _ getState => apply keepsP_gets
  | |- keepsP _ getJID => apply keepsP_gets
  | |- keepsP _ (hookInfo _ _ _ _) => apply keepsP_gets
  | |- keepsP _ (deref _) => apply keepsP_deref
  | |- keepsP _ (fail _) => apply keepsP_fail
  | |- keepsP _ (crash_with _) => apply keepsP_crash; discriminate
  | |- keepsP _ (liftO _) => apply keepsP_liftO; auto with c2senv
  | |- keepsP _ (liftW _) => apply hoare_liftW; auto with c2senv
  | |- keepsP _ (runHook _ _) => apply hoare_tame; auto with c2senv
  | |- keepsP _ (mods_ProcessIQ _) => apply hoare_tame; auto with c2senv
  | |- keepsP _ (comps_ProcessStanza _) => apply hoare_tame; auto with c2senv
  | |- keepsP _ _ => solve [auto with c2senv]
  end.
Ltac kp := repeat kp_step.

Section stable_calls.
Context (P : St → Prop) (HP : estable P).

Lemma sendElement_keeps e : keepsP P (sendElement e).
Proof. unfold sendElement. kp. Qed.

Lemma putResource_keeps : keepsP P putResource.
Proof. unfold putResource. kp. Qed.

Lemma updateRateLimiter_keeps : keepsP P updateRateLimiter.
Proof. unfold updateRateLimiter. kp. Qed.

Hint Resolve sendElement_keeps putResource_keeps updateRateLimiter_keeps : c2senv.

Lemma bindC2S_keeps : keepsP P bindC2S.
Proof. unfold bindC2S. kp. Qed.

Lemma unauthenticatedFeatures_keeps : keepsP P unauthenticatedFeatures.
Proof. unfold unauthenticatedFeatures. kp. Qed.

Lemma authenticatedFeatures_keeps : keepsP P authenticatedFeatures.
Proof. unfold authenticatedFeatures. kp. Qed.

Lemma continueAuthentication_keeps e : keepsP P (continueAuthentication e).
Proof. unfold continueAuthentication. kp. Qed.

Lemma processIQ_keeps iq :
  (∀ s w, P (s, w) → P (set_flags (Flags.setSessionStarted (flags s)) s, w)) →
  keepsP P (processIQ iq).
Proof. intros Hf. unfold processIQ, assert_kind, setFlag. kp. by apply keepsP_upd. Qed.

Lemma processPresence_keeps p :
  (∀ s w v, P (s, w) → P (set_pr v s, w)) → keepsP P (processPresence p).
Proof. intros Hf. unfold processPresence, assert_kind, setPresence. kp. apply keepsP_upd; auto. Qed.

Lemma sendMsg_keeps fuel message msg : keepsP P (sendMsg fuel message msg).
Proof.
  revert msg. induction fuel as [|fuel IH]; intros msg; simpl; kp.
Qed.

Lemma processMessage_keeps m : keepsP P (processMessage m).
Proof.
  unfold processMessage, assert_kind. kp. apply sendMsg_keeps.
Qed.

Lemma SetInfoValue_keeps k v :
  (∀ s w m, P (s, w) → P (set_inf m s, w)) → keepsP P (SetInfoValue k v).
Proof. intros Hf. unfold SetInfoValue. kp; apply keepsP_upd; auto. Qed.

End stable_calls.

#[local] Hint Resolve sendElement_keeps putResource_keeps updateRateLimiter_keeps
  bindC2S_keeps unauthenticatedFeatures_keeps authenticatedFeatures_keeps
  continueAuthentication_keeps : c2senv.

(** *** Writes to the fields *)

Lemma alive_set_st v F s w :
  alive F (s, w) → F (set_st v s) →
  (v = inAuthenticated → isAuth s = true) → (v = inAuthenticating → has_active s) →
  v ≠ inBinded → v ≠ inTerminated → alive F (set_st v s, w).
Proof.
  intros ([Hv Ha Hb Hba Hact Hd Hr] & Hdn & Hf) HF Hva Hvact Hvb Hvt. simpl in *.
  split; [|done]. split; simpl; try done.
  - intros [-> | ->]; [by apply Hva|done].
  - rewrite Hdn. split; [by intros ->|done].
Qed.

Lemma Inv_set_flag m s w :
  m ∈ Flags.masks → (m = Flags.fBinded → isAuth s = true) →
  Inv (s, w) → Inv (set_flags (Flags.set m (flags s)) s, w).
Proof.
  intros Hm Hmb [Hv Ha Hb Hba Hact Hd Hr]. simpl in *.
  split; simpl; try done.
  - by apply Flags.valid_set.
  - intros Hs. by apply isAuth_set, Ha.
  - intros Hs. apply Flags.has_mono; [by apply mask_nonneg|done|by apply Hb].
  - unfold Flags.isBinded. rewrite Flags.has_set by (done || set_solver).
    rewrite orb_true_iff, bool_decide_eq_true. intros [Hs|<-]; apply isAuth_set; auto.
Qed.

Lemma alive_set_flag m F s w :
  m ∈ Flags.masks → (m = Flags.fBinded → isAuth s = true) →
  alive F (s, w) → F (set_flags (Flags.set m (flags s)) s) →
  alive F (set_flags (Flags.set m (flags s)) s, w).
Proof. intros Hm Hmb (Hi & Hd & _) HF. split; [by apply Inv_set_flag|done]. Qed.

(** Fields the invariant does not read. *)
Lemma Inv_set_pr v s w : Inv (s, w) → Inv (set_pr v s, w).
Proof. intros []. by split. Qed.
Lemma Inv_set_jd v s w : Inv (s, w) → Inv (set_jd v s, w).
Proof. intros []. by split. Qed.
Lemma Inv_set_inf v s w : Inv (s, w) → Inv (set_inf v s, w).
Proof. intros []. by split. Qed.
Lemma Inv_set_discTm v s w : Inv (s, w) → Inv (set_discTm v s, w).
Proof. intros []. by split. Qed.
Lemma Inv_set_sendDisabled v s w : Inv (s, w) → Inv (set_sendDisabled v s, w).
Proof. intros []. by split. Qed.
Lemma Inv_set_active a f n s w :
  (st s = inAuthenticating → is_Some a) → Inv (s, w) →
  Inv (set_authSt (MkAuth (authenticators (authSt s)) a f n) s, w).
Proof. intros Ha []. by split. Qed.

Lemma alive_Inv F sw : alive F sw → Inv sw.
Proof. by intros []. Qed.
#[local] Hint Resolve alive_Inv Inv_set_pr Inv_set_jd Inv_set_inf Inv_set_discTm
  Inv_set_sendDisabled : c2senv.

(** An update inside a computation that keeps [alive F]. *)
Lemma upd_alive F f E :
  (∀ s w, alive F (s, w) → alive F (f s, w)) → hoare (alive F) (upd f) (fun _ => alive F) E.
Proof. intros Hf [s w] Hs. by apply Hf. Qed.

(** One bind whose head keeps the precondition, which gives the error
    postcondition by [H]. *)
Ltac hb H := eapply eff_bind; [apply keepsP_E; [kp|exact H]|intros ?; cbv beta].

(** *** Termination *)

Lemma terminate_ok : hoare (alive any) terminate (fun _ => Inv) Inv.
Proof.
  unfold terminate. eapply eff_bind; [apply eff_gets|]. intros s.
  set (T := fun sw : St => alive any sw ∧ registered sw.2 = false).
  assert (estable T) as HT.
  { intros sw sw' He [Hal Hreg]. split; [by eapply alive_estable|].
    destruct He as [? w w' Hr| | |? w w' ? Hr]; simpl in *; try congruence.
    destruct (registered w'); [|done]. by rewrite Hr in Hreg. }
  eapply (eff_bind _ _ (fun _ => T)).
  { intros [s' w] [Hal _]. unfold liftW.
    pose proof (ok_Unregister s w) as [Hq Hc]. pose proof (ok_Unregister_gone s w) as Hgone.
    destruct (rt_Unregister s w) as [r w']. simpl in *.
    assert (alive any (s', w')) as Hal'
      by (eapply (alive_estable any); [done|by apply eff_world|done]).
    destruct r as [[]|e|c]; [split; auto|by eapply alive_Inv|congruence]. }
  intros _. assert (∀ sw, T sw → Inv sw) as HI by (by intros sw [[] _]).
  hb HI.
  hb HI.
  hb HI.
  hb HI.
  hb HI.
  intros [s' w] [([Hv Ha Hb Hba Hact Hd Hr] & Hdn & _) Hreg]. simpl in *.
  unfold closeDone, mbind, M_bind, field, gets. simpl. rewrite Hdn. simpl.
  split; simpl; try done. by intros [].
Qed.

Lemma alive_of_Inv s w : Inv (s, w) → st s ≠ inTerminated → alive any (s, w).
Proof.
  intros HI Hne. split; [done|]. split; [|done]. simpl.
  destruct (done_ s) eqn:Hd; [|done]. destruct Hne. by apply HI.
Qed.

Lemma close_ok e : hoare Inv (close e) (fun _ => Inv) Inv.
Proof.
  unfold close. eapply eff_bind; [apply eff_gets|]. intros state.
  set (body := (setState inDisconnected ≫= _)).
  assert (hoare (alive any) body (fun _ => Inv) Inv) as Hbody.
  { unfold body. eapply (eff_bind _ _ (fun _ => alive any)).
    { intros [s w] Hal. by apply alive_set_st. }
    intros ?. eapply eff_bind; [apply upd_alive|].
    { intros s' w' (Hi & Hdn & _). split; [by apply Inv_set_discTm|done]. }
    intros ?. hb (alive_Inv any). hb (alive_Inv any).
    repeat case_match; subst; [|apply terminate_ok].
    eapply eff_conseq; [apply eff_ret|done|by intros ?; apply alive_Inv|done]. }
  intros [s w] [HI ->]. simpl. pose proof (alive_of_Inv s w HI) as Hal.
  destruct (st s) eqn:Hst; try (apply Hbody; by apply Hal); [|done].
  apply (terminate_ok (s, w)). by apply Hal.
Qed.

Lemma disconnect_ok e : hoare Inv (disconnect e) (fun _ => Inv) Inv.
Proof.
  unfold disconnect. change (keepsP Inv (disconnect e)). unfold disconnect.
  apply keepsP_bind; [kp|intros state]. apply keepsP_bind; [kp|intros _].
  apply keepsP_bind; [kp|intros _]. apply keepsP_bind; [kp|intros _].
  apply keepsP_bind; [kp|intros state']. case_decide; [|apply close_ok].
  apply keepsP_bind; [|intros _]; apply keepsP_upd; auto with c2senv.
Qed.

(** *** The handlers *)

(** A fact about the flags and the authentication state only, which the
    collaborators keep and which no flag can falsify. *)
Class CoreFact (F : inC2S → Prop) : Prop := {
  core_fstable : fstable F;
  core_fields : ∀ s s', flags s = flags s' → authSt s = authSt s' → F s → F s';
  core_flags : ∀ m s, m ∈ Flags.masks → F s → F (set_flags (Flags.set m (flags s)) s);
}.

#[local] Instance any_core : CoreFact any.
Proof. by split. Qed.
#[local] Instance authed_core : CoreFact authed.
Proof.
  split; [apply authed_fstable| |by intros; apply isAuth_set].
  unfold authed, isAuth. by intros s s' ->.
Qed.
#[local] Instance has_active_core : CoreFact has_active.
Proof.
  split; [apply has_active_fstable| |done]. unfold has_active. by intros s s' _ ->.
Qed.
#[local] Hint Resolve core_fstable : c2senv.

(** [fin F m]: a method that starts on a live stream and may terminate it. *)
Definition fin {A} (F : inC2S → Prop) (m : MS A) : Prop :=
  hoare (alive F) m (fun _ => Inv) Inv.

Section fin_rules.
Context (F : inC2S → Prop) `{!CoreFact F}.

Lemma fin_bind {A B} (m : MS A) (f : A → MS B) :
  keepsP (alive F) m → (∀ a, fin F (f a)) → fin F (m ≫= f).
Proof. intros Hm Hf. eapply eff_bind; [by apply keepsP_E, alive_Inv|done]. Qed.

Lemma fin_keeps {A} (m : MS A) : keepsP (alive F) m → fin F m.
Proof. intros Hm. eapply eff_conseq; [exact Hm|done|intros ?|]; apply alive_Inv. Qed.

Lemma fin_disconnect e : fin F (disconnect e).
Proof. eapply eff_conseq; [apply disconnect_ok|apply alive_Inv|done..]. Qed.

Lemma fin_upgrade {A} (G : inC2S → Prop) (m : MS A) :
  (∀ s, F s → G s) → fin G m → fin F m.
Proof.
  intros HG Hm. eapply eff_conseq; [exact Hm| |done..].
  intros s (Hi & Hd & Hf). split; [done|]. split; [done|by apply HG].
Qed.

(** A read of the stream whose value matters. *)
Lemma fin_read {A B} (f : inC2S → A) (k : A → MS B) :
  (∀ a, hoare (fun sw => alive F sw ∧ a = f sw.1) (k a) (fun _ => Inv) Inv) →
  fin F (field f ≫= k).
Proof. intros Hk. eapply eff_bind; [apply eff_gets|exact Hk]. Qed.

Lemma keeps_upd_fields f :
  (∀ s, flags (f s) = flags s ∧ authSt (f s) = authSt s) →
  (∀ s w, Inv (s, w) → Inv (f s, w)) → (∀ s, done_ (f s) = done_ s) →
  keepsP (alive F) (upd f).
Proof.
  intros Hc Hi Hd. apply keepsP_upd. intros s w (HI & Hdn & HF).
  split; [by apply Hi|]. simpl in *. split; [by rewrite Hd|].
  destruct (Hc s) as [Hf Ha]. by eapply core_fields.
Qed.

Lemma setJID_keeps v : keepsP (alive F) (setJID v).
Proof. apply keeps_upd_fields; auto with c2senv. Qed.
Lemma setPresence_keeps v : keepsP (alive F) (setPresence v).
Proof. apply keeps_upd_fields; auto with c2senv. Qed.

Lemma setFlag_keeps m :
  m ∈ Flags.masks → m ≠ Flags.fBinded → keepsP (alive F) (setFlag (Flags.set m)).
Proof.
  intros Hm Hne. apply keepsP_upd. intros s w Hal.
  apply alive_set_flag; [done|done|done|apply core_flags; [done|apply Hal]].
Qed.

Lemma setState_keeps v :
  v = inConnecting ∨ v = inConnected → keepsP (alive F) (setState v).
Proof.
  intros Hv. apply keepsP_upd. intros s w Hal.
  apply alive_set_st; [done| | | | |]; try (by destruct Hv; subst).
  eapply core_fields; [..|apply Hal]; done.
Qed.

Lemma restartSession_keeps : keepsP (alive F) restartSession.
Proof. unfold restartSession. kp. apply setState_keeps. by left. Qed.

End fin_rules.
#[local] Hint Resolve setJID_keeps setPresence_keeps restartSession_keeps : c2senv.
#[local] Hint Extern 1 (CoreFact _) => typeclasses eauto : c2senv.
#[local] Hint Extern 1 (keepsP (alive _) (setFlag _)) =>
  apply setFlag_keeps; [typeclasses eauto|set_solver|discriminate] : c2senv.
#[local] Hint Extern 1 (keepsP (alive _) (setState _)) =>
  apply setState_keeps; [typeclasses eauto|first [by left|by right]] : c2senv.

Ltac to_fin := cbv beta; match goal with |- hoare (alive ?F) ?m _ _ => change (fin F m) end.

(** Walks a method whose last call may terminate the stream. *)
Ltac fin_step :=
  match goal with
  | |- fin _ (_ ≫= _) => apply fin_bind; [solve [kp]|intros ?]
  | |- fin _ (if decide _ then _ else _) => case_decide
  | |- fin _ (match ?x with _ => _ end) => destruct x
  | |- fin _ (disconnectE _) => apply fin_disconnect
  | |- fin _ (disconnect _) => apply fin_disconnect
  | |- fin _ _ => solve [auto with c2senv]
  | |- fin _ _ => apply fin_keeps; solve [kp]
  end.
Ltac fins := repeat fin_step.

Lemma handleConnecting_ok elem : fin any (handleConnecting elem).
Proof.
  unfold handleConnecting. do 4 fin_step. apply fin_read. intros fl.
  destruct (Flags.isAuthenticated fl) eqn:Hfl; simpl.
  - apply (eff_pre (alive authed)); [intros [s w] [(Hi & Hd & _) ->]; by split|].
    to_fin.
    apply fin_bind; [|intros ?; fins].
    kp. apply keepsP_upd. intros s w Hal. apply alive_set_st; try done; [apply Hal|].
    intros _. apply Hal.
  - apply (eff_pre (alive any)); [by intros s []|].
    to_fin. fins.
Qed.

Lemma proceedStartTLS_ok elem : fin any (proceedStartTLS elem).
Proof. unfold proceedStartTLS. fins. Qed.

Lemma compress_ok elem : fin authed (compress elem).
Proof. unfold compress. fins. Qed.

(** The authenticator is reset before the state is: in between, the invariant
    holds of the stream with the state it is about to get. *)
Definition resetting (sw : St) : Prop :=
  ∀ v, v = inConnecting ∨ v = inConnected → alive any (set_st v sw.1, sw.2).

Lemma authReset_ok : hoare (alive any) authReset (fun _ => resetting) Inv.
Proof.
  unfold authReset. hb (alive_Inv any). hb (alive_Inv any). hb (alive_Inv any).
  intros [s w] Hal v Hv. simpl.
  assert (alive any (set_st v s, w)) as ([] & Hd & _)
    by (apply alive_set_st; [done|done|by destruct Hv; subst..]).
  split; [|done]. split; simpl in *; try done. intros ->. by destruct Hv.
Qed.

Lemma setState_reset v : v = inConnecting ∨ v = inConnected →
  hoare resetting (setState v) (fun _ => alive any) Inv.
Proof. intros Hv [s w] Hr. by apply Hr. Qed.

Lemma restartSession_reset : hoare resetting restartSession (fun _ => alive any) Inv.
Proof.
  unfold restartSession. eapply eff_bind; [|intros ?; apply setState_reset; by left].
  apply eff_ignore, hoare_world; [|apply ok_Reset]. intros s w w' Hreg Hr v Hv.
  eapply (alive_estable any); [done|by apply eff_world|by apply Hr].
Qed.

Lemma finishAuthentication_ok : fin any finishAuthentication.
Proof.
  unfold finishAuthentication. do 7 fin_step.
  eapply eff_bind; [apply authReset_ok|]. intros ?.
  eapply eff_conseq; [apply restartSession_reset|done|intros ?; apply alive_Inv|done].
Qed.

(** The counters of the authentication state. *)
Lemma setCounters_keeps F `{!CoreFact F} g :
  (∀ s, authenticators (g s) = authenticators (authSt s) ∧ active (g s) = active (authSt s)) →
  (∀ s, F s → F (set_authSt (g s) s)) →
  keepsP (alive F) (upd (fun s => set_authSt (g s) s)).
Proof.
  intros Hg HF. apply keepsP_upd. intros s w ([] & Hd & Hf).
  split; [|split; [done|by apply HF]]. split; simpl in *; try done.
  destruct (Hg s) as [_ ->]. done.
Qed.

Lemma failAuthentication_ok reason : fin any (failAuthentication reason).
Proof.
  unfold failAuthentication. apply fin_bind; [by apply setCounters_keeps|intros _]. fins.
Qed.

Lemma abortAuthentication_ok : fin any abortAuthentication.
Proof.
  unfold abortAuthentication. apply fin_bind; [by apply setCounters_keeps|intros _].
  fin_step. fin_step; [fins|]. eapply eff_bind; [apply authReset_ok|]. intros ?.
  eapply eff_conseq; [apply setState_reset; by right|done|intros ?; apply alive_Inv|done].
Qed.

#[local] Hint Resolve finishAuthentication_ok failAuthentication_ok : c2senv.

Lemma afterExchange_ok r k : fin has_active k → fin has_active (afterExchange r k).
Proof.
  intros Hk. unfold afterExchange. fins; (apply (fin_upgrade _ any); [done|auto with c2senv]).
Qed.

Lemma startAuthentication_ok elem : fin any (startAuthentication elem).
Proof.
  unfold startAuthentication. fins.
  eapply (eff_bind _ _ (fun _ => alive has_active)).
  { intros [s w] ([] & Hd & _). split; [split; simpl in *; eauto|by split; [|eexists]]. }
  intros ?. to_fin. fin_step. apply afterExchange_ok, fin_keeps, keepsP_upd. intros s w Hal.
  apply alive_set_st; try done; [apply Hal|]. intros _. apply Hal.
Qed.

Lemma handleConnected_ok elem : fin any (handleConnected elem).
Proof.
  unfold handleConnected. fins; [apply proceedStartTLS_ok|apply startAuthentication_ok].
Qed.

Lemma handleAuthenticating_ok elem : fin has_active (handleAuthenticating elem).
Proof.
  unfold handleAuthenticating. fins.
  - apply (fin_upgrade _ any); [done|apply abortAuthentication_ok].
  - apply afterExchange_ok. fins.
Qed.

(** *** Binding *)

(** Between [setState(inBinded)] and [setBinded()]. *)
Lemma enterBinded_ok {A} (k : MS A) E :
  hoare (alive authed) k (fun _ => Inv) E →
  hoare (alive authed) (setState inBinded;; setFlag Flags.setBinded;; k) (fun _ => Inv) E.
Proof.
  intros Hk [s w] ([Hv Ha Hb Hba Hact Hd Hr] & Hdn & HF).
  apply (Hk (set_flags (Flags.setBinded (flags s)) (set_st inBinded s), w)). simpl in *.
  assert (isAuth (set_flags (Flags.setBinded (flags s)) s) = true) as Hau
    by (apply isAuth_set; [set_solver|done]).
  split; [|done]. split; simpl; try done.
  - apply Flags.valid_set; [done|set_solver].
  - intros _. unfold Flags.isBinded, Flags.setBinded.
    rewrite Flags.has_set, orb_true_r; (done || set_solver).
  - by rewrite Hdn.
Qed.

Lemma finishBind_ok iq res : fin authed (finishBind iq res).
Proof. unfold finishBind. do 2 fin_step; [|fins]. do 4 fin_step. apply enterBinded_ok. to_fin. fins. Qed.

#[local] Hint Resolve finishBind_ok : c2senv.

Lemma bindResource_ok iq : fin authed (bindResource iq).
Proof. unfold bindResource. fins. Qed.

Lemma handleAuthenticated_ok elem : fin authed (handleAuthenticated elem).
Proof. unfold handleAuthenticated. fins; [apply compress_ok|apply bindResource_ok]. Qed.

Lemma handleBinded_ok elem : fin authed (handleBinded elem).
Proof.
  unfold handleBinded, processStanza. fins; apply fin_keeps.
  - apply processIQ_keeps; auto with c2senv. intros s w Hal.
    apply alive_set_flag; [set_solver|done|done|apply isAuth_set; [set_solver|apply Hal]].
  - apply processPresence_keeps; auto with c2senv.
    intros s w v (Hi & Hd & Hf). split; [by apply Inv_set_pr|done].
  - apply processMessage_keeps; auto with c2senv.
Qed.

(** *** Events *)

Lemma handleElement_ok elem : keepsP Inv (handleElement elem).
Proof.
  unfold handleElement. apply keepsP_bind; [kp|intros hi]. apply keepsP_bind; [kp|intros [halted hi']].
  destruct halted; [kp|]. eapply eff_bind; [apply eff_gets|]. intros state [s w] [HI ->]. simpl.
  pose proof (alive_of_Inv s w HI) as Hal.
  assert (∀ F (m : Element → MS unit), (∀ e, fin F (m e)) → alive F (s, w) →
    match (e ← deref (hi_Element hi'); m e) (s, w) with
    | (Ok _, sw') | (Err _, sw') => Inv sw'
    | (Crash c, _) => c ≠ CloseOfClosedChannel
    end) as Hrun.
  { intros F m Hm HF. destruct (hi_Element hi') as [e|]; [|done]. apply (Hm e _ HF). }
  destruct (st s) eqn:Hst; [..|done|done];
    specialize (Hal ltac:(done)) as (_ & Hd & _); destruct HI; simpl in *.
  - apply (Hrun any); [apply handleConnecting_ok|by split].
  - apply (Hrun any); [apply handleConnected_ok|by split].
  - apply (Hrun has_active); [apply handleAuthenticating_ok|]. split; [by split|].
    split; [done|]. by apply inv_active0.
  - apply (Hrun authed); [apply handleAuthenticated_ok|]. split; [by split|].
    split; [done|]. apply inv_auth0. by left.
  - apply (Hrun authed); [apply handleBinded_ok|]. split; [by split|].
    split; [done|]. apply inv_auth0. by right.
Qed.

Lemma step_ok ev : keepsP Inv (step ev).
Proof.
  destruct ev; simpl.
  - unfold handleSessionResult, handleSessionError.
    kp; [apply close_ok|apply handleElement_ok].
  - kp.
  - kp. apply disconnect_ok.
  - unfold connTimeout, disconnectE. kp. apply disconnect_ok.
  - kp; [|apply close_ok]. apply keepsP_upd; auto with c2senv.
  - kp. apply SetInfoValue_keeps; auto with c2senv.
Qed.

Lemma run_ok evs : keepsP Inv (run evs).
Proof. induction evs as [|ev evs IH]; simpl; [kp|]. apply keepsP_bind; [apply step_ok|done]. Qed.

Lemma start_ok : hoare (alive any) start (fun _ => Inv) Inv.
Proof.
  unfold start. eapply eff_bind; [apply eff_gets|]. intros s.
  eapply (eff_bind _ _ (fun _ => alive any)).
  { intros [s' w] [([Hv Ha Hb Hba Hact Hd Hr] & Hdn & _) _]. simpl in *. unfold liftW.
    pose proof (ok_Register s w) as Hc. destruct (rt_Register s w) as [r w']. simpl in *.
    assert (Inv (s', w')) by (split; simpl; try done; congruence).
    destruct r; [done|done|congruence]. }
  intros ?. to_fin. fins.
Qed.

End methods.
End safety.
