(* ===== verification/C2SProps.v ===== *)
(** * Properties of the C2S stream

    The theorems about the stream of [C2SIn]: its invariant in every reachable
    state, what its flags can do, what authentication needs, the termination of
    message processing, and the behaviour of single operations. *)

From stdpp Require Import base list strings gmap relations.
From Stdlib Require Import ZArith Lia.
From S2P Require Import Prelude GoLib Stravaganza Hosts C2SModel C2SIn C2SSafety.

(** ** What a method can do to the flags *)
Section flag_walk.
Context `{XmlLib} {W : Type} `{!C2SEnv W} (registered : W → bool) `{!C2SEnvOk registered}.
(** A predicate on the flags and on whether [doneCh] is closed, which setting a
    flag and closing the channel do not falsify; setting the authenticated flag
    may, when no authenticator succeeds. *)
Context (Φ : Z → bool → Prop).
Context (Φ_set : ∀ m f d, m ∈ Flags.masks → m ≠ Flags.fAuthenticated →
  Φ f d → Φ (Flags.set m f) d).
Context (Φ_done : ∀ f d, Φ f d → Φ f true).
Context (Φ_auth : (∀ f d, Φ f d → Φ (Flags.setAuthenticated f) d) ∨
                  (∀ i w, auth_Authenticated i w = false)).

Abbreviation St := (inC2S * W)%type.
Abbreviation MS := (M (inC2S * W)).

Definition flagged (sw : St) : Prop := Φ (flags sw.1) (done_ sw.1).
Definition fk {A} (m : MS A) : Prop := keeps (stable flagged) m.

Lemma fk_field {A} (f : inC2S → A) : fk (field f).
Proof. by intros [s w]. Qed.
Lemma fk_wfield {A} (f : W → A) : fk (wfield f).
Proof. by intros [s w]. Qed.
Lemma fk_liftO {A} (r : outcome A) : fk (liftO r).
Proof. by intros [s w]. Qed.
Lemma fk_liftW {A} (m : M W A) : fk (liftW m).
Proof. intros [s w]. unfold liftW, stable, flagged. by destruct (m w). Qed.
Lemma fk_upd f : (∀ s, flags (f s) = flags s ∧ done_ (f s) = done_ s) → fk (upd f).
Proof. intros Hf [s w]. unfold stable, flagged. simpl. by destruct (Hf s) as [-> ->]. Qed.
Lemma fk_closed : fk (upd (set_done true)).
Proof. intros [s w] Hf. unfold flagged in *. simpl. by eapply Φ_done. Qed.
Lemma fk_setFlag m : m ∈ Flags.masks → m ≠ Flags.fAuthenticated → fk (setFlag (Flags.set m)).
Proof. intros Hm Hne [s w]. unfold stable, flagged. simpl. by apply Φ_set. Qed.
Lemma fk_tame {A} (m : MS A) : tame registered m → fk m.
Proof.
  intros Hm sw. destruct (Hm sw) as [Hr _]. unfold stable, flagged. clear Hm.
  induction Hr as [|x y z He _ IH]; [done|]. intros Hx. apply IH.
  destruct He; simpl in *; try done. apply Φ_set; [set_solver|done|done].
Qed.
Lemma fk_runHook n hi : fk (runHook n hi).
Proof. by apply fk_tame, ok_hooks. Qed.
Lemma fk_ProcessIQ e : fk (mods_ProcessIQ e).
Proof. by apply fk_tame, ok_ProcessIQ. Qed.
Lemma fk_ProcessStanza e : fk (comps_ProcessStanza e).
Proof. by apply fk_tame, ok_ProcessStanza. Qed.

Create HintDb flagwalk.
#[local] Hint Resolve fk_field fk_wfield fk_liftO fk_liftW fk_closed fk_runHook fk_ProcessIQ
  fk_ProcessStanza : flagwalk.
#[local] Hint Extern 1 (fk (upd _)) => apply fk_upd; done : flagwalk.
#[local] Hint Extern 1 (fk (setFlag _)) => apply fk_setFlag; [set_solver|discriminate] : flagwalk.

Ltac fk_step :=
  match goal with
  | |- fk (_ ≫= _) => apply keeps_bind; [typeclasses eauto| |intros ?]
  | |- fk (match ?x with _ => _ end) => destruct x
  | |- fk (mret _) => apply keeps_ret; typeclasses eauto
  | |- fk (deref _) => apply keeps_deref; typeclasses eauto
  | |- fk (fail _) => apply keeps_fail; typeclasses eauto
  | |- fk (crash_with _) => apply keeps_crash; typeclasses eauto
  | |- fk (try _) => apply keeps_try
  | |- fk (ignore _) => apply keeps_ignore; [typeclasses eauto|]
  | |- keeps _ ?m => change (fk m)
  | |- fk ?m => solve [auto with flagwalk]
  end.
Ltac fkw := repeat fk_step.

Lemma sendElement_fk e : fk (sendElement e).
Proof. unfold sendElement, hookInfo. fkw. Qed.
Lemma putResource_fk : fk putResource.
Proof. unfold putResource. fkw. Qed.
#[local] Hint Resolve sendElement_fk putResource_fk : flagwalk.

Lemma bindC2S_fk : fk bindC2S.
Proof. unfold bindC2S, updateRateLimiter, getJID. fkw. Qed.
Lemma terminate_fk : fk terminate.
Proof. unfold terminate, closeDone, getJID, setState. fkw. Qed.
#[local] Hint Resolve bindC2S_fk terminate_fk : flagwalk.

Lemma close_fk e : fk (close e).
Proof. unfold close, getState, setState, hookInfo. fkw. Qed.
#[local] Hint Resolve close_fk : flagwalk.

Lemma disconnect_fk e : fk (disconnect e).
Proof. unfold disconnect, getState. fkw. Qed.
Lemma disconnectE_fk r : fk (disconnectE r).
Proof. apply disconnect_fk. Qed.
#[local] Hint Resolve disconnect_fk disconnectE_fk : flagwalk.

Lemma restartSession_fk : fk restartSession.
Proof. unfold restartSession, setState. fkw. Qed.
Lemma authReset_fk : fk authReset.
Proof. unfold authReset. fkw. Qed.
#[local] Hint Resolve restartSession_fk authReset_fk : flagwalk.

Lemma handleConnecting_fk e : fk (handleConnecting e).
Proof.
  unfold handleConnecting, unauthenticatedFeatures, authenticatedFeatures, setJID, getJID, setState.
  fkw.
Qed.

Lemma proceedStartTLS_fk e : fk (proceedStartTLS e).
Proof. unfold proceedStartTLS. fkw. Qed.

Lemma failAuthentication_fk r : fk (failAuthentication r).
Proof. unfold failAuthentication. fkw. Qed.

Lemma finishAuthentication_fk :
  (∀ f d, Φ f d → Φ (Flags.setAuthenticated f) d) → fk finishAuthentication.
Proof.
  intros Hau. unfold finishAuthentication, setJID, updateRateLimiter, getJID. fkw.
  intros [s w]. intros Hf. by apply Hau.
Qed.

Lemma afterExchange_fk r k : fk k → fk (afterExchange r k).
Proof.
  intros Hk. destruct Φ_auth as [Hau|Hno].
  - unfold afterExchange. fkw; try apply failAuthentication_fk. by apply finishAuthentication_fk.
  - intros [s w]. unfold afterExchange.
    destruct r as [[]|[]]; try done; [apply failAuthentication_fk|].
    unfold mbind, M_bind, field, gets. simpl. destruct (active (authSt s)) as [i|]; [|done].
    simpl. rewrite Hno. apply Hk.
Qed.
#[local] Hint Resolve handleConnecting_fk proceedStartTLS_fk afterExchange_fk : flagwalk.

Lemma continueAuthentication_fk e : fk (continueAuthentication e).
Proof. unfold continueAuthentication. fkw. Qed.
#[local] Hint Resolve continueAuthentication_fk : flagwalk.

Lemma startAuthentication_fk e : fk (startAuthentication e).
Proof. unfold startAuthentication. fkw. apply afterExchange_fk. unfold setState. fkw. Qed.
Lemma handleAuthenticating_fk e : fk (handleAuthenticating e).
Proof.
  unfold handleAuthenticating, abortAuthentication, setState. fkw. apply afterExchange_fk. fkw.
Qed.
#[local] Hint Resolve startAuthentication_fk handleAuthenticating_fk : flagwalk.

Lemma handleConnected_fk e : fk (handleConnected e).
Proof. unfold handleConnected. fkw. Qed.

Lemma finishBind_fk iq res : fk (finishBind iq res).
Proof. unfold finishBind, setJID, setPresence, setState, getJID. fkw. Qed.
#[local] Hint Resolve finishBind_fk : flagwalk.

Lemma handleAuthenticated_fk e : fk (handleAuthenticated e).
Proof. unfold handleAuthenticated, compress, bindResource, getJID. fkw. Qed.

Lemma sendMsg_fk fuel message : ∀ msg, fk (sendMsg fuel message msg).
Proof. induction fuel as [|fuel IH]; intros msg; simpl; unfold hookInfo; fkw. Qed.

Lemma handleBinded_fk e : fk (handleBinded e).
Proof.
  unfold handleBinded, processStanza, processIQ, processPresence, processMessage, assert_kind,
    hookInfo, setPresence, getJID.
  fkw. apply sendMsg_fk.
Qed.
#[local] Hint Resolve handleConnected_fk handleAuthenticated_fk handleBinded_fk : flagwalk.

Lemma handleElement_fk e : fk (handleElement e).
Proof. unfold handleElement, hookInfo, getState. fkw. Qed.
#[local] Hint Resolve handleElement_fk : flagwalk.

Lemma step_fk ev : fk (step ev).
Proof.
  destruct ev; simpl; unfold handleSessionResult, handleSessionError, connTimeout, SetInfoValue; fkw.
Qed.

Lemma run_fk evs : fk (run evs).
Proof. induction evs as [|ev evs IH]; simpl; fkw. apply step_fk. Qed.

Lemma start_fk : fk start.
Proof. unfold start. fkw. Qed.

End flag_walk.

(** ** Theorems *)
Section theorems.
Context `{XmlLib} {W : Type} `{!C2SEnv W} (registered : W → bool) `{!C2SEnvOk registered}.

(** The stream [newInC2S] gives. *)
Lemma newInC2S_alive i c auths w0 s w :
  newInC2S i c auths w0 = (Ok s, w) → alive registered any (s, w).
Proof.
  unfold newInC2S, mbind, M_bind. intros Hn.
  destruct (tr_SetReadRateLimiter _ w0) as [[]]; [|done..]. injection Hn as <- <-.
  split; [|done]. split; simpl; try done; try (by intros []).
  - unfold Flags.valid. destruct (useTLS c); vm_compute; split; congruence.
  - by destruct (useTLS c).
Qed.

Lemma life_ok evs : hoare (alive registered any) (start;; run evs)
  (fun _ => Inv registered) (Inv registered).
Proof. eapply eff_bind; [by apply start_ok|intros ?; by apply run_ok]. Qed.

(** C1: from the creation of a stream on, whatever arrives in whatever order
    (elements, session errors, timeouts, disconnections), the stream never
    closes [doneCh] twice and keeps its invariant: it is in the authenticated or
    bound state only with the authenticated flag, bound only with the bound flag,
    in the authenticating state only with an active authenticator, terminated
    exactly when [doneCh] is closed, and then no longer registered. *)
Theorem c2s_invariant (i : Z) (c : inCfg) (auths : list nat) (w0 w : W) (s : inC2S)
    (evs : list event) (Hnew : newInC2S i c auths w0 = (Ok s, w)) :
  match (start;; run evs) (s, w) with
  | (Crash p, _) => p ≠ CloseOfClosedChannel
  | (_, sw) => Inv registered sw
  end.
Proof.
  pose proof (life_ok evs (s, w) (newInC2S_alive _ _ _ _ _ _ Hnew)) as Hh.
  by destruct ((start;; run evs) (s, w)) as [[]].
Qed.

(** A flag, once set, stays set whatever happens to the stream. *)
Theorem flags_monotone (k : Z) (ev : event) (sw : inC2S * W) (Hk : k ∈ Flags.masks)
    (Hset : Flags.has k (flags sw.1) = true) :
  Flags.has k (flags (step ev sw).2.1) = true.
Proof.
  assert (∀ m f (d : bool), m ∈ Flags.masks → Flags.has k f = true →
    Flags.has k (Flags.set m f) = true) as Hm.
  { intros m f _ Hm Hf. apply Flags.has_mono; [by apply mask_nonneg|by apply mask_nonneg|done]. }
  apply (step_fk registered (fun f _ => Flags.has k f = true)); auto.
  left. intros f d. apply (Hm _ _ d). set_solver.
Qed.

(** C9: when no authenticator reports success, no sequence of events
    authenticates the stream, and the stream is never bound. *)
Theorem auth_requires_sasl (i : Z) (c : inCfg) (auths : list nat) (w0 w : W) (s : inC2S)
    (evs : list event) (Hnew : newInC2S i c auths w0 = (Ok s, w))
    (Hno : ∀ a w', auth_Authenticated a w' = false) :
  let sw := ((start;; run evs) (s, w)).2 in
  Flags.isAuthenticated (flags sw.1) = false ∧
  (is_ok ((start;; run evs) (s, w)).1 = true →
   Flags.isBinded (flags sw.1) = false ∧ st sw.1 ≠ inAuthenticated ∧ st sw.1 ≠ inBinded).
Proof.
  set (Φ := fun f (_ : bool) => Flags.valid f ∧ Flags.isAuthenticated f = false).
  pose proof (newInC2S_alive _ _ _ _ _ _ Hnew) as Hal.
  assert (∀ m f d, m ∈ Flags.masks → m ≠ Flags.fAuthenticated → Φ f d → Φ (Flags.set m f) d) as Hset.
  { intros m f d Hm Hne [Hv Hf]. split; [by apply Flags.valid_set|].
    unfold Flags.isAuthenticated in *. rewrite Flags.has_set, Hf by (done || set_solver).
    by rewrite bool_decide_eq_false_2. }
  assert (fk Φ (start;; run evs)) as Hw.
  { apply keeps_bind; [apply _| |intros _];
      [apply (start_fk registered)|apply (run_fk registered)]; auto. }
  specialize (Hw (s, w)). destruct Hw as [_ Hf].
  { unfold flagged. split; [apply Hal|]. revert Hnew. unfold newInC2S, mbind, M_bind.
    destruct (tr_SetReadRateLimiter _ w0) as [[]]; [|done..]. intros [= <- <-]. simpl.
    by destruct (useTLS c). }
  split; [done|]. intros Hok.
  assert (Inv registered ((start;; run evs) (s, w)).2) as [].
  { pose proof (life_ok evs (s, w) Hal) as Hh. by destruct ((start;; run evs) (s, w)) as [[]]. }
  unfold isAuth in *. rewrite Hf in *.
  split; [|split]; [|by intros Hs; discriminate inv_auth; left|
                     by intros Hs; discriminate inv_auth; right].
  by destruct (Flags.isBinded _); [discriminate inv_bind_auth|].
Qed.

(** A terminated stream stays terminated. *)
Theorem terminated_final (evs : list event) (sw sw' : inC2S * W)
    (Hinv : Inv registered sw) (Hterm : st sw.1 = inTerminated)
    (Hrun : run evs sw = (Ok tt, sw')) : st sw'.1 = inTerminated.
Proof.
  pose proof (run_ok registered evs sw Hinv) as Hi. rewrite Hrun in Hi.
  apply Hi. assert (fk (fun _ d => d = true) (run evs)) as Hw.
  { apply (run_fk registered); auto. }
  specialize (Hw sw). rewrite Hrun in Hw. apply Hw. by apply Hinv.
Qed.

(** *** The limit on failed authentications *)

(** A stream that is not authenticated, and one that is moreover closed. *)
Definition unauth (sw : inC2S * W) : Prop := alive registered any sw ∧ isAuth sw.1 = false.
Definition closing (sw : inC2S * W) : Prop :=
  isAuth sw.1 = false ∧ (st sw.1 = inDisconnected ∨ st sw.1 = inTerminated).

Lemma unauth_estable : estable registered unauth.
Proof.
  intros sw sw' He [Hal Hna]. split; [eapply (alive_estable registered any); [done|exact He|done]|].
  by destruct He; simpl in *; try done; congruence.
Qed.

Lemma closing_estable : estable registered closing.
Proof. intros sw sw' He [Hna Hst]. by destruct He; simpl in *; try done; congruence. Qed.

Lemma terminate_ends sw sw' : terminate sw = (Ok tt, sw') → st sw'.1 = inTerminated.
Proof.
  unfold terminate. set (m := setState inTerminated).
  assert (∀ {A} (n : M (inC2S * W) A) (k : A → M (inC2S * W) unit) s0 s1,
    (∀ a s2 s3, k a s2 = (Ok tt, s3) → st s3.1 = inTerminated) →
    (n ≫= k) s0 = (Ok tt, s1) → st s1.1 = inTerminated) as Hb.
  { intros A n k s0 s1 Hk. unfold mbind, M_bind. destruct (n s0) as [[]]; [apply Hk|done..]. }
  assert (∀ s2 s3, m s2 = (Ok tt, s3) → st s3.1 = inTerminated) as Hm.
  { intros [s2 w2] s3 Hs. unfold m, setState, upd, modify in Hs. injection Hs as <-. done. }
  apply Hb. intros s ? ?. do 7 (apply Hb; intros ? ? ?). apply Hm.
Qed.

Lemma close_closes e sw sw' :
  isAuth sw.1 = false → close e sw = (Ok tt, sw') →
  st sw'.1 = inDisconnected ∨ st sw'.1 = inTerminated.
Proof.
  destruct sw as [s w]. simpl. intros Hna.
  assert (∀ r sw1, r = (Ok tt, sw1) →
    r = (setState inDisconnected;; upd (set_discTm false);;
         hi ← hookInfo true None [] (Some e);
         '(halted, _) ← runHook C2SStreamDisconnected hi;
         if halted : bool then mret tt else terminate) (s, w) →
    st sw1.1 = inDisconnected ∨ st sw1.1 = inTerminated) as Hmain.
  { intros r sw1 -> Hr. symmetry in Hr. revert Hr.
    unfold setState, upd, modify, hookInfo, field, gets, mbind, M_bind. simpl.
    set (sw2 := (set_discTm false (set_st inDisconnected s), w)).
    assert (closing sw2) as Hc by (split; [done|by left]).
    destruct (ok_hooks registered C2SStreamDisconnected
      (MkInfo (idString (id sw2.1)) (jd sw2.1) (pr sw2.1) None [] (Some e)) sw2) as [Hr _].
    apply (estable_rtc _ _ _ _ closing_estable) in Hr; [|done]. unfold runHook.
    destruct (hk_Run _ _ sw2) as [[[[] hi']|?|?] sw3]; try done.
    - intros [= <-]. apply Hr.
    - intros Ht. right. by eapply terminate_ends. }
  intros Hcl. unfold close, getState, field, gets in Hcl. unfold mbind at 1, M_bind at 1 in Hcl.
  simpl in Hcl. destruct (st s) eqn:Hst; try (by eapply Hmain).
  - right. by eapply terminate_ends.
  - injection Hcl as <-. by right.
Qed.

Lemma disconnectE_closes r :
  r ≠ ConnectionTimeout →
  hoare unauth (disconnectE r)
    (fun _ sw => st sw.1 = inDisconnected ∨ st sw.1 = inTerminated) (fun _ => True).
Proof.
  intros Hr. unfold disconnectE, disconnect.
  assert (∀ A (m : M (inC2S * W) A), keepsP unauth m →
    hoare unauth m (fun _ => unauth) (fun _ => True)) as Hk by (intros; by apply keepsP_E).
  eapply eff_bind; [apply Hk, keepsP_gets|intros state; cbv beta].
  eapply eff_bind; [apply Hk|intros _u; cbv beta].
  { case_decide; [|apply keepsP_ret]. apply keepsP_ignore.
    apply (hoare_liftW registered); [apply unauth_estable|by apply ok_OpenStream]. }
  eapply eff_bind; [apply Hk, (sendElement_keeps registered), unauth_estable|intros _u'; cbv beta].
  eapply eff_bind; [apply Hk, keepsP_ignore|intros _u''; cbv beta].
  { apply (hoare_liftW registered); [apply unauth_estable|by apply ok_Close]. }
  eapply eff_bind; [apply Hk, keepsP_gets|intros state'; cbv beta].
  rewrite decide_False by (intros [_ [= Heq]]; done).
  intros sw [Hal Hna]. pose proof (close_ok registered (StreamError r) sw (alive_Inv _ _ _ Hal)) as Hc.
  pose proof (close_closes (StreamError r) sw) as Hcl.
  destruct (close (StreamError r) sw) as [[[]|e|c] sw']; [by apply Hcl|done|done].
Qed.

(** The fifth failed SASL attempt closes the stream: when the answer is sent
    and the hooks succeed, an unauthenticated stream with four failures behind
    it is disconnected or terminated after the next one. *)
Theorem auth_failure_limit (reason : string) (sw sw' : inC2S * W)
    (Hal : alive registered any sw) (Hna : isAuth sw.1 = false)
    (Hn : (4 <= failedTimes (authSt sw.1))%Z)
    (Hok : failAuthentication reason sw = (Ok tt, sw')) :
  st sw'.1 = inDisconnected ∨ st sw'.1 = inTerminated.
Proof.
  destruct sw as [s w]. simpl in *. revert Hok. unfold failAuthentication, upd, modify, field, gets.
  unfold mbind at 1 2, M_bind at 1 2. simpl. set (s1 := set_authSt _ s).
  assert (unauth (s1, w)) as Hu.
  { destruct Hal as ([] & Hd & _). split; [|done]. split; [|done]. by split. }
  rewrite (proj2 (Z.leb_le _ _)) by (unfold maxAuthFailed; lia).
  intros Hok. pose proof (disconnectE_closes PolicyViolation ltac:(done) _ Hu) as Hd.
  rewrite Hok in Hd. exact Hd.
Qed.

End theorems.

(** ** Messages *)
Section messages.
Context `{XmlLib} {W : Type} `{!C2SEnv W}.

(** What message processing relies on.  The router answers
    [ErrResourceNotFound] for full JIDs only ([Router.Route_not_found_full]), the
    handlers of [C2SStreamWillRouteElement] keep the destination of the element,
    and no collaborator is itself cut by fuel. *)
Class MessageEnvOk : Prop := {
  mo_Route : ∀ e w, (rt_Route e w).1 = Err ErrResourceNotFound →
    IsFullWithUser (ToJID e) = true;
  mo_hook : ∀ hi sw halted hi' sw' e e',
    hk_Run C2SStreamWillRouteElement hi sw = (Ok (halted, hi'), sw') →
    hi_Element hi = Some e → hi_Element hi' = Some e' → ToJID e' = ToJID e;
  mo_Route_fuel : ∀ e w, (rt_Route e w).1 ≠ Crash OutOfFuel;
  mo_hook_fuel : ∀ n hi sw, (hk_Run n hi sw).1 ≠ Crash OutOfFuel;
  mo_Send_fuel : ∀ e w, (ss_Send e w).1 ≠ Crash OutOfFuel;
}.
Context `{!MessageEnvOk}.

Abbreviation MS := (M (inC2S * W)).

Definition fueled {A} (m : MS A) : Prop := ∀ sw, (m sw).1 ≠ Crash OutOfFuel.

Lemma fueled_bind {A B} (m : MS A) (f : A → MS B) :
  fueled m → (∀ a, fueled (f a)) → fueled (m ≫= f).
Proof.
  intros Hm Hf sw. specialize (Hm sw). unfold mbind, M_bind.
  destruct (m sw) as [[a|e|c] sw1]; simpl in *; [apply Hf|done|congruence].
Qed.

Lemma fueled_try {A} (m : MS A) : fueled m → fueled (try m).
Proof. intros Hm sw. specialize (Hm sw). unfold try. destruct (m sw) as [[]]; simpl in *; congruence. Qed.

Lemma fueled_liftW {A} (m : M W A) : (∀ w, (m w).1 ≠ Crash OutOfFuel) → fueled (liftW m).
Proof. intros Hm [s w]. specialize (Hm w). unfold liftW. by destruct (m w). Qed.

Lemma sendElement_fueled e : fueled (sendElement e).
Proof.
  unfold sendElement, ignore. apply fueled_bind; [by intros []|intros []; [by intros []|]].
  apply fueled_bind; [|intros _; apply fueled_bind; [by intros []|intros hi]].
  - apply fueled_bind; [apply fueled_try, fueled_liftW, mo_Send_fuel|by intros ? []].
  - apply fueled_bind; [intros sw; apply mo_hook_fuel|by intros ? []].
Qed.

(** One round of the loop: it ends, or it continues with a message that
    [BuildFrom] made, after the router refused a full JID. *)
Lemma sendMsg_round message msg sw :
  (∀ fuel, sendMsg (S fuel) message msg sw = sendMsg 1 message msg sw ∧
           (sendMsg 1 message msg sw).1 ≠ Crash OutOfFuel) ∨
  (IsFullWithUser (ToJID msg) = true ∧ ∃ msg0 msg' sw',
    BuildFrom msg0 [(AttrFrom, JIDString (FromJID message));
      (AttrTo, JIDString (ToBareJID (ToJID message)))] [] KMessage = Some msg' ∧
    ∀ fuel, sendMsg (S fuel) message msg sw = sendMsg fuel message msg' sw').
Proof.
  simpl. unfold hookInfo, field, gets, mbind, M_bind, runHook. destruct sw as [s w]. simpl.
  set (hi := MkInfo _ _ _ _ _ _).
  pose proof (mo_hook_fuel C2SStreamWillRouteElement hi (s, w)) as Hf.
  destruct (hk_Run C2SStreamWillRouteElement hi (s, w)) as [[[halted hi']|e|c] [s1 w1]] eqn:Hhk;
    simpl in Hf; [|left; by split|left; split; [done|simpl; congruence]].
  destruct halted; [by left|]. unfold element_as. destruct (hi_Element hi') as [msg1|] eqn:He; [|by left].
  case_decide as Hk; [|by left].
  pose proof (mo_hook hi (s, w) _ _ _ msg msg1 Hhk eq_refl He) as Hto.
  unfold try, liftW. pose proof (mo_Route msg1 w1) as Hnf. pose proof (mo_Route_fuel msg1 w1) as Hrf.
  destruct (rt_Route msg1 w1) as [[targets|err|c] w2]; simpl in *;
    [| |left; split; [done|simpl; congruence]].
  - left. split; [done|].
    pose proof (mo_hook_fuel C2SStreamMessageRouted
      (MkInfo (idString (id s1)) (jd s1) (pr s1) (Some msg1) targets None) (s1, w2)) as Hf2.
    destruct (hk_Run C2SStreamMessageRouted _ _) as [[[[] ?]|?|?] ?]; simpl in *; try done; congruence.
  - destruct err; try (by left; split; [done|]);
      try (left; split; [done|apply sendElement_fueled]).
    + destruct (BuildFrom msg1 _ _ _) as [msg'|] eqn:Hb; simpl; [|by left].
      right. rewrite <-Hto. split; [by apply Hnf|]. by eexists msg1, msg', (s1, w2).
    + left. split; [done|].
      pose proof (mo_hook_fuel C2SStreamMessageRouted
        (MkInfo (idString (id s1)) (jd s1) (pr s1) (Some msg1) [] None) (s1, w2)) as Hf2.
      destruct (hk_Run C2SStreamMessageRouted _ _) as [[[[] ?]|?|?] ?]; simpl in *; try done;
        try apply sendElement_fueled; congruence.
Qed.

(** C36: the [goto sendMsg] loop of message processing runs at most twice: with
    two rounds or more the result is the same and it is never the one that marks
    a cut loop.  [Hbuild]: the message rebuilt for the second round is addressed
    to the bare JID. *)
Theorem process_message_terminates (message msg : Element) (sw : inC2S * W) (fuel : nat)
    (Hbuild : ∀ m m', BuildFrom m [(AttrFrom, JIDString (FromJID message));
        (AttrTo, JIDString (ToBareJID (ToJID message)))] [] KMessage = Some m' →
      ToJID m' = ToBareJID (ToJID message)) (Hfuel : 2 ≤ fuel) :
  sendMsg fuel message msg sw = sendMsg 2 message msg sw ∧
  (sendMsg fuel message msg sw).1 ≠ Crash OutOfFuel.
Proof.
  destruct fuel as [|[|fuel]]; [lia..|].
  destruct (sendMsg_round message msg sw) as [Hend|(_ & m0 & m' & sw' & Hb & Hgo)].
  - destruct (Hend (S fuel)) as [-> Hc]. destruct (Hend 1) as [-> _]. done.
  - rewrite (Hgo (S fuel)), (Hgo 1).
    destruct (sendMsg_round message m' sw') as [Hend|(Hfull & _)].
    + by destruct (Hend fuel) as [-> Hc].
    + by rewrite (Hbuild _ _ Hb), bare_not_full_user in Hfull.
Qed.

End messages.

(** ** A concrete environment

    A server with one authenticator, [PLAIN], which accepts the text ["good"];
    [socket] is the kind of transport, [login] whether the account exists. *)
Module Demo.
Import TreeLib.

Record world := MkWorld { sent : list tree; reg : bool; loggedIn : bool }.

Definition send (e : tree) : M world unit :=
  modify (fun w => MkWorld (sent w ++ [e]) (reg w) (loggedIn w)).
Definition setReg (b : bool) : M world unit :=
  modify (fun w => MkWorld (sent w) b (loggedIn w)).

Definition check (e : tree) : M world (string + tree) :=
  if String.eqb (t_text e) "good" then
    modify (fun w => MkWorld (sent w) (reg w) true);;
    mret (inr (TNode "success" [] [] "" None))
  else mret (inl "not-authorized").

Definition env (socket login : bool) : C2SEnv world := {|
  ss_Reset := mret tt; ss_SetFromJID := fun _ => mret tt; ss_OpenStream := mret tt;
  ss_Send := send; ss_Close := mret tt; tr_isSocket := socket;
  tr_SupportsChannelBinding := fun _ => false; tr_SetReadRateLimiter := fun _ => mret tt;
  tr_StartTLS := mret tt; tr_EnableCompression := fun _ => mret tt; tr_Close := mret tt;
  rt_Register := fun _ => setReg true;
  rt_Bind := fun _ => r ← gets reg;
    if r : bool then setReg false else fail (ErrText "c2s: stream not found");
  rt_Unregister := fun _ => setReg false;
  rt_Disconnect := fun _ _ _ => mret tt;
  rt_Route := fun e => if IsFullWithUser (ToJID e) then fail ErrResourceNotFound
                       else mret [ToJID e];
  rm_PutResource := fun _ _ _ => mret tt; rm_GetResources := fun _ => mret [];
  rm_DelResource := fun _ _ => mret tt; comps_IsComponentHost := fun _ _ => false;
  comps_ProcessStanza := fun _ => mret tt; mods_IsModuleIQ := fun _ _ => false;
  mods_ProcessIQ := fun _ => mret tt; mods_StreamFeatures := fun _ => mret [];
  hk_Run := fun _ hi => mret (false, hi); auth_Mechanism := fun _ => "PLAIN";
  auth_UsesChannelBinding := fun _ => false; auth_ProcessElement := fun _ => check;
  auth_Authenticated := fun _ w => login && loggedIn w;
  auth_Username := fun _ _ => "romeo"; auth_Reset := fun _ => mret tt;
  shapers := []; uuid_New := mret "uuid" |}.

Lemma env_ok socket login : @C2SEnvOk tree_jid tree_xml world (env socket login) reg.
Proof.
  split; try (by intros; split); try (by intros; split; [reflexivity|]);
    try (by intros; split; simpl; auto).
  - done.
  - intros i w. simpl. unfold mbind, M_bind, gets. simpl.
    destruct (reg w) eqn:Hr; split; simpl; congruence.
  - intros i w. simpl. unfold mbind, M_bind, gets. simpl. by destruct (reg w) eqn:?.
  - intros e w. simpl. case_match; split; by simpl.
  - intros a e w. simpl. unfold check. case_match; split; by simpl.
Qed.

Lemma env_messages socket login : @MessageEnvOk tree_jid tree_xml world (env socket login).
Proof.
  split; try done.
  - intros e w. simpl. by case_match.
  - intros hi sw halted hi' sw' e e' [= <- <- <-] He He'. congruence.
  - intros e w. simpl. by case_match.
Qed.

Definition cfg0 : inCfg := MkCfg 32768 0 override false.
Definition world0 : world := MkWorld [] false false.

Definition stream_open : tree := TNode "stream:stream" [("to", "jackal.im")] [] "" None.
Definition auth (pass : string) : tree :=
  TNode "auth" [("xmlns", saslNamespace); ("mechanism", "PLAIN")] [] pass None.
Definition bind_iq : tree :=
  TNode "iq" [("type", "set"); ("id", "b1"); ("from", "romeo@jackal.im"); ("to", "romeo@jackal.im")]
    [TNode "bind" [("xmlns", bindNamespace)] [TNode "resource" [] [] "balcony" None] "" None] ""
    (Some KIQ).

Definition recv (e : tree) : @event tree_jid tree_xml := EvSession (Some (inr e)).
Definition login_events (pass : string) : list (@event tree_jid tree_xml) :=
  [recv stream_open; recv (auth pass); recv stream_open; recv bind_iq].

(** A new stream, and the same after some events. *)
Definition s0 : inC2S := MkC2S 1 cfg0 (MkAuth [0] None 0 0) false false false inConnecting
  None None ∅ 0.
Definition after (socket login : bool) (evs : list (@event tree_jid tree_xml)) :=
  (@start _ _ world (env socket login);; @run _ _ world (env socket login) evs) (s0, world0).

End Demo.

Section demo_witnesses.
Import TreeLib Demo.

Lemma c2s_invariant_witness :
  Inv reg (after true true (login_events "good")).2 ∧
  st (after true true (login_events "good")).2.1 = inBinded.
Proof.
  split; [|vm_compute; reflexivity].
  pose proof (@c2s_invariant _ _ _ (env true true) reg (env_ok true true) 1 cfg0 [0] world0 world0 s0
    (login_events "good") eq_refl) as Hi.
  assert (is_ok (after true true (login_events "good")).1 = true) as Hok by (vm_compute; reflexivity).
  change ((start;; run (login_events "good")) (s0, world0))
    with (after true true (login_events "good")) in Hi.
  destruct (after true true (login_events "good")) as [[]]; [exact Hi|discriminate..].
Defined.

Lemma flags_monotone_witness :
  Flags.has Flags.fSecured (flags (@step _ _ world (env true true) (recv stream_open)
    (set_flags 1 s0, world0)).2.1) = true.
Proof.
  apply (@flags_monotone _ _ _ (env true true) reg (env_ok true true));
    [by apply elem_of_cons; left|vm_compute; reflexivity].
Defined.

Lemma auth_requires_sasl_witness :
  st (after true false (login_events "good")).2.1 ≠ inBinded.
Proof.
  apply (@auth_requires_sasl _ _ _ (env true false) reg (env_ok true false) 1 cfg0 [0] world0 world0
    s0 (login_events "good") eq_refl); [reflexivity|vm_compute; reflexivity].
Defined.

(** A stream that the peer closed. *)
Definition gone : inC2S * world := Eval vm_compute in
  (after true true [EvSession (Some (inl ErrStreamClosedByPeer))]).2.

Lemma terminated_final_witness :
  st gone.1 = inTerminated ∧
  st (@run _ _ world (env true true) (login_events "good") gone).2.1 = inTerminated.
Proof.
  split; [vm_compute; reflexivity|].
  apply (@terminated_final _ _ _ (env true true) reg (env_ok true true) (login_events "good") gone
    (@run _ _ world (env true true) (login_events "good") gone).2).
  - split; simpl; try done; by intros [].
  - reflexivity.
  - apply fst_Ok. vm_compute. reflexivity.
Defined.

Definition hello : tree :=
  TNode "message" [("from", "romeo@jackal.im/balcony"); ("to", "juliet@jackal.im/garden")] [] ""
    (Some KMessage).

Lemma process_message_terminates_witness :
  @sendMsg _ _ world (env true true) 7 hello hello (s0, world0) =
  @sendMsg _ _ world (env true true) 2 hello hello (s0, world0).
Proof.
  apply (@process_message_terminates _ _ _ (env true true) (env_messages true true)); [|lia].
  intros m m' [= <-]. apply t_with_to.
Defined.

Lemma auth_failure_limit_witness :
  let sw := (set_authSt (MkAuth [0] (Some 0) 4 0) (set_st inAuthenticating s0), world0) in
  st (@failAuthentication _ _ world (env true true) "not-authorized" sw).2.1 = inTerminated ∧
  (st (@failAuthentication _ _ world (env true true) "not-authorized" sw).2.1 = inDisconnected ∨
   st (@failAuthentication _ _ world (env true true) "not-authorized" sw).2.1 = inTerminated).
Proof.
  intros sw. split; [vm_compute; reflexivity|].
  apply (@auth_failure_limit _ _ _ (env true true) reg (env_ok true true) "not-authorized" sw);
    [|reflexivity|simpl; lia|apply fst_Ok; vm_compute; reflexivity].
  split; [|split; [reflexivity|exact I]].
  split; simpl; try done; by intros [].
Defined.

End demo_witnesses.

(** On a socket transport without TLS, where the stream features offer
    STARTTLS only and mark it as required, a client that sends [auth] anyway is
    authenticated and can bind: the handlers do not check the secured flag. *)
Theorem sasl_accepted_without_tls :
  let sw1 := (Demo.after true true [Demo.recv Demo.stream_open]).2 in
  let sw := (Demo.after true true (Demo.login_events "good")).2 in
  (Name <$> match (@unauthenticatedFeatures _ _ _ (Demo.env true true) sw1).1 with
            | Ok l => l | _ => [] end) = ["starttls"] ∧
  Flags.isSecured (flags sw.1) = false ∧ Flags.isAuthenticated (flags sw.1) = true ∧
  st sw.1 = inBinded.
Proof. vm_compute. auto. Qed.
