(* ===== verification/StreamQueue.v ===== *)
(** * The stream-management queue (pkg/module/xep0198/queue/queue.go)

    A queue keeps the stanzas sent over a stream until the peer acknowledges
    them, the two [h] counters of the stream, and two timers: one that asks for
    an acknowledgement and one that disconnects a silent peer.  Stanzas are
    compared by identity, as the Go interface comparison does. *)

From stdpp Require Import base list strings gmap.
From Stdlib Require Import ZArith Lia.
From S2P Require Import Prelude.

Local Open Scope Z_scope.

(** ** Counters *)

(** [incH]: the successor of an [h] value, on [uint32]. *)
Definition incH (h : Z) : Z :=
  if h =? max_uint32 - 1 then 0 else uint32 (h + 1).

(** The number of values [incH] cycles through. *)
Definition hmod : Z := 2 ^ 32 - 1.

Lemma incH_mod h : 0 ≤ h < hmod → incH h = (h + 1) mod hmod.
Proof.
  unfold incH, max_uint32, hmod, uint32. intros Hh.
  destruct (Z.eqb_spec h (2 ^ 32 - 1 - 1)) as [->|Hne]; [by vm_compute|].
  rewrite !Z.mod_small by lia. done.
Qed.

Lemma incH_range h : 0 ≤ h < hmod → 0 ≤ incH h < hmod.
Proof. intros Hh. rewrite incH_mod by done. apply Z.mod_pos_bound. unfold hmod; lia. Qed.

Lemma incH_small h : 0 ≤ h → h + 1 < hmod → incH h = h + 1.
Proof. intros. rewrite incH_mod by lia. apply Z.mod_small; lia. Qed.

Module Queue.

(** What a timer started by [time.AfterFunc] runs when it fires. *)
Inductive timer_job :=
| RequestAckJob
| DisconnectJob.

#[global] Instance timer_job_eq_dec : EqDecision timer_job.
Proof. solve_decision. Defined.

Section queue.
Context {Stanza : Type} `{!EqDecision Stanza}.

Record Element := MkElement {
  stanza : Stanza;
  H : Z;
}.

(** The queue.  [armed] holds the timers of this queue that are pending in the
    Go runtime; [rTm] and [discTm] are the references the struct keeps, and a
    timer the struct no longer refers to can still be pending. *)
Record Queue := MkQueue {
  stm : Z;
  nc : list Z;
  reqAckInterval : Z;
  waitForAckTimeout : Z;
  elements : list Element;
  outH : Z;
  inH : Z;
  rTm : nat;
  discTm : option nat;
  armed : gmap nat timer_job;
  next_tm : nat;
}.

(** What the queue sends to its stream. *)
Inductive event :=
| SendStanza (to : Z) (s : Stanza)
| SendR (to : Z)
| Disconnect (to : Z) (r : stream_reason).

(** Functional updates of the fields the operations write. *)
Definition set_stm (v : Z) (q : Queue) : Queue :=
  {| stm := v; nc := nc q; reqAckInterval := reqAckInterval q;
     waitForAckTimeout := waitForAckTimeout q; elements := elements q;
     outH := outH q; inH := inH q; rTm := rTm q; discTm := discTm q;
     armed := armed q; next_tm := next_tm q |}.
Definition set_elements (v : list Element) (q : Queue) : Queue :=
  {| stm := stm q; nc := nc q; reqAckInterval := reqAckInterval q;
     waitForAckTimeout := waitForAckTimeout q; elements := v;
     outH := outH q; inH := inH q; rTm := rTm q; discTm := discTm q;
     armed := armed q; next_tm := next_tm q |}.
Definition set_outH (v : Z) (q : Queue) : Queue :=
  {| stm := stm q; nc := nc q; reqAckInterval := reqAckInterval q;
     waitForAckTimeout := waitForAckTimeout q; elements := elements q;
     outH := v; inH := inH q; rTm := rTm q; discTm := discTm q;
     armed := armed q; next_tm := next_tm q |}.
Definition set_inH (v : Z) (q : Queue) : Queue :=
  {| stm := stm q; nc := nc q; reqAckInterval := reqAckInterval q;
     waitForAckTimeout := waitForAckTimeout q; elements := elements q;
     outH := outH q; inH := v; rTm := rTm q; discTm := discTm q;
     armed := armed q; next_tm := next_tm q |}.
Definition set_timers (r : nat) (d : option nat) (a : gmap nat timer_job) (n : nat)
    (q : Queue) : Queue :=
  {| stm := stm q; nc := nc q; reqAckInterval := reqAckInterval q;
     waitForAckTimeout := waitForAckTimeout q; elements := elements q;
     outH := outH q; inH := inH q; rTm := r; discTm := d; armed := a; next_tm := n |}.

(** [tm.Stop()] *)
Definition stop (tm : nat) (q : Queue) : Queue :=
  set_timers (rTm q) (discTm q) (delete tm (armed q)) (next_tm q) q.

(** [if discTm := q.discTm; discTm != nil { discTm.Stop() }] *)
Definition stop_discTm (q : Queue) : Queue :=
  match discTm q with Some tm => stop tm q | None => q end.

(** [setRTimer] *)
Definition setRTimer (q : Queue) : Queue :=
  let q := stop (rTm q) q in
  set_timers (next_tm q) (discTm q)
    (<[next_tm q := RequestAckJob]> (armed q)) (S (next_tm q)) q.

(** [New] *)
Definition New (stm' : Z) (nonce : list Z) (els : list Element)
    (inH' outH' requestAckInterval waitTimeout : Z) : Queue :=
  {| stm := stm'; nc := nonce; reqAckInterval := requestAckInterval;
     waitForAckTimeout := waitTimeout; elements := els; outH := outH'; inH := inH';
     rTm := 0; discTm := None; armed := {[ 0%nat := RequestAckJob ]}; next_tm := 1 |}.

(** [HandleIn] *)
Definition HandleIn (q : Queue) : Queue :=
  let q := setRTimer q in
  set_inH (incH (inH q)) q.

(** [HandleOut] *)
Definition HandleOut (s : Stanza) (q : Queue) : Queue :=
  if existsb (fun el => bool_decide (stanza el = s)) (elements q) then q
  else
    let h := incH (outH q) in
    set_elements (elements q ++ [MkElement s h]) (set_outH h q).

(** [SetStream], [GetStream], [Nonce], [Elements], [InboundH], [OutboundH] *)
Definition SetStream (s : Z) (q : Queue) : Queue := set_stm s q.
Definition GetStream (q : Queue) : Z := stm q.
Definition Nonce (q : Queue) : list Z := nc q.
Definition Elements (q : Queue) : list Element := elements q.
Definition InboundH (q : Queue) : Z := inH q.
Definition OutboundH (q : Queue) : Z := outH q.
Definition Len (q : Queue) : nat := length (elements q).

(** The loop of [Acknowledge]: the last index [i] with [e.H <= h], or -1.  *)
Fixpoint last_acked (h : Z) (i : Z) (j : Z) (els : list Element) : Z :=
  match els with
  | [] => j
  | e :: els' => last_acked h (i + 1) (if H e <=? h then i else j) els'
  end.

(** [Acknowledge] *)
Definition Acknowledge (h : Z) (q : Queue) : Queue :=
  let q := stop_discTm q in
  let j := last_acked h 0 (-1) (elements q) in
  let q := if j =? -1 then q
           else set_elements (drop (Z.to_nat (j + 1)) (elements q)) q in
  setRTimer q.

(** [SendPending] *)
Definition SendPending (q : Queue) : list event :=
  map (fun e => SendStanza (stm q) (stanza e)) (elements q).

(** [ScheduleR] *)
Definition ScheduleR (q : Queue) : Queue := setRTimer q.

(** [CancelTimers] *)
Definition CancelTimers (q : Queue) : Queue := stop_discTm (stop (rTm q) q).

(** [RequestAck] *)
Definition RequestAck (q : Queue) : Queue * list event :=
  (set_timers (rTm q) (Some (next_tm q))
     (<[next_tm q := DisconnectJob]> (armed q)) (S (next_tm q)) q,
   [SendR (stm q)]).

(** A pending timer fires: it leaves the runtime and its function runs. *)
Definition fire (tm : nat) (q : Queue) : Queue * list event :=
  match armed q !! tm with
  | Some RequestAckJob => RequestAck (stop tm q)
  | Some DisconnectJob => (stop tm q, [Disconnect (stm q) ConnectionTimeout])
  | None => (q, [])
  end.

(** ** The operations as one transition function *)
Inductive op :=
| OpIn
| OpOut (s : Stanza)
| OpAck (h : Z)
| OpRequestAck
| OpScheduleR
| OpCancelTimers
| OpSetStream (s : Z)
| OpFire (tm : nat).

Definition apply (o : op) (q : Queue) : Queue :=
  match o with
  | OpIn => HandleIn q
  | OpOut s => HandleOut s q
  | OpAck h => Acknowledge h q
  | OpRequestAck => (RequestAck q).1
  | OpScheduleR => ScheduleR q
  | OpCancelTimers => CancelTimers q
  | OpSetStream s => SetStream s q
  | OpFire tm => (fire tm q).1
  end.

Definition run (ops : list op) (q : Queue) : Queue := foldl (flip apply) q ops.

(** ** Numbering invariant

    [numbered b els]: the elements carry the [h] values that follow [b], the
    last acknowledged value, one after the other. *)
Fixpoint numbered (b : Z) (els : list Element) : Prop :=
  match els with
  | [] => True
  | e :: els' => H e = incH b ∧ numbered (H e) els'
  end.

Definition last_H (b : Z) (els : list Element) : Z := foldl (fun _ e => H e) b els.

Definition wf_at (b : Z) (q : Queue) : Prop :=
  0 ≤ b < hmod ∧ numbered b (elements q) ∧ last_H b (elements q) = outH q
  ∧ 0 ≤ inH q < hmod.

Definition wf (q : Queue) : Prop := ∃ b, wf_at b q.

(** ** Abstract specification

    What stream management promises to the sender: a log of the distinct
    stanzas handed to the stream and how many of them the peer acknowledged. *)
Record spec := MkSpec { log : list Stanza; acked : nat }.

Definition pending (a : spec) : list Stanza := drop (acked a) (log a).

Definition spec_out (s : Stanza) (a : spec) : spec :=
  if decide (s ∈ pending a) then a else MkSpec (log a ++ [s]) (acked a).

Definition spec_ack (h : Z) (a : spec) : spec :=
  MkSpec (log a) (acked a `max` Nat.min (Z.to_nat h) (length (log a))).

Definition spec_apply (o : op) (a : spec) : spec :=
  match o with
  | OpOut s => spec_out s a
  | OpAck h => spec_ack h a
  | _ => a
  end.

Definition spec_run (ops : list op) (a : spec) : spec := foldl (flip spec_apply) a ops.

(** The pending elements are the unacknowledged suffix of the log, numbered by
    their position. *)
Definition represents (a : spec) (q : Queue) : Prop :=
  (acked a ≤ length (log a))%nat ∧
  outH q = Z.of_nat (length (log a)) ∧
  stanza <$> elements q = pending a ∧
  numbered (Z.of_nat (acked a)) (elements q).

(** ** Lemmas *)

Lemma elements_setRTimer q : elements (setRTimer q) = elements q.
Proof. done. Qed.
Lemma outH_setRTimer q : outH (setRTimer q) = outH q.
Proof. done. Qed.
Lemma elements_stop_discTm q : elements (stop_discTm q) = elements q.
Proof. unfold stop_discTm. by destruct (discTm q). Qed.
Lemma outH_stop_discTm q : outH (stop_discTm q) = outH q.
Proof. unfold stop_discTm. by destruct (discTm q). Qed.
Lemma inH_stop_discTm q : inH (stop_discTm q) = inH q.
Proof. unfold stop_discTm. by destruct (discTm q). Qed.
Lemma stm_stop_discTm q : stm (stop_discTm q) = stm q.
Proof. unfold stop_discTm. by destruct (discTm q). Qed.

Lemma last_H_app b els e : last_H b (els ++ [e]) = H e.
Proof. unfold last_H. by rewrite foldl_app. Qed.

Lemma numbered_range b els e :
  0 ≤ b < hmod → numbered b els → e ∈ els → 0 ≤ H e < hmod.
Proof.
  revert b. induction els as [|x els IH]; intros b Hb Hn He; [by apply not_elem_of_nil in He|].
  destruct Hn as [Hx Hn]. pose proof (incH_range b Hb) as Hr. rewrite <-Hx in Hr.
  apply elem_of_cons in He as [->|He]; [done|]. by eapply IH.
Qed.

Lemma last_H_range b els : 0 ≤ b < hmod → numbered b els → 0 ≤ last_H b els < hmod.
Proof.
  intros Hb Hn. destruct els as [|e els _] using rev_ind; [done|].
  rewrite last_H_app. eapply numbered_range; [exact Hb|exact Hn|set_solver].
Qed.

Lemma numbered_snoc b els s :
  numbered b els → numbered b (els ++ [MkElement s (incH (last_H b els))]).
Proof.
  revert b. induction els as [|e els IH]; intros b; simpl; [done|].
  intros [He Hn]. split; [done|]. apply IH, Hn.
Qed.

Lemma numbered_drop b els n :
  numbered b els → numbered (last_H b (take n els)) (drop n els).
Proof.
  revert b n. induction els as [|e els IH]; intros b [|n]; simpl; try done.
  intros [_ Hn]. by apply IH.
Qed.

Lemma numbered_take b els n : numbered b els → numbered b (take n els).
Proof.
  revert b n. induction els as [|e els IH]; intros b [|n]; simpl; try done.
  intros [??]. split; [done|]. by apply IH.
Qed.

Lemma last_H_drop b els n : last_H (last_H b (take n els)) (drop n els) = last_H b els.
Proof. unfold last_H. by rewrite <-foldl_app, take_drop. Qed.

(** Where the window of pending values does not wrap, the [i]-th pending value
    is [b + 1 + i], and the loop of [Acknowledge] finds the number of
    acknowledged elements. *)
Lemma last_acked_window h els : ∀ b i j,
  0 ≤ b → b + Z.of_nat (length els) < hmod → numbered b els →
  last_acked h i j els =
    if (h <=? b) || (Z.of_nat (length els) =? 0) then j
    else i + Z.min (h - b) (Z.of_nat (length els)) - 1.
Proof.
  induction els as [|e els IH]; intros b i j Hb Hw Hn; simpl; [by rewrite orb_true_r|].
  destruct Hn as [He Hn]. simpl in Hw.
  assert (H e = b + 1) as HH by (rewrite He; apply incH_small; lia).
  rewrite (IH (H e)) by (done || lia). rewrite HH.
  repeat case_match; lia.
Qed.

Lemma last_H_window els : ∀ b,
  0 ≤ b → b + Z.of_nat (length els) < hmod → numbered b els →
  last_H b els = b + Z.of_nat (length els).
Proof.
  induction els as [|e els IH]; intros b Hb Hw Hn; simpl; [lia|].
  destruct Hn as [He Hn]. simpl in Hw.
  assert (H e = b + 1) as HH by (rewrite He; apply incH_small; lia).
  unfold last_H. simpl. fold (last_H (H e) els). rewrite IH by (done || lia). lia.
Qed.

Lemma last_acked_all h els : ∀ i j, els ≠ [] →
  (∀ e, e ∈ els → H e ≤ h) → last_acked h i j els = i + Z.of_nat (length els) - 1.
Proof.
  induction els as [|e els IH]; intros i j Hne Hall; [done|]. simpl.
  assert (H e ≤ h) as He by (apply Hall; set_solver).
  destruct els as [|e' els'].
  - simpl. case_match; lia.
  - rewrite IH; [simpl; lia|done|set_solver].
Qed.

Lemma last_acked_bound h els : ∀ i j, -1 ≤ j < i → -1 ≤ last_acked h i j els < i + Z.of_nat (length els).
Proof.
  induction els as [|e els IH]; intros i j Hj; simpl; [lia|].
  specialize (IH (i + 1) (if H e <=? h then i else j)). case_match; lia.
Qed.

(** Acknowledging drops a prefix of the elements. *)
Lemma elements_Acknowledge h q :
  elements (Acknowledge h q) =
    drop (Z.to_nat (last_acked h 0 (-1) (elements q) + 1)) (elements q).
Proof.
  unfold Acknowledge. rewrite elements_setRTimer, elements_stop_discTm.
  case_match eqn:Hj; simpl; rewrite ?elements_stop_discTm; [|done].
  apply Z.eqb_eq in Hj. by rewrite Hj.
Qed.

Lemma outH_Acknowledge h q : outH (Acknowledge h q) = outH q.
Proof. unfold Acknowledge. rewrite outH_setRTimer. by case_match; simpl; rewrite outH_stop_discTm. Qed.

Lemma inH_Acknowledge h q : inH (Acknowledge h q) = inH q.
Proof. unfold Acknowledge. simpl. by case_match; simpl; rewrite inH_stop_discTm. Qed.

(** On a window that does not wrap, exactly the elements up to [h] go. *)
Lemma elements_Acknowledge_window b h q :
  0 ≤ b → b + Z.of_nat (length (elements q)) < hmod → numbered b (elements q) →
  elements (Acknowledge h q) = drop (Z.to_nat (h - b)) (elements q).
Proof.
  intros Hb Hw Hn. rewrite elements_Acknowledge, (last_acked_window h _ b) by done.
  case_match eqn:Hc.
  - replace (Z.to_nat (-1 + 1)) with 0%nat by lia. rewrite drop_0.
    apply orb_true_iff in Hc as [Hc|Hc].
    + by replace (Z.to_nat (h - b)) with 0%nat by lia.
    + destruct (elements q); [by rewrite drop_nil|simpl in Hc; lia].
  - destruct (Z.le_gt_cases (h - b) (Z.of_nat (length (elements q)))).
    + f_equal. lia.
    + rewrite !drop_ge by lia. done.
Qed.

Lemma existsb_stanza s els :
  existsb (fun el => bool_decide (stanza el = s)) els = true ↔ s ∈ stanza <$> els.
Proof.
  rewrite existsb_exists, list_elem_of_fmap. setoid_rewrite bool_decide_eq_true.
  setoid_rewrite <-list_elem_of_In. naive_solver.
Qed.

Lemma wf_drop b n q els :
  0 ≤ b < hmod → numbered b els → last_H b els = outH q →
  elements q = drop n els → 0 ≤ inH q < hmod → wf q.
Proof.
  intros Hb Hn Hl He Hi. exists (last_H b (take n els)).
  split; [by apply last_H_range, numbered_take|].
  rewrite He, last_H_drop. auto using numbered_drop.
Qed.

Lemma wf_HandleOut s q : wf q → wf (HandleOut s q).
Proof.
  intros (b & Hb & Hn & Hl & Hi). unfold HandleOut. case_match; [by exists b|].
  exists b. split; [done|]. simpl. rewrite <-Hl, last_H_app.
  auto using numbered_snoc.
Qed.

Lemma wf_Acknowledge h q : wf q → wf (Acknowledge h q).
Proof.
  intros (b & Hb & Hn & Hl & Hi).
  eapply wf_drop; [exact Hb|exact Hn| | |].
  - by rewrite outH_Acknowledge.
  - apply elements_Acknowledge.
  - by rewrite inH_Acknowledge.
Qed.

Lemma wf_same q q' :
  elements q' = elements q → outH q' = outH q → inH q' = inH q → wf q → wf q'.
Proof. intros He Ho Hi (b & Hwf). exists b. unfold wf_at. by rewrite He, Ho, Hi. Qed.

Lemma wf_apply o q : wf q → wf (apply o q).
Proof.
  intros Hq. destruct o; simpl; auto using wf_HandleOut, wf_Acknowledge.
  - destruct Hq as (b & Hb & Hn & Hl & Hi). exists b.
    split; [done|]. split; [done|]. split; [done|]. by apply incH_range.
  - eapply wf_same, Hq; unfold CancelTimers;
      rewrite ?elements_stop_discTm, ?outH_stop_discTm, ?inH_stop_discTm; done.
  - unfold fire. repeat case_match; simpl; [by eapply wf_same, Hq..|done].
Qed.

Lemma wf_run ops q : wf q → wf (run ops q).
Proof. revert q. induction ops; intros q Hq; simpl; [done|]. auto using wf_apply. Qed.

(** ** Refinement of the abstract specification *)

Lemma represents_out s a q :
  Z.of_nat (length (log a)) + 1 < hmod →
  represents a q → represents (spec_out s a) (HandleOut s q).
Proof.
  intros Hlen (Hle & Ho & Hp & Hn). unfold spec_out, HandleOut.
  pose proof (existsb_stanza s (elements q)) as Hex. rewrite Hp in Hex.
  case_decide as Hin; [rewrite (proj2 Hex) by done; by repeat split|].
  destruct (existsb _ _); [tauto|].
  assert (incH (outH q) = Z.of_nat (length (log a)) + 1) as Hinc
    by (rewrite Ho; apply incH_small; lia).
  repeat split; simpl.
  - rewrite length_app. simpl. lia.
  - rewrite Hinc, length_app. simpl. lia.
  - rewrite fmap_app, Hp. unfold pending. simpl. by rewrite drop_app_le.
  - assert (last_H (Z.of_nat (acked a)) (elements q) = outH q) as <-;
      [|by apply numbered_snoc].
    apply (f_equal length) in Hp. unfold pending in Hp.
    rewrite length_fmap, length_drop in Hp.
    rewrite last_H_window by (done || lia). lia.
Qed.

Lemma represents_ack h a q :
  Z.of_nat (length (log a)) < hmod →
  represents a q → represents (spec_ack h a) (Acknowledge h q).
Proof.
  intros Hlen (Hle & Ho & Hp & Hn).
  assert (length (elements q) = (length (log a) - acked a)%nat) as Hl.
  { apply (f_equal length) in Hp. unfold pending in Hp.
    by rewrite length_fmap, length_drop in Hp. }
  assert (elements (Acknowledge h q) = drop (Z.to_nat h - acked a) (elements q)) as He.
  { rewrite (elements_Acknowledge_window (Z.of_nat (acked a))) by (done || lia).
    f_equal. lia. }
  unfold represents, spec_ack, pending in *. cbn [log acked].
  rewrite outH_Acknowledge, He. split_and!.
  - lia.
  - done.
  - rewrite fmap_drop, Hp, drop_drop.
    destruct (decide (Z.to_nat h ≤ length (log a))%nat).
    + f_equal. lia.
    + rewrite !drop_ge by lia. done.
  - set (n := (Z.to_nat h - acked a)%nat).
    replace (Z.of_nat (acked a `max` Nat.min (Z.to_nat h) (length (log a))))
      with (last_H (Z.of_nat (acked a)) (take n (elements q))); [by apply numbered_drop|].
    rewrite last_H_window; rewrite ?length_take; try lia.
    by apply numbered_take.
Qed.

Lemma represents_same a q q' :
  elements q' = elements q → outH q' = outH q → represents a q → represents a q'.
Proof. intros He Ho. unfold represents. by rewrite He, Ho. Qed.

Lemma represents_apply o a q :
  Z.of_nat (length (log a)) + 1 < hmod →
  represents a q → represents (spec_apply o a) (apply o q).
Proof.
  intros Hlen Hr. destruct o; simpl; auto using represents_out.
  - apply represents_ack; [lia|done].
  - eapply represents_same, Hr; unfold CancelTimers;
      rewrite ?elements_stop_discTm, ?outH_stop_discTm; done.
  - unfold fire. repeat case_match; simpl; [by eapply represents_same, Hr..|done].
Qed.

Lemma spec_log_length o a : (length (log (spec_apply o a)) ≤ S (length (log a)))%nat.
Proof.
  destruct o; simpl; try lia. unfold spec_out. case_decide; [lia|].
  simpl. rewrite length_app. simpl. lia.
Qed.

Lemma represents_run ops : ∀ a q,
  Z.of_nat (length (log a)) + Z.of_nat (length ops) < hmod →
  represents a q → represents (spec_run ops a) (run ops q).
Proof.
  induction ops as [|o ops IH]; intros a q Hlen Hr; simpl in *; [done|].
  apply IH; [pose proof (spec_log_length o a); lia|].
  apply represents_apply; [lia|done].
Qed.

(** ** Timers *)

(** The pending acknowledgement timer is the one the struct refers to, and
    fresh timer identifiers are not pending. *)
Definition timers_ok (q : Queue) : Prop :=
  (∀ tm, armed q !! tm = Some RequestAckJob → tm = rTm q) ∧
  (∀ tm, is_Some (armed q !! tm) → (tm < next_tm q)%nat) ∧
  (rTm q < next_tm q)%nat ∧ (∀ tm, discTm q = Some tm → (tm < next_tm q)%nat).

Lemma timers_ok_stop tm q : timers_ok q → timers_ok (stop tm q).
Proof.
  intros (H1 & H2 & H3 & H4). repeat split; simpl; try done.
  - intros tm' Htm'. apply H1. by apply lookup_delete_Some in Htm' as [].
  - intros tm' [j Hj]. apply H2. apply lookup_delete_Some in Hj as []. by exists j.
Qed.

Lemma timers_ok_stop_discTm q : timers_ok q → timers_ok (stop_discTm q).
Proof. unfold stop_discTm. destruct (discTm q); auto using timers_ok_stop. Qed.

Lemma timers_ok_setRTimer q : timers_ok q → timers_ok (setRTimer q).
Proof.
  intros (H1 & H2 & H3 & H4). unfold setRTimer.
  repeat split; simpl; try lia.
  - intros tm. rewrite lookup_insert. case_decide as Heq; [done|].
    intros Htm. apply lookup_delete_Some in Htm as [Hne Htm]. by destruct Hne; rewrite (H1 tm).
  - intros tm. rewrite lookup_insert. case_decide as Heq; [lia|].
    intros [j Hj]. apply lookup_delete_Some in Hj as [_ Hj].
    specialize (H2 tm (mk_is_Some _ _ Hj)). lia.
  - intros tm Htm. specialize (H4 tm Htm). lia.
Qed.

Lemma timers_ok_RequestAck q : timers_ok q → timers_ok (RequestAck q).1.
Proof.
  intros (H1 & H2 & H3 & H4). unfold RequestAck.
  repeat split; simpl; try lia.
  - intros tm. rewrite lookup_insert. case_decide; [done|apply H1].
  - intros tm. rewrite lookup_insert. case_decide; [lia|].
    intros Htm. specialize (H2 tm Htm). lia.
  - intros tm [= <-]. lia.
Qed.

Lemma timers_ok_same q q' :
  rTm q' = rTm q → discTm q' = discTm q → armed q' = armed q → next_tm q' = next_tm q →
  timers_ok q → timers_ok q'.
Proof. unfold timers_ok. intros -> -> -> ->. done. Qed.

Lemma timers_ok_apply o q : timers_ok q → timers_ok (apply o q).
Proof.
  intros Hq. destruct o; simpl.
  - by eapply timers_ok_same, timers_ok_setRTimer, Hq.
  - unfold HandleOut. case_match; [done|]. by eapply timers_ok_same, Hq.
  - unfold Acknowledge. apply timers_ok_setRTimer.
    case_match; [by apply timers_ok_stop_discTm|].
    by eapply timers_ok_same, timers_ok_stop_discTm, Hq.
  - by apply timers_ok_RequestAck.
  - by apply timers_ok_setRTimer.
  - by apply timers_ok_stop_discTm, timers_ok_stop.
  - by eapply timers_ok_same, Hq.
  - unfold fire. repeat case_match; [|by apply timers_ok_stop|done].
    by apply timers_ok_RequestAck, timers_ok_stop.
Qed.

Lemma timers_ok_run ops q : timers_ok q → timers_ok (run ops q).
Proof. revert q. induction ops; intros q Hq; simpl; [done|]. auto using timers_ok_apply. Qed.

Lemma timers_ok_New s nonce els i o r w : timers_ok (New s nonce els i o r w).
Proof.
  unfold New. repeat split; simpl; try lia; try done.
  - intros tm Htm. by apply lookup_singleton_Some in Htm as [].
  - intros tm [j Hj]. apply lookup_singleton_Some in Hj as []. lia.
Qed.

Lemma numbered_lookup els : ∀ b i e, 0 ≤ b < hmod → numbered b els →
  els !! i = Some e → H e = (b + 1 + Z.of_nat i) mod hmod.
Proof.
  induction els as [|x els IH]; intros b i e Hb Hn Hi; [done|]. destruct Hn as [Hx Hn].
  pose proof (incH_range b Hb) as Hr. rewrite <-Hx in Hr.
  rewrite incH_mod in Hx by done.
  destruct i as [|i]; simplify_eq/=; [by rewrite Hx, Z.add_0_r|].
  rewrite (IH (H x) i e) by done. rewrite Hx, <-!Z.add_assoc, Zplus_mod_idemp_l.
  f_equal. lia.
Qed.

Lemma last_H_mod els : ∀ b, 0 ≤ b < hmod → numbered b els →
  last_H b els = (b + Z.of_nat (length els)) mod hmod.
Proof.
  intros b Hb Hn. destruct els as [|e els _] using rev_ind.
  - simpl. rewrite Z.add_0_r, Z.mod_small; done.
  - rewrite last_H_app, length_app.
    rewrite (numbered_lookup _ b (length els) e Hb Hn).
    + f_equal. simpl. lia.
    + by rewrite lookup_app_r, Nat.sub_diag.
Qed.

Definition is_in (o : op) : bool := match o with OpIn => true | _ => false end.

Lemma inH_apply o q : inH (apply o q) = if is_in o then incH (inH q) else inH q.
Proof.
  destruct o; simpl; try done.
  - unfold HandleOut. by case_match.
  - apply inH_Acknowledge.
  - unfold CancelTimers. by rewrite inH_stop_discTm.
  - unfold fire. by repeat case_match.
Qed.

(** ** Properties *)

(** C2: while fewer than 2^32-1 operations are run, the queue refines the abstract
    log: whatever the order of sends, acknowledgements, timer events and stream
    changes, the pending elements are exactly the unacknowledged suffix of the
    distinct stanzas sent, in order, and this is what [SendPending] resends. *)
Theorem queue_refines_log (ops : list op) (s : Z) (nonce : list Z) (r w : Z)
    (Hlen : Z.of_nat (length ops) < hmod) :
  let q := run ops (New s nonce [] 0 0 r w) in
  let a := spec_run ops (MkSpec [] 0) in
  stanza <$> elements q = pending a ∧
  outH q = Z.of_nat (length (log a)) ∧
  SendPending q = map (SendStanza (stm q)) (pending a).
Proof.
  simpl. destruct (represents_run ops (MkSpec [] 0) (New s nonce [] 0 0 r w))
    as (_ & Ho & Hp & _); [simpl; lia|by repeat split|].
  split; [done|]. split; [done|].
  unfold SendPending. rewrite <-Hp, <-list_fmap_compose. done.
Qed.

(** Numbering invariant.  From a well-formed queue every sequence of
    operations keeps the pending elements numbered with consecutive values
    modulo 2^32-1, the last one being [outH]. *)
Theorem queue_numbering (ops : list op) (q0 : Queue) (Hwf : wf q0) :
  let q := run ops q0 in
  0 ≤ outH q < hmod ∧
  ∀ i e, elements q !! i = Some e →
    H e = (outH q - Z.of_nat (Len q - 1 - i)) mod hmod.
Proof.
  simpl. destruct (wf_run ops q0 Hwf) as (b & Hb & Hn & Hl & _).
  rewrite <-Hl. split; [by apply last_H_range|]. intros i e Hi.
  rewrite (numbered_lookup _ _ _ _ Hb Hn Hi), last_H_mod by done.
  unfold Len. apply lookup_lt_Some in Hi. rewrite Zminus_mod_idemp_l. f_equal. lia.
Qed.

(** An acknowledgement removes exactly the elements it covers, as long as the
    window of pending values does not wrap around. *)
Theorem acknowledge_exact (b h : Z) (q : Queue)
    (Hwf : wf_at b q) (Hwin : b + Z.of_nat (Len q) < hmod) :
  elements (Acknowledge h q) = filter (fun e => h < H e) (elements q) ∧
  outH (Acknowledge h q) = outH q.
Proof.
  split; [|apply outH_Acknowledge]. destruct Hwf as (Hb & Hn & _ & _).
  rewrite (elements_Acknowledge_window b) by (done || apply Hb). unfold Len in Hwin.
  revert b Hb Hn Hwin. induction (elements q) as [|e els IH]; intros b Hb Hn Hwin.
  { by rewrite drop_nil. }
  destruct Hn as [He Hn]. simpl in Hwin.
  assert (H e = b + 1) as HH by (rewrite He; apply incH_small; lia).
  rewrite filter_cons. specialize (IH (H e)). rewrite HH in IH.
  rewrite HH in Hn. specialize (IH ltac:(lia) Hn ltac:(lia)). rewrite <-IH, HH.
  case_decide.
  - replace (Z.to_nat (h - b)) with 0%nat by lia.
    by replace (Z.to_nat (h - (b + 1))) with 0%nat by lia.
  - by replace (Z.to_nat (h - b)) with (S (Z.to_nat (h - (b + 1)))) by lia.
Qed.

(** When the window of pending values wraps around, acknowledging the last
    value before the wrap empties the queue although the elements after the
    wrap were not acknowledged: they are lost. *)
Theorem acknowledge_wrap_loses (b : Z) (q : Queue)
    (Hwf : wf_at b q) (Hwrap : hmod - 1 < b + Z.of_nat (Len q)) :
  elements (Acknowledge (hmod - 1) q) = [] ∧
  drop (Z.to_nat (hmod - 1 - b)) (elements q) ≠ [].
Proof.
  destruct Hwf as (Hb & Hn & _ & _). unfold Len in Hwrap. split.
  - rewrite elements_Acknowledge. destruct (elements q) as [|e els] eqn:Hq; [done|].
    rewrite last_acked_all; [apply drop_ge; lia|done|].
    intros e' He'. pose proof (numbered_range b _ e' Hb Hn He'). lia.
  - intros Hd. apply (f_equal length) in Hd. rewrite length_drop in Hd. simpl in Hd. lia.
Qed.

(** [inH] counts the stanzas received, modulo 2^32-1, through any sequence
    of operations. *)
Theorem inbound_counter (ops : list op) (q : Queue) (Hq : 0 ≤ inH q < hmod) :
  inH (run ops q) =
    (inH q + Z.of_nat (length (List.filter is_in ops))) mod hmod.
Proof.
  revert q Hq. induction ops as [|o ops IH]; intros q Hq; simpl.
  { rewrite Z.add_0_r, Z.mod_small; done. }
  rewrite IH; rewrite inH_apply; destruct (is_in o);
    try (by apply incH_range); try done.
  rewrite incH_mod, Zplus_mod_idemp_l by done. simpl. f_equal. lia.
Qed.

(** At most one acknowledgement-request timer is ever pending, whatever the
    sequence of operations and timer events. *)
Theorem single_request_timer (ops : list op) (s : Z) (nonce : list Z)
    (els : list Element) (i o r w : Z) (tm tm' : nat) :
  let q := run ops (New s nonce els i o r w) in
  armed q !! tm = Some RequestAckJob → armed q !! tm' = Some RequestAckJob → tm = tm'.
Proof.
  simpl. intros H1 H2.
  destruct (timers_ok_run ops _ (timers_ok_New s nonce els i o r w)) as (Hr & _).
  by rewrite (Hr tm), (Hr tm').
Qed.

(** A second acknowledgement request before the first one is answered leaves
    its predecessor's disconnect timer pending for good: neither an
    acknowledgement nor [CancelTimers] stops it. *)
Theorem orphan_disconnect_timer (ops : list op) (s : Z) (nonce : list Z)
    (r w h : Z) :
  let q := run ops (New s nonce [] 0 0 r w) in
  let q2 := (RequestAck (RequestAck q).1).1 in
  armed (Acknowledge h q2) !! next_tm q = Some DisconnectJob ∧
  armed (CancelTimers q2) !! next_tm q = Some DisconnectJob.
Proof.
  simpl.
  destruct (timers_ok_run ops _ (timers_ok_New s nonce [] 0 0 r w)) as (_ & _ & Hr & _).
  set (q := run ops _) in *. unfold Acknowledge, CancelTimers, stop_discTm. simpl.
  split; [case_match; simpl|]; by simplify_map_eq by lia.
Qed.

End queue.
End Queue.

(** ** Witnesses, with numbers for stanzas *)
Section queue_witnesses.
Import Queue.

Definition sample_ops : list (@op nat) :=
  [OpOut 1%nat; OpOut 2%nat; OpIn; OpOut 3%nat; OpAck 2; OpRequestAck; OpOut 4%nat].
Abbreviation sample := (run sample_ops (New 7 [1] [] 0 0 60 30)).

(** A queue about to wrap, with two pending stanzas. *)
Definition wrapping : @Queue nat :=
  New 7 [1] [MkElement 1%nat (hmod - 1); MkElement 2%nat 0] 0 0 60 30.

Lemma queue_refines_log_witness :
  stanza <$> elements sample = [3%nat; 4%nat] ∧
  stanza <$> elements sample = pending (spec_run sample_ops (MkSpec [] 0)).
Proof.
  split; [vm_compute; reflexivity|].
  apply (queue_refines_log sample_ops 7 [1] 60 30). vm_compute. reflexivity.
Defined.

Lemma queue_numbering_witness : H <$> elements sample !! 0%nat = Some 3 ∧
  ∀ e, elements sample !! 0%nat = Some e → 
    H e = (outH sample - Z.of_nat (Len sample - 1 - 0)) mod hmod.
Proof.
  split; [vm_compute; reflexivity|]. intros e He.
  assert (wf (New 7 [1] [] 0 0 60 30 : @Queue nat)) as Hwf.
  { exists 0. split; [by vm_compute|]. split; [exact I|]. split; [reflexivity|by vm_compute]. }
  exact (proj2 (queue_numbering sample_ops (New 7 [1] [] 0 0 60 30) Hwf) 0%nat e He).
Defined.

Lemma acknowledge_exact_witness :
  elements (Acknowledge 3 sample) = filter (fun e => 3 < H e) (elements sample).
Proof.
  apply (acknowledge_exact 2); [|by vm_compute].
  split; [by vm_compute|]. split; [by vm_compute|]. split; by vm_compute.
Defined.

Lemma acknowledge_wrap_loses_witness :
  elements (Acknowledge (hmod - 1) wrapping) = [] ∧
  drop (Z.to_nat (hmod - 1 - (hmod - 2))) (elements wrapping) ≠ [].
Proof.
  apply (acknowledge_wrap_loses (hmod - 2)); [|by vm_compute].
  split; [by vm_compute|]. split; [by vm_compute|]. split; by vm_compute.
Defined.

Lemma inbound_counter_witness : inH sample = 1 ∧
  inH sample = (0 + Z.of_nat (length (List.filter is_in sample_ops))) mod hmod.
Proof.
  split; [vm_compute; reflexivity|].
  apply (inbound_counter sample_ops (New 7 [1] [] 0 0 60 30)). by vm_compute.
Defined.

Lemma single_request_timer_witness : armed sample !! 3%nat = Some DisconnectJob ∧ 2%nat = 2%nat.
Proof.
  split; [vm_compute; reflexivity|].
  apply (single_request_timer sample_ops 7 [1] [] 0 0 60 30); vm_compute; reflexivity.
Defined.

End queue_witnesses.
