(* ===== verification/StreamMgmt.v ===== *)
(** * Stream management (pkg/module/xep0198/stream.go, queue/queue.go's QueueMap)

    The module that acknowledges stanzas and resumes streams.  Its state is the
    map from full JIDs to queues and the timers that end hibernated streams;
    queues are shared objects, so they live in a heap and the map holds
    references.  The streams (known by their id), the resource manager, the
    cluster connections and the random source are the fields of [SMEnv]. *)

From stdpp Require Import base list strings gmap sets.
From Stdlib Require Import ZArith Lia.
From S2P Require Import Prelude GoLib Base64 Stravaganza C2SModel StreamQueue.

Definition smNamespace : string := "urn:xmpp:sm:3".
Definition xmppStanzaNamespace : string := "urn:ietf:params:xml:ns:xmpp-stanzas".
Definition enabledInfoKey : string := "xep0198:enabled".
Definition badRequest : string := "bad-request".
Definition unexpectedRequest : string := "unexpected-request".
Definition itemNotFound : string := "item-not-found".
Definition nonceLength : nat := 24.
Definition unacknowledgedStanzaCount : nat := 25.

Section sm.
Context `{XmlLib}.

(** An element as a Go object: queues compare stanzas by identity. *)
Record obj := MkObj { oid : nat; content : Element }.

#[export] Instance obj_eq_dec : EqDecision obj.
Proof. solve_decision. Defined.

Abbreviation queue := (Queue.Queue (Stanza := obj)).

Record Config := MkSMConfig {
  RequestAckInterval : Z;
  WaitForAckTimeout : Z;
  MaxQueueSize : Z;
}.

(** [stmQueueMap], the heap of queues, [termTms] and the hibernation timers that
    are pending, with the stream each one disconnects. *)
Record smState := MkSM {
  heap : gmap nat queue;
  queues : gmap string nat;
  nextQ : nat;
  termTms : gmap string nat;
  hibernating : gmap nat Z;
  nextTm : nat;
}.

Definition set_heap v (s : smState) :=
  MkSM v (queues s) (nextQ s) (termTms s) (hibernating s) (nextTm s).
Definition set_queues v (s : smState) :=
  MkSM (heap s) v (nextQ s) (termTms s) (hibernating s) (nextTm s).
Definition set_term t h n (s : smState) := MkSM (heap s) (queues s) (nextQ s) t h n.

(** ** What the module calls *)
Class SMEnv (W : Type) := {
  stm_JID : Z → W → option JID;
  stm_IsBinded : Z → W → bool;
  stm_IsAuthenticated : Z → W → bool;
  stm_Info : Z → W → Info.t;
  stm_SetInfoBool : Z → string → bool → M W unit;
  (** asynchronous: the element is put on the run queue of the stream *)
  stm_SendElement : Z → Element → M W unit;
  stm_SendStanza : Z → obj → M W unit;
  stm_Disconnect : Z → option stream_reason → M W unit;
  (** [<-stm.Disconnect(..)]: the stream is closed, its hooks included, before
      the call returns *)
  stm_DisconnectWait : Z → stream_reason → M (smState * W) unit;
  stm_Resume : Z → JID → option Element → Info.t → M W unit;
  rm_GetResource : string → string → M W (option ResourceDesc);
  cl_GetConnection : string → M W unit;
  cl_TransferQueue : string → string → M W (list Z * list (Queue.Element (Stanza := obj)) * Z * Z);
  rand_Intn : Z → M W Z;
  sm_instance_ID : string;
}.

Section methods.
Context {W : Type} `{!SMEnv W} (cfg : Config).

Abbreviation MS := (M (smState * W)).

Definition liftSM {A} (m : M W A) : MS A := fun '(s, w) =>
  let '(r, w') := m w in (r, (s, w')).
Definition ofStream {A} (f : W → A) : MS A := gets (fun sw => f sw.2).
Definition sm_get {A} (f : smState → A) : MS A := gets (fun sw => f sw.1).
Definition sm_upd (f : smState → smState) : MS unit := modify (fun '(s, w) => (f s, w)).

(** ** [QueueMap] *)
Definition qm_Set (k : string) (q : nat) : MS unit :=
  sm_upd (fun s => set_queues (<[k := q]> (queues s)) s).
Definition qm_Get (k : string) : MS (option nat) := sm_get (fun s => queues s !! k).
Definition qm_Delete (k : string) : MS unit :=
  sm_upd (fun s => set_queues (delete k (queues s)) s).

(** Reading and changing a queue through its reference. *)
Definition readQ (r : nat) : MS queue :=
  o ← sm_get (fun s => heap s !! r); deref o.
Definition writeQ (r : nat) (q : queue) : MS unit :=
  sm_upd (fun s => set_heap (<[r := q]> (heap s)) s).
Definition updQ (r : nat) (f : queue → queue) : MS unit := q ← readQ r; writeQ r (f q).

(** [streamqueue.New] *)
Definition newQ (q : queue) : MS nat :=
  r ← sm_get nextQ;
  sm_upd (fun s => MkSM (<[r := q]> (heap s)) (queues s) (S r) (termTms s) (hibernating s) (nextTm s));;
  mret r.

(** What a queue sends to its stream. *)
Definition emit_one (ev : Queue.event (Stanza := obj)) : MS unit :=
  match ev with
  | Queue.SendStanza to s => liftSM (stm_SendStanza to s)
  | Queue.SendR to => liftSM (stm_SendElement to (Build "r" [(Namespace, smNamespace)] [] ""))
  | Queue.Disconnect to r => liftSM (stm_Disconnect to (Some r))
  end.
Definition emit (evs : list Queue.event) : MS unit := for_each evs emit_one.

(** [sq.SendPending()] and [sq.RequestAck()] *)
Definition sendPending (r : nat) : MS unit := q ← readQ r; emit (Queue.SendPending q).
Definition requestAck (r : nat) : MS unit :=
  q ← readQ r;
  writeQ r (Queue.RequestAck q).1;;
  emit (Queue.RequestAck q).2.

(** [queueKey] *)
Definition queueKey (j : JID) : string := JIDString j.

(** [m.stmQueueMap.Get(queueKey(stm.JID()))] *)
Definition queueOf (stm : Z) : MS (option nat) :=
  j ← ofStream (stm_JID stm);
  j ← deref j;
  qm_Get (queueKey j).

(** ** Stream identifiers *)

(** [encodeSMID] *)
Definition encodeSMID (jd : JID) (nonce : list Z) : string :=
  EncodeToString (bytes_of_string (JIDString jd) ++ 0%Z :: nonce).

(** [decodeSMID]; the errors of the libraries are [ErrText] *)
Definition decodeSMID (smID : string) : outcome (JID * list Z) :=
  match DecodeString smID with
  | None => Err (ErrText "illegal base64 data")
  | Some b =>
    match split 0 b with
    | [p0; p1] =>
      match NewWithString (string_of_bytes p0) false with
      | Some jd => Ok (jd, p1)
      | None => Err ErrInvalidSMID
      end
    | _ => Err ErrInvalidSMID
    end
  end.

(** [sendFailedReply] *)
Definition sendFailedReply (reason text : string) (stm : Z) : MS unit :=
  ignore (liftSM (stm_SendElement stm (Build "failed" [(Namespace, smNamespace)]
    (Build reason [(Namespace, xmppStanzaNamespace)] [] "" ::
     (if String.eqb text "" then []
      else [Build "text" [(Namespace, xmppStanzaNamespace)] [] text])) ""))).

(** The nonce of [handleEnable]. *)
Fixpoint genNonce (n : nat) : MS (list Z) :=
  match n with
  | O => mret []
  | S n' => b ← liftSM (rand_Intn 255); rest ← genNonce n'; mret (uint8 (b + 1) :: rest)
  end.

(** ** Commands *)

(** [handleEnable] *)
Definition handleEnable (stm : Z) : MS unit :=
  binded ← ofStream (stm_IsBinded stm);
  if negb binded then sendFailedReply unexpectedRequest "" stm
  else
    inf ← ofStream (stm_Info stm);
    if Info.Bool enabledInfoKey inf then
      sendFailedReply unexpectedRequest "Stream management is already enabled" stm
    else
      liftSM (stm_SetInfoBool stm enabledInfoKey true);;
      nonce ← genNonce nonceLength;
      sq ← newQ (Queue.New stm nonce [] 0 0 (RequestAckInterval cfg) (WaitForAckTimeout cfg));
      j ← ofStream (stm_JID stm);
      j ← deref j;
      qm_Set (queueKey j) sq;;
      liftSM (stm_SendElement stm (Build "enabled"
        [(Namespace, smNamespace); ("id", encodeSMID j nonce); ("resume", "true")] [] "")).

(** The last part of [handleResume], once the queue is found. *)
Definition finishResume (stm h : Z) (prevSMID : string) (jd : JID) (nonce : list Z)
    (res : ResourceDesc) (sq : nat) : MS unit :=
  j ← ofStream (stm_JID stm);
  j ← deref j;
  q ← readQ sq;
  if negb (MatchesBare jd j) || negb (bool_decide (Queue.Nonce q = nonce)) then
    sendFailedReply itemNotFound "" stm
  else
    qm_Set (queueKey jd) sq;;
    liftSM (stm_Resume stm (ResJID res) (ResPresence res) (ResInfo res));;
    q ← readQ sq;
    liftSM (stm_SendElement stm (Build "resumed"
      [(Namespace, smNamespace); ("h", FormatUint (Queue.InboundH q)); ("previd", prevSMID)] [] ""));;
    updQ sq (Queue.Acknowledge h);;
    sendPending sq;;
    updQ sq Queue.ScheduleR.

(** [handleResume]; waiting for the disconnection of the stream whose own run
    queue runs the handler never ends. *)
Definition handleResume (stm h : Z) (prevSMID : string) : MS unit :=
  authenticated ← ofStream (stm_IsAuthenticated stm);
  if negb authenticated then sendFailedReply unexpectedRequest "" stm
  else
    '(jd, nonce) ← (fun sw => (decodeSMID prevSMID, sw));
    res ← liftSM (rm_GetResource (Node jd) (Resource jd));
    match res with
    | None => sendFailedReply itemNotFound "" stm
    | Some res =>
      let qk := queueKey jd in
      if String.eqb (InstanceID res) sm_instance_ID then
        sq ← qm_Get qk;
        match sq with
        | None => sendFailedReply itemNotFound "" stm
        | Some sq =>
          q ← readQ sq;
          (if (Queue.GetStream q =? stm)%Z then crash_with Deadlock
           else stm_DisconnectWait (Queue.GetStream q) Conflict);;
          updQ sq (Queue.SetStream stm);;
          finishResume stm h prevSMID jd nonce res sq
        end
      else
        liftSM (cl_GetConnection (InstanceID res));;
        '(nonce', els, inH, outH) ← liftSM (cl_TransferQueue (InstanceID res) qk);
        sq ← newQ (Queue.New stm nonce' els inH outH (RequestAckInterval cfg) (WaitForAckTimeout cfg));
        finishResume stm h prevSMID jd nonce res sq
    end.

(** [handleA] *)
Definition handleA (stm h : Z) : MS unit :=
  sq ← queueOf stm;
  match sq with
  | None => mret tt
  | Some sq =>
    updQ sq (Queue.Acknowledge h);;
    q ← readQ sq;
    if (Queue.Len q =? 0)%nat then mret tt else sendPending sq
  end.

(** [handleR] *)
Definition handleR (stm : Z) : MS unit :=
  sq ← queueOf stm;
  match sq with
  | None => mret tt
  | Some sq =>
    q ← readQ sq;
    liftSM (stm_SendElement stm (Build "a"
      [(Namespace, smNamespace); ("h", FormatUint (Queue.InboundH q))] [] ""))
  end.

(** [processCmd]; a malformed [h] reads as the value [ParseUint] gives with its
    error. *)
Definition processCmd (cmd : Element) (stm : Z) : MS unit :=
  if (0 <? ChildrenCount cmd)%nat then sendFailedReply badRequest "Malformed element" stm
  else
    let h := (ParseUint32 (Attribute cmd "h")).1 in
    let name := Name cmd in
    if String.eqb name "enable" then handleEnable stm
    else if String.eqb name "resume" then handleResume stm (uint32 h) (Attribute cmd "previd")
    else if String.eqb name "a" then handleA stm (uint32 h)
    else if String.eqb name "r" then handleR stm
    else sendFailedReply badRequest
      ("Unknown tag " +:+ name +:+ " qualified by namespace '" +:+ smNamespace +:+ "'") stm.

(** ** Hook handlers; [hook.ErrStopped] is the error that halts the chain *)

(** [onElementRecv] *)
Definition onElementRecv (stm : Z) (elem : Element) : MS unit :=
  if String.eqb (Attribute elem Namespace) smNamespace then
    processCmd elem stm;; fail ErrStopped
  else if negb (is_stanza elem) then mret tt
  else
    sq ← queueOf stm;
    match sq with
    | None => mret tt
    | Some sq => updQ sq Queue.HandleIn
    end.

(** [onElementSent] *)
Definition onElementSent (stm : Z) (elem : obj) : MS unit :=
  if negb (is_stanza (content elem)) then mret tt
  else
    sq ← queueOf stm;
    match sq with
    | None => mret tt
    | Some sq =>
      updQ sq (Queue.HandleOut elem);;
      q ← readQ sq;
      let qLen := Queue.Len q in
      if (MaxQueueSize cfg <=? Z.of_nat qLen)%Z then
        ignore (liftSM (stm_Disconnect (Queue.GetStream q) (Some PolicyViolation)))
      else if (qLen mod unacknowledgedStanzaCount =? 0)%nat then requestAck sq
      else mret tt
    end.

Definition isStreamErr (e : goerror) : bool :=
  match e with StreamError _ | NilStreamError => true | _ => false end.

(** [onDisconnect] *)
Definition onDisconnect (stm : Z) (infID : string) (presence : option Element)
    (discErr : goerror) : MS unit :=
  inf ← ofStream (stm_Info stm);
  if negb (Info.Bool enabledInfoKey inf) then mret tt
  else
    sq ← queueOf stm;
    match sq with
    | None => mret tt
    | Some sq =>
      updQ sq Queue.CancelTimers;;
      presence ← deref presence;
      if IsAvailable presence && negb (isStreamErr discErr)
         && negb (bool_decide (discErr = ErrStreamClosedByPeer)) then
        sm_upd (fun s => set_term (<[infID := nextTm s]> (termTms s))
                  (<[nextTm s := stm]> (hibernating s)) (S (nextTm s)) s);;
        fail ErrStopped
      else mret tt
    end.

(** [onTerminate] *)
Definition onTerminate (stm : Z) (infID : string) : MS unit :=
  inf ← ofStream (stm_Info stm);
  if negb (Info.Bool enabledInfoKey inf) then mret tt
  else
    j ← ofStream (stm_JID stm);
    j ← deref j;
    sq ← qm_Get (queueKey j);
    match sq with
    | None => mret tt
    | Some _ =>
      qm_Delete (queueKey j);;
      sm_upd (fun s => set_term (delete infID (termTms s))
        (match termTms s !! infID with
         | Some tm => delete tm (hibernating s)
         | None => hibernating s
         end) (nextTm s) s)
    end.

(** A hibernation timer fires. *)
Definition fireHibernation (tm : nat) : MS unit :=
  o ← sm_get (fun s => hibernating s !! tm);
  match o with
  | None => mret tt
  | Some stm =>
    sm_upd (fun s => set_term (termTms s) (delete tm (hibernating s)) (nextTm s) s);;
    ignore (liftSM (stm_Disconnect stm None))
  end.

(** ** Events *)
Inductive sm_event :=
| EvRecv (stm : Z) (e : Element)
| EvSent (stm : Z) (o : obj)
| EvDisconnect (stm : Z) (infID : string) (p : option Element) (err : goerror)
| EvTerminate (stm : Z) (infID : string)
| EvQueueTimer (sq tm : nat)
| EvHibernation (tm : nat).

Definition fireQ (sq tm : nat) : MS unit :=
  q ← readQ sq;
  writeQ sq (Queue.fire tm q).1;;
  emit (Queue.fire tm q).2.

Definition handle (ev : sm_event) : MS unit :=
  match ev with
  | EvRecv stm e => onElementRecv stm e
  | EvSent stm o => onElementSent stm o
  | EvDisconnect stm i p err => onDisconnect stm i p err
  | EvTerminate stm i => onTerminate stm i
  | EvQueueTimer sq tm => fireQ sq tm
  | EvHibernation tm => fireHibernation tm
  end.

Fixpoint handle_all (evs : list sm_event) : MS unit :=
  match evs with
  | [] => mret tt
  | ev :: evs' => ignore (handle ev);; handle_all evs'
  end.

(** ** Invariant *)

(** Every key refers to a live queue, and every queue is well formed. *)
Definition sm_wf (sw : smState * W) : Prop :=
  (∀ k r, queues sw.1 !! k = Some r → is_Some (heap sw.1 !! r)) ∧
  (∀ r q, heap sw.1 !! r = Some q → Queue.wf q ∧ r < nextQ sw.1).

(** What the module relies on: a disconnection runs the module's own hooks, and
    a queue transferred by another instance is well formed. *)
Class SMEnvOk : Prop := {
  sm_DisconnectWait_ok : ∀ i r, keeps (stable sm_wf) (stm_DisconnectWait i r);
  sm_Transfer_ok : ∀ i k w n els inH outH w',
    cl_TransferQueue i k w = (Ok (n, els, inH, outH), w') →
    ∀ s a b, Queue.wf (Queue.New s n els inH outH a b);
}.

Definition wk {A} (m : MS A) : Prop := keeps (stable sm_wf) m.

Lemma wk_get {A} (f : smState → A) : wk (sm_get f).
Proof. by intros [s w]. Qed.
Lemma wk_stream {A} (f : W → A) : wk (ofStream f).
Proof. by intros [s w]. Qed.
Lemma wk_lift {A} (m : M W A) : wk (liftSM m).
Proof. intros [s w]. unfold liftSM, stable, sm_wf. by destruct (m w). Qed.
Lemma wk_term f : (∀ s, heap (f s) = heap s ∧ queues (f s) = queues s ∧ nextQ (f s) = nextQ s) →
  wk (sm_upd f).
Proof.
  intros Hf [s w]. unfold stable, sm_wf. simpl. by destruct (Hf s) as (-> & -> & ->).
Qed.
Lemma wk_delete k : wk (qm_Delete k).
Proof.
  intros [s w] [Hq Hh]. split; simpl in *; [|done].
  intros k' r. rewrite lookup_delete_Some. intros [_ Hr]. by eapply Hq.
Qed.
Lemma wk_readQ r : wk (readQ r).
Proof. intros [s w]. unfold readQ, mbind, M_bind. simpl. by destruct (heap s !! r). Qed.

Lemma sm_wf_write r q s w :
  sm_wf (s, w) → is_Some (heap s !! r) → Queue.wf q → sm_wf (set_heap (<[r := q]> (heap s)) s, w).
Proof.
  intros [Hq Hh] [q0 Hr] Hwf. split; simpl in *.
  - intros k r' Hk. apply lookup_insert_is_Some. destruct (decide (r = r')); [by left|right].
    split; [done|by eapply Hq].
  - intros r' q'. rewrite lookup_insert_Some. intros [[<- <-]|[_ Hr']].
    + split; [done|]. by eapply Hh.
    + by eapply Hh.
Qed.

Lemma sm_wf_set k r s w :
  sm_wf (s, w) → is_Some (heap s !! r) → sm_wf (set_queues (<[k := r]> (queues s)) s, w).
Proof.
  intros [Hq Hh] Hr. split; simpl in *; [|done].
  intros k' r'. rewrite lookup_insert_Some. intros [[_ <-]|[_ Hk]]; [done|by eapply Hq].
Qed.

Lemma wk_updQ o r : wk (updQ r (Queue.apply o)).
Proof.
  intros [s w] Hwf. unfold updQ, readQ, writeQ, mbind, M_bind. simpl.
  destruct (heap s !! r) as [q|] eqn:Hr; [|done]. apply sm_wf_write; [done|by eexists|].
  apply Queue.wf_apply. by apply Hwf in Hr as [].
Qed.

Lemma wk_emit evs : wk (emit evs).
Proof.
  apply keeps_for_each; [apply _|]. intros [] _; apply wk_lift.
Qed.

(** A read followed by a write of the queue it gave. *)
Lemma wk_readQ_write {A} r (f : Queue.Queue → Queue.Queue) (k : Queue.Queue → MS A) :
  (∀ q, Queue.wf q → Queue.wf (f q)) → (∀ q, wk (k q)) →
  wk (q ← readQ r; writeQ r (f q);; k q).
Proof.
  intros Hf Hk [s w] Hwf. unfold readQ, writeQ, mbind, M_bind. simpl.
  destruct (heap s !! r) as [q|] eqn:Hr; [|done]. apply Hk, sm_wf_write; [done|by eexists|].
  apply Hf. by apply Hwf in Hr as [].
Qed.

(** A fresh queue is put in the heap, and then it may be registered. *)
Lemma wk_newQ {A} q (k : nat → MS A) :
  Queue.wf q → (∀ r sw, sm_wf sw → is_Some (heap sw.1 !! r) → sm_wf (k r sw).2) →
  wk (newQ q ≫= k).
Proof.
  intros Hq Hk [s w] [Hqs Hh]. unfold newQ, mbind, M_bind. simpl.
  apply Hk; simpl; [|rewrite lookup_insert_eq; by eexists]. split; simpl in *.
  - intros k' r Hr. apply lookup_insert_is_Some. destruct (decide (nextQ s = r)); [by left|right].
    split; [done|by eapply Hqs].
  - intros r q'. rewrite lookup_insert_Some. intros [[<- <-]|[_ Hr]]; [split; [done|lia]|].
    destruct (Hh _ _ Hr). split; [done|lia].
Qed.

Create HintDb smwf.
#[local] Hint Resolve wk_get wk_stream wk_lift wk_delete wk_readQ wk_emit : smwf.
#[local] Hint Extern 1 (wk (updQ ?r ?f)) => match f with
  | Queue.HandleIn => exact (wk_updQ Queue.OpIn r)
  | Queue.HandleOut ?o => exact (wk_updQ (Queue.OpOut o) r)
  | Queue.Acknowledge ?h => exact (wk_updQ (Queue.OpAck h) r)
  | Queue.CancelTimers => exact (wk_updQ Queue.OpCancelTimers r)
  | Queue.ScheduleR => exact (wk_updQ Queue.OpScheduleR r)
  | Queue.SetStream ?i => exact (wk_updQ (Queue.OpSetStream i) r)
  end : smwf.
#[local] Hint Extern 1 (wk (sm_upd _)) => apply wk_term; done : smwf.

Ltac wk_step :=
  match goal with
  | |- wk (newQ _ ≫= _) => apply wk_newQ
  | |- wk (liftSM (cl_TransferQueue _ _) ≫= _) => fail 1
  | |- wk (_ ≫= _) => apply keeps_bind; [typeclasses eauto| |intros ?]
  | |- wk (match ?x with _ => _ end) => destruct x
  | |- wk (mret _) => apply keeps_ret; typeclasses eauto
  | |- wk (deref _) => apply keeps_deref; typeclasses eauto
  | |- wk (fail _) => apply keeps_fail; typeclasses eauto
  | |- wk (crash_with _) => apply keeps_crash; typeclasses eauto
  | |- wk (try _) => apply keeps_try
  | |- wk (ignore _) => apply keeps_ignore; [typeclasses eauto|]
  | |- keeps _ ?m => change (wk m)
  | |- wk _ => solve [auto with smwf]
  end.
Ltac wkw := repeat wk_step.

Lemma sendFailedReply_wk r t stm : wk (sendFailedReply r t stm).
Proof. unfold sendFailedReply. wkw. Qed.
Lemma sendPending_wk r : wk (sendPending r).
Proof. unfold sendPending. wkw. Qed.
Lemma genNonce_wk n : wk (genNonce n).
Proof. induction n; simpl; wkw. Qed.
Lemma queueOf_wk stm : wk (queueOf stm).
Proof. unfold queueOf, qm_Get. wkw. Qed.
#[local] Hint Resolve sendFailedReply_wk sendPending_wk genNonce_wk queueOf_wk : smwf.

Lemma requestAck_wk r : wk (requestAck r).
Proof.
  apply (wk_readQ_write r (fun q => (Queue.RequestAck q).1)); [|intros; apply wk_emit].
  intros q. apply (Queue.wf_apply Queue.OpRequestAck).
Qed.
Lemma fireQ_wk r tm : wk (fireQ r tm).
Proof.
  apply (wk_readQ_write r (fun q => (Queue.fire tm q).1)); [|intros; apply wk_emit].
  intros q. apply (Queue.wf_apply (Queue.OpFire tm)).
Qed.
#[local] Hint Resolve requestAck_wk fireQ_wk : smwf.

Lemma new_wf s nonce a b : Queue.wf (Queue.New s nonce [] 0 0 a b : queue).
Proof. exists 0%Z. split; [by vm_compute|]. split; [done|]. split; [done|by vm_compute]. Qed.

(** Registering a live queue. *)
Lemma wk_set {A} k r (m : MS A) sw :
  wk m → sm_wf sw → is_Some (heap sw.1 !! r) → sm_wf ((qm_Set k r;; m) sw).2.
Proof. destruct sw as [s w]. intros Hm Hwf Hr. apply Hm. by apply sm_wf_set. Qed.

Lemma handleEnable_wk stm : wk (handleEnable stm).
Proof.
  unfold handleEnable. wkw; [apply new_wf|].
  intros r [s w] Hwf Hr. cbv beta. rewrite (bind_Ok _ _ _ (stm_JID stm w) (s, w)) by done.
  destruct (stm_JID stm w) as [j|]; [|done]. apply wk_set; [wkw|done|done].
Qed.

Lemma finishResume_wk stm h prev jd nonce res sq :
  wk (finishResume stm h prev jd nonce res sq).
Proof.
  unfold finishResume. apply keeps_bind; [apply _|apply wk_stream|intros j0].
  apply keeps_bind; [apply _|apply keeps_deref, _|intros j].
  intros [s w] Hwf. unfold mbind at 1, M_bind at 1, readQ at 1, mbind at 1, M_bind at 1. simpl.
  destruct (heap s !! sq) as [q|] eqn:Hq; [|done]. simpl.
  match goal with |- sm_wf ((if ?b then _ else _) _).2 => destruct b end.
  { by apply sendFailedReply_wk. }
  apply wk_set; [wkw|done|by eexists].
Qed.

#[local] Hint Resolve handleEnable_wk finishResume_wk : smwf.

Section sm_env_ok.
Context `{!SMEnvOk}.

Lemma handleResume_wk stm h prev : wk (handleResume stm h prev).
Proof.
  unfold handleResume, qm_Get. wkw; [by intros [s w]|apply sm_DisconnectWait_ok|].
  intros [s w] Hwf. unfold mbind, M_bind, liftSM.
  destruct (cl_TransferQueue _ _ w) as [[[[[n els] i] o]|e|c] w'] eqn:Ht; [|done..].
  apply (wk_newQ _ (fun sq => finishResume stm h prev _ _ _ sq)); [| |exact Hwf].
  - by eapply sm_Transfer_ok.
  - intros r0 sw Hs _. by apply finishResume_wk.
Qed.

Lemma onElementRecv_wk stm e : wk (onElementRecv stm e).
Proof.
  unfold onElementRecv, processCmd, handleA, handleR. wkw. apply handleResume_wk.
Qed.
Lemma onElementSent_wk stm o : wk (onElementSent stm o).
Proof. unfold onElementSent. wkw. Qed.
Lemma onDisconnect_wk stm i p err : wk (onDisconnect stm i p err).
Proof. unfold onDisconnect. wkw. Qed.
Lemma onTerminate_wk stm i : wk (onTerminate stm i).
Proof. unfold onTerminate, qm_Get. wkw. Qed.
Lemma fireHibernation_wk tm : wk (fireHibernation tm).
Proof. unfold fireHibernation. wkw. Qed.


End sm_env_ok.

(** ** Identifiers *)

Lemma SMID_roundtrip jd nonce :
  0%Z ∉ bytes_of_string (JIDString jd) → Forall (fun b => 1 <= b <= 255)%Z nonce →
  NewWithString (JIDString jd) false = Some jd →
  decodeSMID (encodeSMID jd nonce) = Ok (jd, nonce).
Proof.
  intros Hnul Hn Hp. unfold decodeSMID, encodeSMID. rewrite base64_roundtrip.
  - rewrite split_two; [by rewrite string_bytes_roundtrip, Hp|done|].
    intros H0in. rewrite Forall_forall in Hn. specialize (Hn _ H0in). lia.
  - apply Forall_app. split; [apply bytes_of_string_ok|]. constructor; [unfold byte_ok; lia|].
    eapply Forall_impl; [exact Hn|]. unfold byte_ok. simpl. lia.
Qed.

Lemma genNonce_range n s w nonce s' w' :
  (∀ w z w', rand_Intn 255 w = (Ok z, w') → 0 <= z < 255)%Z →
  genNonce n (s, w) = (Ok nonce, (s', w')) →
  Forall (fun b => 1 <= b <= 255)%Z nonce ∧ s' = s ∧ length nonce = n.
Proof.
  intros Hr. revert w nonce w'. induction n as [|n IH]; intros w nonce w'; simpl.
  { intros [= <- <- <-]. split; [constructor|done]. }
  unfold mbind, M_bind, liftSM. specialize (Hr w).
  destruct (rand_Intn 255 w) as [[z| |] w1]; [|done..]. specialize (Hr z w1 eq_refl).
  specialize (IH w1). destruct (genNonce n (s, w1)) as [[rest| |] [s2 w2]]; [|done..].
  intros [= <- <- <-]. destruct (IH rest w2 eq_refl) as (IHr & -> & <-).
  split; [|done]. constructor; [|done]. unfold uint8. rewrite Z.mod_small; lia.
Qed.

(** Enabling stream management on a bound stream registers a fresh, empty
    queue of that stream under its full JID, and the identifier sent to the
    client decodes to exactly that JID and the nonce of that queue. *)
Theorem enable_issues_valid_id (stm : Z) (s s' : smState) (w w' : W) (j : JID)
    (Hbound : stm_IsBinded stm w = true)
    (Hoff : Info.Bool enabledInfoKey (stm_Info stm w) = false)
    (Hjid : ∀ w, stm_JID stm w = Some j)
    (Hrand : ∀ w z w', rand_Intn 255 w = (Ok z, w') → (0 <= z < 255)%Z)
    (Hnul : 0%Z ∉ bytes_of_string (JIDString j))
    (Hparse : NewWithString (JIDString j) false = Some j)
    (Hok : handleEnable stm (s, w) = (Ok tt, (s', w'))) :
  ∃ nonce r w1,
    queues s' !! queueKey j = Some r ∧
    heap s' !! r = Some (Queue.New stm nonce [] 0 0 (RequestAckInterval cfg) (WaitForAckTimeout cfg)) ∧
    length nonce = nonceLength ∧
    decodeSMID (encodeSMID j nonce) = Ok (j, nonce) ∧
    (stm_SendElement stm (Build "enabled" [(Namespace, smNamespace); ("id", encodeSMID j nonce);
       ("resume", "true")] [] "") w1).2 = w'.
Proof.
  unfold handleEnable in Hok. remember nonceLength as n eqn:Hn0 in Hok. inv_bind Hok as ? ? [= <- <-]. simpl in Hok. rewrite Hbound in Hok.
  simpl in Hok. inv_bind Hok as ? ? [= <- <-]. simpl in Hok. rewrite Hoff in Hok.
  inv_bind Hok as [] [? w1] Hset. unfold liftSM in Hset.
  destruct (stm_SetInfoBool stm enabledInfoKey true w) as [r1 ?]. injection Hset as -> <- ->.
  inv_bind Hok as nonce [s2 w2] Hg.
  destruct (genNonce_range _ _ _ _ _ _ Hrand Hg) as (Hn & -> & Hlen). rewrite Hn0 in Hlen.
  inv_bind Hok as ? ? [= <- <-]. inv_bind Hok as ? ? [= <- <-]. simpl in Hok.
  rewrite Hjid in Hok. inv_bind Hok as ? ? [= <- <-]. inv_bind Hok as [] ? [= <-].
  unfold liftSM in Hok.
  destruct (stm_SendElement stm _ w2) as [r3 w3] eqn:He. injection Hok as -> <- <-.
  eexists nonce, (nextQ s), w2. simpl. rewrite !lookup_insert_eq.
  split; [done|]. split; [done|]. split; [done|]. split; [by apply SMID_roundtrip|].
  by rewrite He.
Qed.

(** ** Resumption *)

(** The stanzas delivered to streams, as an observation of the world: only
    [SendElement] of a stanza adds to it. *)
Class SMLog := {
  delivered : W → list (Z * obj);
  log_Stanza : ∀ to o w,
    (stm_SendStanza to o w).1 = Ok tt ∧
    delivered (stm_SendStanza to o w).2 = delivered w ++ [(to, o)];
  log_Element : ∀ to e w, delivered (stm_SendElement to e w).2 = delivered w;
  log_Resume : ∀ to j p i w, delivered (stm_Resume to j p i w).2 = delivered w;
}.

Lemma emit_stanzas `{!SMLog} to l s w :
  ∃ w', emit (map (Queue.SendStanza to) l) (s, w) = (Ok tt, (s, w')) ∧
        delivered w' = delivered w ++ map (pair to) l.
Proof.
  revert w. induction l as [|o l IH]; intros w.
  { exists w. simpl. by rewrite app_nil_r. }
  destruct (log_Stanza to o w) as [Hok Hlog].
  destruct (IH (stm_SendStanza to o w).2) as (w' & He & Hd). exists w'. split.
  - unfold emit. simpl. unfold emit in He.
    rewrite (bind_Ok _ _ _ tt (s, (stm_SendStanza to o w).2)); [done|].
    simpl. unfold liftSM. destruct (stm_SendStanza to o w) as [r w1]. simpl in *. by rewrite Hok.
  - rewrite Hd, Hlog. simpl. by rewrite <-app_assoc.
Qed.

(** The end of a resumption, once the queue belongs to the new stream. *)
Lemma finishResume_delivers `{!SMLog} (stm h : Z) (prev : string) (jd j : JID) (nonce : list Z)
    (res : ResourceDesc) (sq : nat) (q : queue) (s s' : smState) (w w' : W)
    (Hq : heap s !! sq = Some q) (Hstm : Queue.stm q = stm)
    (Hjid : stm_JID stm w = Some j) (Hmatch : MatchesBare jd j = true)
    (Hnonce : Queue.nc q = nonce)
    (Hok : finishResume stm h prev jd nonce res sq (s, w) = (Ok tt, (s', w'))) :
  let unacked := Queue.elements (Queue.Acknowledge h q) in
  delivered w' = delivered w ++ map (pair stm) (Queue.stanza <$> unacked) ∧
  queues s' = <[queueKey jd := sq]> (queues s) ∧
  ∃ q', heap s' !! sq = Some q' ∧ Queue.elements q' = unacked ∧ Queue.stm q' = stm.
Proof.
  simpl. unfold finishResume in Hok. inv_bind Hok as ? ? [= <- <-]. simpl in Hok. rewrite Hjid in Hok.
  inv_bind Hok as ? ? [= <- <-]. inv_bind Hok as q0 ? Hr.
  unfold readQ, mbind, M_bind in Hr. simpl in Hr. rewrite Hq in Hr. injection Hr as <- <-.
  rewrite Hmatch in Hok. unfold Queue.Nonce in Hok. rewrite bool_decide_eq_true_2 in Hok by done.
  simpl in Hok. inv_bind Hok as [] ? [= <-]. inv_bind Hok as [] [s1 w1] Hres. unfold liftSM in Hres.
  pose proof (log_Resume stm (ResJID res) (ResPresence res) (ResInfo res) w) as Hl1.
  destruct (stm_Resume stm _ _ _ w) as [r1 ?]. injection Hres as -> <- ->. simpl in Hl1.
  inv_bind Hok as q1 ? Hr. unfold readQ, mbind, M_bind in Hr. simpl in Hr. rewrite Hq in Hr.
  injection Hr as <- <-. inv_bind Hok as [] [s2 w2] Hsend. unfold liftSM in Hsend.
  set (el := Build "resumed" _ _ _) in Hsend. pose proof (log_Element stm el w1) as Hl2.
  destruct (stm_SendElement stm el w1) as [r2 ?]. injection Hsend as -> <- ->. simpl in Hl2.
  inv_bind Hok as [] ? Hu. unfold updQ, readQ, writeQ, mbind, M_bind in Hu. simpl in Hu.
  rewrite Hq in Hu. injection Hu as <-. simpl in Hok.
  inv_bind Hok as [] ? Hp. unfold sendPending, readQ, mbind at 1 2, M_bind at 1 2 in Hp. simpl in Hp.
  rewrite lookup_insert_eq in Hp. simpl in Hp.
  destruct (emit_stanzas stm (Queue.stanza <$> Queue.elements (Queue.Acknowledge h q))
    (set_heap (<[sq:=Queue.Acknowledge h q]> (heap s)) (set_queues (<[queueKey jd:=sq]> (queues s)) s)) w2)
    as (w3 & He & Hd).
  assert (Queue.stm (Queue.Acknowledge h q) = stm) as Hst.
  { unfold Queue.Acknowledge. by case_match; simpl; rewrite Queue.stm_stop_discTm. }
  assert (Queue.SendPending (Queue.Acknowledge h q) = map (Queue.SendStanza stm)
    (Queue.stanza <$> Queue.elements (Queue.Acknowledge h q))) as Hsp.
  { unfold Queue.SendPending. rewrite Hst. by rewrite <-list_fmap_compose. }
  rewrite Hsp, He in Hp. injection Hp as <-.
  unfold updQ, readQ, writeQ, mbind, M_bind in Hok. simpl in Hok. rewrite lookup_insert_eq in Hok.
  simpl in Hok. injection Hok as <- <-. simpl.
  split; [by rewrite Hd, Hl2, Hl1|]. split; [done|]. rewrite lookup_insert_eq. by eexists.
Qed.


(** What [handleResume] does once it has found a queue of this instance. *)
Lemma handleResume_local stm h prev jd nonce res sq q s w w1 :
  stm_IsAuthenticated stm w = true → decodeSMID prev = Ok (jd, nonce) →
  rm_GetResource (Node jd) (Resource jd) w = (Ok (Some res), w1) →
  InstanceID res = sm_instance_ID → queues s !! queueKey jd = Some sq → heap s !! sq = Some q →
  handleResume stm h prev (s, w) =
    ((if (Queue.GetStream q =? stm)%Z then crash_with Deadlock
      else stm_DisconnectWait (Queue.GetStream q) Conflict);;
     updQ sq (Queue.SetStream stm);;
     finishResume stm h prev jd nonce res sq) (s, w1).
Proof.
  intros Ha Hd Hr Hi Hk Hq. unfold handleResume.
  rewrite (bind_Ok _ _ _ true (s, w)) by (unfold ofStream, gets; simpl; by rewrite Ha). simpl.
  rewrite (bind_Ok _ _ _ (jd, nonce) (s, w)) by (by rewrite Hd).
  rewrite (bind_Ok _ _ _ (Some res) (s, w1)) by (unfold liftSM; by rewrite Hr).
  rewrite (proj2 (String.eqb_eq _ _) Hi).
  rewrite (bind_Ok _ _ _ (Some sq) (s, w1)) by (unfold qm_Get, sm_get, gets; simpl; by rewrite Hk).
  rewrite (bind_Ok _ _ _ q (s, w1)); [done|].
  unfold readQ, mbind, M_bind. simpl. by rewrite Hq.
Qed.

(** What it does when the resource is bound on another instance. *)
Lemma handleResume_remote stm h prev jd nonce res s w w1 :
  stm_IsAuthenticated stm w = true → decodeSMID prev = Ok (jd, nonce) →
  rm_GetResource (Node jd) (Resource jd) w = (Ok (Some res), w1) →
  InstanceID res ≠ sm_instance_ID →
  handleResume stm h prev (s, w) =
    (liftSM (cl_GetConnection (InstanceID res));;
     '(nonce', els, inH, outH) ← liftSM (cl_TransferQueue (InstanceID res) (queueKey jd));
     sq ← newQ (Queue.New stm nonce' els inH outH (RequestAckInterval cfg) (WaitForAckTimeout cfg));
     finishResume stm h prev jd nonce res sq) (s, w1).
Proof.
  intros Ha Hd Hr Hi. unfold handleResume.
  rewrite (bind_Ok _ _ _ true (s, w)) by (unfold ofStream, gets; simpl; by rewrite Ha). simpl.
  rewrite (bind_Ok _ _ _ (jd, nonce) (s, w)) by (by rewrite Hd).
  rewrite (bind_Ok _ _ _ (Some res) (s, w1)) by (unfold liftSM; by rewrite Hr).
  by rewrite (proj2 (String.eqb_neq _ _) Hi).
Qed.

(** A resumption that is refused for a wrong nonce has already disconnected
    the stream that owned the queue and made the refused stream the queue's
    stream: the identifier is checked after these effects. *)
Theorem resume_acts_before_check (stm h : Z) (prev : string) (jd j : JID) (nonce : list Z)
    (res : ResourceDesc) (sq : nat) (q q2 : queue) (s s2 : smState) (w w1 w2 : W)
    (Hauth : stm_IsAuthenticated stm w = true) (Hid : decodeSMID prev = Ok (jd, nonce))
    (Hres : rm_GetResource (Node jd) (Resource jd) w = (Ok (Some res), w1))
    (Hlocal : InstanceID res = sm_instance_ID)
    (Hkey : queues s !! queueKey jd = Some sq) (Hq : heap s !! sq = Some q)
    (Hother : Queue.stm q ≠ stm)
    (Hdisc : stm_DisconnectWait (Queue.stm q) Conflict (s, w1) = (Ok tt, (s2, w2)))
    (Hq2 : heap s2 !! sq = Some q2) (Hjid : stm_JID stm w2 = Some j)
    (Hwrong : Queue.nc q2 ≠ nonce) :
  let s3 := set_heap (<[sq := Queue.SetStream stm q2]> (heap s2)) s2 in
  handleResume stm h prev (s, w) = sendFailedReply itemNotFound "" stm (s3, w2) ∧
  ∃ q3, heap (handleResume stm h prev (s, w)).2.1 !! sq = Some q3 ∧ Queue.stm q3 = stm ∧
        queues (handleResume stm h prev (s, w)).2.1 = queues s2.
Proof.
  intros s3. assert (handleResume stm h prev (s, w) = sendFailedReply itemNotFound "" stm (s3, w2)) as Heq.
  { rewrite (handleResume_local stm h prev jd nonce res sq q s w w1) by done.
    unfold Queue.GetStream. rewrite (proj2 (Z.eqb_neq _ _) Hother).
    rewrite (bind_Ok _ _ _ tt (s2, w2)) by done.
    rewrite (bind_Ok _ _ _ tt (s3, w2)) by
      (unfold updQ, readQ, writeQ, mbind, M_bind; simpl; by rewrite Hq2).
    unfold finishResume. rewrite (bind_Ok _ _ _ (Some j) (s3, w2)) by
      (unfold ofStream, gets; simpl; by rewrite Hjid).
    rewrite (bind_Ok _ _ _ j (s3, w2)) by done.
    rewrite (bind_Ok _ _ _ (Queue.SetStream stm q2) (s3, w2)) by
      (unfold readQ, mbind, M_bind; simpl; by rewrite lookup_insert_eq).
    unfold Queue.Nonce. simpl. rewrite bool_decide_eq_false_2 by done. simpl. by rewrite orb_true_r. }
  split; [done|]. rewrite Heq. unfold sendFailedReply, ignore, try, liftSM, mbind, M_bind. simpl.
  destruct (stm_SendElement stm _ w2) as [r w4]. destruct r; simpl;
    (eexists; split; [by rewrite lookup_insert_eq|done]).
Qed.

(** A stream that asks to resume itself waits for its own disconnection,
    which can only run after the handler returns: the stream blocks for good,
    whether the nonce is right or not. *)
Theorem resume_self_deadlocks (stm h : Z) (prev : string) (jd : JID) (nonce : list Z)
    (res : ResourceDesc) (sq : nat) (q : queue) (s : smState) (w w1 : W)
    (Hauth : stm_IsAuthenticated stm w = true) (Hid : decodeSMID prev = Ok (jd, nonce))
    (Hres : rm_GetResource (Node jd) (Resource jd) w = (Ok (Some res), w1))
    (Hlocal : InstanceID res = sm_instance_ID)
    (Hkey : queues s !! queueKey jd = Some sq) (Hq : heap s !! sq = Some q)
    (Hself : Queue.stm q = stm) :
  (handleResume stm h prev (s, w)).1 = Crash Deadlock.
Proof.
  rewrite (handleResume_local stm h prev jd nonce res sq q s w w1) by done.
  unfold Queue.GetStream. by rewrite Hself, Z.eqb_refl.
Qed.

End methods.
End sm.

(** ** Witnesses

    Two streams of one user; the world is the log of the stanzas delivered. *)
Module SMDemo.
Import TreeLib.

Definition romeo : JID := MkJid "romeo" "jackal.im" "balcony".
Definition key : string := "romeo@jackal.im/balcony".
Definition desc : ResourceDesc := NewResourceDesc "i1" romeo None ∅.

#[export] Instance env : SMEnv (list (Z * obj)) := {|
  stm_JID := fun _ _ => Some romeo; stm_IsBinded := fun _ _ => true;
  stm_IsAuthenticated := fun _ _ => true; stm_Info := fun _ _ => ∅;
  stm_SetInfoBool := fun _ _ _ => mret tt; stm_SendElement := fun _ _ => mret tt;
  stm_SendStanza := fun to o => modify (fun l => l ++ [(to, o)]);
  stm_Disconnect := fun _ _ => mret tt;
  stm_DisconnectWait := fun _ _ => sm_upd (fun s => set_queues (delete key (queues s)) s);
  stm_Resume := fun _ _ _ _ => mret tt;
  rm_GetResource := fun _ _ => mret (Some desc); cl_GetConnection := fun _ => mret tt;
  cl_TransferQueue := fun _ _ => fail (ErrText "unreachable");
  rand_Intn := fun _ => mret 6%Z; sm_instance_ID := "i1" |}.

#[export] Instance env_log : SMLog.
Proof. refine {| delivered := fun w => w |}; done. Defined.

Lemma sm_env_ok : SMEnvOk.
Proof.
  split; [|done]. intros ? ? [s w]. apply (wk_delete key (s, w)).
Qed.

Definition conf : Config := MkSMConfig 60 30 250.
Definition empty : smState := MkSM ∅ ∅ 0 ∅ ∅ 0.
Definition msg (n : nat) : obj := MkObj n (TNode "message" [] [] "" (Some KMessage)).

(** Stream 1 enables stream management and is sent three messages. *)
Definition busy : smState :=
  MkSM {[ 0 := Queue.HandleOut (msg 3) (Queue.HandleOut (msg 2) (Queue.HandleOut (msg 1)
    (Queue.New 1 [7%Z] [] 0 0 60 30))) ]} {[ key := 0 ]} 1 ∅ ∅ 0.

Lemma busy_wf : sm_wf (busy, [] : list (Z * obj)).
Proof.
  split; simpl.
  - intros k r Hr. apply lookup_singleton_Some in Hr as [_ <-]. rewrite lookup_singleton_eq. by eexists.
  - intros r q Hr. apply lookup_singleton_Some in Hr as [<- <-]. split; [|lia].
    repeat apply Queue.wf_HandleOut. exists 0%Z.
    split; [by vm_compute|]. split; [done|]. split; [done|by vm_compute].
Qed.


Lemma enable_issues_valid_id_witness : ∃ nonce,
  length nonce = nonceLength ∧ decodeSMID (encodeSMID romeo nonce) = Ok (romeo, nonce).
Proof.
  destruct (enable_issues_valid_id conf 1 empty (handleEnable conf 1 (empty, [])).2.1 []
    (handleEnable conf 1 (empty, [])).2.2 romeo) as (nonce & _ & _ & _ & _ & Hl & Hd & _);
    [reflexivity|reflexivity|reflexivity| | |reflexivity
    |apply fst_Ok_pair; vm_compute; reflexivity|].
  - intros w z w' [= <- _]. lia.
  - apply (bool_decide_unpack _). vm_compute. reflexivity.
  - exists nonce. by split.
Defined.


Definition forged : string := Eval vm_compute in encodeSMID romeo [9%Z].

Lemma resume_acts_before_check_witness :
  ∃ q3, heap (handleResume conf 2 0 forged (busy, [])).2.1 !! 0 = Some q3 ∧ Queue.stm q3 = 2%Z ∧
    queues (handleResume conf 2 0 forged (busy, [])).2.1 = delete key (queues busy).
Proof.
  destruct (resume_acts_before_check conf 2 0 forged romeo romeo [9%Z] desc 0
    (Queue.HandleOut (msg 3) (Queue.HandleOut (msg 2) (Queue.HandleOut (msg 1)
      (Queue.New 1 [7%Z] [] 0 0 60 30))))
    (Queue.HandleOut (msg 3) (Queue.HandleOut (msg 2) (Queue.HandleOut (msg 1)
      (Queue.New 1 [7%Z] [] 0 0 60 30))))
    busy (set_queues (delete key (queues busy)) busy) [] [] []) as [_ Hx]; try reflexivity;
    [discriminate|discriminate|exact Hx].
Defined.

Lemma resume_self_deadlocks_witness :
  (handleResume conf 1 0 forged (busy, [])).1 = Crash Deadlock.
Proof.
  apply (resume_self_deadlocks conf 1 0 forged romeo [9%Z] desc 0
    (Queue.HandleOut (msg 3) (Queue.HandleOut (msg 2) (Queue.HandleOut (msg 1)
      (Queue.New 1 [7%Z] [] 0 0 60 30)))) busy [] []); reflexivity.
Defined.

End SMDemo.
