(* ===== verification/Roster.v ===== *)
(** * The roster module (pkg/module/roster/roster.go, pkg/model/roster/subscription.go)

    Roster items, their XML form, the presence-subscription handlers and the
    roster IQs.  The repository, the routers, the resource manager, the hosts
    and the hooks are the fields of [RosterEnv], computations on a world [W]. *)

From stdpp Require Import base list strings gmap.
From Stdlib Require Import ZArith Lia Ascii.
From S2P Require Import Prelude GoLib Stravaganza C2SModel.

(** Subscriptions (subscription.go). *)
Definition SubNone : string := "none".
Definition SubFrom : string := "from".
Definition SubTo : string := "to".
Definition SubBoth : string := "both".
Definition SubRemove : string := "remove".

Definition rosterRequestedCtxKey : string := "ros:requested".
Definition rosterDidGoAvailableCtxKey : string := "ros:available".
Definition rosterNamespace : string := "jabber:iq:roster".

Definition RosterRequested : string := "roster.requested".
Definition RosterItemUpdated : string := "roster.item.updated".

(** [rostermodel.Item] *)
Record Item := MkItem {
  Username : string;
  Jid : string;
  ItemName : string;
  Subscription : string;
  Groups : list string;
  Ask : bool;
}.

#[global] Instance Item_eq_dec : EqDecision Item.
Proof. solve_decision. Defined.

Definition set_sub (v : string) (i : Item) : Item :=
  MkItem (Username i) (Jid i) (ItemName i) v (Groups i) (Ask i).
Definition set_ask (v : bool) (i : Item) : Item :=
  MkItem (Username i) (Jid i) (ItemName i) (Subscription i) (Groups i) v.

(** [parseVer] *)
Definition parseVer (ver : string) : Z :=
  match ver with
  | String c rest => if Ascii.eqb c "v" then (Atoi rest).1 else 0
  | EmptyString => 0
  end.

Section roster.
Context `{XmlLib}.

(** ** XML form of an item *)

(** The groups of an item; a group element must not have attributes, and empty
    ones are skipped. *)
Fixpoint decode_groups (gs : list Element) : outcome (list string) :=
  match gs with
  | [] => Ok []
  | g :: gs' =>
    if (0 <? AttributeCount g)%nat then
      Err (ErrText "roster: group element must not contain any attribute")
    else
      rest ← decode_groups gs';
      Ok (if String.eqb (Text g) "" then rest else Text g :: rest)
  end.

(** [decodeRosterItem] *)
Definition decodeRosterItem (elem : Element) : outcome Item :=
  if negb (String.eqb (Name elem) "item") then
    Err (ErrText ("roster: invalid item element name: " +:+ Name elem))
  else
    let jidStr := Attribute elem "jid" in
    if String.eqb jidStr "" then Err (ErrText "roster: item 'jid' attribute is required")
    else
      match NewWithString jidStr false with
      | None => Err (ErrText "jid")
      | Some j =>
        let subscription := Attribute elem "subscription" in
        let ask := Attribute elem "ask" in
        if negb (String.eqb subscription "")
           && negb (bool_decide (subscription ∈ [SubBoth; SubFrom; SubTo; SubNone; SubRemove])) then
          Err (ErrText ("roster: unrecognized 'subscription' enum type: " +:+ subscription))
        else if negb (String.eqb ask "") && negb (String.eqb ask "subscribe") then
          Err (ErrText ("roster: unrecognized 'ask' enum type: " +:+ subscription))
        else
          groups ← decode_groups (Children elem "group");
          Ok (MkItem "" (JIDString j) (Attribute elem "name") subscription groups
                (negb (String.eqb ask "")))
      end.

(** [encodeRosterItem] *)
Definition encodeRosterItem (ri : Item) : Element :=
  Build "item" [("name", ItemName ri); ("jid", Jid ri); ("subscription", Subscription ri)]
    (map (fun g => Build "group" [] [] g) (Groups ri)) "".

(** ** What the module calls *)
Class RosterEnv (W : Type) := {
  rep_FetchRosterVersion : string → M W Z;
  rep_FetchRosterItem : string → string → M W (option Item);
  rep_FetchRosterItems : string → M W (list Item);
  rep_UpsertRosterNotification : string → string → Element → M W unit;
  rep_FetchRosterNotification : string → string → M W (option Element);
  rep_FetchRosterNotifications : string → M W (list Element);
  rep_DeleteRosterNotification : string → string → M W unit;
  rep_InTransaction : M W unit → M W unit;
  tx_TouchRosterVersion : string → M W Z;
  tx_UpsertRosterItem : Item → M W unit;
  tx_DeleteRosterItem : string → string → M W unit;
  tx_DeleteRosterNotifications : string → M W unit;
  tx_DeleteRosterItems : string → M W unit;
  ro_Route : Element → M W unit;
  ro_GetResources : string → M W (list ResourceDesc);
  ro_LocalStream : string → string → M W Z;
  ro_StreamInfo : Z → W → Info.t;
  ro_SetInfoBool : Z → string → bool → M W unit;
  ro_IsLocalHost : string → bool;
  (** the handlers of the roster hooks get the user, the contact and the
      subscription *)
  ro_runHook : string → string → string → string → M W unit;
  ro_uuid : M W string;
}.

Section methods.
Context {W : Type} `{!RosterEnv W}.

(** [_, _ = r.router.Route(ctx, p)]; a stanza that could not be built is nil. *)
Definition routeTo (p : option Element) : M W unit := e ← deref p; ignore (ro_Route e).

(** [xmpputil.MakePresence], [MakeResultIQ], [MakeErrorStanza] *)
Definition MakePresence (from to : JID) (typ : string) (children : list Element) : option Element :=
  BuildStanza KPresence
    [(AttrFrom, JIDString from); (AttrTo, JIDString to); (AttrType, typ)] children.
Definition MakeResultIQ (iq : Element) (child : option Element) : option Element :=
  ResultIQ iq (option_list child).
Definition MakeErrorStanza (e : Element) (r : stanza_reason) : option Element :=
  Some (StanzaError r e).

(** ** Storage helpers *)

(** [pushItem] *)
Definition pushItem (ri : Item) (ver : Z) : M W unit :=
  rss ← ro_GetResources (Username ri);
  for_each rss (fun rs =>
    if negb (Info.Bool rosterRequestedCtxKey (ResInfo rs)) then mret tt
    else
      uid ← ro_uuid;
      routeTo (BuildStanza KIQ
        [(AttrID, uid); (AttrType, SetType); (AttrFrom, JIDString (ToBareJID (ResJID rs)));
         (AttrTo, JIDString (ResJID rs))]
        [Build "query" [(Namespace, rosterNamespace); ("ver", Itoa ver)] [encodeRosterItem ri] ""])).

(** [upsertItem] *)
Definition upsertItem (ri : Item) : M W unit :=
  rep_InTransaction (
    ver ← tx_TouchRosterVersion (Username ri);
    tx_UpsertRosterItem ri;;
    pushItem ri ver);;
  ro_runHook RosterItemUpdated (Username ri) (Jid ri) (Subscription ri).

(** [deleteItem] *)
Definition deleteItem (ri : Item) : M W unit :=
  rep_InTransaction (
    ver ← tx_TouchRosterVersion (Username ri);
    tx_DeleteRosterItem (Username ri) (Jid ri);;
    pushItem ri ver);;
  ro_runHook RosterItemUpdated (Username ri) (Jid ri) SubRemove.

(** [upsertNotification] *)
Definition upsertNotification (contact : string) (userJID : JID) (p : Element) : M W unit :=
  rep_UpsertRosterNotification contact (JIDString userJID) p.

(** [deleteNotification] *)
Definition deleteNotification (contact : string) (userJID : JID) : M W bool :=
  rn ← rep_FetchRosterNotification contact (JIDString userJID);
  match rn with
  | None => mret false
  | Some _ => rep_DeleteRosterNotification contact (JIDString userJID);; mret true
  end.

(** [routePresencesFrom] *)
Definition routePresencesFrom (username : string) (toJID : JID) (typ : string) : M W unit :=
  rss ← ro_GetResources username;
  for_each rss (fun res =>
    routeTo (MakePresence (ResJID res) toJID typ
      (match ResPresence res with
       | Some pr => if IsAvailable pr then AllChildren pr else []
       | None => []
       end))).

(** ** Subscriptions *)

(** [processSubscribe] *)
Definition processSubscribe (presence : Element) : M W unit :=
  let userJID := ToBareJID (FromJID presence) in
  let contactJID := ToBareJID (ToJID presence) in
  go ← (if ro_IsLocalHost (Domain userJID) then
    usrRi ← rep_FetchRosterItem (Node userJID) (JIDString contactJID);
    match usrRi with
    | Some usrRi =>
      if bool_decide (Subscription usrRi ∈ [SubTo; SubBoth]) then mret false
      else if Ask usrRi then mret false
      else upsertItem (set_ask true usrRi);; mret true
    | None =>
      upsertItem (MkItem (Node userJID) (JIDString contactJID) "" SubNone [] true);; mret true
    end
  else mret true);
  if negb go then mret tt
  else
    let p := MakePresence userJID contactJID SubscribeType (AllChildren presence) in
    (if ro_IsLocalHost (Domain contactJID) then
       e ← deref p; upsertNotification (Node contactJID) userJID e
     else mret tt);;
    routeTo p.

(** [processSubscribed] *)
Definition processSubscribed (presence : Element) : M W unit :=
  let userJID := ToBareJID (ToJID presence) in
  let contactJID := ToBareJID (FromJID presence) in
  (if ro_IsLocalHost (Domain contactJID) then
     _ ← deleteNotification (Node contactJID) userJID;
     cntRi ← rep_FetchRosterItem (Node contactJID) (JIDString userJID);
     upsertItem (match cntRi with
       | Some cntRi =>
         if decide (Subscription cntRi = SubTo) then set_sub SubBoth cntRi
         else if decide (Subscription cntRi = SubNone) then set_sub SubFrom cntRi
         else cntRi
       | None => MkItem (Node contactJID) (JIDString userJID) "" SubFrom [] false
       end)
   else mret tt);;
  let p := MakePresence contactJID userJID SubscribedType (AllChildren presence) in
  go ← (if ro_IsLocalHost (Domain userJID) then
    usrRi ← rep_FetchRosterItem (Node userJID) (JIDString contactJID);
    match usrRi with
    | Some usrRi =>
      if decide (Subscription usrRi = SubFrom) then
        upsertItem (set_ask false (set_sub SubBoth usrRi));; mret true
      else if decide (Subscription usrRi = SubNone) then
        upsertItem (set_ask false (set_sub SubTo usrRi));; mret true
      else mret false
    | None => mret true
    end
  else mret true);
  if negb go then mret tt
  else
    routeTo p;;
    routePresencesFrom (Node contactJID) userJID AvailableType.

(** [processUnsubscribe] *)
Definition processUnsubscribe (presence : Element) : M W unit :=
  let userJID := ToBareJID (FromJID presence) in
  let contactJID := ToBareJID (ToJID presence) in
  usrSub ← (if ro_IsLocalHost (Domain userJID) then
    usrRi ← rep_FetchRosterItem (Node userJID) (JIDString contactJID);
    match usrRi with
    | Some usrRi =>
      upsertItem (set_sub (if decide (Subscription usrRi = SubBoth) then SubFrom else SubNone) usrRi);;
      mret (Subscription usrRi)
    | None => mret SubNone
    end
  else mret "");
  let p := MakePresence userJID contactJID UnsubscribeType (AllChildren presence) in
  (if ro_IsLocalHost (Domain contactJID) then
     cntRi ← rep_FetchRosterItem (Node contactJID) (JIDString userJID);
     match cntRi with
     | Some cntRi =>
       upsertItem (set_sub (if decide (Subscription cntRi = SubBoth) then SubTo else SubNone) cntRi)
     | None => mret tt
     end
   else mret tt);;
  routeTo p;;
  if bool_decide (usrSub ∈ [SubTo; SubBoth]) then
    routePresencesFrom (Node contactJID) userJID UnavailableType
  else mret tt.

(** [processUnsubscribed] *)
Definition processUnsubscribed (presence : Element) : M W unit :=
  let userJID := ToBareJID (ToJID presence) in
  let contactJID := ToBareJID (FromJID presence) in
  cntSub ← (if ro_IsLocalHost (Domain contactJID) then
    deleted ← deleteNotification (Node contactJID) userJID;
    if deleted : bool then mret ""
    else
      cntRi ← rep_FetchRosterItem (Node contactJID) (JIDString userJID);
      match cntRi with
      | Some cntRi =>
        upsertItem (set_sub (if decide (Subscription cntRi = SubBoth) then SubTo else SubNone) cntRi);;
        mret (Subscription cntRi)
      | None => mret SubNone
      end
  else mret "");
  let p := MakePresence contactJID userJID UnsubscribedType (AllChildren presence) in
  (if ro_IsLocalHost (Domain userJID) then
     usrRi ← rep_FetchRosterItem (Node userJID) (JIDString contactJID);
     match usrRi with
     | Some usrRi =>
       upsertItem (set_ask false
         (if Ask usrRi then usrRi
          else set_sub (if decide (Subscription usrRi = SubBoth) then SubFrom else SubNone) usrRi))
     | None => mret tt
     end
   else mret tt);;
  routeTo p;;
  if bool_decide (cntSub ∈ [SubFrom; SubBoth]) then
    routePresencesFrom (Node contactJID) userJID UnavailableType
  else mret tt.

(** [processProbe] *)
Definition processProbe (presence : Element) : M W unit :=
  let userJID := ToBareJID (FromJID presence) in
  let contactJID := ToBareJID (ToJID presence) in
  if negb (ro_IsLocalHost (Domain contactJID)) then ignore (ro_Route presence)
  else
    ri ← rep_FetchRosterItem (Node contactJID) (JIDString userJID);
    match ri with
    | Some ri =>
      if bool_decide (Subscription ri ∈ [SubBoth; SubFrom]) then
        rss ← ro_GetResources (Node contactJID);
        for_each rss (fun res =>
          pr ← deref (ResPresence res);
          if negb (IsAvailable pr) then mret tt
          else routeTo (MakePresence (ResJID res) userJID AvailableType (AllChildren pr)))
      else mret tt
    | None => mret tt
    end.

(** The first time a resource becomes available: self-presence, pending
    notifications, presences of the contacts. *)
Definition firstAvailable (presence : Element) (items : list Item) (stm : Z) : M W unit :=
  let fromJID := FromJID presence in
  let userJID := ToBareJID fromJID in
  rss ← ro_GetResources (Node userJID);
  for_each rss (fun res =>
    routeTo (MakePresence fromJID (ResJID res) AvailableType (AllChildren presence)));;
  rns ← rep_FetchRosterNotifications (Node userJID);
  for_each rns (fun pr => ignore (ro_Route pr));;
  for_each items (fun item =>
    if bool_decide (Subscription item ∈ [SubTo; SubBoth]) then
      itemJID ← deref (NewWithString (Jid item) true);
      if ro_IsLocalHost (Domain itemJID) then
        routePresencesFrom (Node itemJID) fromJID AvailableType
      else routeTo (MakePresence fromJID itemJID ProbeType [])
    else mret tt);;
  ro_SetInfoBool stm rosterDidGoAvailableCtxKey true.

(** [processAvailability] *)
Definition processAvailability (presence : Element) : M W unit :=
  let fromJID := FromJID presence in
  let userJID := ToBareJID fromJID in
  let contactJID := ToBareJID (ToJID presence) in
  if negb (ro_IsLocalHost (Domain userJID) && MatchesBare userJID contactJID) then
    ignore (ro_Route presence)
  else
    items ← rep_FetchRosterItems (Node userJID);
    (if IsAvailable presence then
       stm ← ro_LocalStream (Node fromJID) (Resource fromJID);
       inf ← gets (ro_StreamInfo stm);
       if Info.Bool rosterDidGoAvailableCtxKey inf then mret tt
       else firstAvailable presence items stm
     else mret tt);;
    for_each items (fun item =>
      if bool_decide (Subscription item ∈ [SubFrom; SubBoth]) then
        itemJID ← deref (NewWithString (Jid item) true);
        routeTo (MakePresence fromJID itemJID (Attribute presence AttrType) (AllChildren presence))
      else mret tt).

(** [processPresence] *)
Definition processPresence (pr : Element) : M W unit :=
  let typ := Attribute pr AttrType in
  if String.eqb typ SubscribeType then processSubscribe pr
  else if String.eqb typ SubscribedType then processSubscribed pr
  else if String.eqb typ UnsubscribeType then processUnsubscribe pr
  else if String.eqb typ UnsubscribedType then processUnsubscribed pr
  else if String.eqb typ ProbeType then processProbe pr
  else if String.eqb typ AvailableType || String.eqb typ UnavailableType then
    processAvailability pr
  else mret tt.

(** [onPresenceRecv], on a presence; another element is a nil dereference *)
Definition onPresenceRecv (elem : Element) : M W unit :=
  if decide (Kind elem = Some KPresence) then
    if IsFull (ToJID elem) then mret tt else processPresence elem
  else crash_with NilDeref.

(** [onUserDeleted] *)
Definition onUserDeleted (username : string) : M W unit :=
  rep_InTransaction (
    tx_DeleteRosterNotifications username;;
    tx_DeleteRosterItems username).

(** ** IQs *)

(** The end of [sendRoster], on both of its paths. *)
Definition rosterSent (usrJID : JID) : M W unit :=
  ro_runHook RosterRequested (Node usrJID) "" "";;
  stm ← ro_LocalStream (Node usrJID) (Resource usrJID);
  ro_SetInfoBool stm rosterRequestedCtxKey true.

(** A failed storage call is answered with an internal-server-error. *)
Definition orInternalError {A} (iq : Element) (m : M W A) : M W A :=
  r ← try m;
  match r with
  | inr a => mret a
  | inl e => routeTo (MakeErrorStanza iq SEInternalServerError);; fail e
  end.

(** [sendRoster] *)
Definition sendRoster (iq : Element) : M W unit :=
  let badRequest := routeTo (MakeErrorStanza iq SEBadRequest) in
  match ChildNamespace iq "query" rosterNamespace with
  | None => badRequest
  | Some q =>
    if (0 <? ChildrenCount q)%nat then badRequest
    else
      let usrJID := FromJID iq in
      ver ← orInternalError iq (rep_FetchRosterVersion (Node usrJID));
      if ((0 <? ver) && (ver =? parseVer (Attribute q "ver")))%Z then
        routeTo (MakeResultIQ iq None);;
        rosterSent usrJID
      else
        items ← orInternalError iq (rep_FetchRosterItems (Node usrJID));
        routeTo (MakeResultIQ iq (Some (Build "query" [(Namespace, rosterNamespace)]
          (map encodeRosterItem items) "")));;
        rosterSent usrJID
  end.

(** [updateItem] *)
Definition updateItem (ri : Item) (username : string) : M W unit :=
  usrRi ← rep_FetchRosterItem username (Jid ri);
  upsertItem (match usrRi with
    | Some u => MkItem (Username u) (Jid u)
        (if String.eqb (ItemName ri) "" then ItemName u else ItemName ri)
        (Subscription u) (Groups ri) (Ask u)
    | None => MkItem username (Jid ri) (ItemName ri) SubNone (Groups ri) (Ask ri)
    end).

(** The contact's side of [removeItem]; the [Both] case falls through. *)
Definition removeFromContact (userJID contactJID : JID) : M W unit :=
  if ro_IsLocalHost (Domain contactJID) then
    cntRi ← rep_FetchRosterItem (Node contactJID) (JIDString userJID);
    match cntRi with
    | None => mret tt
    | Some cntRi =>
      (if bool_decide (Subscription cntRi ∈ [SubFrom; SubBoth]) then
         routePresencesFrom (Node contactJID) userJID UnavailableType
       else mret tt);;
      (if decide (Subscription cntRi = SubBoth) then upsertItem (set_sub SubTo cntRi) else mret tt);;
      upsertItem (set_sub SubNone cntRi)
    end
  else mret tt.

(** [removeItem] *)
Definition removeItem (ri : Item) (userJID : JID) : M W unit :=
  let contact := NewWithString (Jid ri) true in
  usrRi ← rep_FetchRosterItem (Node userJID) (Jid ri);
  contactJID ← deref contact;
  usrSub ← (match usrRi with
    | Some usrRi =>
      _ ← deleteNotification (Node contactJID) userJID;
      deleteItem (set_ask false (set_sub SubRemove usrRi));;
      mret (Subscription usrRi)
    | None => mret SubNone
    end);
  removeFromContact userJID contactJID;;
  (if bool_decide (usrSub ∈ [SubTo; SubBoth]) then
     routeTo (MakePresence userJID contactJID UnsubscribeType [])
   else mret tt);;
  (if bool_decide (usrSub ∈ [SubFrom; SubBoth]) then
     routeTo (MakePresence userJID contactJID UnsubscribedType [])
   else mret tt);;
  if bool_decide (usrSub ∈ [SubFrom; SubBoth]) then
    routePresencesFrom (Node userJID) contactJID UnavailableType
  else mret tt.

(** [updateRoster] *)
Definition updateRoster (iq : Element) : M W unit :=
  let badRequest := routeTo (MakeErrorStanza iq SEBadRequest) in
  match ChildNamespace iq "query" rosterNamespace with
  | None => badRequest
  | Some q =>
    match Children q "item" with
    | [item] =>
      match decodeRosterItem item with
      | Ok ri =>
        orInternalError iq
          (if decide (Subscription ri = SubRemove) then removeItem ri (ToBareJID (FromJID iq))
           else updateItem ri (Node (FromJID iq)));;
        routeTo (MakeResultIQ iq None)
      | Err _ => badRequest
      | Crash c => crash_with c
      end
    | _ => badRequest
    end
  end.

(** [MatchesNamespace], [ProcessIQ] *)
Definition MatchesNamespace (namespace : string) (serverTarget : bool) : bool :=
  if serverTarget then false else String.eqb namespace rosterNamespace.

Definition ProcessIQ (iq : Element) : M W unit :=
  if IsGet iq then sendRoster iq
  else if IsSet iq then updateRoster iq
  else mret tt.

End methods.
End roster.
