(* ===== verification/RosterProofs.v ===== *)
(** * Properties of the roster module

    The module is verified against the contract of the repository it is given
    ([RosterRepo]): what each call does to the stored items and notifications,
    and that a failed transaction leaves them as they were. *)

From stdpp Require Import base list strings gmap sets.
From Stdlib Require Import ZArith Lia Ascii.
From S2P Require Import Prelude GoLib Stravaganza C2SModel Roster.

Section proofs.
Context `{XmlLib} {W : Type} `{!RosterEnv W}.

(** ** The contract of the collaborators *)
Class RosterViews := {
  items : W → gmap (string * string) Item;
  notifs : W → gmap (string * string) Element;
}.
Context `{!RosterViews}.

Definition same (w w' : W) : Prop := items w' = items w ∧ notifs w' = notifs w.
Definition frame {A} (m : M W A) : Prop := keeps same m.

#[local] Instance same_preorder : PreOrder same.
Proof.
  split; [by intros w|]. intros w1 w2 w3 [Hi Hn] [Hi' Hn']. split; by etrans.
Qed.

Class RosterRepo : Prop := {
  fr_Version : ∀ u, frame (rep_FetchRosterVersion u);
  fr_Item : ∀ u j, frame (rep_FetchRosterItem u j);
  fr_Items : ∀ u, frame (rep_FetchRosterItems u);
  fr_Notification : ∀ u j, frame (rep_FetchRosterNotification u j);
  fr_Notifications : ∀ u, frame (rep_FetchRosterNotifications u);
  fr_Touch : ∀ u, frame (tx_TouchRosterVersion u);
  fr_Route : ∀ e, frame (ro_Route e);
  fr_Resources : ∀ u, frame (ro_GetResources u);
  fr_LocalStream : ∀ u r, frame (ro_LocalStream u r);
  fr_SetInfo : ∀ s k b, frame (ro_SetInfoBool s k b);
  fr_Hook : ∀ n u j s, frame (ro_runHook n u j s);
  fr_uuid : frame ro_uuid;
  repo_Item : ∀ u j w o w', rep_FetchRosterItem u j w = (Ok o, w') → o = items w !! (u, j);
  repo_Notification : ∀ u j w o w',
    rep_FetchRosterNotification u j w = (Ok o, w') → o = notifs w !! (u, j);
  repo_UpsertNotification : ∀ u j e w,
    match rep_UpsertRosterNotification u j e w with
    | (Ok _, w') => items w' = items w ∧ notifs w' = <[(u, j) := e]> (notifs w)
    | (_, w') => same w w'
    end;
  repo_DeleteNotification : ∀ u j w,
    match rep_DeleteRosterNotification u j w with
    | (Ok _, w') => items w' = items w ∧ notifs w' = delete (u, j) (notifs w)
    | (_, w') => same w w'
    end;
  repo_UpsertItem : ∀ ri w,
    match tx_UpsertRosterItem ri w with
    | (Ok _, w') => items w' = <[(Username ri, Jid ri) := ri]> (items w) ∧ notifs w' = notifs w
    | (_, w') => same w w'
    end;
  repo_DeleteItem : ∀ u j w,
    match tx_DeleteRosterItem u j w with
    | (Ok _, w') => items w' = delete (u, j) (items w) ∧ notifs w' = notifs w
    | (_, w') => same w w'
    end;
  repo_DeleteNotifications : ∀ u w,
    match tx_DeleteRosterNotifications u w with
    | (Ok _, w') => items w' = items w ∧ notifs w' = filter (fun kv => kv.1.1 ≠ u) (notifs w)
    | (_, w') => same w w'
    end;
  repo_DeleteItems : ∀ u w,
    match tx_DeleteRosterItems u w with
    | (Ok _, w') => items w' = filter (fun kv => kv.1.1 ≠ u) (items w) ∧ notifs w' = notifs w
    | (_, w') => same w w'
    end;
  repo_InTransaction : ∀ m w,
    match rep_InTransaction m w with
    | (Ok _, w') => ∃ w1, m w = (Ok tt, w1) ∧ same w1 w'
    | (_, w') => same w w'
    end;
}.

(** ** XML form of an item *)

Lemma decode_groups_encode gs : Forall (fun g => g ≠ "") gs →
  decode_groups (map (fun g => Build "group" [] [] g) gs) = Ok gs.
Proof.
  induction gs as [|g gs IH]; intros Hg; simpl; [done|]. apply Forall_cons in Hg as [Hg Hgs].
  rewrite AttributeCount_Build, Text_Build, IH by done. simpl.
  by rewrite (proj2 (String.eqb_neq _ _) Hg).
Qed.

(** An item written with [encodeRosterItem] is read back by
    [decodeRosterItem] with its JID, name, subscription and groups; the pending
    request ([Ask]) is not written. *)
Theorem roster_item_roundtrip (ri : Item) (j : JID)
    (Hjid : NewWithString (Jid ri) false = Some j) (Hstr : JIDString j = Jid ri)
    (Hne : Jid ri ≠ "")
    (Hsub : Subscription ri ∈ [SubBoth; SubFrom; SubTo; SubNone; SubRemove])
    (Hgroups : Forall (fun g => g ≠ "") (Groups ri)) :
  decodeRosterItem (encodeRosterItem ri) =
    Ok (MkItem "" (Jid ri) (ItemName ri) (Subscription ri) (Groups ri) false).
Proof.
  assert (∀ k, Attribute (encodeRosterItem ri) k =
    default "" ((list_to_map [("name", ItemName ri); ("jid", Jid ri);
      ("subscription", Subscription ri)] : gmap string string) !! k)) as Ha.
  { intros k. apply Attribute_Build. simpl. repeat constructor; set_solver. }
  assert (Children (encodeRosterItem ri) "group" = map (fun g => Build "group" [] [] g) (Groups ri)) as Hc.
  { rewrite Children_spec. unfold encodeRosterItem. rewrite AllChildren_Build.
    induction (Groups ri) as [|g gs IH]; simpl; [done|]. rewrite Name_Build. simpl.
    apply Forall_cons in Hgroups as [_ Hg]. by rewrite IH. }
  assert (Attribute (encodeRosterItem ri) "jid" = Jid ri) as Hj by (rewrite Ha; simpl; by simplify_map_eq).
  assert (Attribute (encodeRosterItem ri) "name" = ItemName ri) as Hn
    by (rewrite Ha; simpl; by simplify_map_eq).
  assert (Attribute (encodeRosterItem ri) "subscription" = Subscription ri) as Hs
    by (rewrite Ha; simpl; by simplify_map_eq).
  assert (Attribute (encodeRosterItem ri) "ask" = "") as Hk by (rewrite Ha; simpl; by simplify_map_eq).
  unfold decodeRosterItem. rewrite Hc, decode_groups_encode, Hj, Hn, Hs, Hk by done.
  unfold encodeRosterItem. rewrite Name_Build. simpl.
  rewrite (proj2 (String.eqb_neq _ _) Hne), Hjid, Hstr.
  rewrite bool_decide_eq_true_2 by done. by rewrite andb_false_r.
Qed.

(** ** Lemmas *)
Section lemmas.
Context `{!RosterRepo}.

Create HintDb rosterframe.
#[local] Hint Resolve fr_Version fr_Item fr_Items fr_Notification fr_Notifications fr_Touch fr_Route
  fr_Resources fr_LocalStream fr_SetInfo fr_Hook fr_uuid : rosterframe.

Ltac fr_step :=
  match goal with
  | |- frame (_ ≫= _) => apply keeps_bind; [typeclasses eauto| |intros ?]
  | |- frame (match ?x with _ => _ end) => destruct x
  | |- frame (mret _) => apply keeps_ret; typeclasses eauto
  | |- frame (gets _) => apply keeps_gets; typeclasses eauto
  | |- frame (deref _) => apply keeps_deref; typeclasses eauto
  | |- frame (fail _) => apply keeps_fail; typeclasses eauto
  | |- frame (crash_with _) => apply keeps_crash; typeclasses eauto
  | |- frame (try _) => apply keeps_try
  | |- frame (ignore _) => apply keeps_ignore; [typeclasses eauto|]
  | |- frame (for_each _ _) => apply keeps_for_each; [typeclasses eauto|intros ? ?]
  | |- keeps _ ?m => change (frame m)
  | |- frame _ => solve [auto with rosterframe]
  end.
Ltac frw := repeat fr_step.

Lemma routeTo_frame p : frame (routeTo p).
Proof. unfold routeTo. frw. Qed.
#[local] Hint Resolve routeTo_frame : rosterframe.
Lemma pushItem_frame ri v : frame (pushItem ri v).
Proof. unfold pushItem. frw. Qed.
Lemma routePresencesFrom_frame u j t : frame (routePresencesFrom u j t).
Proof. unfold routePresencesFrom. frw. Qed.
#[local] Hint Resolve pushItem_frame routePresencesFrom_frame : rosterframe.
Lemma processProbe_frame p : frame (processProbe p).
Proof. unfold processProbe. frw. Qed.
Lemma processAvailability_frame p : frame (processAvailability p).
Proof. unfold processAvailability, firstAvailable. frw. Qed.
Lemma sendRoster_frame iq : frame (sendRoster iq).
Proof. unfold sendRoster, rosterSent, orInternalError. frw. Qed.

(** A successful call that keeps the views. *)
Lemma frame_Ok {A} (m : M W A) w a w' : frame m → m w = (Ok a, w') → same w w'.
Proof. intros Hm He. specialize (Hm w). by rewrite He in Hm. Qed.

(** [upsertItem] stores the item or leaves the store as it was. *)
Lemma upsertItem_views ri w :
  let '(r, w') := upsertItem ri w in
  (items w' = <[(Username ri, Jid ri) := ri]> (items w) ∧ notifs w' = notifs w) ∨
  (same w w' ∧ ∀ a, r ≠ Ok a).
Proof.
  unfold upsertItem, mbind at 1, M_bind at 1.
  set (body := (tx_TouchRosterVersion _ ≫= _)). pose proof (repo_InTransaction body w) as Ht.
  destruct (rep_InTransaction body w) as [[[]|e|c] w1]; [|by right..].
  destruct Ht as (w2 & Hb & Hs). unfold body in Hb.
  inv_bind Hb as v w3 Htouch. apply (frame_Ok _ _ _ _ (fr_Touch _)) in Htouch.
  inv_bind Hb as [] w4 Hup. pose proof (repo_UpsertItem ri w3) as Hu. rewrite Hup in Hu.
  apply (frame_Ok _ _ _ _ (pushItem_frame _ _)) in Hb.
  pose proof (fr_Hook RosterItemUpdated (Username ri) (Jid ri) (Subscription ri) w1) as Hh.
  destruct (ro_runHook _ _ _ _ w1) as [r w5]. simpl in Hh. left.
  destruct Hs, Htouch, Hu, Hb, Hh. split; congruence.
Qed.

Lemma upsertItem_Ok ri w w' : upsertItem ri w = (Ok tt, w') →
  items w' = <[(Username ri, Jid ri) := ri]> (items w) ∧ notifs w' = notifs w.
Proof.
  intros He. pose proof (upsertItem_views ri w) as Hu. rewrite He in Hu.
  destruct Hu as [Hu|[_ Hu]]; [done|by destruct (Hu tt)].
Qed.

Lemma deleteItem_views ri w :
  let '(r, w') := deleteItem ri w in
  items w' = delete (Username ri, Jid ri) (items w) ∨ items w' = items w.
Proof.
  unfold deleteItem, mbind at 1, M_bind at 1.
  set (body := (tx_TouchRosterVersion _ ≫= _)). pose proof (repo_InTransaction body w) as Ht.
  destruct (rep_InTransaction body w) as [[[]|e|c] w1]; [|by right; apply Ht..].
  destruct Ht as (w2 & Hb & Hs). unfold body in Hb.
  inv_bind Hb as v w3 Htouch. apply (frame_Ok _ _ _ _ (fr_Touch _)) in Htouch.
  inv_bind Hb as [] w4 Hup. pose proof (repo_DeleteItem (Username ri) (Jid ri) w3) as Hu.
  rewrite Hup in Hu. apply (frame_Ok _ _ _ _ (pushItem_frame _ _)) in Hb.
  pose proof (fr_Hook RosterItemUpdated (Username ri) (Jid ri) SubRemove w1) as Hh.
  destruct (ro_runHook _ _ _ _ w1) as [r w5]. simpl in Hh. left.
  destruct Hs, Htouch, Hu, Hb, Hh. congruence.
Qed.

Lemma deleteNotification_Ok u j w b w' : deleteNotification u j w = (Ok b, w') →
  items w' = items w ∧ notifs w' = delete (u, JIDString j) (notifs w) ∧
  b = bool_decide (is_Some (notifs w !! (u, JIDString j))).
Proof.
  unfold deleteNotification. intros He. inv_bind He as o w1 Hf.
  pose proof (repo_Notification _ _ _ _ _ Hf) as ->.
  apply (frame_Ok _ _ _ _ (fr_Notification _ _)) in Hf as [Hi Hn].
  destruct (notifs w !! _) as [e|] eqn:Hl.
  - inv_bind He as [] w2 Hd. injection He as <- <-.
    pose proof (repo_DeleteNotification u (JIDString j) w1) as Hdn. rewrite Hd in Hdn.
    destruct Hdn as [Hdi Hdn]. rewrite Hdi, Hdn, Hi, Hn. by rewrite bool_decide_eq_true_2.
  - injection He as <- <-. rewrite bool_decide_eq_false_2 by (by intros []).
    rewrite Hi, Hn, delete_id by done. done.
Qed.

Lemma deleteNotification_items u j w : items (deleteNotification u j w).2 = items w.
Proof.
  unfold deleteNotification, mbind, M_bind. pose proof (fr_Notification u (JIDString j) w) as [Hi _].
  destruct (rep_FetchRosterNotification _ _ w) as [[[e|]|e|c] w1]; simpl in *; try done.
  pose proof (repo_DeleteNotification u (JIDString j) w1) as Hdn.
  destruct (rep_DeleteRosterNotification _ _ w1) as [[[]|?|?] w2]; simpl; by destruct Hdn; congruence.
Qed.

(** ** The store holds well-formed items *)

Definition sub_ok (s : string) : Prop := s ∈ [SubNone; SubFrom; SubTo; SubBoth].

(** Every item is stored under its own key, with a subscription state of RFC
    6121. *)
Definition store_ok (m : gmap (string * string) Item) : Prop :=
  map_Forall (fun k i => k = (Username i, Jid i) ∧ sub_ok (Subscription i)) m.

Definition vk {A} (m : M W A) : Prop := keeps (stable (fun w => store_ok (items w))) m.

Lemma vk_frame {A} (m : M W A) : frame m → vk m.
Proof. intros Hm w. unfold stable. by destruct (Hm w) as [-> _]. Qed.

Lemma vk_upsertItem ri : sub_ok (Subscription ri) → vk (upsertItem ri).
Proof.
  intros Hs w Hw. pose proof (upsertItem_views ri w) as Hu.
  destruct (upsertItem ri w) as [r w']. simpl. destruct Hu as [[-> _]|[[-> _] _]]; [|done].
  by apply map_Forall_insert_2.
Qed.

Lemma vk_deleteItem ri : vk (deleteItem ri).
Proof.
  intros w Hw. pose proof (deleteItem_views ri w) as Hu.
  destruct (deleteItem ri w) as [r w']. simpl. destruct Hu as [-> | ->]; [|done].
  by apply map_Forall_delete.
Qed.

Lemma vk_deleteNotification u j : vk (deleteNotification u j).
Proof. intros w. unfold stable. by rewrite deleteNotification_items. Qed.

Lemma vk_upsertNotification u j e : vk (upsertNotification u j e).
Proof.
  intros w. unfold stable, upsertNotification.
  pose proof (repo_UpsertNotification u (JIDString j) e w) as Hu.
  destruct (rep_UpsertRosterNotification _ _ _ w) as [[]]; simpl; by destruct Hu as [-> _].
Qed.

(** What is read from the store is well formed. *)
Lemma vk_fetch {A} u j (k : option Item → M W A) :
  (∀ o, (∀ i, o = Some i → sub_ok (Subscription i)) → vk (k o)) →
  vk (rep_FetchRosterItem u j ≫= k).
Proof.
  intros Hk w Hw. unfold mbind, M_bind. pose proof (fr_Item u j w) as [Hi _].
  pose proof (repo_Item u j w) as Hr.
  destruct (rep_FetchRosterItem u j w) as [[o|e|c] w1]; simpl in *; try (by rewrite Hi).
  rewrite (Hr o w1 eq_refl). apply Hk; [|by rewrite Hi].
  intros i Hl. by apply (Hw _ _ Hl).
Qed.

Create HintDb rosterok.
#[local] Hint Resolve vk_deleteItem vk_deleteNotification vk_upsertNotification : rosterok.
#[local] Hint Extern 2 (vk _) => apply vk_frame; solve [frw] : rosterok.
#[local] Hint Extern 1 (sub_ok _) => (unfold sub_ok; simpl; set_solver) : rosterok.

Ltac vk_step :=
  match goal with
  | |- vk (rep_FetchRosterItem _ _ ≫= _) => apply vk_fetch; intros ? ?
  | |- vk (_ ≫= _) => apply keeps_bind; [typeclasses eauto| |intros ?]
  | |- vk (match ?x with _ => _ end) => destruct x
  | |- vk (mret _) => apply keeps_ret; typeclasses eauto
  | |- vk (fail _) => apply keeps_fail; typeclasses eauto
  | |- vk (deref _) => apply keeps_deref; typeclasses eauto
  | |- vk (crash_with _) => apply keeps_crash; typeclasses eauto
  | |- vk (try _) => apply keeps_try
  | |- vk (upsertItem _) => apply vk_upsertItem; simpl; repeat case_match; simpl; auto with rosterok
  | |- keeps _ ?m => change (vk m)
  | |- vk _ => solve [auto with rosterok]
  end.
Ltac vkw := repeat vk_step.

Lemma processSubscribe_vk p : vk (processSubscribe p).
Proof. unfold processSubscribe. vkw. Qed.
Lemma processSubscribed_vk p : vk (processSubscribed p).
Proof. unfold processSubscribed. vkw. Qed.
Lemma processUnsubscribe_vk p : vk (processUnsubscribe p).
Proof. unfold processUnsubscribe. vkw. Qed.
Lemma processUnsubscribed_vk p : vk (processUnsubscribed p).
Proof. unfold processUnsubscribed. vkw. Qed.
Lemma updateItem_vk ri u : vk (updateItem ri u).
Proof. unfold updateItem. vkw. Qed.
Lemma removeItem_vk ri j : vk (removeItem ri j).
Proof. unfold removeItem, removeFromContact. vkw. Qed.

Lemma onUserDeleted_vk u : vk (onUserDeleted u).
Proof.
  intros w Hw. unfold onUserDeleted. set (body := (_ ≫= _)).
  pose proof (repo_InTransaction body w) as Ht.
  destruct (rep_InTransaction body w) as [[[]|e|c] w1]; simpl; [|by destruct Ht as [-> _]..].
  destruct Ht as (w2 & Hb & [-> _]). unfold body in Hb. inv_bind Hb as [] w3 Hd.
  pose proof (repo_DeleteNotifications u w) as Hn. rewrite Hd in Hn.
  pose proof (repo_DeleteItems u w3) as Hi. rewrite Hb in Hi.
  destruct Hn as [Hn _], Hi as [-> _]. rewrite Hn.
  intros k i Hk. apply map_lookup_filter_Some in Hk as [Hk _]. by apply Hw.
Qed.

(** What reaches the module. *)
Inductive roster_event :=
| EvPresence (e : Element)
| EvIQ (iq : Element)
| EvUserDeleted (u : string).

Definition handle (ev : roster_event) : M W unit :=
  match ev with
  | EvPresence e => onPresenceRecv e
  | EvIQ iq => ProcessIQ iq
  | EvUserDeleted u => onUserDeleted u
  end.

Fixpoint handle_all (evs : list roster_event) : M W unit :=
  match evs with
  | [] => mret tt
  | ev :: evs' => ignore (handle ev);; handle_all evs'
  end.

Lemma handle_vk ev : vk (handle ev).
Proof.
  destruct ev as [e|iq|u]; simpl; [| |apply onUserDeleted_vk].
  - unfold onPresenceRecv, processPresence.
    vkw; auto using processSubscribe_vk, processSubscribed_vk, processUnsubscribe_vk,
      processUnsubscribed_vk, vk_frame, processProbe_frame, processAvailability_frame.
  - unfold ProcessIQ, updateRoster, orInternalError.
    vkw; auto using removeItem_vk, updateItem_vk. apply vk_frame, sendRoster_frame.
Qed.

(** C35: whatever presences, roster IQs and account deletions arrive, and whichever
    storage calls fail, every stored item stays under its own key with one of
    the four subscription states of RFC 6121; "remove" is never stored. *)
Theorem roster_store_invariant (evs : list roster_event) (w : W) (Hok : store_ok (items w)) :
  store_ok (items (handle_all evs w).2).
Proof.
  revert w Hok. assert (vk (handle_all evs)) as Hk; [|exact Hk].
  induction evs as [|ev evs IH]; simpl; [vkw|].
  apply keeps_bind; [apply _| |intros _; exact IH]. apply keeps_ignore; [apply _|apply handle_vk].
Qed.

(** ** Effect of the subscription handlers *)

Section pair.
(** A user and a contact of this server, and their keys in the store. *)
Context (U C : JID).
Definition ku : string * string := (Node U, JIDString C).
Definition kc : string * string := (Node C, JIDString U).
Context (HlocalU : ro_IsLocalHost (Domain U) = true) (HlocalC : ro_IsLocalHost (Domain C) = true).

Abbreviation store := (gmap (string * string) Item).

(** The change a handler makes to one item, if it is there. *)
Definition on_item (k : string * string) (f : Item → Item) (m : store) : store :=
  match m !! k with Some i => <[k := f i]> m | None => m end.

Definition drop_to (i : Item) : Item :=
  set_sub (if decide (Subscription i = SubBoth) then SubFrom else SubNone) i.
Definition drop_from (i : Item) : Item :=
  set_sub (if decide (Subscription i = SubBoth) then SubTo else SubNone) i.
Definition add_to (i : Item) : Item :=
  if decide (Subscription i = SubFrom) then set_ask false (set_sub SubBoth i)
  else if decide (Subscription i = SubNone) then set_ask false (set_sub SubTo i) else i.
Definition add_from (i : Item) : Item :=
  if decide (Subscription i = SubTo) then set_sub SubBoth i
  else if decide (Subscription i = SubNone) then set_sub SubFrom i else i.

Definition spec_subscribe (m : store) : store :=
  match m !! ku with
  | Some i => if bool_decide (Subscription i ∈ [SubTo; SubBoth]) || Ask i then m
              else <[ku := set_ask true i]> m
  | None => <[ku := MkItem (Node U) (JIDString C) "" SubNone [] true]> m
  end.
Definition spec_subscribed (m : store) : store :=
  on_item ku add_to (<[kc := match m !! kc with
    | Some i => add_from i | None => MkItem (Node C) (JIDString U) "" SubFrom [] false end]> m).
Definition spec_unsubscribe (m : store) : store := on_item kc drop_from (on_item ku drop_to m).
Definition spec_unsubscribed (pending : bool) (m : store) : store :=
  on_item ku (fun i => set_ask false (if Ask i then i else drop_to i))
    (if pending then m else on_item kc drop_from m).

(** The key of an item that was read is the key it was read under. *)
Lemma store_key (m : store) k i : store_ok m → m !! k = Some i → (Username i, Jid i) = k.
Proof. intros Hm Hi. by destruct (Hm _ _ Hi). Qed.

Lemma fetch_Ok u j w o w' : rep_FetchRosterItem u j w = (Ok o, w') →
  o = items w !! (u, j) ∧ same w w'.
Proof.
  intros He. split; [by eapply repo_Item|]. by apply (frame_Ok _ _ _ _ (fr_Item u j)) in He.
Qed.

(** Functions that keep the key of an item and give it a proper state. *)
Definition item_fun (f : Item → Item) : Prop :=
  ∀ i, Username (f i) = Username i ∧ Jid (f i) = Jid i ∧
       (sub_ok (Subscription i) → sub_ok (Subscription (f i))).

Lemma on_item_ok k f m : item_fun f → store_ok m → store_ok (on_item k f m).
Proof.
  intros Hf Hm. unfold on_item. destruct (m !! k) as [i|] eqn:Hl; [|done].
  destruct (Hm _ _ Hl) as [Hk Hs], (Hf i) as (Hu & Hj & Hsub).
  apply map_Forall_insert_2; [|done]. rewrite Hu, Hj. split; [done|by apply Hsub].
Qed.

(** Reading an item and storing a new version of it. *)
Lemma fetch_upsert_Ok {A} u j f (g : Item → A) d w a w' :
  item_fun f → store_ok (items w) →
  (o ← rep_FetchRosterItem u j;
   match o with Some i => upsertItem (f i);; mret (g i) | None => mret d end) w = (Ok a, w') →
  items w' = on_item (u, j) f (items w) ∧ notifs w' = notifs w ∧ store_ok (items w').
Proof.
  intros Hf Hok He. assert (items w' = on_item (u, j) f (items w) ∧ notifs w' = notifs w) as [Hi Hn].
  { inv_bind He as o w0 Hr. apply fetch_Ok in Hr as [-> [Hi Hn]]. unfold on_item.
    destruct (items w !! (u, j)) as [i|] eqn:Hl; [|by injection He as _ <-].
    inv_bind He as [] w3 Hu. injection He as _ <-. apply upsertItem_Ok in Hu as [Hui Hun].
    split; [|congruence]. destruct (Hf i) as (HU & HJ & _).
    rewrite Hui, Hi, HU, HJ. by rewrite (store_key _ _ _ Hok Hl). }
  split; [done|]. split; [done|]. rewrite Hi. by apply on_item_ok.
Qed.

Lemma fetch_upsert_unit_Ok u j f w w' :
  item_fun f → store_ok (items w) →
  (o ← rep_FetchRosterItem u j;
   match o with Some i => upsertItem (f i) | None => mret tt end) w = (Ok tt, w') →
  items w' = on_item (u, j) f (items w) ∧ notifs w' = notifs w ∧ store_ok (items w').
Proof.
  intros Hf Hok He. apply (fetch_upsert_Ok u j f (fun _ => tt) tt w tt); [done|done|].
  unfold mbind, M_bind in *. destruct (rep_FetchRosterItem u j w) as [[[i|]|e|c] w1]; try done.
  by rewrite He.
Qed.

Lemma drop_to_fun : item_fun drop_to.
Proof. intros i. unfold drop_to, sub_ok. simpl. case_decide; set_solver. Qed.
Lemma drop_from_fun : item_fun drop_from.
Proof. intros i. unfold drop_from, sub_ok. simpl. case_decide; set_solver. Qed.
Lemma add_to_fun : item_fun add_to.
Proof. intros i. unfold add_to, sub_ok. repeat case_decide; simpl; set_solver. Qed.
Lemma add_from_fun : item_fun add_from.
Proof. intros i. unfold add_from, sub_ok. repeat case_decide; simpl; set_solver. Qed.
Lemma cancel_fun : item_fun (fun i => set_ask false (if Ask i then i else drop_to i)).
Proof. intros i. destruct (Ask i); simpl; [done|]. apply drop_to_fun. Qed.

Lemma processUnsubscribe_Ok p w w' :
  store_ok (items w) → ToBareJID (FromJID p) = U → ToBareJID (ToJID p) = C →
  processUnsubscribe p w = (Ok tt, w') →
  items w' = spec_unsubscribe (items w) ∧ notifs w' = notifs w.
Proof.
  intros Hok HU HC He. unfold processUnsubscribe in He. rewrite HU, HC, HlocalU, HlocalC in He.
  inv_bind He as sub w1 Hp1. inv_bind He as [] w2 Hp2.
  apply (fetch_upsert_Ok _ _ drop_to) in Hp1 as (Hi1 & Hn1 & Hok1); [|apply drop_to_fun|done].
  apply (fetch_upsert_unit_Ok _ _ drop_from) in Hp2 as (Hi2 & Hn2 & _); [|apply drop_from_fun|done].
  assert (same w2 w') as [Hi3 Hn3] by (eapply frame_Ok; [|exact He]; frw).
  unfold spec_unsubscribe, ku, kc. rewrite Hi3, Hi2, Hi1. split; congruence.
Qed.

Lemma processUnsubscribed_Ok p w w' :
  store_ok (items w) → ToBareJID (FromJID p) = C → ToBareJID (ToJID p) = U →
  processUnsubscribed p w = (Ok tt, w') →
  items w' = spec_unsubscribed (bool_decide (is_Some (notifs w !! kc))) (items w) ∧
  notifs w' = delete kc (notifs w).
Proof.
  intros Hok HC HU He. unfold processUnsubscribed in He. rewrite HU, HC, HlocalU, HlocalC in He.
  inv_bind He as sub w1 Hp1. inv_bind He as [] w2 Hp2. inv_bind Hp1 as b w0 Hd.
  apply deleteNotification_Ok in Hd as (Hi0 & Hn0 & ->). fold kc in Hn0, Hp1.
  set (pending := bool_decide _) in *.
  assert (items w1 = (if pending then items w else on_item kc drop_from (items w)) ∧
          notifs w1 = delete kc (notifs w) ∧ store_ok (items w1)) as (Hi1 & Hn1 & Hok1).
  { destruct pending; [injection Hp1 as _ <-; rewrite Hi0; done|]. rewrite <-Hi0 in *.
    apply (fetch_upsert_Ok _ _ drop_from) in Hp1 as (-> & Hn1 & Hok1); [|apply drop_from_fun|done].
    split; [done|]. split; [congruence|]. by apply on_item_ok; [apply drop_from_fun|]. }
  apply (fetch_upsert_unit_Ok _ _ (fun i => set_ask false (if Ask i then i else drop_to i)))
    in Hp2 as (Hi2 & Hn2 & _); [|apply cancel_fun|done].
  assert (same w2 w') as [Hi3 Hn3] by (eapply frame_Ok; [|exact He]; frw).
  unfold spec_unsubscribed. rewrite Hi3, Hi2, Hi1. split; [done|congruence].
Qed.

Lemma processSubscribe_Ok p w w' :
  store_ok (items w) → ToBareJID (FromJID p) = U → ToBareJID (ToJID p) = C →
  processSubscribe p w = (Ok tt, w') →
  items w' = spec_subscribe (items w) ∧
  (items w !! ku = None ∨ spec_subscribe (items w) ≠ items w →
   is_Some (notifs w' !! kc) ∧ ∀ k, k ≠ kc → notifs w' !! k = notifs w !! k) ∧
  (spec_subscribe (items w) = items w → notifs w' = notifs w).
Proof.
  intros Hok HU HC He. unfold processSubscribe in He. rewrite HU, HC, HlocalU, HlocalC in He.
  inv_bind He as go w1 Hp1. inv_bind Hp1 as o w0 Hf. apply fetch_Ok in Hf as [-> [Hi0 Hn0]].
  fold ku in Hp1.
  assert (∀ w2, go = true → items w1 = w2 → notifs w1 = notifs w →
    items w' = w2 ∧ is_Some (notifs w' !! kc) ∧ ∀ k, k ≠ kc → notifs w' !! k = notifs w !! k) as Hgo.
  { intros w2 -> <- Hn1. simpl in He. inv_bind He as [] w3 Hp2. inv_bind Hp2 as e w4 Hd.
    assert (w4 = w1) as -> by (destruct (MakePresence _ _ _ _); [by injection Hd|done]).
    pose proof (repo_UpsertNotification (Node C) (JIDString U) e w1) as Hu.
    unfold upsertNotification in Hp2. rewrite Hp2 in Hu. destruct Hu as [Hu Hv]. fold kc in Hv.
    assert (same w3 w') as [Hi3 Hn3] by (eapply frame_Ok; [|exact He]; frw).
    rewrite Hi3, Hu, Hn3, Hv, Hn1. split; [done|]. rewrite lookup_insert_eq.
    split; [by eexists|]. intros k Hk. by rewrite lookup_insert_ne. }
  unfold spec_subscribe. destruct (items w !! ku) as [i|] eqn:Hl.
  - destruct (bool_decide (Subscription i ∈ [SubTo; SubBoth])) eqn:Hs; simpl.
    { injection Hp1 as <- <-. injection He as <-. rewrite Hi0, Hn0. by split; [|split; [intros []|]]. }
    destruct (Ask i) eqn:Ha.
    { injection Hp1 as <- <-. injection He as <-. rewrite Hi0, Hn0. by split; [|split; [intros []|]]. }
    inv_bind Hp1 as [] w2 Hu. injection Hp1 as <- <-. apply upsertItem_Ok in Hu as [Hui Hun].
    rewrite Hi0 in Hui. simpl in Hui. rewrite (store_key _ _ _ Hok Hl) in Hui.
    destruct (Hgo _ eq_refl Hui) as (Hi & Hn & Hk); [congruence|].
    split; [done|]. split; [done|]. intros Heq. exfalso.
    apply (f_equal (lookup ku)) in Heq. rewrite lookup_insert_eq, Hl in Heq.
    injection Heq as Heq. apply (f_equal Ask) in Heq. simpl in Heq. congruence.
  - inv_bind Hp1 as [] w2 Hu. injection Hp1 as <- <-. apply upsertItem_Ok in Hu as [Hui Hun].
    rewrite Hi0 in Hui. simpl in Hui. fold ku in Hui.
    destruct (Hgo _ eq_refl Hui) as (Hi & Hn & Hk); [congruence|].
    split; [done|]. split; [done|]. intros Heq. exfalso.
    apply (f_equal (lookup ku)) in Heq. by rewrite lookup_insert_eq, Hl in Heq.
Qed.

Lemma processSubscribed_Ok p w w' :
  store_ok (items w) → ToBareJID (FromJID p) = C → ToBareJID (ToJID p) = U →
  processSubscribed p w = (Ok tt, w') →
  items w' = spec_subscribed (items w) ∧ notifs w' = delete kc (notifs w).
Proof.
  intros Hok HC HU He. unfold processSubscribed in He. rewrite HU, HC, HlocalU, HlocalC in He.
  inv_bind He as [] w1 Hp1. inv_bind Hp1 as b w0 Hd.
  apply deleteNotification_Ok in Hd as (Hi0 & Hn0 & _). fold kc in Hn0.
  inv_bind Hp1 as o w2 Hf. apply fetch_Ok in Hf as [-> [Hi2 Hn2]]. fold kc in Hp1.
  rewrite Hi0 in Hp1, Hi2.
  set (new := match items w !! kc with
    | Some i => add_from i | None => MkItem (Node C) (JIDString U) "" SubFrom [] false end).
  assert (upsertItem new w2 = (Ok tt, w1)) as Hup.
  { rewrite <-Hp1. unfold new, add_from. by destruct (items w !! kc). }
  assert ((Username new, Jid new) = kc ∧ sub_ok (Subscription new)) as [Hkey Hsub].
  { unfold new. destruct (items w !! kc) as [i|] eqn:Hl; [|unfold sub_ok; set_solver].
    destruct (add_from_fun i) as (-> & -> & Hs). rewrite (store_key _ _ _ Hok Hl).
    split; [done|]. apply Hs. by destruct (Hok _ _ Hl). }
  apply upsertItem_Ok in Hup as [Hi1 Hn1]. rewrite Hkey, Hi2 in Hi1.
  assert (store_ok (items w1)) as Hok1.
  { rewrite Hi1. apply map_Forall_insert_2; [|done]. by rewrite Hkey. }
  inv_bind He as go w3 Hp3.
  assert (items w3 = on_item ku add_to (items w1) ∧ notifs w3 = notifs w1) as [Hi3 Hn3].
  { inv_bind Hp3 as o w4 Hf. apply fetch_Ok in Hf as [-> [Hi4 Hn4]]. fold ku in Hp3. unfold on_item.
    destruct (items w1 !! ku) as [i|] eqn:Hl; [|by injection Hp3 as _ <-].
    pose proof (store_key _ _ _ Hok1 Hl) as Hk. unfold add_to.
    case_decide; [|case_decide].
    - inv_bind Hp3 as [] w5 Hu. injection Hp3 as _ <-. apply upsertItem_Ok in Hu as [Hu1 Hu2].
      rewrite Hu1, Hi4, Hu2. simpl. by rewrite Hk.
    - inv_bind Hp3 as [] w5 Hu. injection Hp3 as _ <-. apply upsertItem_Ok in Hu as [Hu1 Hu2].
      rewrite Hu1, Hi4, Hu2. simpl. by rewrite Hk.
    - injection Hp3 as _ <-. rewrite insert_id by done. done. }
  assert (same w3 w') as [Hi5 Hn5] by (eapply frame_Ok; [|exact He]; frw).
  unfold spec_subscribed. fold new. rewrite Hi5, Hi3, Hi1. split; [done|congruence].
Qed.

(** *** Consistency of the two sides *)

Definition to_of (o : option Item) : bool :=
  match o with Some i => bool_decide (Subscription i ∈ [SubTo; SubBoth]) | None => false end.
Definition from_of (o : option Item) : bool :=
  match o with Some i => bool_decide (Subscription i ∈ [SubFrom; SubBoth]) | None => false end.
Definition asks (o : option Item) : bool := match o with Some i => Ask i | None => false end.

(** The user receives the contact's presence exactly when the contact's item says
    so, and conversely; a request is pending at the user exactly when its
    notification is stored for the contact. *)
Record pair_ok (m : store) (n : gmap (string * string) Element) : Prop := {
  p_fwd : to_of (m !! ku) = from_of (m !! kc);
  p_bwd : from_of (m !! ku) = to_of (m !! kc);
  p_ask : asks (m !! ku) = bool_decide (is_Some (n !! kc));
  p_pending : asks (m !! ku) = true → to_of (m !! ku) = false;
}.

Lemma sub_cases (m : store) k i : store_ok m → m !! k = Some i →
  Subscription i = SubNone ∨ Subscription i = SubFrom ∨ Subscription i = SubTo ∨
  Subscription i = SubBoth.
Proof. intros Hm Hi. destruct (Hm _ _ Hi) as [_ Hs]. unfold sub_ok in Hs. set_solver. Qed.

Context (Hne : ku ≠ kc).

Lemma on_item_lookup (k : string * string) (f : Item → Item) (m : store) : on_item k f m !! k = f <$> (m !! k).
Proof. unfold on_item. destruct (m !! k) eqn:E; [by rewrite lookup_insert_eq|by rewrite E]. Qed.
Lemma on_item_lookup_ne (k k' : string * string) (f : Item → Item) (m : store) : k ≠ k' → on_item k f m !! k' = m !! k'.
Proof. intros Hk. unfold on_item. destruct (m !! k); [by rewrite lookup_insert_ne|done]. Qed.

(** The items of both sides, by cases on their states. *)
Ltac both_sides m Hok :=
  let i := fresh "i" in let c := fresh "c" in let Hi := fresh "Hi" in let Hc := fresh "Hc" in
  destruct (m !! ku) as [i|] eqn:Hi; destruct (m !! kc) as [c|] eqn:Hc;
  repeat match goal with
  | Hl : m !! _ = Some ?x |- _ =>
    pose proof (sub_cases m _ x Hok Hl); destruct x; simpl in *; clear Hl
  end;
  repeat match goal with
  | Hs : _ ∨ _ |- _ => destruct Hs as [Hs|Hs]; try subst
  end.

Lemma spec_unsubscribe_pair m n : store_ok m → pair_ok m n → pair_ok (spec_unsubscribe m) n.
Proof.
  intros Hok [Hf Hb Ha Hp]. unfold spec_unsubscribe.
  split; rewrite ?(on_item_lookup_ne kc ku), ?on_item_lookup, ?(on_item_lookup_ne ku kc) by done;
    both_sides m Hok; by simplify_eq/=.
Qed.

Lemma spec_unsubscribed_pair m n : store_ok m → pair_ok m n →
  pair_ok (spec_unsubscribed (bool_decide (is_Some (n !! kc))) m) (delete kc n).
Proof.
  intros Hok [Hf Hb Ha Hp]. unfold spec_unsubscribed. rewrite <-Ha.
  split; rewrite ?lookup_delete_eq, ?on_item_lookup, ?(on_item_lookup_ne ku kc) by done;
    destruct (asks (m !! ku)) eqn:Hask; rewrite ?on_item_lookup, ?(on_item_lookup_ne kc ku) by done;
    both_sides m Hok; by simplify_eq/=.
Qed.

Lemma spec_subscribe_pair m n n' : store_ok m → pair_ok m n →
  (m !! ku = None ∨ spec_subscribe m ≠ m → is_Some (n' !! kc)) →
  (spec_subscribe m = m → n' = n) → pair_ok (spec_subscribe m) n'.
Proof.
  intros Hok [Hf Hb Ha Hp] Hnew Hold. unfold spec_subscribe in *.
  destruct (m !! ku) as [i|] eqn:Hi.
  - destruct (bool_decide _ || Ask i) eqn:Hs.
    { rewrite Hold by done. by split; rewrite ?Hi. }
    apply orb_false_iff in Hs as [Hs Hask].
    assert (is_Some (n' !! kc)) as Hn'.
    { apply Hnew. right. intros Heq. apply (f_equal (lookup ku)) in Heq.
      rewrite lookup_insert_eq, Hi in Heq. injection Heq as Heq. apply (f_equal Ask) in Heq.
      simpl in Heq. congruence. }
    split; rewrite ?lookup_insert_eq, ?lookup_insert_ne by done; simpl in *; try done.
    by rewrite bool_decide_eq_true_2.
  - assert (is_Some (n' !! kc)) as Hn' by (apply Hnew; by left).
    split; rewrite ?lookup_insert_eq, ?lookup_insert_ne by done; simpl in *; try done.
    by rewrite bool_decide_eq_true_2.
Qed.

Lemma spec_subscribed_pair m n : store_ok m → pair_ok m n → is_Some (m !! ku) →
  pair_ok (spec_subscribed m) (delete kc n).
Proof.
  intros Hok [Hf Hb Ha Hp] [i0 Hsome]. unfold spec_subscribed.
  split; rewrite ?lookup_delete_eq, ?on_item_lookup, ?(on_item_lookup_ne ku kc),
      ?lookup_insert_eq, ?lookup_insert_ne by done;
    rewrite Hsome in *; clear Ha; destruct (m !! kc) as [c|] eqn:Hc;
    pose proof (sub_cases m _ _ Hok Hsome) as Hs1;
    try (pose proof (sub_cases m _ _ Hok Hc) as Hs2; destruct c); destruct i0; simpl in *;
    repeat match goal with
    | Hs : _ ∨ _ |- _ => destruct Hs as [Hs|Hs]; try subst
    end; simplify_eq/=; try done;
    match goal with |- ?a = false => destruct a; [by discriminate Hp|done] end.
Qed.

(** C3: the two sides of a subscription stay consistent: for two accounts of this
    server, processing a subscribe, unsubscribe, subscribed or unsubscribed
    presence between them keeps the user's "to" equal to the contact's "from",
    the user's "from" equal to the contact's "to", and a pending request equal
    to a stored notification.  The one exception is a "subscribed" that answers
    no request, for which the user must have an item. *)
Theorem subscription_pair_consistent (p : Element) (w w' : W)
    (Hok : store_ok (items w)) (Hpair : pair_ok (items w) (notifs w))
    (Hdir : (Attribute p AttrType ∈ [SubscribeType; UnsubscribeType] ∧
             ToBareJID (FromJID p) = U ∧ ToBareJID (ToJID p) = C) ∨
            (Attribute p AttrType ∈ [SubscribedType; UnsubscribedType] ∧
             ToBareJID (FromJID p) = C ∧ ToBareJID (ToJID p) = U))
    (Hsol : Attribute p AttrType = SubscribedType → is_Some (items w !! ku))
    (Hrun : processPresence p w = (Ok tt, w')) :
  pair_ok (items w') (notifs w').
Proof.
  unfold processPresence in Hrun. destruct Hdir as [(Ht & HF & HT)|(Ht & HF & HT)];
    rewrite !elem_of_cons, elem_of_nil in Ht; destruct Ht as [Ht|[Ht|[]]]; rewrite Ht in *;
    simpl in Hrun.
  - destruct (processSubscribe_Ok p w w' Hok HF HT Hrun) as (-> & Hnew & Hold).
    apply (spec_subscribe_pair _ (notifs w)); [done|done|by intros Hx; apply Hnew|done].
  - destruct (processUnsubscribe_Ok p w w' Hok HF HT Hrun) as (-> & ->).
    by apply spec_unsubscribe_pair.
  - destruct (processSubscribed_Ok p w w' Hok HF HT Hrun) as (-> & ->).
    apply spec_subscribed_pair; [done|done|by apply Hsol].
  - destruct (processUnsubscribed_Ok p w w' Hok HF HT Hrun) as (-> & ->).
    by apply spec_unsubscribed_pair.
Qed.

(** An unsubscribe from a contact to whom the user is not subscribed (state
    "from") cancels the opposite subscription: the user's item goes to "none" and
    so does the contact's "to". *)
Theorem unsubscribe_cancels_reverse (p : Element) (w w' : W) (i c : Item)
    (Hok : store_ok (items w)) (HF : ToBareJID (FromJID p) = U) (HT : ToBareJID (ToJID p) = C)
    (Hi : items w !! ku = Some i) (Hc : items w !! kc = Some c)
    (Hfrom : Subscription i = SubFrom) (Hto : Subscription c = SubTo)
    (Hrun : processUnsubscribe p w = (Ok tt, w')) :
  Subscription <$> (items w' !! ku) = Some SubNone ∧
  Subscription <$> (items w' !! kc) = Some SubNone.
Proof.
  destruct (processUnsubscribe_Ok p w w' Hok HF HT Hrun) as (-> & _). unfold spec_unsubscribe.
  rewrite (on_item_lookup_ne kc ku), !on_item_lookup, (on_item_lookup_ne ku kc), Hi, Hc by done.
  simpl. by rewrite Hfrom, Hto.
Qed.

(** A "subscribed" that answers no request makes the sides inconsistent: the
    contact's item says that the user receives its presence although the user
    has no item for the contact. *)
Theorem unsolicited_subscribed_breaks (p : Element) (w w' : W)
    (Hok : store_ok (items w)) (HF : ToBareJID (FromJID p) = C) (HT : ToBareJID (ToJID p) = U)
    (Hi : items w !! ku = None) (Hc : items w !! kc = None)
    (Hrun : processSubscribed p w = (Ok tt, w')) :
  items w' !! ku = None ∧ Subscription <$> (items w' !! kc) = Some SubFrom.
Proof.
  destruct (processSubscribed_Ok p w w' Hok HF HT Hrun) as (-> & _). unfold spec_subscribed.
  rewrite on_item_lookup, (on_item_lookup_ne ku kc), lookup_insert_eq, lookup_insert_ne, Hi, Hc by done.
  done.
Qed.

End pair.

(** ** Roster IQs and probes *)

Lemma parseVer_Itoa z : parseVer (Itoa z) = 0%Z.
Proof.
  destruct (Itoa_head z) as (c & s & -> & Hc). simpl.
  assert (Ascii.eqb c "v" = false) as ->; [|done].
  destruct Hc as [-> | (d & Hd & ->)]; [done|].
  assert (d = 0 ∨ d = 1 ∨ d = 2 ∨ d = 3 ∨ d = 4 ∨ d = 5 ∨ d = 6 ∨ d = 7 ∨ d = 8 ∨ d = 9)%Z
    as Hc by lia.
  repeat (destruct Hc as [->|Hc]; [by vm_compute|]). subst. by vm_compute.
Qed.

(** Roster versioning never takes effect: the version attribute of a roster
    push is [Itoa] of the version, and a client that sends it back gets the
    whole roster again, because [parseVer] expects a leading "v". *)
Theorem pushed_version_never_matches (iq q : Element) (v : Z) (w : W)
    (Hq : ChildNamespace iq "query" rosterNamespace = Some q) (Hempty : ChildrenCount q = 0)
    (Hver : Attribute q "ver" = Itoa v) :
  sendRoster iq w =
    (_ ← orInternalError iq (rep_FetchRosterVersion (Node (FromJID iq)));
     its ← orInternalError iq (rep_FetchRosterItems (Node (FromJID iq)));
     routeTo (MakeResultIQ iq (Some (Build "query" [(Namespace, rosterNamespace)]
       (map encodeRosterItem its) "")));;
     rosterSent (FromJID iq)) w.
Proof.
  unfold sendRoster. rewrite Hq, Hempty. simpl. rewrite Hver, parseVer_Itoa.
  apply bind_ext. intros ver w1 _.
  by destruct (Z.ltb_spec 0 ver), (Z.eqb_spec ver 0); try lia.
Qed.

(** A probe reveals nothing to a user without a subscription: unless the
    contact's item for the prober says "from" or "both", nothing is looked up or
    routed after that item is read. *)
Theorem probe_needs_subscription (p : Element) (w w1 : W) (o : option Item)
    (Hlocal : ro_IsLocalHost (Domain (ToJID p)) = true)
    (Hread : rep_FetchRosterItem (Node (ToJID p)) (JIDString (ToBareJID (FromJID p))) w = (Ok o, w1))
    (Hno : ∀ i, o = Some i → Subscription i ∉ [SubBoth; SubFrom]) :
  processProbe p w = (Ok tt, w1).
Proof.
  unfold processProbe. rewrite Domain_bare, Node_bare, Hlocal. simpl.
  rewrite (bind_Ok _ _ _ o w1) by done. destruct o as [i|]; [|done].
  by rewrite bool_decide_eq_false_2 by (by apply Hno).
Qed.

(** A roster set cannot forge a subscription: it changes the item of its JID
    only, an existing item keeps its subscription and its pending request, and
    a new item has no subscription (its [Ask] is the client's). *)
Theorem roster_set_keeps_subscription (ri : Item) (u : string) (w w' : W)
    (Hok : store_ok (items w)) (Hrun : updateItem ri u w = (Ok tt, w')) :
  (∀ k, k ≠ (u, Jid ri) → items w' !! k = items w !! k) ∧
  ∃ i', items w' !! (u, Jid ri) = Some i' ∧ Groups i' = Groups ri ∧
    match items w !! (u, Jid ri) with
    | Some i => Subscription i' = Subscription i ∧ Ask i' = Ask i
    | None => Subscription i' = SubNone ∧ Ask i' = Ask ri
    end.
Proof.
  unfold updateItem in Hrun. inv_bind Hrun as o w1 Hf. apply fetch_Ok in Hf as [-> [Hi _]].
  apply upsertItem_Ok in Hrun as [Hu _]. rewrite Hi in Hu.
  destruct (items w !! (u, Jid ri)) as [i|] eqn:Hl; simpl in Hu.
  - rewrite (store_key _ _ _ Hok Hl) in Hu. rewrite Hu.
    split; [intros k Hk; by rewrite lookup_insert_ne|]. rewrite lookup_insert_eq. by eexists.
  - rewrite Hu. split; [intros k Hk; by rewrite lookup_insert_ne|]. rewrite lookup_insert_eq. by eexists.
Qed.

End lemmas.
End proofs.

(** ** Witnesses: two accounts of one server *)
Module RosterDemo.
Import TreeLib.

Record world := MkWorld {
  d_items : gmap (string * string) Item;
  d_notifs : gmap (string * string) tree;
  d_routed : list tree;
}.

Definition upd_items f : M world unit :=
  modify (fun w => MkWorld (f (d_items w)) (d_notifs w) (d_routed w)).
Definition upd_notifs f : M world unit :=
  modify (fun w => MkWorld (d_items w) (f (d_notifs w)) (d_routed w)).

#[export] Instance env : RosterEnv world := {|
  rep_FetchRosterVersion := fun _ => mret 3%Z;
  rep_FetchRosterItem := fun u j => gets (fun w => d_items w !! (u, j));
  rep_FetchRosterItems := fun u =>
    gets (fun w => (map_to_list (filter (fun kv => kv.1.1 = u) (d_items w))).*2);
  rep_UpsertRosterNotification := fun u j e => upd_notifs (insert (u, j) e);
  rep_FetchRosterNotification := fun u j => gets (fun w => d_notifs w !! (u, j));
  rep_FetchRosterNotifications := fun _ => mret [];
  rep_DeleteRosterNotification := fun u j => upd_notifs (delete (u, j));
  rep_InTransaction := fun m w => match m w with (Ok a, w') => (Ok a, w') | (r, _) => (r, w) end;
  tx_TouchRosterVersion := fun _ => mret 4%Z;
  tx_UpsertRosterItem := fun ri => upd_items (insert (Username ri, Jid ri) ri);
  tx_DeleteRosterItem := fun u j => upd_items (delete (u, j));
  tx_DeleteRosterNotifications := fun u => upd_notifs (filter (fun kv => kv.1.1 ≠ u));
  tx_DeleteRosterItems := fun u => upd_items (filter (fun kv => kv.1.1 ≠ u));
  ro_Route := fun e => modify (fun w => MkWorld (d_items w) (d_notifs w) (d_routed w ++ [e]));
  ro_GetResources := fun _ => mret []; ro_LocalStream := fun _ _ => mret 1%Z;
  ro_StreamInfo := fun _ _ => ∅; ro_SetInfoBool := fun _ _ _ => mret tt;
  ro_IsLocalHost := fun d => String.eqb d "jackal.im"; ro_runHook := fun _ _ _ _ => mret tt;
  ro_uuid := mret "uuid" |}.

#[export] Instance views : RosterViews := {| items := d_items; notifs := d_notifs |}.

Lemma repo_ok : RosterRepo.
Proof.
  split; try (intros; done); try (intros u j w o w' [= <- _]; done).
  intros m w. simpl. destruct (m w) as [[[]|e|c] w']; [by eexists|done..].
Qed.

Definition romeo : JID := MkJid "romeo" "jackal.im" "".
Definition juliet : JID := MkJid "juliet" "jackal.im" "".
Definition presence (typ : string) (f t : JID) : Element :=
  TNode "presence" [("from", JIDString f); ("to", JIDString t); ("type", typ)] [] "" (Some KPresence).

Definition empty : world := MkWorld ∅ ∅ [].
Definition requested : world := (processSubscribe (presence "subscribe" romeo juliet) empty).2.

(** Romeo's and Juliet's items in given states. *)
Definition item (u j s : string) : Item := MkItem u j "" s [] false.
Definition with_subs (su sc : string) : world :=
  MkWorld (<[("romeo", "juliet@jackal.im") := item "romeo" "juliet@jackal.im" su]>
    {[ ("juliet", "romeo@jackal.im") := item "juliet" "romeo@jackal.im" sc ]}) ∅ [].

Lemma with_subs_ok su sc : sub_ok su → sub_ok sc → store_ok (items (with_subs su sc)).
Proof.
  intros Hu Hc. apply map_Forall_insert_2; [by split|]. by apply map_Forall_singleton.
Qed.

Lemma empty_ok : store_ok (items empty).
Proof. apply map_Forall_empty. Qed.

Lemma roster_store_invariant_witness :
  store_ok (items (handle_all [EvPresence (presence "subscribe" romeo juliet);
    EvPresence (presence "subscribed" juliet romeo); EvUserDeleted "romeo"] empty).2).
Proof. apply (@roster_store_invariant _ _ _ _ _ repo_ok), empty_ok. Defined.

Lemma roster_item_roundtrip_witness :
  decodeRosterItem (encodeRosterItem (MkItem "romeo" "juliet@jackal.im" "Juliet" SubBoth ["A"; "B"] true))
  = Ok (MkItem "" "juliet@jackal.im" "Juliet" SubBoth ["A"; "B"] false).
Proof.
  apply (roster_item_roundtrip (MkItem "romeo" "juliet@jackal.im" "Juliet" SubBoth ["A"; "B"] true) juliet);
    [reflexivity|reflexivity|discriminate|apply elem_of_cons; by left|].
  constructor; [discriminate|]. constructor; [discriminate|constructor].
Defined.

(** Juliet accepts Romeo's request. *)
Lemma subscription_pair_consistent_witness :
  pair_ok romeo juliet
    (items (processPresence (presence "subscribed" juliet romeo) requested).2)
    (notifs (processPresence (presence "subscribed" juliet romeo) requested).2).
Proof.
  apply (@subscription_pair_consistent _ _ _ _ _ repo_ok romeo juliet eq_refl eq_refl ltac:(discriminate)
    (presence "subscribed" juliet romeo) requested).
  - apply map_Forall_insert_2; [|apply map_Forall_empty]. split; [reflexivity|].
    apply elem_of_cons. by left.
  - split; vm_compute; done.
  - right. split; [apply elem_of_cons; by left|]. split; reflexivity.
  - intros _. vm_compute. by eexists.
  - apply fst_Ok. vm_compute. reflexivity.
Defined.

Lemma unsubscribe_cancels_reverse_witness :
  Subscription <$> (items (processUnsubscribe (presence "unsubscribe" romeo juliet)
    (with_subs SubFrom SubTo)).2 !! kc romeo juliet) = Some SubNone.
Proof.
  apply (@unsubscribe_cancels_reverse _ _ _ _ _ repo_ok romeo juliet eq_refl eq_refl
    ltac:(discriminate) (presence "unsubscribe" romeo juliet) (with_subs SubFrom SubTo)
    (processUnsubscribe (presence "unsubscribe" romeo juliet) (with_subs SubFrom SubTo)).2
    (item "romeo" "juliet@jackal.im" SubFrom) (item "juliet" "romeo@jackal.im" SubTo));
    try reflexivity.
  - apply with_subs_ok; apply (bool_decide_unpack _); vm_compute; exact I.
Defined.

Lemma unsolicited_subscribed_breaks_witness :
  Subscription <$> (items (processSubscribed (presence "subscribed" juliet romeo) empty).2
    !! kc romeo juliet) = Some SubFrom.
Proof.
  apply (@unsolicited_subscribed_breaks _ _ _ _ _ repo_ok romeo juliet eq_refl eq_refl
    ltac:(discriminate) (presence "subscribed" juliet romeo) empty); try reflexivity.
  - apply empty_ok.
Defined.

Definition roster_get : Element :=
  TNode "iq" [("type", "get"); ("from", "romeo@jackal.im/balcony")]
    [TNode "query" [("xmlns", rosterNamespace); ("ver", "3")] [] "" None] "" (Some KIQ).

Lemma pushed_version_never_matches_witness :
  sendRoster roster_get empty =
    (_ ← orInternalError roster_get (rep_FetchRosterVersion (Node (FromJID roster_get)));
     its ← orInternalError roster_get (rep_FetchRosterItems (Node (FromJID roster_get)));
     routeTo (MakeResultIQ roster_get (Some (Build "query" [(Namespace, rosterNamespace)]
       (map encodeRosterItem its) "")));;
     rosterSent (FromJID roster_get)) empty.
Proof.
  apply (pushed_version_never_matches roster_get
    (TNode "query" [("xmlns", rosterNamespace); ("ver", "3")] [] "" None) 3); reflexivity.
Defined.

Lemma probe_needs_subscription_witness :
  processProbe (presence "probe" romeo juliet) (with_subs SubTo SubTo) =
    (Ok tt, with_subs SubTo SubTo).
Proof.
  apply (probe_needs_subscription (presence "probe" romeo juliet) (with_subs SubTo SubTo)
    (with_subs SubTo SubTo) (Some (item "juliet" "romeo@jackal.im" SubTo))); [reflexivity..|].
  intros i [= <-]. apply (bool_decide_unpack _). vm_compute. exact I.
Defined.

Lemma roster_set_keeps_subscription_witness :
  ∃ i', items (updateItem (MkItem "" "juliet@jackal.im" "J" SubBoth ["A"] true) "romeo"
    (with_subs SubFrom SubTo)).2 !! ("romeo", "juliet@jackal.im") = Some i' ∧
    Groups i' = ["A"] ∧ Subscription i' = SubFrom ∧ Ask i' = false.
Proof.
  destruct (@roster_set_keeps_subscription _ _ _ _ _ repo_ok
    (MkItem "" "juliet@jackal.im" "J" SubBoth ["A"] true) "romeo" (with_subs SubFrom SubTo)
    (updateItem (MkItem "" "juliet@jackal.im" "J" SubBoth ["A"] true) "romeo"
      (with_subs SubFrom SubTo)).2) as [_ Hx].
  - apply with_subs_ok; apply (bool_decide_unpack _); vm_compute; exact I.
  - apply fst_Ok. vm_compute. reflexivity.
  - exact Hx.
Defined.

End RosterDemo.
