(* ===== verification/Storage.v ===== *)
(** * Stored entities

    The entities the repositories store (src/pkg/model) and their binary form
    (src/pkg/model/codec.go), and the order of keys in a store that iterates in
    byte order. *)

From stdpp Require Import base list strings gmap sorting.
From Stdlib Require Import ZArith Lia Ascii.
From S2P Require Import Prelude GoLib Stravaganza Roster.

(** ** Binary form ([model.Codec]) *)
Class Codec (A : Type) := {
  MarshalBinary : A → goerror + string;
  UnmarshalBinary : string → goerror + A;
}.

(** What is written is read back. *)
Class CodecOk (A : Type) `{!Codec A} : Prop :=
  codec_roundtrip : ∀ (a : A) b, MarshalBinary a = inr b → UnmarshalBinary b = inr a.

(** ** Entities *)
Section entities.
Context `{XmlLib}.

(** [rostermodel.Notification]; its presence is kept as an element *)
Record Notification := MkNotification { rn_Contact : string; rn_Jid : string; rn_Presence : Element }.

(** [rostermodel.Version]: a 32-bit counter *)
Record RosterVersion := MkVersion { rv_Version : Z }.
Definition int32 (z : Z) : Z := ((z + 2 ^ 31) mod 2 ^ 32 - 2 ^ 31)%Z.

(** [blocklistmodel.Item] *)
Record BlockItem := MkBlockItem { bl_Username : string; bl_Jid : string }.

(** [lastmodel.Last] *)
Record Last := MkLast { la_Username : string; la_Seconds : Z; la_Status : string }.

(** [capsmodel.Capabilities] *)
Record Capabilities := MkCaps { ca_Node : string; ca_Ver : string; ca_Features : list string }.

(** [archivemodel.Message], [Metadata] and [Filters]; a time stamp counts
    nanoseconds, a missing one is zero *)
Record ArchiveMessage := MkArchive {
  ar_ArchiveId : string; ar_Id : string; ar_FromJid : string; ar_ToJid : string;
  ar_Message : Element; ar_Stamp : Z }.
Record Metadata := MkMetadata {
  md_StartId : string; md_StartTimestamp : string; md_EndId : string; md_EndTimestamp : string }.
Record Filters := MkFilters {
  fi_Start : option Z; fi_End : option Z; fi_With : string;
  fi_BeforeId : string; fi_AfterId : string; fi_Ids : list string }.

End entities.

#[global] Instance BlockItem_eq_dec : EqDecision BlockItem.
Proof. solve_decision. Defined.

(** ** Byte order *)
Definition key_le (a b : string) : Prop := String.leb a b = true.

Lemma string_compare_trans a b c : String.compare a b ≠ Gt → String.compare b c ≠ Gt → String.compare a c ≠ Gt.
Proof.
  revert b c. induction a as [|x a IH]; intros [|y b] [|z c]; simpl; try done.
  unfold Ascii.compare.
  destruct (N.compare_spec (N_of_ascii x) (N_of_ascii y)) as [E|E|E],
    (N.compare_spec (N_of_ascii y) (N_of_ascii z)) as [E'|E'|E'],
    (N.compare_spec (N_of_ascii x) (N_of_ascii z)) as [E''|E''|E'']; try lia; try done.
  apply IH.
Qed.

#[global] Instance key_le_dec : RelDecision key_le.
Proof. intros a b. unfold key_le. apply _. Defined.
#[global] Instance key_le_total : Total key_le.
Proof.
  intros a b. unfold key_le, String.leb. rewrite (String.compare_antisym b a).
  destruct (String.compare a b); simpl; auto.
Qed.
#[global] Instance key_le_trans : Transitive key_le.
Proof.
  intros a b c. unfold key_le, String.leb.
  pose proof (string_compare_trans a b c) as Ht.
  destruct (String.compare a b), (String.compare b c), (String.compare a c); try done;
    by destruct Ht.
Qed.
#[global] Instance key_le_antisym : AntiSymm eq key_le.
Proof.
  intros a b. unfold key_le, String.leb. rewrite (String.compare_antisym b a).
  destruct (String.compare a b) eqn:E; simpl; try done. intros _ _. by apply String.compare_eq_iff.
Qed.

(** The entries of a bucket in the order of a cursor. *)
Definition entry_le (x y : string * string) : Prop := key_le x.1 y.1.
#[global] Instance entry_le_dec : RelDecision entry_le.
Proof. intros x y. unfold entry_le. apply _. Defined.
#[global] Instance entry_le_total : Total entry_le.
Proof. intros x y. apply key_le_total. Qed.
#[global] Instance entry_le_trans : Transitive entry_le.
Proof. intros x y z. apply key_le_trans. Qed.

Definition cursor_of (m : gmap string string) : list (string * string) :=
  merge_sort entry_le (map_to_list m).

Lemma cursor_perm m : cursor_of m ≡ₚ map_to_list m.
Proof. apply merge_sort_Permutation. Qed.
Lemma cursor_sorted m : StronglySorted entry_le (cursor_of m).
Proof. apply (StronglySorted_merge_sort _). Qed.

Lemma elem_of_cursor m k v : (k, v) ∈ cursor_of m ↔ m !! k = Some v.
Proof. rewrite cursor_perm. apply elem_of_map_to_list. Qed.

(** There is one order of the entries of a bucket. *)
Lemma sorted_entries_unique (l1 l2 : list (string * string)) : NoDup l1.*1 →
  StronglySorted entry_le l1 → StronglySorted entry_le l2 → l1 ≡ₚ l2 → l1 = l2.
Proof.
  revert l2. induction l1 as [|x l1 IH]; intros l2 Hd H1 H2 Hp.
  { by apply Permutation_nil_l in Hp. }
  destruct l2 as [|y l2]; [by apply Permutation_nil_r in Hp|].
  apply StronglySorted_inv in H1 as [H1 Hx], H2 as [H2 Hy].
  assert (x = y) as <-.
  { assert (y ∈ x :: l1) as Hin by (rewrite Hp; set_solver).
    assert (x ∈ y :: l2) as Hin' by (rewrite <-Hp; set_solver).
    rewrite Forall_forall in Hx, Hy.
    apply elem_of_cons in Hin as [<-|Hin]; [done|]. apply elem_of_cons in Hin' as [->|Hin']; [done|].
    assert (x.1 = y.1) as E by (apply (anti_symm key_le); [by apply Hx|by apply Hy]).
    apply NoDup_cons in Hd as [Hd _]. exfalso. apply Hd. rewrite E. by apply list_elem_of_fmap_2. }
  f_equal. apply NoDup_cons in Hd as [_ Hd]. apply IH; [done..|]. by apply Permutation_cons_inv in Hp.
Qed.
