(* ===== verification/S2SIn.v ===== *)
(** * The incoming S2S stream (pkg/s2s/in.go, flags.go, in_hub.go)

    The state machine of a connection another server opened: stream opening,
    STARTTLS, SASL EXTERNAL or dialback, stanza processing and termination.  The
    goroutines that wait for a dialback result and the disconnect timer are part
    of the stream's state; each of them becomes an event. *)

From stdpp Require Import base list strings gmap.
From Stdlib Require Import ZArith Lia.
From S2P Require Import Prelude GoLib GoHoare Stravaganza Hosts Dialback.

(** ** Flags (flags.go) *)
Module Flags.
Local Open Scope Z_scope.

Definition fSecured : Z := 1.
Definition fAuthenticated : Z := 4.
Definition fDialbackKeyAuthorized : Z := 8.

(** [f.fs & mask > 0] and [f.fs | mask], on [uint8] *)
Definition has (mask flg : Z) : bool := 0 <? Z.land flg mask.
Definition set (mask flg : Z) : Z := Z.lor flg mask.

Definition isSecured := has fSecured.
Definition setSecured := set fSecured.
Definition isAuthenticated := has fAuthenticated.
Definition setAuthenticated := set fAuthenticated.
Definition isDialbackKeyAuthorized := has fDialbackKeyAuthorized.
Definition setDialbackKeyAuthorized := set fDialbackKeyAuthorized.

(** The values the setters can reach. *)
Definition valid (flg : Z) : Prop := flg ∈ [0; 1; 4; 5; 8; 9; 12; 13].
Definition masks : list Z := [fSecured; fAuthenticated; fDialbackKeyAuthorized].

Lemma set_spec flg m k : valid flg → m ∈ masks → k ∈ masks →
  valid (set m flg) ∧ has k (set m flg) = has k flg || bool_decide (k = m).
Proof.
  unfold valid, masks. intros Hf Hm Hk.
  repeat (apply elem_of_cons in Hf as [->|Hf]; [|]); try (by apply not_elem_of_nil in Hf);
  repeat (apply elem_of_cons in Hm as [->|Hm]; [|]); try (by apply not_elem_of_nil in Hm);
  repeat (apply elem_of_cons in Hk as [->|Hk]; [|]); try (by apply not_elem_of_nil in Hk);
  (split; [vm_compute; set_solver|reflexivity]).
Qed.

End Flags.

(** ** Types *)
Inductive inState := inConnecting | inConnected | inAuthorizingDialbackKey | inDisconnected.
#[global] Instance inState_eq_dec : EqDecision inState.
Proof. solve_decision. Defined.

Record inConfig := MkInConfig { maxStanzaSize : Z; directTLS : bool }.

(** [DialbackParams] (out.go) *)
Record DialbackParams := MkDbParams {
  dbp_StreamID : string;
  dbp_From : string;
  dbp_To : string;
  dbp_Key : string;
}.

(** Hook names (pkg/hook/s2s.go). *)
Definition S2SInStreamRegistered : string := "s2s.in.stream.registered".
Definition S2SInStreamUnregistered : string := "s2s.in.stream.unregistered".
Definition S2SInStreamElementReceived : string := "s2s.in.stream.stanza_received".
Definition S2SInStreamIQReceived : string := "s2s.in.stream.iq_received".
Definition S2SInStreamPresenceReceived : string := "s2s.in.stream.presence_received".
Definition S2SInStreamMessageReceived : string := "s2s.in.stream.message_received".
Definition S2SInStreamWillRouteElement : string := "s2s.in.stream.will_route_element".
Definition S2SInStreamIQRouted : string := "s2s.in.stream.iq_routed".
Definition S2SInStreamPresenceRouted : string := "s2s.in.stream.presence_routed".
Definition S2SInStreamMessageRouted : string := "s2s.in.stream.message_routed".

(** Namespaces (pkg/s2s/namespace.go). *)
Definition streamNamespace : string := "http://etherx.jabber.org/streams".
Definition saslNamespace : string := "urn:ietf:params:xml:ns:xmpp-sasl".
Definition tlsNamespace : string := "urn:ietf:params:xml:ns:xmpp-tls".
Definition dialbackNamespace : string := "urn:xmpp:features:dialback".

(** ** The hub of incoming streams (in_hub.go)

    Streams are known by their identifiers. *)
Module InHub.
Definition t := gmap Z unit.
Definition NewInHub : t := ∅.
Definition register (id : Z) (h : t) : t := <[id := tt]> h.
Definition unregister (id : Z) (h : t) : t := delete id h.
(** The streams [Stop] disconnects. *)
Definition streams (h : t) : list Z := (map_to_list h).*1.
End InHub.

Section s2s.
Context `{XmlLib}.

(** [hook.S2SStreamInfo] *)
Record S2SStreamInfo := MkInfo {
  hi_ID : string;
  hi_Sender : string;
  hi_Target : string;
  hi_Targets : list JID;
  hi_Element : option Element;
}.

(** [inS2S].  [discTm] tells whether the disconnect timer is pending, [done_]
    whether [doneCh] is closed; [waiting] are the goroutines that wait for the
    result of a dialback stream, with the domains of the [db:result]. *)
Record inS2S := MkIn {
  id : Z;
  cfg : inConfig;
  discTm : bool;
  done_ : bool;
  sendDisabled : bool;
  state : inState;
  flags : Z;
  jd : option JID;
  target : string;
  sender : string;
  waiting : list (nat * (string * string));
}.

Definition set_discTm (v : bool) (s : inS2S) : inS2S :=
  MkIn (id s) (cfg s) v (done_ s) (sendDisabled s) (state s) (flags s) (jd s) (target s) (sender s) (waiting s).
Definition set_done (v : bool) (s : inS2S) : inS2S :=
  MkIn (id s) (cfg s) (discTm s) v (sendDisabled s) (state s) (flags s) (jd s) (target s) (sender s) (waiting s).
Definition set_sendDisabled (v : bool) (s : inS2S) : inS2S :=
  MkIn (id s) (cfg s) (discTm s) (done_ s) v (state s) (flags s) (jd s) (target s) (sender s) (waiting s).
Definition set_state (v : inState) (s : inS2S) : inS2S :=
  MkIn (id s) (cfg s) (discTm s) (done_ s) (sendDisabled s) v (flags s) (jd s) (target s) (sender s) (waiting s).
Definition set_flags (v : Z) (s : inS2S) : inS2S :=
  MkIn (id s) (cfg s) (discTm s) (done_ s) (sendDisabled s) (state s) v (jd s) (target s) (sender s) (waiting s).
Definition set_jd (v : option JID) (s : inS2S) : inS2S :=
  MkIn (id s) (cfg s) (discTm s) (done_ s) (sendDisabled s) (state s) (flags s) v (target s) (sender s) (waiting s).
Definition set_target (v : string) (s : inS2S) : inS2S :=
  MkIn (id s) (cfg s) (discTm s) (done_ s) (sendDisabled s) (state s) (flags s) (jd s) v (sender s) (waiting s).
Definition set_sender (v : string) (s : inS2S) : inS2S :=
  MkIn (id s) (cfg s) (discTm s) (done_ s) (sendDisabled s) (state s) (flags s) (jd s) (target s) v (waiting s).
Definition set_waiting (v : list (nat * (string * string))) (s : inS2S) : inS2S :=
  MkIn (id s) (cfg s) (discTm s) (done_ s) (sendDisabled s) (state s) (flags s) (jd s) (target s) (sender s) v.

(** ** What the stream calls (pkg/s2s/interface.go) *)
Class S2SInEnv (W : Type) := {
  (** session *)
  ss_StreamID : W → string;
  ss_SetFromJID : option JID → M W unit;
  ss_OpenStream : M W unit;
  ss_Send : Element → M W unit;
  ss_Close : M W unit;
  ss_Reset : M W unit;
  (** transport; a certificate is the list of its DNS names *)
  tr_SetReadRateLimiter : Z * Z → M W unit;
  tr_PeerCertificates : W → list (list string);
  tr_StartTLS : string → W → W;
  tr_Close : M W unit;
  (** hosts *)
  hosts_DefaultHostName : string;
  hosts_IsLocalHost : string → bool;
  (** router, components and modules *)
  rt_Route : Element → M W (list JID);
  comps_IsComponentHost : string → W → bool;
  comps_ProcessStanza : Element → M W unit;
  mods_IsModuleIQ : Element → W → bool;
  mods_ProcessIQ : Element → M W unit;
  (** the provider of outgoing streams; a dialback stream is a handle *)
  op_DialbackSecret : string;
  op_GetDialback : string → string → DialbackParams → M W nat;
  (** the hub *)
  hub_register : Z → W → W;
  hub_unregister : Z → W → W;
  (** hooks; a handler sees the stream only through its identifier *)
  hk_Run : string → S2SStreamInfo → M W (bool * S2SStreamInfo);
  shapers : list Shaper.Shaper;
}.

Section methods.
Context {W : Type} `{!S2SInEnv W, !KV W}.
Abbreviation MS := (M (inS2S * W)).

(** [S2SInID.String] *)
Definition idString (i : Z) : string := "s2s:in:" +:+ FormatUint i.

(** [newInS2S] *)
Definition newInS2S (i : Z) (c : inConfig) : M W inS2S :=
  tr_SetReadRateLimiter (Shaper.RateLimiter Shaper.DefaultS2S);;
  mret (MkIn i c false false false inConnecting
          (if directTLS c then Flags.setSecured 0 else 0) None "" "" []).

Definition getState : MS inState := fld state.
Definition setState (v : inState) : MS unit := setf (set_state v).
Definition setFlag (f : Z → Z) : MS unit := setf (fun s => set_flags (f (flags s)) s).

(** [runHook] *)
Definition runHook (name : string) (hi : S2SStreamInfo) : MS (bool * S2SStreamInfo) :=
  onW (hk_Run name hi).

(** The info the methods build from the stream. *)
Definition hookInfo (targets : list JID) (elem : option Element) : MS S2SStreamInfo :=
  fld (fun s => MkInfo (idString (id s)) (sender s) (target s) targets elem).

(** [sendElement] *)
Definition sendElement (elem : Element) : MS unit :=
  disabled ← fld sendDisabled;
  if disabled : bool then mret tt else onW (ss_Send elem).

(** [restartSession] *)
Definition restartSession : MS unit :=
  ignore (onW ss_Reset);;
  setState inConnecting.

(** [updateRateLimiter] *)
Definition updateRateLimiter : MS unit :=
  j ← fld jd;
  sh ← pureO (Shaper.MatchingJID shapers j);
  onW (tr_SetReadRateLimiter (Shaper.RateLimiter sh)).

(** [close(s.doneCh)] *)
Definition closeDone : MS unit :=
  d ← fld done_;
  if d : bool then crash_with CloseOfClosedChannel else setf (set_done true).

(** [close]; the deferred close of [doneCh] runs on both returns. *)
Definition close : MS unit :=
  st ← getState;
  if decide (st = inDisconnected) then mret tt
  else
    setState inDisconnected;;
    setf (set_discTm false);;
    i ← fld id;
    onW (modify (hub_unregister i));;
    r ← try (runHook S2SInStreamUnregistered (MkInfo (idString i) "" "" [] None));
    match r with
    | inl e => closeDone;; fail e
    | inr _ => ignore (onW tr_Close);; closeDone
    end.

(** [disconnect] *)
Definition disconnect (streamErr : option stream_reason) : MS unit :=
  st ← getState;
  (if decide (st = inConnecting) then ignore (onW ss_OpenStream) else mret tt);;
  match streamErr with
  | Some r => sendElement (StreamErrorElement r None)
  | None => mret tt
  end;;
  ignore (onW ss_Close);;
  st ← getState;
  if decide (st ≠ inConnecting ∧ streamErr = Some ConnectionTimeout) then
    setf (set_discTm true);;
    setf (set_sendDisabled true)
  else close.

(** [handleConnecting] *)
Definition handleConnecting (elem : Element) : MS unit :=
  let to := Attribute elem AttrTo in
  setf (set_target (if String.eqb to "" then hosts_DefaultHostName else to));;
  setf (set_sender (Attribute elem AttrFrom));;
  sndr ← fld sender;
  let j := NewJID "" sndr "" true in
  setf (set_jd j);;
  onW (ss_SetFromJID j);;
  fl ← fld flags;
  let features children := Build "stream:features"
    [("xmlns:stream", streamNamespace); ("version", "1.0")] children "" in
  let open fb :=
    setState inConnected;;
    onW ss_OpenStream;;
    onW (ss_Send fb) in
  if negb (Flags.isSecured fl) then
    open (features [Build "starttls" [(Namespace, tlsNamespace)] [Build "required" [] [] ""] ""])
  else
    open (features
      ((if negb (Flags.isAuthenticated fl) then
          [Build "mechanisms" [(Namespace, saslNamespace)] [Build "mechanism" [] [] "EXTERNAL"] ""]
        else []) ++
       [Build "dialback" [(Namespace, dialbackNamespace)] [] ""])).

(** [proceedStartTLS] *)
Definition proceedStartTLS (elem : Element) : MS unit :=
  if negb (String.eqb (Attribute elem Namespace) tlsNamespace) then
    disconnect (Some InvalidNamespace)
  else if negb (String.eqb (Name elem) "starttls") then disconnect (Some NotAuthorized)
  else
    sendElement (Build "proceed" [(Namespace, tlsNamespace)] [] "");;
    t ← fld target;
    onW (modify (tr_StartTLS t));;
    setFlag Flags.setSecured;;
    restartSession.

(** [failAuthentication] *)
Definition failAuthentication (reason text : string) : MS unit :=
  sendElement (Build "failure" [(Namespace, saslNamespace)]
    (Build reason [] [] "" :: (if String.eqb text "" then [] else [Build "text" [] [] text])) "").

(** [finishAuthentication] *)
Definition finishAuthentication : MS unit :=
  updateRateLimiter;;
  setFlag Flags.setAuthenticated;;
  restartSession;;
  sendElement (Build "success" [(Namespace, saslNamespace)] [] "").

(** [authenticate] *)
Definition authenticate (elem : Element) : MS unit :=
  if negb (String.eqb (Attribute elem Namespace) saslNamespace) then
    disconnect (Some InvalidNamespace)
  else if negb (String.eqb (Attribute elem "mechanism") "EXTERNAL") then
    failAuthentication "invalid-mechanism" ""
  else
    certs ← wfld tr_PeerCertificates;
    sndr ← fld sender;
    if existsb (fun names => existsb (fun n => String.eqb n sndr) names) certs
    then finishAuthentication
    else failAuthentication "bad-protocol" "Failed to get peer certificate".

(** [authorizeDialbackKey] *)
Definition authorizeDialbackKey (elem : Element) : MS unit :=
  let elemFrom := Attribute elem AttrFrom in
  let elemTo := Attribute elem AttrTo in
  if negb (hosts_IsLocalHost elemTo) then sendElement (StanzaError SEItemNotFound elem)
  else
    sid ← wfld ss_StreamID;
    r ← try (onW (op_GetDialback hosts_DefaultHostName elemFrom
                    (MkDbParams sid elemTo elemFrom (Text elem))));
    match r with
    | inl _ => sendElement (StanzaError SERemoteServerTimeout elem)
    | inr h =>
      setf (fun s => set_waiting (waiting s ++ [(h, (elemFrom, elemTo))]) s);;
      setState inAuthorizingDialbackKey
    end.

(** [handleDialbackResult] *)
Definition handleDialbackResult (from to : string) (valid : bool) : MS unit :=
  (if valid then
     updateRateLimiter;;
     setFlag Flags.setDialbackKeyAuthorized
   else mret tt);;
  setState inConnected;;
  sendElement (Build "db:result"
    [(AttrFrom, to); (AttrTo, from); (AttrType, if valid then "valid" else "invalid")] [] "").

(** [verifyDialbackKey] *)
Definition verifyDialbackKey (elem : Element) : MS unit :=
  if negb (hosts_IsLocalHost (Attribute elem AttrTo)) then
    sendElement (StanzaError SEItemNotFound elem)
  else
    let sndr := Attribute elem AttrFrom in
    let trgt := Attribute elem AttrTo in
    let streamID := Attribute elem AttrID in
    let answer typ := Build "db:verify"
      [(AttrFrom, trgt); (AttrTo, sndr); (AttrID, streamID); ("type", typ)] [] "" in
    dbReqOn ← onW (isDbRequestOn sndr trgt streamID);
    let expectedKey := dbKey op_DialbackSecret sndr trgt streamID in
    if (dbReqOn : bool) && String.eqb expectedKey (Text elem) then
      onW (unregisterDbRequest streamID);;
      sendElement (answer "valid")
    else sendElement (answer "invalid").

(** ** Stanza processing *)

(** The checked assertion on the element a hook left in its info. *)
Definition element_as (k : stanza_kind) (hi : S2SStreamInfo) : option Element :=
  match hi_Element hi with
  | Some e => if decide (Kind e = Some k) then Some e else None
  | None => None
  end.

(** [processIQ] *)
Definition processIQ (iq : Element) : MS unit :=
  hi ← hookInfo [] (Some iq);
  _ ← runHook S2SInStreamIQReceived hi;
  if IsResult iq || IsError iq then mret tt
  else
    isModule ← wfld (mods_IsModuleIQ iq);
    if isModule : bool then onW (mods_ProcessIQ iq)
    else
      hi ← hookInfo [] (Some iq);
      '(halted, hi) ← runHook S2SInStreamWillRouteElement hi;
      if halted : bool then mret tt
      else
        match element_as KIQ hi with
        | None => mret tt
        | Some outIQ =>
          r ← try (onW (rt_Route outIQ));
          match r with
          | inl ErrResourceNotFound => sendElement (StanzaError SEServiceUnavailable iq)
          | inl ErrRemoteServerNotFound => sendElement (StanzaError SERemoteServerNotFound iq)
          | inl ErrRemoteServerTimeout => sendElement (StanzaError SERemoteServerTimeout iq)
          | inr targets =>
            hi ← hookInfo targets (Some iq); _ ← runHook S2SInStreamIQRouted hi; mret tt
          | inl ErrUserNotAvailable =>
            hi ← hookInfo [] (Some iq); _ ← runHook S2SInStreamIQRouted hi; mret tt
          | inl _ => mret tt
          end
        end.

(** The loop of [processMessage], between the label [sendMsg] and the jump back
    to it; [message] is the stanza that arrived, [msg] the one to route. *)
Fixpoint sendMsg (fuel : nat) (message msg : Element) : MS unit :=
  match fuel with
  | O => crash_with OutOfFuel
  | S fuel' =>
    hi ← hookInfo [] (Some msg);
    '(halted, hi) ← runHook S2SInStreamWillRouteElement hi;
    if halted : bool then mret tt
    else
      match element_as KMessage hi with
      | None => mret tt
      | Some outMsg =>
        r ← try (onW (rt_Route outMsg));
        let routed (targets : list JID) (unavailable : bool) : MS unit :=
          hi ← hookInfo targets (Some msg);
          h ← try (runHook S2SInStreamMessageRouted hi);
          match h with
          | inr (true, _) => mret tt
          | _ =>
            if unavailable then sendElement (StanzaError SEServiceUnavailable message)
            else match h with inl e => fail e | inr _ => mret tt end
          end in
        match r with
        | inl ErrResourceNotFound =>
          msg' ← deref (BuildFrom msg
            [(AttrFrom, JIDString (FromJID message));
             (AttrTo, JIDString (ToBareJID (ToJID message)))] [] KMessage);
          sendMsg fuel' message msg'
        | inl ErrNotExistingAccount => sendElement (StanzaError SEServiceUnavailable message)
        | inl ErrRemoteServerNotFound => sendElement (StanzaError SERemoteServerNotFound message)
        | inl ErrRemoteServerTimeout => sendElement (StanzaError SERemoteServerTimeout message)
        | inr targets => routed targets false
        | inl ErrUserNotAvailable => routed [] true
        | inl e => fail e
        end
      end
  end.

(** [processMessage]; see [s2s_message_terminates] for the fuel. *)
Definition processMessage (message : Element) : MS unit :=
  hi ← hookInfo [] (Some message);
  _ ← runHook S2SInStreamMessageReceived hi;
  sendMsg 2 message message.

(** [processPresence] *)
Definition processPresence (presence : Element) : MS unit :=
  hi ← hookInfo [] (Some presence);
  _ ← runHook S2SInStreamPresenceReceived hi;
  if IsFullWithUser (ToJID presence) then
    hi ← hookInfo [] (Some presence);
    '(halted, hi) ← runHook S2SInStreamWillRouteElement hi;
    if halted : bool then mret tt
    else
      match element_as KPresence hi with
      | None => mret tt
      | Some outPr =>
        r ← try (onW (rt_Route outPr));
        match r with
        | inr targets =>
          hi ← hookInfo targets (Some presence);
          _ ← runHook S2SInStreamPresenceRouted hi; mret tt
        | inl ErrUserNotAvailable =>
          hi ← hookInfo [] (Some presence);
          _ ← runHook S2SInStreamPresenceRouted hi; mret tt
        | inl _ => mret tt
        end
      end
  else mret tt.

(** [processStanza] *)
Definition processStanza (stanza : Element) : MS unit :=
  isComp ← wfld (comps_IsComponentHost (Domain (ToJID stanza)));
  if isComp : bool then onW (comps_ProcessStanza stanza)
  else
    match Kind stanza with
    | Some KIQ => processIQ stanza
    | Some KPresence => processPresence stanza
    | Some KMessage => processMessage stanza
    | None => disconnect (Some UnsupportedStanzaType)
    end.

(** [handleConnected] *)
Definition handleConnected (elem : Element) : MS unit :=
  fl ← fld flags;
  if negb (Flags.isSecured fl) then proceedStartTLS elem
  else if String.eqb (Name elem) "auth" && negb (Flags.isAuthenticated fl) then authenticate elem
  else if String.eqb (Name elem) "db:result" && negb (Flags.isDialbackKeyAuthorized fl) then
    authorizeDialbackKey elem
  else if String.eqb (Name elem) "db:verify" then verifyDialbackKey elem
  else if Flags.isAuthenticated fl || Flags.isDialbackKeyAuthorized fl then
    hi ← hookInfo [] (Some elem);
    '(halted, hi) ← runHook S2SInStreamElementReceived hi;
    if halted : bool then mret tt
    else
      match hi_Element hi with
      | Some e => if is_stanza e then processStanza e else disconnect (Some UnsupportedStanzaType)
      | None => disconnect (Some UnsupportedStanzaType)
      end
  else mret tt.

(** [handleElement] *)
Definition handleElement (elem : Element) : MS unit :=
  st ← getState;
  match st with
  | inConnecting => handleConnecting elem
  | inConnected => handleConnected elem
  | _ => mret tt
  end.

(** [handleSessionError] *)
Definition handleSessionError (err : goerror) : MS unit :=
  (if decide (err = ErrStreamClosedByPeer) then ignore (onW ss_Close) else mret tt);;
  ignore close.

(** [handleSessionResult]: an element, an error, or neither *)
Definition handleSessionResult (r : option (goerror + Element)) : MS unit :=
  match r with
  | Some (inr elem) => ignore (handleElement elem)
  | Some (inl err) => handleSessionError err
  | None => mret tt
  end.

(** [connTimeout] *)
Definition connTimeout : MS unit := ignore (disconnect (Some ConnectionTimeout)).

(** [start], up to the first iteration of [readLoop] *)
Definition start : MS unit :=
  i ← fld id;
  onW (modify (hub_register i));;
  _ ← runHook S2SInStreamRegistered (MkInfo (idString i) "" "" [] None);
  restartSession.

(** The condition on which [readLoop] goes on. *)
Definition readLoop_continues (s : inS2S) : bool :=
  match state s with inDisconnected => false | _ => true end.

(** ** What can happen to a stream

    [EvSession] is a round of [readLoop], which checks the state before it
    handles what was received; [EvDialback] is the result of the dialback stream
    [h], for which a goroutine waits. *)
Inductive event :=
| EvSession (r : option (goerror + Element))
| EvDisconnect (streamErr : option stream_reason)
| EvTimeout
| EvDiscTimer
| EvDialback (h : nat) (valid : bool).

Fixpoint take_waiting (h : nat) (l : list (nat * (string * string)))
    : option ((string * string) * list (nat * (string * string))) :=
  match l with
  | [] => None
  | (h', d) :: l' =>
    if decide (h = h') then Some (d, l')
    else '(d', r) ← take_waiting h l'; Some (d', (h', d) :: r)
  end.

Definition step (ev : event) : MS unit :=
  match ev with
  | EvSession r =>
    s ← fld (fun s => s);
    if readLoop_continues s then handleSessionResult r else mret tt
  | EvDisconnect e => ignore (disconnect e)
  | EvTimeout => connTimeout
  | EvDiscTimer =>
    pending ← fld discTm;
    if pending : bool then
      setf (set_discTm false);;
      ignore close
    else mret tt
  | EvDialback h valid =>
    ws ← fld waiting;
    match take_waiting h ws with
    | Some ((from, to), ws') =>
      setf (set_waiting ws');;
      ignore (handleDialbackResult from to valid)
    | None => mret tt
    end
  end.

Fixpoint run (evs : list event) : MS unit :=
  match evs with
  | [] => mret tt
  | ev :: evs' => step ev;; run evs'
  end.

End methods.
End s2s.
