(* ===== verification/S2SOut.v ===== *)
(** * The outgoing S2S stream (pkg/s2s/out.go)

    The state machine of a connection this server opens, for stanzas (the
    default type) or to verify a dialback key (the dialback type).  Stanzas
    handed to the stream before it is authenticated wait in [pendingQueue]. *)

From stdpp Require Import base list strings gmap.
From Stdlib Require Import ZArith Lia.
From S2P Require Import Prelude GoLib GoHoare Base64 Stravaganza Hosts Dialback S2SIn.

Definition errServerTimeout : goerror := ErrServerTimeout.

Inductive outType := defaultType | dialbackType.
#[global] Instance outType_eq_dec : EqDecision outType.
Proof. solve_decision. Defined.

Inductive outState :=
| outConnecting
| outConnected
| outSecuring
| outAuthenticating
| outAuthenticated
| outVerifyingDialbackKey
| outAuthorizingDialbackKey
| outDisconnected.
#[global] Instance outState_eq_dec : EqDecision outState.
Proof. solve_decision. Defined.

Definition S2SOutStreamConnected : string := "s2s.out.stream.connected".
Definition S2SOutStreamDisconnected : string := "s2s.out.stream.disconnected".
Definition S2SOutStreamElementSent : string := "s2s.out.stream.element_sent".

Section out.
Context `{XmlLib}.

(** [stream.DialbackResult] *)
Record DialbackResult := MkDbResult { Valid : bool; dbError : option Element }.

(** [outS2S].  [dialed] tells whether the session exists; [dbResCh] are the
    values in the channel of capacity one of a dialback stream, [dbClosed]
    whether it is closed. *)
Record outS2S := MkOut {
  typ : outType;
  dbSecret : string;
  sender : string;
  target : string;
  dbParams : DialbackParams;
  dialed : bool;
  state : outState;
  flags : Z;
  pendingQueue : list Element;
  dbResCh : list DialbackResult;
  dbClosed : bool;
}.

Definition set_dialed (v : bool) (s : outS2S) : outS2S :=
  MkOut (typ s) (dbSecret s) (sender s) (target s) (dbParams s) v (state s) (flags s)
    (pendingQueue s) (dbResCh s) (dbClosed s).
Definition set_state (v : outState) (s : outS2S) : outS2S :=
  MkOut (typ s) (dbSecret s) (sender s) (target s) (dbParams s) (dialed s) v (flags s)
    (pendingQueue s) (dbResCh s) (dbClosed s).
Definition set_flags (v : Z) (s : outS2S) : outS2S :=
  MkOut (typ s) (dbSecret s) (sender s) (target s) (dbParams s) (dialed s) (state s) v
    (pendingQueue s) (dbResCh s) (dbClosed s).
Definition set_pendingQueue (v : list Element) (s : outS2S) : outS2S :=
  MkOut (typ s) (dbSecret s) (sender s) (target s) (dbParams s) (dialed s) (state s) (flags s)
    v (dbResCh s) (dbClosed s).
Definition set_dbResCh (v : list DialbackResult) (s : outS2S) : outS2S :=
  MkOut (typ s) (dbSecret s) (sender s) (target s) (dbParams s) (dialed s) (state s) (flags s)
    (pendingQueue s) v (dbClosed s).
Definition set_dbClosed (v : bool) (s : outS2S) : outS2S :=
  MkOut (typ s) (dbSecret s) (sender s) (target s) (dbParams s) (dialed s) (state s) (flags s)
    (pendingQueue s) (dbResCh s) v.

(** ** What the stream calls *)
Class S2SOutEnv (W : Type) := {
  (** the dialer: whether the connection is already secured *)
  dl_DialContext : string → M W bool;
  (** session *)
  ss_StreamID : W → string;
  ss_SetFromJID : option JID → M W unit;
  ss_OpenStream : M W unit;
  ss_Send : Element → M W unit;
  ss_Close : M W unit;
  ss_Reset : M W unit;
  (** transport *)
  tr_SetReadRateLimiter : Z * Z → M W unit;
  tr_StartTLS : W → W;
  tr_Close : M W unit;
  (** [onClose] of a default stream: the provider forgets the stream *)
  op_unregister : string → string → W → W;
  hk_Run : string → S2SStreamInfo → M W (bool * S2SStreamInfo);
}.

Section methods.
Context {W : Type} `{!S2SOutEnv W, !KV W}.
Abbreviation MS := (M (outS2S * W)).

(** [newOutS2S] and [newDialbackS2S] *)
Definition newOutS2S (secret sndr trgt : string) : outS2S :=
  MkOut defaultType secret sndr trgt (MkDbParams "" "" "" "") false outConnecting 0 [] [] false.
Definition newDialbackS2S (secret sndr trgt : string) (params : DialbackParams) : outS2S :=
  MkOut dialbackType secret sndr trgt params false outConnecting 0 [] [] false.

(** [S2SOutID.String] *)
Definition idString (s : outS2S) : string := "s2s:out:" +:+ sender s +:+ "-" +:+ target s.

Definition getState : MS outState := fld state.
Definition setState (v : outState) : MS unit := setf (set_state v).
Definition setFlag (f : Z → Z) : MS unit := setf (fun s => set_flags (f (flags s)) s).

(** A call on the session or on the transport, which are nil before [dial]. *)
Definition onSession {A} (m : M W A) : MS A :=
  d ← fld dialed;
  if d : bool then onW m else crash_with NilDeref.

(** [runHook]: dialback streams run no hooks. *)
Definition runHook (name : string) (sndr trgt : string) (elem : option Element) : MS unit :=
  s ← fld (fun s => s);
  match typ s with
  | dialbackType => mret tt
  | defaultType => _ ← onW (hk_Run name (MkInfo (idString s) sndr trgt [] elem)); mret tt
  end.

(** [sendElement] *)
Definition sendElement (elem : Element) : MS unit :=
  onSession (ss_Send elem);;
  s ← fld (fun s => s);
  runHook S2SOutStreamElementSent (sender s) (target s) (Some elem).

(** [restartSession] *)
Definition restartSession : MS unit :=
  ignore (onSession ss_Reset);;
  setState outConnecting.

(** [s.dbResCh <- r]; the channel of a default stream is nil. *)
Definition sendResult (r : DialbackResult) : MS unit :=
  s ← fld (fun s => s);
  match typ s with
  | defaultType => crash_with Deadlock
  | dialbackType =>
    if dbClosed s then crash_with SendOnClosedChannel
    else match dbResCh s with
         | [] => setf (set_dbResCh [r])
         | _ => crash_with Deadlock
         end
  end.

(** [close(s.dbResCh)], for a stream that has the channel *)
Definition closeResult : MS unit :=
  s ← fld (fun s => s);
  match typ s with
  | defaultType => mret tt
  | dialbackType =>
    if dbClosed s then crash_with CloseOfClosedChannel else setf (set_dbClosed true)
  end.

(** [close] *)
Definition close : MS unit :=
  setState outDisconnected;;
  s ← fld (fun s => s);
  match typ s with
  | defaultType => onW (modify (op_unregister (sender s) (target s)))
  | dialbackType => mret tt
  end;;
  closeResult;;
  runHook S2SOutStreamDisconnected "" "" None;;
  ignore (onSession tr_Close).

(** [disconnect] *)
Definition disconnect (streamErr : option stream_reason) : MS unit :=
  st ← getState;
  (if decide (st = outConnecting) then ignore (onSession ss_OpenStream) else mret tt);;
  match streamErr with
  | Some r => sendElement (StreamErrorElement r None)
  | None => mret tt
  end;;
  ignore (onSession ss_Close);;
  close.

(** [dial] *)
Definition dial : MS unit :=
  trgt ← fld target;
  r ← try (onW (dl_DialContext trgt));
  match r with
  | inl (NetError true) => fail errServerTimeout
  | inl e => fail e
  | inr usesTLS =>
    onW (tr_SetReadRateLimiter (Shaper.RateLimiter Shaper.DefaultS2S));;
    setf (set_dialed true);;
    onW (ss_SetFromJID (NewJID "" trgt "" true));;
    if (usesTLS : bool) then setFlag Flags.setSecured else mret tt
  end.

(** [start], up to the first iteration of [readLoop] *)
Definition start : MS unit :=
  restartSession;;
  ignore (onSession ss_OpenStream);;
  runHook S2SOutStreamConnected "" "" None.

(** [finishAuthentication] *)
Definition finishAuthentication : MS unit :=
  setState outAuthenticated;;
  q ← fld pendingQueue;
  for_each q sendElement;;
  setf (set_pendingQueue []).

(** [hasExternalAuthMechanism] and [hasDialbackFeature]; the list of children
    with a name and a namespace is nil exactly when there is none. *)
Definition hasExternalAuthMechanism (features : Element) : bool :=
  match ChildNamespace features "mechanisms" saslNamespace with
  | None => false
  | Some m => existsb (fun c => String.eqb (Name c) "mechanism" && String.eqb (Text c) "EXTERNAL")
                (AllChildren m)
  end.
Definition hasDialbackFeature (features : Element) : bool :=
  match ChildNamespace features "dialback" dialbackNamespace with Some _ => true | None => false end.

(** [handleConnecting] *)
Definition handleConnecting : MS unit := setState outConnected.

(** [handleConnected] *)
Definition handleConnected (elem : Element) : MS unit :=
  if negb (String.eqb (Name elem) "stream:features") then disconnect (Some UnsupportedStanzaType)
  else
    s ← fld (fun s => s);
    if negb (Flags.isSecured (flags s)) then
      match ChildNamespace elem "starttls" tlsNamespace with
      | None => disconnect (Some PolicyViolation)
      | Some _ =>
        setState outSecuring;;
        sendElement (Build "starttls" [(Namespace, tlsNamespace)] [] "")
      end
    else if Flags.isAuthenticated (flags s) then finishAuthentication
    else
      match typ s with
      | defaultType =>
        if hasExternalAuthMechanism elem then
          setState outAuthenticating;;
          sendElement (Build "auth" [(Namespace, saslNamespace); ("mechanism", "EXTERNAL")] []
            (EncodeToString (bytes_of_string (sender s))))
        else if hasDialbackFeature elem then
          streamID ← wfld ss_StreamID;
          onW (registerDbRequest (target s) (sender s) streamID);;
          setState outVerifyingDialbackKey;;
          sendElement (Build "db:result" [(AttrFrom, sender s); (AttrTo, target s)] []
            (dbKey (dbSecret s) (target s) (sender s) streamID))
        else disconnect (Some RemoteConnectionFailed)
      | dialbackType =>
        setState outAuthorizingDialbackKey;;
        sendElement (Build "db:verify"
          [(AttrID, dbp_StreamID (dbParams s)); (AttrFrom, dbp_From (dbParams s));
           (AttrTo, dbp_To (dbParams s))] [] (dbp_Key (dbParams s)))
      end.

(** [handleSecuring] *)
Definition handleSecuring (elem : Element) : MS unit :=
  if negb (String.eqb (Name elem) "proceed") then disconnect (Some UnsupportedStanzaType)
  else if negb (String.eqb (Attribute elem Namespace) tlsNamespace) then
    disconnect (Some InvalidNamespace)
  else
    onSession (modify tr_StartTLS);;
    setFlag Flags.setSecured;;
    restartSession;;
    onSession ss_OpenStream.

(** [handleAuthenticating] *)
Definition handleAuthenticating (elem : Element) : MS unit :=
  if negb (String.eqb (Attribute elem Namespace) saslNamespace) then
    disconnect (Some InvalidNamespace)
  else if String.eqb (Name elem) "success" then
    setFlag Flags.setAuthenticated;;
    restartSession;;
    onSession ss_OpenStream
  else if String.eqb (Name elem) "failure" then disconnect (Some RemoteConnectionFailed)
  else disconnect (Some UnsupportedStanzaType).

(** [handleVerifyingDialbackKey] *)
Definition handleVerifyingDialbackKey (elem : Element) : MS unit :=
  if String.eqb (Name elem) "db:result" then
    if String.eqb (Attribute elem AttrType) "valid" then finishAuthentication
    else disconnect (Some RemoteConnectionFailed)
  else disconnect (Some UnsupportedStanzaType).

(** [handleAuthorizingDialbackKey] *)
Definition handleAuthorizingDialbackKey (elem : Element) : MS unit :=
  if String.eqb (Name elem) "db:verify" then
    sendResult (MkDbResult (String.eqb (Attribute elem AttrType) "valid") (Child elem "error"));;
    disconnect None
  else disconnect (Some UnsupportedStanzaType).

(** [handleElement] *)
Definition handleElement (elem : Element) : MS unit :=
  st ← getState;
  match st with
  | outConnecting => handleConnecting
  | outConnected => handleConnected elem
  | outSecuring => handleSecuring elem
  | outAuthenticating => handleAuthenticating elem
  | outVerifyingDialbackKey => handleVerifyingDialbackKey elem
  | outAuthorizingDialbackKey => handleAuthorizingDialbackKey elem
  | outAuthenticated | outDisconnected => mret tt
  end.

(** [handleSessionError] *)
Definition handleSessionError (err : goerror) : MS unit :=
  (if decide (err = ErrStreamClosedByPeer) then ignore (onSession ss_Close) else mret tt);;
  ignore close.

(** [handleSessionResult] *)
Definition handleSessionResult (r : option (goerror + Element)) : MS unit :=
  match r with
  | Some (inr elem) =>
    r ← try (handleElement elem);
    match r with inl _ => ignore close | inr _ => mret tt end
  | Some (inl err) => handleSessionError err
  | None => mret tt
  end.

(** [connTimeout] *)
Definition connTimeout : MS unit := ignore (disconnect (Some ConnectionTimeout)).

(** [sendOrEnqueueElement] *)
Definition sendOrEnqueueElement (elem : Element) : MS unit :=
  st ← getState;
  match st with
  | outAuthenticated => sendElement elem
  | _ => setf (fun s => set_pendingQueue (pendingQueue s ++ [elem]) s)
  end.

(** The condition [readLoop] checks before it hands a result on. *)
Definition readLoop_continues (s : outS2S) : bool :=
  match state s with outDisconnected => false | _ => true end.

(** ** What can happen to a stream

    A result of the session that [readLoop] hands on, and the exported methods,
    whose errors go to the caller's channel.  The condition of [readLoop] is
    checked before the handler is queued, so that a handler can run on a stream
    that a call of [Disconnect] has closed in between. *)
Inductive event :=
| EvSession (r : option (goerror + Element))
| EvSend (e : Element)
| EvDisconnect (streamErr : option stream_reason).

Definition step (ev : event) : MS unit :=
  match ev with
  | EvSession r => handleSessionResult r
  | EvSend e => ignore (sendOrEnqueueElement e)
  | EvDisconnect e => ignore (disconnect e)
  end.

Fixpoint run (evs : list event) : MS unit :=
  match evs with
  | [] => mret tt
  | ev :: evs' => step ev;; run evs'
  end.

(** The elements the events hand to the stream. *)
Fixpoint submitted (evs : list event) : list Element :=
  match evs with
  | [] => []
  | EvSend e :: evs' => e :: submitted evs'
  | _ :: evs' => submitted evs'
  end.

End methods.
End out.
