(* ===== verification/S2SInProofs.v ===== *)
(** * Properties of the incoming S2S stream

    The invariant of the stream of [S2SIn] in every reachable state, what
    authorises a peer, the verification of dialback keys, the termination of
    message processing, and two ways the stream goes wrong. *)

From stdpp Require Import base list strings gmap.
From Stdlib Require Import ZArith Lia.
From S2P Require Import Prelude GoLib GoHoare Stravaganza Hosts Dialback S2SIn.

(** ** The interface of the collaborators *)
Section safety.
Context `{XmlLib} {W : Type} `{!S2SInEnv W, !KV W}.
(** What a call may do to the world when it does not handle a stanza. *)
Context (R : relation W).

Definition calm {A} (m : M W A) : Prop := ∀ w,
  R w (m w).2 ∧ (m w).1 ≠ Crash CloseOfClosedChannel.
Definition unclosing {A} (m : M W A) : Prop := ∀ w, (m w).1 ≠ Crash CloseOfClosedChannel.

Class InEnvOk : Prop := {
  ok_pre :: PreOrder R;
  ok_SetFromJID : ∀ j, calm (ss_SetFromJID j);
  ok_OpenStream : calm ss_OpenStream;
  ok_Send : ∀ e, calm (ss_Send e);
  ok_Close : calm ss_Close;
  ok_Reset : calm ss_Reset;
  ok_RateLimiter : ∀ l, calm (tr_SetReadRateLimiter l);
  ok_StartTLS : ∀ t w, R w (tr_StartTLS t w);
  ok_trClose : calm tr_Close;
  ok_GetDialback : ∀ a b p, calm (op_GetDialback a b p);
  ok_register : ∀ i w, R w (hub_register i w);
  ok_unregister : ∀ i w, R w (hub_unregister i w);
  ok_hooks : ∀ n hi, calm (hk_Run n hi);
  ok_kvGet : ∀ k, calm (kv_Get k);
  ok_kvDel : ∀ k, calm (kv_Del k);
  ok_Route : ∀ e, unclosing (rt_Route e);
  ok_ProcessStanza : ∀ e, unclosing (comps_ProcessStanza e);
  ok_ProcessIQ : ∀ e, unclosing (mods_ProcessIQ e);
}.
Context `{!InEnvOk}.

Abbreviation St := (inS2S * W)%type.
Abbreviation MS := (M (inS2S * W)).

Definition no_double (c : crash) : Prop := c ≠ CloseOfClosedChannel.

(** ** The invariant *)
Definition authorized (s : inS2S) : bool :=
  Flags.isAuthenticated (flags s) || Flags.isDialbackKeyAuthorized (flags s).

Record Inv (s : inS2S) : Prop := MkInv {
  inv_valid : Flags.valid (flags s);
  inv_secured : authorized s = true → Flags.isSecured (flags s) = true;
  inv_waiting : waiting s ≠ [] → Flags.isSecured (flags s) = true;
  inv_authorizing : state s = inAuthorizingDialbackKey → Flags.isSecured (flags s) = true;
  inv_done : done_ s = true ↔ state s = inDisconnected;
}.

(** The invariant, a further fact on the flags, and a fact on the world that
    quiet calls keep. *)
Section walk.
Context (Φ : Z → Prop) (G : W → Prop).
Context (HG : ∀ w w', R w w' → G w → G w').

Definition P (sw : St) : Prop := Inv sw.1 ∧ Φ (flags sw.1) ∧ G sw.2.

(** A stream that [close] has marked as disconnected. *)
Definition closing (sw : St) : Prop :=
  Inv (set_done true sw.1) ∧ done_ sw.1 = false ∧ state sw.1 = inDisconnected ∧
  Φ (flags sw.1) ∧ G sw.2.

Lemma calm_modify f : (∀ w, R w (f w)) → calm (modify f).
Proof. intros Hf w. split; [apply Hf|done]. Qed.

Lemma calm_onW {A} (Q : St → Prop) (m : M W A) :
  (∀ s w w', G w' → Q (s, w) → Q (s, w')) → (∀ s w, Q (s, w) → G w) →
  calm m → inv no_double Q (onW m).
Proof.
  intros HQ HQG Hm. apply (inv_onW _ R); [intros w; apply Hm| |].
  - intros w c Hc. destruct (Hm w). unfold no_double. congruence.
  - intros s w w' Hr Hq. eapply HQ; [|exact Hq]. eapply HG; [exact Hr|]. by eapply HQG.
Qed.

Lemma calm_inv {A} (m : M W A) : calm m → inv no_double P (onW m).
Proof. apply calm_onW; unfold P; naive_solver. Qed.

Lemma closing_calm {A} (m : M W A) : calm m → inv no_double closing (onW m).
Proof. apply calm_onW; unfold closing; naive_solver. Qed.

Lemma crash_ok {A} c : c ≠ CloseOfClosedChannel → inv no_double P (@crash_with St A c).
Proof. intros Hc. by apply inv_crash. Qed.

Lemma deref_ok {A} (o : option A) : inv no_double P (deref o).
Proof. by apply inv_deref. Qed.

Lemma shaper_quiet ss j : Shaper.MatchingJID ss j ≠ Crash CloseOfClosedChannel.
Proof. induction ss as [|s ss IH]; simpl; destruct j; try done. by case_match. Qed.

Lemma pure_ok {A} (r : outcome A) : r ≠ Crash CloseOfClosedChannel → inv no_double P (pureO r).
Proof. intros Hr. apply inv_pureO. destruct r; [done|done|]. unfold no_double. congruence. Qed.

Create HintDb s2sin.
#[local] Hint Resolve ok_SetFromJID ok_OpenStream ok_Send ok_Close ok_Reset ok_RateLimiter
  ok_StartTLS ok_trClose ok_GetDialback ok_register ok_unregister ok_hooks ok_kvGet ok_kvDel
  shaper_quiet calm_modify : s2sin.
#[local] Hint Extern 1 (inv _ P (onW _)) => apply calm_inv; solve [eauto with s2sin] : gohoare.
#[local] Hint Extern 1 (inv _ closing (onW _)) => apply closing_calm; solve [eauto with s2sin] : gohoare.
#[local] Hint Extern 1 (inv _ _ (pureO _)) => apply pure_ok; solve [eauto with s2sin] : gohoare.
#[local] Hint Resolve deref_ok : gohoare.
#[local] Hint Extern 1 (inv _ _ (crash_with _)) => apply crash_ok; discriminate : gohoare.

Lemma sendElement_inv e : inv no_double P (sendElement e).
Proof. unfold sendElement. inv_walk. Qed.
Lemma runHook_inv n hi : inv no_double P (runHook n hi).
Proof. unfold runHook. inv_walk. Qed.
Lemma hookInfo_inv ts e : inv no_double P (hookInfo ts e).
Proof. unfold hookInfo. inv_walk. Qed.
Lemma getState_inv : inv no_double P getState.
Proof. unfold getState. inv_walk. Qed.
Lemma updateRateLimiter_inv : inv no_double P updateRateLimiter.
Proof. unfold updateRateLimiter. inv_walk. Qed.
Lemma failAuthentication_inv r t : inv no_double P (failAuthentication r t).
Proof. apply sendElement_inv. Qed.
#[local] Hint Resolve sendElement_inv runHook_inv hookInfo_inv getState_inv updateRateLimiter_inv
  failAuthentication_inv : gohoare.

Lemma closeDone_closing : hoare no_double closing closeDone (fun _ => P) P.
Proof.
  intros [s w] (Hi & Hd & Hs & Hf & Hg). unfold closeDone, mbind, M_bind. simpl in *.
  rewrite Hd. split; [exact Hi|done].
Qed.

(** A change of the record that the invariant does not see. *)
Lemma closing_setf f :
  (∀ s, flags (f s) = flags s ∧ waiting (f s) = waiting s ∧ state (f s) = state s ∧ done_ (f s) = done_ s) →
  inv no_double closing (setf f).
Proof.
  intros Hf [s w] ([] & Hd & Hs & Hp & Hg). simpl in *. destruct (Hf s) as (E1 & E2 & E3 & E4).
  unfold closing, authorized in *. simpl. rewrite E1, E3, E4. split; [|done].
  split; unfold authorized; simpl; rewrite ?E1, ?E2, ?E3; done.
Qed.

Lemma close_inv : inv no_double P close.
Proof.
  unfold close. eapply hoare_bind; [apply hoare_fld|intros st]. cbv beta.
  case_decide as Hst; [intros sw [Hp _]; exact Hp|].
  eapply hoare_pre with (P' := fun sw => P sw ∧ state sw.1 ≠ inDisconnected);
    [intros sw [Hp ->]; done|].
  eapply hoare_bind with (R := fun _ => closing).
  { intros [s w] [([] & HF & Hw) Hs]. simpl in *.
    assert (done_ s = false) as Hd by (destruct (done_ s); [tauto|done]).
    split; [|done]. split; simpl; try done. }
  intros ?.
  eapply hoare_bind; [apply inv_errless; [by apply closing_setf|by intros []]|intros ?].
  eapply hoare_bind; [apply inv_errless; [apply inv_fld|by intros []]|intros i].
  eapply hoare_bind; [apply inv_errless; [apply closing_calm, calm_modify, ok_unregister|by intros []]|intros ?].
  eapply hoare_bind with (R := fun _ => closing).
  { eapply hoare_conseq; [apply (hoare_try _ _ _ (fun _ => closing) closing P), closing_calm, ok_hooks
      |done|by intros [] ?|done]. }
  intros [e|r].
  - eapply hoare_bind; [apply closeDone_closing|intros ? sw Hp; exact Hp].
  - eapply hoare_bind; [apply hoare_ignore, closing_calm, ok_trClose|intros ?; apply closeDone_closing].
Qed.
#[local] Hint Resolve close_inv : gohoare.

(** Changes of the record. *)
Lemma setf_inv f :
  (∀ s, flags (f s) = flags s ∧ waiting (f s) = waiting s ∧ state (f s) = state s ∧ done_ (f s) = done_ s) →
  inv no_double P (setf f).
Proof.
  intros Hf. apply inv_setf. intros s w ([] & Hp & Hg). destruct (Hf s) as (E1 & E2 & E3 & E4).
  unfold P, authorized in *. simpl in *. rewrite E1. split; [|done].
  split; unfold authorized; rewrite ?E1, ?E2, ?E3, ?E4; done.
Qed.
#[local] Hint Extern 1 (inv _ P (setf _)) => apply setf_inv; intros ?; done : gohoare.

Lemma disconnect_inv e : inv no_double P (disconnect e).
Proof. unfold disconnect. inv_walk. Qed.
#[local] Hint Resolve disconnect_inv : gohoare.

(** A stream that is not disconnected may change its state. *)
Definition alive (sw : St) : Prop := P sw ∧ state sw.1 ≠ inDisconnected.

Lemma setState_alive v : v ≠ inDisconnected → v ≠ inAuthorizingDialbackKey →
  hoare no_double alive (setState v) (fun _ => alive) P.
Proof.
  intros Hv Hv2 [s w] [([] & Hp & Hg) Hs]. simpl in *. split; [|done]. split; [|done].
  split; simpl; try done. rewrite inv_done0. tauto.
Qed.

Lemma alive_calm {A} (m : M W A) : calm m → hoare no_double alive (onW m) (fun _ => alive) P.
Proof.
  intros Hm sw [Hp Hs]. pose proof (calm_inv m Hm sw Hp) as Hx. destruct sw as [s w]. simpl in *.
  unfold onW in *. destruct (m w) as [[] w']; [by split|done|done].
Qed.

Lemma restartSession_alive : hoare no_double alive restartSession (fun _ => alive) P.
Proof.
  unfold restartSession. eapply hoare_bind; [|intros ?; by apply setState_alive].
  apply hoare_ignore. intros sw Ha. pose proof (alive_calm _ ok_Reset sw Ha) as Hx.
  destruct sw as [s w], Ha as [Hp Hs]. unfold onW in *. destruct (ss_Reset w) as [[] w'] eqn:E; [done| |done].
  split; [done|]. exact Hs.
Qed.

(** Sequences on a stream that is alive. *)
Lemma alive_bind {A B} (m : MS A) (f : A → MS B) :
  hoare no_double alive m (fun _ => alive) P → (∀ a, hoare no_double alive (f a) (fun _ => P) P) →
  hoare no_double alive (m ≫= f) (fun _ => P) P.
Proof. intros Hm Hf. by eapply hoare_bind. Qed.

Lemma alive_inv {A} (m : MS A) : inv no_double P m → hoare no_double alive m (fun _ => P) P.
Proof. intros Hm. eapply hoare_pre; [|exact Hm]. by intros sw []. Qed.

Lemma alive_fld {A} (f : inS2S → A) : hoare no_double alive (fld f) (fun _ => alive) P.
Proof. by intros sw Ha. Qed.

Lemma alive_wfld {A} (f : W → A) : hoare no_double alive (wfld f) (fun _ => alive) P.
Proof. by intros sw Ha. Qed.

Lemma alive_setf f :
  (∀ s, flags (f s) = flags s ∧ waiting (f s) = waiting s ∧ state (f s) = state s ∧ done_ (f s) = done_ s) →
  hoare no_double alive (setf f) (fun _ => alive) P.
Proof.
  intros Hf sw [Hp Hs]. pose proof (setf_inv f Hf sw Hp) as Hx. destruct sw as [s w].
  split; [exact Hx|]. simpl in *. destruct (Hf s) as (_ & _ & -> & _). done.
Qed.

Lemma alive_send e : hoare no_double alive (sendElement e) (fun _ => alive) P.
Proof.
  unfold sendElement. eapply hoare_bind; [apply alive_fld|intros []]; [by intros sw Ha|].
  apply alive_calm, ok_Send.
Qed.

Lemma alive_setFlag m : m ∈ Flags.masks → (∀ f, Φ f → Φ (Flags.set m f)) →
  hoare no_double (fun sw => alive sw ∧ (m = Flags.fSecured ∨ Flags.isSecured (flags sw.1) = true))
    (setFlag (Flags.set m)) (fun _ => alive) P.
Proof.
  intros Hm HΦ [s w] [[([Hv Hsec Hw Ha Hd] & Hp & Hg) Hs] Hor]. simpl in *.
  assert (Flags.isSecured (Flags.set m (flags s)) = true) as Hsec'.
  { unfold Flags.isSecured in *. rewrite (proj2 (Flags.set_spec _ m Flags.fSecured Hv Hm ltac:(set_solver))).
    destruct Hor as [->|Hor]; [apply orb_true_r|by rewrite Hor]. }
  split; [|done]. split; [|by split; [apply HΦ|]].
  split; simpl; try done. apply (Flags.set_spec _ m m); done.
Qed.

Lemma updateRateLimiter_alive : hoare no_double alive updateRateLimiter (fun _ => alive) P.
Proof.
  unfold updateRateLimiter. eapply hoare_bind; [apply alive_fld|intros j].
  eapply hoare_bind with (R := fun _ => alive).
  - intros sw Ha. unfold pureO. pose proof (shaper_quiet shapers j).
    destruct (Shaper.MatchingJID shapers j); [done|by destruct Ha|]. unfold no_double. congruence.
  - intros sh. apply alive_calm, ok_RateLimiter.
Qed.

Lemma handleConnecting_in_ok e : hoare no_double alive (handleConnecting e) (fun _ => P) P.
Proof.
  unfold handleConnecting.
  apply alive_bind; [by apply alive_setf|intros ?].
  apply alive_bind; [by apply alive_setf|intros ?].
  apply alive_bind; [apply alive_fld|intros ?].
  apply alive_bind; [by apply alive_setf|intros ?].
  apply alive_bind; [apply alive_calm, ok_SetFromJID|intros ?].
  apply alive_bind; [apply alive_fld|intros ?].
  case_match; (apply alive_bind; [by apply setState_alive|intros ?]; apply alive_inv; inv_walk).
Qed.

(** What the theorems choose: setting the secured flag is allowed; the
    authenticated flag is, or no certificate names the peer; the dialback flag
    is; and stanzas keep [G], or the flags do not authorise the peer. *)
Context (Φ_sec : ∀ f, Φ f → Φ (Flags.setSecured f)).
Definition cert_match (s : inS2S) (w : W) : bool :=
  existsb (fun names => existsb (fun n => String.eqb n (sender s)) names) (tr_PeerCertificates w).
Context (Φ_auth : (∀ f, Φ f → Φ (Flags.setAuthenticated f)) ∨
                  (∀ s w, cert_match s w = false)).
Context (G_stanza : (∀ w w', G w → G w') ∨
  (∀ f, Φ f → Flags.isAuthenticated f || Flags.isDialbackKeyAuthorized f = false)).

Definition secured (sw : St) : Prop := alive sw ∧ Flags.isSecured (flags sw.1) = true.

Lemma proceedStartTLS_in_ok e : hoare no_double alive (proceedStartTLS e) (fun _ => P) P.
Proof.
  unfold proceedStartTLS. case_match; [apply alive_inv; inv_walk|].
  case_match; [apply alive_inv; inv_walk|].
  apply alive_bind; [apply alive_send|intros ?].
  apply alive_bind; [apply alive_fld|intros ?].
  apply alive_bind; [apply alive_calm, calm_modify, ok_StartTLS|intros ?].
  apply alive_bind.
  - eapply hoare_pre; [|apply alive_setFlag; [set_solver|exact Φ_sec]]. intros sw Ha. split; [done|by left].
  - intros ?. eapply hoare_conseq; [apply restartSession_alive|done|by intros ? ? []|done].
Qed.

Lemma secured_calm {A} (m : M W A) : calm m → hoare no_double secured (onW m) (fun _ => secured) P.
Proof.
  intros Hm sw [Ha Hs]. pose proof (alive_calm m Hm sw Ha) as Hx. destruct sw as [s w].
  unfold onW in *. destruct (m w) as [[] w']; [by split|done|done].
Qed.

Lemma finishAuthentication_in_ok : (∀ f, Φ f → Φ (Flags.setAuthenticated f)) →
  hoare no_double secured finishAuthentication (fun _ => P) P.
Proof.
  intros HΦ. unfold finishAuthentication.
  eapply hoare_bind with (R := fun _ => secured).
  - intros sw [Ha Hs]. pose proof (updateRateLimiter_alive sw Ha) as Hx.
    unfold updateRateLimiter, mbind, M_bind, pureO, onW in *. simpl in *.
    destruct (Shaper.MatchingJID _ _); [|done..]. destruct sw as [s w]. simpl in *.
    destruct (tr_SetReadRateLimiter _ w) as [[] w']; [by split|done|done].
  - intros ?. eapply hoare_bind with (R := fun _ => alive).
    + eapply hoare_pre; [|apply alive_setFlag; [set_solver|exact HΦ]]. intros sw [Ha Hs]. split; [done|by right].
    + intros ?. apply alive_bind; [apply restartSession_alive|intros ?]. apply alive_inv. inv_walk.
Qed.

Lemma authenticate_ok e : hoare no_double secured (authenticate e) (fun _ => P) P.
Proof.
  assert (∀ {A} (m : MS A), inv no_double P m → hoare no_double secured m (fun _ => P) P) as Hin.
  { intros A m Hm. eapply hoare_pre; [|exact Hm]. by intros sw [[]]. }
  unfold authenticate. case_match; [apply Hin; inv_walk|]. case_match; [apply Hin; inv_walk|].
  intros sw Hs. unfold mbind, M_bind, wfld, fld, gets. simpl. change (existsb _ _) with (cert_match sw.1 sw.2).
  destruct (cert_match sw.1 sw.2) eqn:Hc; [|by apply (Hin _ _ (failAuthentication_inv _ _))].
  destruct Φ_auth as [HΦ|Hno]; [|congruence]. by apply finishAuthentication_in_ok.
Qed.

Lemma authorizeDialbackKey_ok e : hoare no_double secured (authorizeDialbackKey e) (fun _ => P) P.
Proof.
  assert (∀ {A} (m : MS A), inv no_double P m → hoare no_double secured m (fun _ => P) P) as Hin.
  { intros A m Hm. eapply hoare_pre; [|exact Hm]. by intros sw [[]]. }
  unfold authorizeDialbackKey. case_match; [apply Hin; inv_walk|].
  eapply hoare_bind with (R := fun _ => secured); [by intros sw Hs|intros sid].
  eapply hoare_bind with (R := fun _ => secured).
  { intros sw Hs. pose proof (secured_calm _ (ok_GetDialback hosts_DefaultHostName (Attribute e AttrFrom)
      (MkDbParams sid (Attribute e AttrTo) (Attribute e AttrFrom) (Text e))) sw Hs) as Hx.
    unfold try. destruct sw as [s w], Hs as [[Hp Hst] Hs]. unfold onW in *.
    pose proof (ok_GetDialback hosts_DefaultHostName (Attribute e AttrFrom)
      (MkDbParams sid (Attribute e AttrTo) (Attribute e AttrFrom) (Text e)) w) as [Hr _].
    destruct (op_GetDialback _ _ _ w) as [[] w']; simpl in *; [done| |done].
    by split. }
  intros [err|h]; [apply Hin; inv_walk|].
  intros [s w] [[([Hv Hsec Hw Ha Hd] & Hp & Hg) Hst] Hs]. simpl in *. split; [|done].
  split; simpl; try done. rewrite Hd. split; [done|]. intros [=].
Qed.

Lemma isDbRequestOn_calm a b i : calm (isDbRequestOn a b i).
Proof.
  intros w. unfold isDbRequestOn. destruct kv_IsNop; [split; [simpl; reflexivity|done]|].
  pose proof (ok_kvGet (dbReqKey i) w) as [Hr Hc]. unfold mbind, M_bind.
  destruct (kv_Get (dbReqKey i) w) as [[val|e|c] w']; simpl in *;
    [|split; [done|congruence]..].
  case_match; [done|]. by case_match.
Qed.

Lemma verifyDialbackKey_inv e : inv no_double P (verifyDialbackKey e).
Proof.
  pose proof isDbRequestOn_calm. unfold verifyDialbackKey, unregisterDbRequest. inv_walk.
Qed.

(** The calls that handle stanzas. *)
Lemma stanza_onW {A} (m : M W A) : (∀ w w', G w → G w') → unclosing m → inv no_double P (onW m).
Proof.
  intros HGG Hm. apply (inv_onW _ (fun _ _ => True)); [done| |].
  - intros w c Hc. specialize (Hm w). unfold no_double. congruence.
  - intros s w w' _ (? & ? & ?). split; [done|]. split; [done|]. by eapply HGG.
Qed.

Lemma processStanza_inv e : (∀ w w', G w → G w') → inv no_double P (processStanza e).
Proof.
  intros HGG. pose proof (fun e => stanza_onW (rt_Route e) HGG (ok_Route e)).
  pose proof (fun e => stanza_onW (comps_ProcessStanza e) HGG (ok_ProcessStanza e)).
  pose proof (fun e => stanza_onW (mods_ProcessIQ e) HGG (ok_ProcessIQ e)).
  assert (∀ fuel message msg, inv no_double P (sendMsg fuel message msg)) as Hmsg.
  { induction fuel; intros message msg; simpl; inv_walk. }
  unfold processStanza, processIQ, processPresence, processMessage. inv_walk.
Qed.

Lemma handleConnected_in_ok e : hoare no_double alive (handleConnected e) (fun _ => P) P.
Proof.
  unfold handleConnected. eapply hoare_bind; [apply hoare_fld|intros fl]. cbv beta.
  eapply hoare_pre with (P' := fun sw => alive sw ∧ fl = flags sw.1); [done|].
  destruct (Flags.isSecured fl) eqn:Hsec; simpl.
  2: { eapply hoare_pre; [|apply proceedStartTLS_in_ok]. by intros sw []. }
  eapply hoare_pre with (P' := fun sw => secured sw ∧ fl = flags sw.1); [by intros sw [Ha ->]|].
  case_match; [eapply hoare_pre; [|apply authenticate_ok]; by intros sw []|].
  case_match; [eapply hoare_pre; [|apply authorizeDialbackKey_ok]; by intros sw []|].
  case_match; [eapply hoare_pre; [|apply verifyDialbackKey_inv]; by intros sw [[[]]]|].
  destruct (_ || _) eqn:Hau; [|intros sw [[[]]]; done].
  destruct G_stanza as [HGG|Hno].
  - eapply hoare_pre with (P' := P); [by intros sw [[[]]]|].
    pose proof (fun e => processStanza_inv e HGG). inv_walk.
  - intros sw [[[Hp _] _] ->]. destruct Hp as (_ & Hp & _). by rewrite Hno in Hau.
Qed.

Lemma handleElement_inv e : inv no_double P (handleElement e).
Proof.
  unfold handleElement. eapply hoare_bind; [apply hoare_fld|intros st]. cbv beta.
  destruct st.
  - eapply hoare_pre; [|apply handleConnecting_in_ok]. intros sw [Hp Hs]. split; [done|]. by rewrite <-Hs.
  - eapply hoare_pre; [|apply handleConnected_in_ok]. intros sw [Hp Hs]. split; [done|]. by rewrite <-Hs.
  - by intros sw [].
  - by intros sw [].
Qed.
#[local] Hint Resolve handleElement_inv : gohoare.

Lemma take_waiting_some h l d r : take_waiting h l = Some (d, r) → l ≠ [].
Proof. by destruct l. Qed.

Lemma handleDialbackResult_ok from to valid : (valid = true → ∀ f, Φ f → Φ (Flags.setDialbackKeyAuthorized f)) →
  hoare no_double secured (handleDialbackResult from to valid) (fun _ => P) P.
Proof.
  intros HΦ. unfold handleDialbackResult. eapply hoare_bind with (R := fun _ => alive).
  - destruct valid; [|by intros sw []].
    eapply hoare_bind with (R := fun _ => secured).
    + intros sw [Ha Hs]. pose proof (updateRateLimiter_alive sw Ha) as Hx.
      unfold updateRateLimiter, mbind, M_bind, pureO, onW in *. simpl in *.
      destruct (Shaper.MatchingJID _ _); [|done..]. destruct sw as [s w]. simpl in *.
      destruct (tr_SetReadRateLimiter _ w) as [[] w']; [by split|done|done].
    + intros ?. eapply hoare_pre; [|apply alive_setFlag; [set_solver|by apply HΦ]].
      intros sw [Ha Hs]. split; [done|by right].
  - intros ?. apply alive_bind; [by apply setState_alive|intros ?]. apply alive_inv. inv_walk.
Qed.

(** A dialback result that comes while the stream is still open. *)
Definition timely (ev : event) (sw : St) : Prop :=
  match ev with EvDialback _ _ => state sw.1 ≠ inDisconnected | _ => True end.
Fixpoint timely_run (evs : list event) (sw : St) : Prop :=
  match evs with
  | [] => True
  | ev :: evs' => timely ev sw ∧ timely_run evs' (step ev sw).2
  end.

Definition allowed (ev : event) : Prop :=
  match ev with
  | EvDialback _ true => ∀ f, Φ f → Φ (Flags.setDialbackKeyAuthorized f)
  | _ => True
  end.

Lemma step_in_ok ev : allowed ev →
  hoare no_double (fun sw => P sw ∧ timely ev sw) (step ev) (fun _ => P) P.
Proof.
  intros Hal. destruct ev as [r|err| | |h valid]; simpl.
  - eapply hoare_pre with (P' := P); [by intros sw []|].
    unfold handleSessionResult, handleSessionError. inv_walk.
  - eapply hoare_pre with (P' := P); [by intros sw []|]. inv_walk.
  - eapply hoare_pre with (P' := P); [by intros sw []|]. unfold connTimeout. inv_walk.
  - eapply hoare_pre with (P' := P); [by intros sw []|]. inv_walk.
  - intros sw [Hp Ht]. unfold mbind, M_bind. simpl.
    destruct (take_waiting h (waiting sw.1)) as [[[from to] ws']|] eqn:Hw; [|done].
    destruct sw as [s w]. simpl in *.
    assert (secured (set_waiting ws' s, w)) as Hs.
    { destruct Hp as ([] & Hp & Hg). apply take_waiting_some in Hw. simpl in *.
      split; [|by apply inv_waiting0]. split; [|done]. split; [|done]. split; simpl; try done.
      intros _. by apply inv_waiting0. }
    assert (hoare no_double secured (ignore (handleDialbackResult from to valid)) (fun _ => P) P) as Hh.
    { apply hoare_ignore, handleDialbackResult_ok. destruct valid; [by intros _|done]. }
    exact (Hh _ Hs).
Qed.

Lemma run_in_ok evs : Forall allowed evs → ∀ sw, P sw → timely_run evs sw →
  match run evs sw with
  | (Crash c, _) => no_double c
  | (_, sw') => P sw'
  end.
Proof.
  induction 1 as [|ev evs Hal Hall IH]; intros sw Hp Ht; [done|]. destruct Ht as [Ht Hts].
  pose proof (step_in_ok ev Hal sw (conj Hp Ht)) as Hs. simpl. unfold mbind, M_bind.
  destruct (step ev sw) as [[[]|e|c] sw']; [by apply IH|done|done].
Qed.

Lemma start_in_ok : hoare no_double alive start (fun _ => alive) P.
Proof.
  unfold start. eapply hoare_bind; [apply alive_fld|intros i].
  eapply hoare_bind; [apply alive_calm, calm_modify, ok_register|intros ?].
  eapply hoare_bind; [apply alive_calm, ok_hooks|intros ?]. apply restartSession_alive.
Qed.

End walk.
End safety.

(** ** Peers that are not authorised *)
Section unauthorized.
Context `{XmlLib} {W : Type} `{!S2SInEnv W, !KV W}.
(** What stanza handling can change, and the other calls cannot. *)
Context {A : Type} (handled : W → A) `{!InEnvOk (fun w w' => handled w' = handled w)}.

Definition unauth_flags (f : Z) : Prop :=
  Flags.valid f ∧ Flags.isAuthenticated f = false ∧ Flags.isDialbackKeyAuthorized f = false.
(** No certificate of the peer names the domain. *)
Definition unnamed (d : string) : Prop := ∀ w,
  existsb (fun names => existsb (fun n => String.eqb n d) names) (tr_PeerCertificates w) = false.
Definition Q (k : A) (sw : inS2S * W) : Prop :=
  unauth_flags (flags sw.1) ∧ unnamed (sender sw.1) ∧ handled sw.2 = k.

Abbreviation qk k m := (keeps (stable (Q k)) m).

Lemma q_onW {B} k (m : M W B) : calm (fun w w' => handled w' = handled w) m → qk k (onW m).
Proof.
  intros Hm [s w] (Hf & Hn & Hk). unfold onW. destruct (Hm w) as [Hr _]. destruct (m w) as [r w'].
  split; simpl in *; [done|]. split; [done|]. simpl. congruence.
Qed.
Lemma q_setf k f : (∀ s, flags (f s) = flags s ∧ sender (f s) = sender s) → qk k (setf f).
Proof.
  intros Hf [s w] (Hp & Hn & Hk). destruct (Hf s) as [E1 E2]. unfold Q. simpl in *. by rewrite E1, E2.
Qed.
Lemma q_fld {B} k (f : inS2S → B) : qk k (fld f).
Proof. by intros sw Hq. Qed.
Lemma q_wfld {B} k (f : W → B) : qk k (wfld f).
Proof. by intros sw Hq. Qed.
Lemma q_pure {B} k (r : outcome B) : qk k (pureO r).
Proof. by intros sw Hq. Qed.
Lemma q_secured k : qk k (setFlag Flags.setSecured).
Proof.
  intros [s w] [(Hv & Ha & Hd) [Hn Hk]]. split; [|done]. simpl in *.
  destruct (Flags.set_spec (flags s) Flags.fSecured Flags.fAuthenticated Hv) as [Hv' Ha'];
    [set_solver..|].
  destruct (Flags.set_spec (flags s) Flags.fSecured Flags.fDialbackKeyAuthorized Hv) as [_ Hd'];
    [set_solver..|].
  unfold unauth_flags, Flags.isAuthenticated, Flags.isDialbackKeyAuthorized, Flags.setSecured in *.
  rewrite Ha', Hd', Ha, Hd. done.
Qed.

Create HintDb s2sq.
#[local] Hint Resolve ok_SetFromJID ok_OpenStream ok_Send ok_Close ok_Reset ok_RateLimiter
  ok_trClose ok_GetDialback ok_hooks ok_kvGet ok_kvDel isDbRequestOn_calm : s2sq.
#[local] Hint Extern 1 (calm _ (modify _)) =>
  apply calm_modify; intros ?; first [apply ok_StartTLS|apply ok_register|apply ok_unregister] : s2sq.
#[local] Hint Extern 1 (keeps (stable (Q _)) (onW _)) =>
  apply q_onW; solve [eauto with s2sq] : gomonad.
#[local] Hint Resolve q_fld q_wfld q_pure q_secured : gomonad.
#[local] Hint Extern 1 (keeps (stable (Q _)) (setf _)) => apply q_setf; done : gomonad.

Lemma q_sendElement k e : qk k (sendElement e).
Proof. unfold sendElement. keeps_auto. Qed.
#[local] Hint Resolve q_sendElement : gomonad.

Lemma q_close k : qk k close.
Proof. unfold close, closeDone, getState, setState, runHook. keeps_auto. Qed.
#[local] Hint Resolve q_close : gomonad.

Lemma q_disconnect k e : qk k (disconnect e).
Proof. unfold disconnect, getState. keeps_auto. Qed.
#[local] Hint Resolve q_disconnect : gomonad.

Lemma q_handleConnecting k e : unnamed (Attribute e AttrFrom) → qk k (handleConnecting e).
Proof.
  intros He. unfold handleConnecting, setState. keeps_auto;
    intros [s w] (Hf & Hn & Hk); by split.
Qed.

Lemma q_authenticate k e : qk k (authenticate e).
Proof.
  unfold authenticate, failAuthentication. case_match; [keeps_auto|]. case_match; [keeps_auto|].
  intros sw Hq. unfold mbind, M_bind, wfld, fld, gets. simpl.
  rewrite (proj1 (proj2 Hq) sw.2). exact (q_sendElement k _ sw Hq).
Qed.

Lemma q_authorize k e : qk k (authorizeDialbackKey e).
Proof. unfold authorizeDialbackKey, setState. keeps_auto. Qed.
Lemma q_verify k e : qk k (verifyDialbackKey e).
Proof. unfold verifyDialbackKey, unregisterDbRequest. keeps_auto. Qed.
Lemma q_startTLS k e : qk k (proceedStartTLS e).
Proof. unfold proceedStartTLS, restartSession, setState. keeps_auto. Qed.

Lemma q_handleConnected k e : qk k (handleConnected e).
Proof.
  intros sw Hq. unfold handleConnected. unfold mbind at 1, M_bind at 1. simpl.
  destruct (Flags.isSecured (flags sw.1)); simpl; [|by apply q_startTLS].
  case_match; [by apply q_authenticate|]. case_match; [by apply q_authorize|].
  case_match; [by apply q_verify|]. pose proof Hq as [(Hv & Ha & Hd) _].
  rewrite Ha, Hd. done.
Qed.

(** The event does not confirm the peer: no valid dialback result, and no stream
    header in the name of a domain that a certificate has. *)
Definition unconfirming (ev : event) : Prop :=
  match ev with
  | EvDialback _ valid => valid = false
  | EvSession (Some (inr e)) => unnamed (Attribute e AttrFrom)
  | _ => True
  end.

Lemma q_step k ev : unconfirming ev → qk k (step ev).
Proof.
  pose proof (q_handleConnecting k). pose proof (q_handleConnected k).
  intros Hev. destruct ev as [[[err|e]|]|err| | |h []]; simpl in *; [| | | | | |done|];
    unfold handleSessionResult, handleElement, handleSessionError, connTimeout,
      handleDialbackResult, getState, setState; keeps_auto.
Qed.

(** A peer that no certificate names and that no dialback confirms gets
    nothing handled: whatever it sends and whatever happens to the stream, in
    whatever order, the flags never authorise it, and no stanza reaches the
    router, a component or a module. *)
Theorem s2s_unauthorized_handles_nothing (i : Z) (c : inConfig) (w0 w : W) (s : inS2S)
    (evs : list event) (Hnew : newInS2S i c w0 = (Ok s, w))
    (Hempty : unnamed "") (Hno : Forall unconfirming evs) :
  let sw := ((start;; run evs) (s, w)).2 in
  authorized sw.1 = false ∧ handled sw.2 = handled w0.
Proof.
  assert (qk (handled w0) (start;; run evs)) as Hq.
  { unfold start, runHook, restartSession, setState. keeps_auto. clear Hnew.
    induction Hno as [|ev evs Hev Hno IH]; simpl; keeps_auto. by apply q_step. }
  assert (Q (handled w0) (s, w)) as H0'.
  { revert Hnew. unfold newInS2S, mbind, M_bind.
    pose proof (ok_RateLimiter _ (Shaper.RateLimiter Shaper.DefaultS2S) w0) as [Hr _].
    destruct (tr_SetReadRateLimiter _ w0) as [[] w1]; [|done..]. intros [= <- <-]. simpl in *.
    split; [|done]. destruct (directTLS c); simpl; unfold unauth_flags; (split; [|done]);
      vm_compute; set_solver. }
  destruct (Hq (s, w) H0') as [(_ & Ha & Hd) [_ Hk]]. unfold authorized. by rewrite Ha, Hd.
Qed.

End unauthorized.

(** ** Theorems *)
Section theorems.
Context `{XmlLib} {W : Type} `{!S2SInEnv W, !KV W} `{!InEnvOk (fun _ _ : W => True)}.

(** C21: From the creation of an incoming S2S stream on, whatever arrives in
    whatever order, the stream never closes [doneCh] twice, a peer is authorised
    only on a secured connection, and the stream is disconnected exactly when
    [doneCh] is closed, provided that no dialback result comes after the stream
    was disconnected. *)
Theorem s2s_in_invariant (i : Z) (c : inConfig) (w0 w : W) (s : inS2S) (evs : list event)
    (Hnew : newInS2S i c w0 = (Ok s, w))
    (Htimely : timely_run evs (start (s, w)).2) :
  match (start;; run evs) (s, w) with
  | (Crash p, _) => p ≠ CloseOfClosedChannel
  | (_, sw) => Inv sw.1
  end.
Proof.
  assert (alive (fun _ => True) (fun _ : W => True) (s, w)) as Hal.
  { revert Hnew. unfold newInS2S, mbind, M_bind.
    destruct (tr_SetReadRateLimiter _ w0) as [[] w1]; [|done..]. intros [= <- <-].
    split; [|done]. split; [|done]. split; simpl; try done.
    - destruct (directTLS c); vm_compute; set_solver.
    - unfold authorized. simpl. by destruct (directTLS c). }
  pose proof (start_in_ok (fun _ _ => True) (fun _ => True) (fun _ => True) ltac:(done) (s, w) Hal) as Hs.
  unfold mbind, M_bind. destruct (start (s, w)) as [[[]|e|p] sw1]; [|apply Hs|done].
  destruct Hs as [Hp _].
  pose proof (run_in_ok (fun _ _ => True) (fun _ => True) (fun _ => True) ltac:(done) ltac:(done)
    ltac:(by left) ltac:(by left) evs) as Hr.
  specialize (Hr ltac:(apply Forall_true; intros [| | | |? []]; done) sw1 Hp Htimely).
  destruct (run evs sw1) as [[[]|e|p] sw2]; [apply Hr|apply Hr|exact Hr].
Qed.

End theorems.

(** *** Verification of dialback keys *)
Section verification.
Context `{XmlLib} {W : Type} `{!S2SInEnv W, !KV W, !KVMap W}.

(** The answer [verifyDialbackKey] gives to a request. *)
Definition verify_answer (elem : Element) (typ : string) : Element :=
  Build "db:verify" [(AttrFrom, Attribute elem AttrTo); (AttrTo, Attribute elem AttrFrom);
    (AttrID, Attribute elem AttrID); ("type", typ)] [] "".

(** The request is one of ours and carries our key. *)
Definition genuine (elem : Element) (w : W) : Prop :=
  requested w (Attribute elem AttrID) = Some (Attribute elem AttrFrom, Attribute elem AttrTo) ∧
  Text elem = dbKey op_DialbackSecret (Attribute elem AttrFrom) (Attribute elem AttrTo)
    (Attribute elem AttrID).

(** A request to verify a dialback key is answered with [valid] exactly when a
    dialback request of this stream identifier is registered for the two domains
    and the key is the one this server computes for them; the request is then no
    longer registered, so that the same key is not confirmed again. *)
Theorem verify_dialback_exact (elem : Element) (s s' : inS2S) (w w' : W)
    (Hloc : hosts_IsLocalHost (Attribute elem AttrTo) = true) (Hnop : kv_IsNop = false)
    (Hfrom : Attribute elem AttrFrom ≠ "") (Hsend : sendDisabled s = false)
    (Hok : verifyDialbackKey elem (s, w) = (Ok tt, (s', w'))) :
  s' = s ∧
  ((genuine elem w ∧ ∃ w1, ss_Send (verify_answer elem "valid") w1 = (Ok tt, w') ∧
      requested w1 (Attribute elem AttrID) = None) ∨
   (¬ genuine elem w ∧ ∃ w1, ss_Send (verify_answer elem "invalid") w1 = (Ok tt, w') ∧
      kv_map w1 = kv_map w)).
Proof.
  assert (∀ e w1, sendElement e (s, w1) = (Ok tt, (s', w')) → s' = s ∧ ss_Send e w1 = (Ok tt, w')) as Hse.
  { intros e w1. unfold sendElement, mbind, M_bind, onW. simpl. rewrite Hsend.
    destruct (ss_Send e w1) as [[[]| |] w2]; intros [= <- <-]; done. }
  unfold verifyDialbackKey in Hok. rewrite Hloc in Hok. simpl in Hok.
  inv_bind Hok as b sw1 Hb. unfold onW in Hb.
  destruct (isDbRequestOn _ _ _ w) as [[b'| |] w1] eqn:Hon; simplify_eq.
  apply isDbRequestOn_spec in Hon as [Hm ->]; [|done..].
  destruct (bool_decide _ && _) eqn:Hg.
  - apply andb_true_iff in Hg as [Hg1 Hg2]. apply bool_decide_eq_true in Hg1.
    apply String.eqb_eq in Hg2. inv_bind Hok as u sw2 Hu. unfold onW in Hu.
    destruct (unregisterDbRequest _ w1) as [[[]| |] w2] eqn:Hun; simplify_eq.
    apply unregister_requested in Hun. apply Hse in Hok as [-> Hok].
    split; [done|]. left. split; [by split|]. eauto.
  - apply Hse in Hok as [-> Hok]. split; [done|]. right. split; [|eauto].
    intros [H1' H2']. rewrite H1', H2', String.eqb_refl, bool_decide_eq_true_2 in Hg; done.
Qed.

End verification.

(** *** Messages *)
Section messages.
Context `{XmlLib} {W : Type} `{!S2SInEnv W, !KV W}.

(** What message processing relies on: the router answers [ErrResourceNotFound]
    for full JIDs only ([Router.Route_not_found_full]), the handlers of the hook
    keep the destination of the element, and no collaborator is cut by fuel. *)
Class InMessageEnv : Prop := {
  mo_Route : ∀ e w, (rt_Route e w).1 = Err ErrResourceNotFound → IsFullWithUser (ToJID e) = true;
  mo_hook : ∀ hi w halted hi' w' e e',
    hk_Run S2SInStreamWillRouteElement hi w = (Ok (halted, hi'), w') →
    hi_Element hi = Some e → hi_Element hi' = Some e' → ToJID e' = ToJID e;
  mo_Route_fuel : ∀ e w, (rt_Route e w).1 ≠ Crash OutOfFuel;
  mo_hook_fuel : ∀ n hi w, (hk_Run n hi w).1 ≠ Crash OutOfFuel;
  mo_Send_fuel : ∀ e w, (ss_Send e w).1 ≠ Crash OutOfFuel;
}.
Context `{!InMessageEnv}.

Definition fueled (c : crash) : Prop := c ≠ OutOfFuel.
Abbreviation fk m := (inv fueled (fun _ : inS2S * W => True) m).

Lemma fk_onW {A} (m : M W A) : (∀ w, (m w).1 ≠ Crash OutOfFuel) → fk (onW m).
Proof.
  intros Hm. apply (inv_onW _ (fun _ _ => True)); [done| |done].
  intros w c Hc. specialize (Hm w). unfold fueled. congruence.
Qed.
#[local] Hint Extern 1 (inv fueled _ (onW _)) => apply fk_onW; eauto using mo_Route_fuel, mo_hook_fuel,
  mo_Send_fuel : gohoare.

Lemma fk_fst {A} (m : M (inS2S * W) A) sw : fk m → (m sw).1 ≠ Crash OutOfFuel.
Proof. intros Hm. specialize (Hm sw I). by destruct (m sw) as [[] ?]; simpl; try congruence. Qed.

(** What is left of a round of the loop, as a function of the rounds that remain:
    it ends without the mark of a cut loop, or it goes on with a rebuilt message
    [msg'] after the router refused a full JID. *)
Section round.
Context (message msg : Element).

Inductive round (f : nat → M (inS2S * W) unit) (sw : inS2S * W) : Prop :=
| round_ends : (∀ n, f n sw = f 0 sw) → (f 0 sw).1 ≠ Crash OutOfFuel → round f sw
| round_again msg' sw' :
    IsFullWithUser (ToJID msg) = true →
    BuildFrom msg [(AttrFrom, JIDString (FromJID message));
      (AttrTo, JIDString (ToBareJID (ToJID message)))] [] KMessage = Some msg' →
    (∀ n, f n sw = sendMsg n message msg' sw') → round f sw.

Lemma round_const m sw : fk m → round (fun _ => m) sw.
Proof. intros Hm. apply round_ends; [done|]. by apply fk_fst. Qed.

Lemma round_bind {A} (m : M (inS2S * W) A) f sw : fk m →
  (∀ a sw1, m sw = (Ok a, sw1) → round (fun n => f n a) sw1) →
  round (fun n => m ≫= f n) sw.
Proof.
  intros Hm Hf. apply (fk_fst _ sw) in Hm. destruct (m sw) as [[a|e|c] sw1] eqn:E.
  - destruct (Hf a sw1 eq_refl) as [Hn Ho|msg' sw' Hfull Hb Hn].
    + apply round_ends; [intros n|]; by rewrite !(bind_Ok _ _ _ _ _ E).
    + apply (round_again _ _ msg' sw'); [done..|]. intros n. by rewrite (bind_Ok _ _ _ _ _ E).
  - apply round_ends; [intros n|]; by rewrite !(bind_Err _ _ _ _ _ E).
  - apply round_ends; [intros n|]; unfold mbind, M_bind; rewrite !E; [done|simpl in *; congruence].
Qed.

Lemma sendMsg_in_round sw : round (fun n => sendMsg (S n) message msg) sw.
Proof.
  simpl. apply round_bind; [unfold hookInfo; inv_walk|intros hi sw1 Hhi].
  apply round_bind; [unfold runHook; inv_walk|intros [halted hi'] [s2 w2] Hhk].
  destruct halted; [apply round_const; inv_walk|].
  destruct (element_as KMessage hi') as [out|] eqn:Hel; [|apply round_const; inv_walk].
  apply round_bind; [inv_walk|intros r sw3 Hr].
  destruct r as [err|targets];
    [|apply round_const; unfold runHook, hookInfo, sendElement; inv_walk].
  destruct err; try (apply round_const; unfold runHook, hookInfo, sendElement; inv_walk).
  destruct (BuildFrom msg _ _ _) as [msg'|] eqn:Hb; [|by apply round_ends].
  apply (round_again _ _ msg' sw3); [|done|done].
  destruct sw1 as [s1 w1], sw as [s w]. injection Hhi as <- <- <-.
  unfold runHook, onW in Hhk. destruct (hk_Run _ _ w) as [[[h hi1]| |] w'] eqn:Hrun; simplify_eq.
  unfold element_as in Hel. destruct (hi_Element hi') as [out'|] eqn:He; [|done].
  case_decide; [|done]. injection Hel as ->.
  rewrite <-(mo_hook _ _ _ _ _ msg out Hrun eq_refl He).
  apply (mo_Route out w2). unfold try, onW in Hr. by destruct (rt_Route out w2) as [[] ?]; simplify_eq.
Qed.

End round.

(** The [goto sendMsg] loop of an incoming S2S stream runs at most twice: with
    two rounds or more the result is the same and it is never the one that marks a
    cut loop.  [Hbuild]: the message rebuilt for the second round is addressed to
    the bare JID. *)
Theorem s2s_message_terminates (message msg : Element) (sw : inS2S * W) (fuel : nat)
    (Hbuild : ∀ m m', BuildFrom m [(AttrFrom, JIDString (FromJID message));
        (AttrTo, JIDString (ToBareJID (ToJID message)))] [] KMessage = Some m' →
      ToJID m' = ToBareJID (ToJID message)) (Hfuel : 2 ≤ fuel) :
  sendMsg fuel message msg sw = sendMsg 2 message msg sw ∧
  (sendMsg fuel message msg sw).1 ≠ Crash OutOfFuel.
Proof.
  destruct fuel as [|[|fuel]]; [lia..|].
  destruct (sendMsg_in_round message msg sw) as [Hn Ho|msg' sw' _ Hb Hn]; rewrite (Hn (S fuel)), (Hn 1);
    [done|].
  destruct (sendMsg_in_round message msg' sw') as [Hm Ho|? ? Hfull _ _].
  - by rewrite (Hm fuel).
  - by rewrite (Hbuild _ _ Hb), bare_not_full_user in Hfull.
Qed.

End messages.

(** ** A concrete environment

    The server [jackal.im]; every call succeeds.  [certs] are the names of the
    peer's certificates. *)
Module InDemo.
Import TreeLib.

Record world := MkWorld {
  sent : list tree;
  store : gmap string string;
  handled : list tree;
  hub : InHub.t;
  dialbacks : list DialbackParams;
}.

Definition send (e : tree) : M world unit :=
  modify (fun w => MkWorld (sent w ++ [e]) (store w) (handled w) (hub w) (dialbacks w)).
Definition handle (e : tree) : M world unit :=
  modify (fun w => MkWorld (sent w) (store w) (handled w ++ [e]) (hub w) (dialbacks w)).
Definition upd_store (f : gmap string string → gmap string string) : M world unit :=
  modify (fun w => MkWorld (sent w) (f (store w)) (handled w) (hub w) (dialbacks w)).

Definition env (certs : list (list string)) : S2SInEnv world := {|
  ss_StreamID := fun _ => "sid"; ss_SetFromJID := fun _ => mret tt; ss_OpenStream := mret tt;
  ss_Send := send; ss_Close := mret tt; ss_Reset := mret tt;
  tr_SetReadRateLimiter := fun _ => mret tt; tr_PeerCertificates := fun _ => certs;
  tr_StartTLS := fun _ w => w; tr_Close := mret tt;
  hosts_DefaultHostName := "jackal.im"; hosts_IsLocalHost := String.eqb "jackal.im";
  rt_Route := fun e => if IsFullWithUser (ToJID e) then fail ErrResourceNotFound
                       else handle e;; mret [ToJID e];
  comps_IsComponentHost := fun _ _ => false; comps_ProcessStanza := handle;
  mods_IsModuleIQ := fun _ _ => false; mods_ProcessIQ := handle;
  op_DialbackSecret := "s3cr3t";
  op_GetDialback := fun _ _ p =>
    n ← gets (fun w => length (dialbacks w));
    modify (fun w => MkWorld (sent w) (store w) (handled w) (hub w) (dialbacks w ++ [p]));;
    mret n;
  hub_register := fun i w => MkWorld (sent w) (store w) (handled w) (InHub.register i (hub w)) (dialbacks w);
  hub_unregister := fun i w => MkWorld (sent w) (store w) (handled w) (InHub.unregister i (hub w)) (dialbacks w);
  hk_Run := fun _ hi => mret (false, hi); shapers := [] |}.

#[export] Instance kv : KV world := {|
  kv_IsNop := false;
  kv_Put := fun k v => upd_store <[k := v]>;
  kv_Get := fun k => gets (fun w => default "" (store w !! k));
  kv_Del := fun k => upd_store (delete k); |}.
#[export] Instance kv_ok : KVMap world.
Proof.
  refine {| kv_map := store |};
    [abstract (by intros k v w w' [= <-])|abstract (by intros k w v w' [= <- <-])
    |abstract (by intros k w w' [= <-])].
Defined.

Lemma env_handled certs : @InEnvOk tree_jid tree_xml world (env certs) kv
  (fun w w' => handled w' = handled w).
Proof.
  split; try (by intros; split); try done;
    try (intros ? ?; simpl; case_match; done).
  split; [done|]. intros x y z -> ->. done.
Qed.

Lemma in_env_ok certs : @InEnvOk tree_jid tree_xml world (env certs) kv (fun _ _ => True).
Proof. split; try (by intros; split); try done; intros ? ?; simpl; case_match; done. Qed.

Lemma in_env_messages certs : @InMessageEnv tree_jid tree_xml world (env certs).
Proof.
  split; try done.
  - intros e w. simpl. by case_match.
  - intros hi w halted hi' w' e e' [= <- <- <-] He He'. congruence.
  - intros e w. simpl. by case_match.
Qed.

Definition world0 : world := MkWorld [] ∅ [] ∅ [].
Definition s0 : inS2S := MkIn 1 (MkInConfig 32768 true) false false false inConnecting 1 None "" "" [].

Definition recv (e : tree) : @event tree_jid tree_xml := EvSession (Some (inr e)).
Definition header (from : string) : tree :=
  TNode "stream:stream" [("from", from); ("to", "jackal.im")] [] "" None.
Definition db_result (from : string) : tree :=
  TNode "db:result" [("from", from); ("to", "jackal.im")] [] "key" None.
Definition message (from : string) : tree :=
  TNode "message" [("from", from); ("to", "juliet@jackal.im")] [] "" (Some KMessage).

Abbreviation after certs evs :=
  ((@start _ _ world (env certs);; @run _ _ world (env certs) kv evs) (s0, world0)).

(** The peer of domain [d] has its dialback key confirmed and sends a message. *)
Definition dialback_session (d from : string) : list (@event tree_jid tree_xml) :=
  [recv (header d); recv (db_result from); EvDialback 0 true; recv (message ("romeo@" +:+ d))].

Lemma s2s_in_invariant_witness :
  Inv (after [] (dialback_session "shakespeare.lit" "shakespeare.lit")).2.1 ∧
  authorized (after [] (dialback_session "shakespeare.lit" "shakespeare.lit")).2.1 = true.
Proof.
  split; [|vm_compute; reflexivity].
  pose proof (@s2s_in_invariant _ _ _ (env []) kv (in_env_ok []) 1 (MkInConfig 32768 true) world0 world0 s0
    (dialback_session "shakespeare.lit" "shakespeare.lit") eq_refl) as Hi.
  assert (is_ok (after [] (dialback_session "shakespeare.lit" "shakespeare.lit")).1 = true) as Hok
    by (vm_compute; reflexivity).
  assert (@timely_run _ _ world (env []) kv (dialback_session "shakespeare.lit" "shakespeare.lit")
    (@start _ _ world (env []) (s0, world0)).2) as Ht
    by (vm_compute; repeat split; try discriminate).
  specialize (Hi Ht). destruct (after [] _) as [[]]; [exact Hi|discriminate Hok..].
Defined.

Definition probing : list (@event tree_jid tree_xml) :=
  [recv (header "shakespeare.lit"); recv (message "romeo@shakespeare.lit")].

Lemma s2s_unauthorized_handles_nothing_witness :
  handled (after [["evil.example"]] probing).2.2 = [].
Proof.
  apply (@s2s_unauthorized_handles_nothing _ _ _ (env [["evil.example"]]) kv _ handled
    (env_handled [["evil.example"]]) 1%Z (MkInConfig 32768 true) world0 world0 s0 probing eq_refl).
  - intros w. reflexivity.
  - repeat constructor.
Defined.

(** A key that was registered, as [verifyDialbackKey] sees it. *)
Definition verify_elem : tree :=
  TNode "db:verify" [("from", "xmpp.org"); ("to", "jackal.im"); ("id", "D6")] []
    (dbKey "s3cr3t" "xmpp.org" "jackal.im" "D6") None.
Definition world1 : world := MkWorld [] {[ dbReqKey "D6" := dbReqVal "xmpp.org" "jackal.im" ]} [] ∅ [].
Abbreviation verified := (@verifyDialbackKey _ _ world (env []) kv verify_elem (s0, world1)).

Lemma verify_dialback_exact_witness :
  verified.2.1 = s0 ∧
  ((@genuine _ _ _ (env []) kv kv_ok verify_elem world1 ∧ ∃ w1,
      @ss_Send _ _ _ (env []) (verify_answer verify_elem "valid") w1 = (Ok tt, verified.2.2) ∧
      requested w1 "D6" = None) ∨
   (¬ @genuine _ _ _ (env []) kv kv_ok verify_elem world1 ∧ ∃ w1,
      @ss_Send _ _ _ (env []) (verify_answer verify_elem "invalid") w1 = (Ok tt, verified.2.2) ∧
      kv_map w1 = kv_map world1)).
Proof.
  apply (@verify_dialback_exact _ _ _ (env []) kv kv_ok verify_elem s0 verified.2.1 world1 verified.2.2);
    [reflexivity|reflexivity|discriminate|reflexivity|apply fst_Ok_pair; vm_compute; reflexivity].
Defined.

Lemma s2s_message_terminates_witness :
  let m := message "romeo@shakespeare.lit" in
  @sendMsg _ _ world (env []) 7 m m (s0, world0) = @sendMsg _ _ world (env []) 2 m m (s0, world0).
Proof.
  intros m. apply (@s2s_message_terminates _ _ _ (env []) (in_env_messages [])); [|lia].
  intros e e' [= <-]. apply t_with_to.
Defined.

(** The peer closes the stream while its key is being verified; the read loop
    has not looked at the state yet when the result comes, and goes on. *)
Definition late_result : list (@event tree_jid tree_xml) :=
  [recv (header "shakespeare.lit"); recv (db_result "shakespeare.lit");
   EvSession (Some (inl ErrStreamClosedByPeer)); EvDialback 0 false;
   EvSession (Some (inl (ErrText "use of closed network connection")))].

End InDemo.

(** A dialback result that comes after the peer closed the stream puts the
    stream back into the connected state, although [doneCh] is closed; the next
    session error closes [doneCh] a second time, which panics. *)
Theorem late_dialback_result_panics :
  (InDemo.after [] (take 3 InDemo.late_result)).2.1.(state) = inDisconnected ∧
  (InDemo.after [] (take 4 InDemo.late_result)).2.1.(state) = inConnected ∧
  (InDemo.after [] InDemo.late_result).1 = Crash CloseOfClosedChannel.
Proof. vm_compute. auto. Qed.

(** Dialback authorises the whole stream without looking at the domain that
    was verified: a peer whose stream header says [bank.example] and whose own
    domain [evil.example] passes dialback has its stanzas from [bank.example]
    handled. *)
Theorem dialback_verifies_other_domain :
  let sw := (InDemo.after [] (InDemo.dialback_session "bank.example" "evil.example")).2 in
  (dbp_To <$> InDemo.dialbacks sw.2) = ["evil.example"] ∧
  sender sw.1 = "bank.example" ∧ Flags.isAuthenticated (flags sw.1) = false ∧
  (InDemo.handled sw.2) = [InDemo.message "romeo@bank.example"].
Proof. vm_compute. auto. Qed.
