(* ===== verification/S2SOutProofs.v ===== *)
(** * Properties of the outgoing S2S stream

    What a stream of [S2SOut] promises to the router that hands stanzas to it
    (order and no loss), to the network (nothing but the negotiation of TLS goes
    out unsecured) and to the incoming stream that waits for a dialback result. *)

From stdpp Require Import base list strings gmap.
From Stdlib Require Import ZArith Lia.
From S2P Require Import Prelude GoLib GoHoare Stravaganza Hosts Dialback S2SIn S2SOut.

(** ** The interface of the collaborators *)
Section env.
Context `{XmlLib} {W : Type} `{!S2SOutEnv W, !KV W}.
(** What the session has written. *)
Context (log : W → list Element).

Definition tame {A} (m : M W A) : Prop := ∀ w,
  log (m w).2 = log w ∧ ∀ c, (m w).1 ≠ Crash c.

Class OutEnvOk : Prop := {
  oe_Dial : ∀ d, tame (dl_DialContext d);
  oe_SetFromJID : ∀ j, tame (ss_SetFromJID j);
  oe_OpenStream : tame ss_OpenStream;
  oe_Close : tame ss_Close;
  oe_Reset : tame ss_Reset;
  oe_RateLimiter : ∀ l, tame (tr_SetReadRateLimiter l);
  oe_StartTLS : ∀ w, log (tr_StartTLS w) = log w;
  oe_trClose : tame tr_Close;
  oe_unregister : ∀ a b w, log (op_unregister a b w) = log w;
  oe_hooks : ∀ n hi, tame (hk_Run n hi);
  oe_kvPut : ∀ k v, tame (kv_Put k v);
  (** a failed write may have written the element or not *)
  oe_Send : ∀ e w, match ss_Send e w with
                   | (Ok _, w') => log w' = log w ++ [e]
                   | (Err _, w') => log w' = log w ∨ log w' = log w ++ [e]
                   | (Crash _, _) => False
                   end;
}.

(** Writing and the handlers of the hooks never fail. *)
Definition reliable : Prop :=
  (∀ e, errless (ss_Send e)) ∧ (∀ n hi, errless (hk_Run n hi)).

Definition never (c : crash) : Prop := False.

End env.

(** ** The stream as a queue *)
Section fifo.
Context `{XmlLib} {W : Type} `{!S2SOutEnv W, !KV W}.
Context (log : W → list Element) `{!OutEnvOk log}.

Abbreviation St := (outS2S * W)%type.

(** The stanzas the session has written. *)
Definition users (w : W) : list Element := filter (fun e => is_stanza e = true) (log w).

(** Writing an element, and the hook that follows. *)
Definition sent_spec (e : Element) (s : outS2S) (w : W) (r : outcome unit * St) : Prop :=
  match r with
  | (Ok _, sw') => sw'.1 = s ∧ log sw'.2 = log w ++ [e]
  | (Err _, sw') => sw'.1 = s ∧ ¬ reliable ∧ (log sw'.2 = log w ∨ log sw'.2 = log w ++ [e])
  | (Crash _, _) => False
  end.

Lemma sendElement_spec e s w : dialed s = true → sent_spec e s w (sendElement e (s, w)).
Proof.
  intros Hd. unfold sendElement, onSession, mbind, M_bind, onW. simpl. rewrite Hd.
  pose proof (oe_Send log e w) as Hs. destruct (ss_Send e w) as [[[]|err|c] w1] eqn:E; simpl; [| |done].
  - unfold runHook, mbind, M_bind, onW. simpl. destruct (typ s); [|done].
    set (hi := MkInfo _ _ _ _ _). pose proof (oe_hooks log S2SOutStreamElementSent hi w1) as [Hl Hc].
    destruct (hk_Run _ hi w1) as [[[]|err|c] w2] eqn:E2; simpl in *; [by rewrite Hl| |by destruct (Hc c)].
    split; [done|]. split; [|rewrite Hl; by right]. intros [_ Hr]. specialize (Hr S2SOutStreamElementSent hi w1).
    by rewrite E2 in Hr.
  - split; [done|]. split; [|done]. intros [Hr _]. specialize (Hr e w). by rewrite E in Hr.
Qed.

Section walk.
(** the stanzas handed to the stream so far *)
Context (sub : list Element).

Definition dialed_default (s : outS2S) : Prop := dialed s = true ∧ typ s = defaultType.

(** What was written and what waits, in this order, comes from what was handed
    over; it is all of it when nothing fails. *)
Definition K (sw : St) : Prop :=
  dialed_default sw.1 ∧ users sw.2 ++ pendingQueue sw.1 `sublist_of` sub ∧
  (reliable → users sw.2 ++ pendingQueue sw.1 = sub) ∧
  Forall (fun e => is_stanza e = true) (pendingQueue sw.1) ∧
  (state sw.1 = outAuthenticated → pendingQueue sw.1 = []) ∧
  state sw.1 ≠ outAuthorizingDialbackKey.

(** After a failure in the middle of the queue. *)
Definition L (sw : St) : Prop :=
  dialed_default sw.1 ∧ users sw.2 `sublist_of` sub ∧ ¬ reliable.

Definition J (sw : St) : Prop := K sw ∨ (L sw ∧ state sw.1 = outDisconnected).

Lemma tame_onW {A} (P : St → Prop) (m : M W A) :
  (∀ s w w', log w' = log w → P (s, w) → P (s, w')) → tame log m → inv never P (onW m).
Proof.
  intros HP Hm. apply (inv_onW _ (fun w w' => log w' = log w)).
  - intros w. apply Hm.
  - intros w c Hc. by destruct (Hm w) as [_ Hx]; apply Hx in Hc.
  - done.
Qed.

Lemma tame_modify f : (∀ w, log (f w) = log w) → tame log (modify f).
Proof. intros Hf w. by split; [apply Hf|]. Qed.

Lemma K_log s w w' : users w' = users w → K (s, w) → K (s, w').
Proof. intros Hl. unfold K. simpl. by rewrite Hl. Qed.
Lemma L_log s w w' : users w' = users w → L (s, w) → L (s, w').
Proof. intros Hl. unfold L. simpl. by rewrite Hl. Qed.

Lemma users_app w w' e : log w' = log w ++ [e] →
  users w' = users w ++ (if is_stanza e then [e] else []).
Proof.
  intros Hl. unfold users. rewrite Hl, filter_app. f_equal. unfold filter, list_filter.
  destruct (is_stanza e); by case_decide.
Qed.

(** A property that calls keep when they write no stanza. *)
Definition good (P : St → Prop) : Prop :=
  (∀ s w w', users w' = users w → P (s, w) → P (s, w')) ∧
  (∀ s w, P (s, w) → dialed_default s).

Definition LD (sw : St) : Prop := L sw ∧ state sw.1 = outDisconnected.

Lemma K_good : good K.
Proof. split; [apply K_log|by intros s w []]. Qed.
Lemma L_good : good L.
Proof. split; [apply L_log|by intros s w []]. Qed.
Lemma LD_good : good LD.
Proof. split; [|by intros s w [[] _]]. intros s w w' Hl [HL Hs]. split; [by eapply L_log|done]. Qed.

Section good.
Context (P : St → Prop) (HP : good P).

Lemma good_onW {A} (m : M W A) : tame log m → inv never P (onW m).
Proof.
  apply tame_onW. intros s w w' Hl. apply HP. unfold users. by rewrite Hl.
Qed.

Lemma good_onSession {A} (m : M W A) : tame log m → inv never P (onSession m).
Proof.
  intros Hm. unfold onSession. eapply hoare_bind; [apply hoare_fld|intros d]. cbv beta.
  destruct d; [eapply hoare_pre; [|by apply good_onW]; by intros sw []|].
  intros [s w] [Hp Hd]. apply HP in Hp as [Hd' _]. simpl in *. congruence.
Qed.

Lemma good_runHook n a b e : inv never P (runHook n a b e).
Proof. unfold runHook. inv_walk. apply good_onW, (oe_hooks log). Qed.

Lemma good_send e : Kind e = None → inv never P (sendElement e).
Proof.
  intros He [s w] Hp. destruct (proj2 HP s w Hp) as [Hd Ht].
  pose proof (sendElement_spec e s w Hd) as Hr. unfold sent_spec in Hr.
  assert (∀ sw', sw'.1 = s → log sw'.2 = log w ∨ log sw'.2 = log w ++ [e] → P sw') as Hx.
  { intros [s' w'] Hs' Hl. simpl in *. subst s'. eapply HP; [|exact Hp].
    destruct Hl as [Hl|Hl]; [unfold users; by rewrite Hl|]. apply users_app in Hl.
    unfold is_stanza in Hl. by rewrite He, app_nil_r in Hl. }
  destruct (sendElement e (s, w)) as [[[]|err|c] sw']; naive_solver.
Qed.

Lemma good_closeResult : inv never P closeResult.
Proof.
  intros [s w] Hp. unfold closeResult, mbind, M_bind. simpl.
  destruct (proj2 HP s w Hp) as [_ ->]. done.
Qed.

(** [close], but for the change of the state. *)
Lemma good_close_rest : inv never P (
  s ← fld (fun s => s);
  match typ s with
  | defaultType => onW (modify (op_unregister (sender s) (target s)))
  | dialbackType => mret tt
  end;;
  closeResult;;
  runHook S2SOutStreamDisconnected "" "" None;;
  ignore (onSession tr_Close)).
Proof.
  pose proof good_closeResult. pose proof good_runHook.
  pose proof (good_onSession _ (oe_trClose log)).
  inv_walk. apply good_onW, tame_modify. intros w. by apply (oe_unregister log).
Qed.

End good.

(** Changes of the record that the queue does not see. *)
Lemma K_setf f : (∀ s, dialed (f s) = dialed s ∧ typ (f s) = typ s ∧
    pendingQueue (f s) = pendingQueue s ∧
    (state (f s) = state s ∨ state (f s) ≠ outAuthenticated ∧ state (f s) ≠ outAuthorizingDialbackKey)) →
  inv never K (setf f).
Proof.
  intros Hf. apply inv_setf. intros s w ([Hd Ht] & Hk). destruct (Hf s) as (E1 & E2 & E3 & E4).
  unfold K, dialed_default. simpl in *. rewrite E1, E2, E3.
  destruct E4 as [->|[]]; naive_solver.
Qed.
Lemma K_setState st : st ≠ outAuthenticated → st ≠ outAuthorizingDialbackKey → inv never K (setState st).
Proof. intros H1 H2. apply K_setf. intros s. repeat split. by right. Qed.

Lemma K_send e : Kind e = None → inv never K (sendElement e).
Proof. apply good_send, K_good. Qed.
Lemma K_build n a c x : inv never K (sendElement (Build n a c x)).
Proof. apply K_send, Kind_Build. Qed.
Lemma K_streamError r : inv never K (sendElement (StreamErrorElement r None)).
Proof. apply K_send, Kind_StreamError. Qed.

Lemma K_close : inv never K close.
Proof. unfold close. apply inv_bind; [by apply K_setState|intros ?]. apply good_close_rest, K_good. Qed.

Lemma L_close : hoare never L close (fun _ => LD) LD.
Proof.
  unfold close. eapply hoare_bind with (R := fun _ => LD).
  - intros [s w] HL. split; [exact HL|done].
  - intros ?. apply good_close_rest, LD_good.
Qed.

(** The flush of the queue. *)
Definition flushing (q : list Element) (sw : St) : Prop :=
  dialed_default sw.1 ∧ users sw.2 ++ q `sublist_of` sub ∧ (reliable → users sw.2 ++ q = sub) ∧
  Forall (fun e => is_stanza e = true) q ∧ state sw.1 = outAuthenticated.

Lemma flush_one e q :
  hoare never (flushing (e :: q)) (sendElement e) (fun _ => flushing q) L.
Proof.
  intros [s w] ([Hd Ht] & Hs & Hr & Hf & Hst). inversion Hf as [|? ? He Hq]; subst. simpl in *.
  pose proof (sendElement_spec e s w Hd) as Hx. unfold sent_spec in Hx.
  assert (∀ w', log w' = log w ++ [e] → users w' = users w ++ [e]) as Hu.
  { intros w' Hl. apply users_app in Hl. by rewrite He in Hl. }
  destruct (sendElement e (s, w)) as [[[]|err|c] [s' w']]; simpl in Hx; [| |done].
  - destruct Hx as [-> Hl]. apply Hu in Hl. split; [done|]. simpl. rewrite Hl, <-app_assoc. done.
  - destruct Hx as (-> & Hn & Hl). split; [done|]. split; [|done]. simpl.
    destruct Hl as [Hl|Hl]; [unfold users; rewrite Hl|rewrite (Hu _ Hl)]; (etransitivity; [|exact Hs]).
    + by apply sublist_inserts_r.
    + apply sublist_app; [done|]. apply sublist_skip, sublist_nil_l.
Qed.

Lemma flush_all q : hoare never (flushing q) (for_each q sendElement) (fun _ => flushing []) L.
Proof.
  induction q as [|e q IH]; simpl; [by intros sw Hf|].
  eapply hoare_bind; [apply flush_one|intros ?; exact IH].
Qed.

Lemma K_finish : hoare never K finishAuthentication (fun _ => K) L.
Proof.
  intros [s w] (Hd & Hs & Hr & Hf & _). simpl in *.
  unfold finishAuthentication, mbind, M_bind. simpl.
  assert (flushing (pendingQueue s) (set_state outAuthenticated s, w)) as Hfl by done.
  pose proof (flush_all _ _ Hfl) as Hx.
  destruct (for_each _ _ _) as [[[]|e|c] [s' w']]; [|done|done].
  destruct Hx as (Hd' & Hs' & Hr' & _ & Hst). simpl in *.
  repeat split; try apply Hd'; try done. simpl. by rewrite Hst.
Qed.

Create HintDb s2sout.
#[local] Hint Resolve K_close K_build K_streamError K_good : gohoare.
#[local] Hint Extern 1 (tame _ (modify _)) => apply tame_modify; intros ?; apply (oe_StartTLS log) : s2sout.
#[local] Hint Resolve oe_OpenStream oe_Close oe_Reset oe_kvPut : s2sout.
#[local] Hint Extern 1 (inv _ K (onSession _)) => apply good_onSession; [apply K_good|eauto with s2sout] : gohoare.
#[local] Hint Extern 1 (inv _ K (onW _)) => apply good_onW; [apply K_good|eauto with s2sout] : gohoare.
#[local] Hint Extern 1 (inv _ K (setState _)) => by apply K_setState : gohoare.
#[local] Hint Extern 1 (inv _ K (setFlag _)) => apply K_setf; intros ?; repeat split; by left : gohoare.
#[local] Hint Extern 1 (inv _ K (runHook _ _ _ _)) => apply good_runHook, K_good : gohoare.

Lemma K_registerDb a b i : tame log (registerDbRequest a b i).
Proof. apply (oe_kvPut log). Qed.
#[local] Hint Resolve K_registerDb : s2sout.

Lemma K_getState : inv never K getState.
Proof. unfold getState. inv_walk. Qed.
#[local] Hint Resolve K_getState : gohoare.

Lemma K_disconnect e : inv never K (disconnect e).
Proof. unfold disconnect. inv_walk. Qed.
Lemma K_restart : inv never K restartSession.
Proof. unfold restartSession. inv_walk. Qed.
#[local] Hint Resolve K_disconnect K_restart : gohoare.

(** The error that a handler returns leaves the queue whole, or in the state of
    an interrupted flush. *)
Abbreviation handles m := (hoare never K m (fun _ => K) (fun sw => K sw ∨ L sw)).

Lemma K_handles {A} (m : M St A) : inv never K m → hoare never K m (fun _ => K) (fun sw => K sw ∨ L sw).
Proof. intros Hm. eapply hoare_conseq; [exact Hm|done|done|by left]. Qed.
Lemma finish_handles : handles finishAuthentication.
Proof. eapply hoare_conseq; [exact K_finish|done|done|by right]. Qed.

Lemma K_handleElement e : handles (handleElement e).
Proof.
  unfold handleElement. eapply hoare_bind; [apply hoare_fld|intros st]. cbv beta.
  assert (∀ m : M St unit, handles m → hoare never (fun sw : St => K sw ∧ st = state sw.1) m (fun _ => K)
    (fun sw => K sw ∨ L sw)) as Hp.
  { intros m Hm. eapply hoare_pre; [|exact Hm]. by intros sw []. }
  destruct st; try (apply Hp, K_handles; unfold handleConnecting; inv_walk; fail).
  - apply Hp. unfold handleConnected. case_match; [apply K_handles; inv_walk|].
    eapply hoare_bind; [apply hoare_fld|intros s]. cbv beta.
    destruct (typ s) eqn:Ht.
    2: { intros sw [[[_ Ht'] _] ->]. congruence. }
    eapply hoare_pre with (P' := K); [by intros sw []|].
    case_match; [apply K_handles; inv_walk|].
    case_match; [apply finish_handles|]. apply K_handles. inv_walk.
  - apply Hp, K_handles. unfold handleSecuring. inv_walk.
  - apply Hp, K_handles. unfold handleAuthenticating. inv_walk.
  - apply Hp. unfold handleVerifyingDialbackKey. case_match; [|apply K_handles; inv_walk].
    case_match; [apply finish_handles|]. apply K_handles. inv_walk.
  - intros sw [HK Hst]. destruct HK as (_ & _ & _ & _ & _ & Hne). congruence.
Qed.

Lemma good_start P : good P → inv never P (setState outConnecting) → inv never P start.
Proof.
  intros HP Hs. pose proof (good_onSession P HP _ (oe_OpenStream log)).
  pose proof (good_onSession P HP _ (oe_Reset log)). pose proof (good_runHook P HP).
  unfold start, restartSession. inv_walk.
Qed.
Lemma silent_start : inv never (fun sw => dialed_default sw.1 ∧ users sw.2 = []) start.
Proof.
  apply good_start; [|by apply inv_setf]. split; [|by intros ? ? []].
  intros s w w' Hu [Hd Hw]. simpl in *. by rewrite Hu.
Qed.

Lemma LD_close : inv never LD close.
Proof. eapply hoare_pre; [|exact L_close]. by intros sw []. Qed.

Lemma LD_disconnect e : inv never LD (disconnect e).
Proof.
  pose proof (good_onSession _ LD_good _ (oe_OpenStream log)).
  pose proof (good_onSession _ LD_good _ (oe_Close log)). pose proof LD_close.
  unfold disconnect, getState. inv_walk. apply good_send; [apply LD_good|apply Kind_StreamError].
Qed.

Lemma J_disconnect e : inv never J (disconnect e).
Proof.
  intros sw [HK|HL]; [pose proof (K_disconnect e sw HK)|pose proof (LD_disconnect e sw HL)];
    destruct (disconnect e sw) as [[] ?]; first [done|by left|by right].
Qed.

Lemma J_close : hoare never (fun sw => J sw ∨ L sw) close (fun _ => J) J.
Proof.
  intros sw [[HK|HL]|HL];
    [pose proof (K_close sw HK)|pose proof (LD_close sw HL)|pose proof (L_close sw HL)];
    destruct (close sw) as [[] ?]; first [done|by left|by right].
Qed.

Lemma J_handleElement e :
  hoare never J (handleElement e) (fun _ => J) (fun sw => J sw ∨ L sw).
Proof.
  intros sw [HK|HL].
  - pose proof (K_handleElement e sw HK) as Hx. destruct (handleElement e sw) as [[] ?]; [by left| |done].
    destruct Hx; [left; by left|by right].
  - destruct sw as [s w], HL as [HL Hst]. simpl in Hst. unfold handleElement, mbind, M_bind. simpl.
    rewrite Hst. by right.
Qed.

Lemma J_onSession {A} (m : M W A) : tame log m → inv never J (onSession m).
Proof.
  intros Hm sw [HK|HL];
    [pose proof (good_onSession _ K_good m Hm sw HK)|pose proof (good_onSession _ LD_good m Hm sw HL)];
    destruct (onSession m sw) as [[] ?]; first [done|by left|by right].
Qed.

Lemma J_sessionError err : inv never J (handleSessionError err).
Proof.
  unfold handleSessionError. pose proof (J_onSession _ (oe_Close log)). inv_walk.
  eapply hoare_pre; [|exact J_close]. by left.
Qed.

Lemma J_session r : inv never J (handleSessionResult r).
Proof.
  destruct r as [[err|e]|]; simpl; [apply J_sessionError| |apply inv_ret].
  eapply hoare_bind; [apply hoare_try, J_handleElement|]. intros [err|[]]; [|by intros sw HJ].
  apply hoare_ignore, J_close.
Qed.

Lemma J_no_stanza ev : (∀ e, ev ≠ EvSend e) → inv never J (step ev).
Proof.
  intros Hev. destruct ev as [r|e|e]; simpl; [apply J_session|by destruct (Hev e)|].
  apply inv_ignore, J_disconnect.
Qed.
End walk.

(** Handing over a stanza. *)
Lemma J_send sub e : is_stanza e = true →
  hoare never (J sub) (step (EvSend e)) (fun _ => J (sub ++ [e])) (J (sub ++ [e])).
Proof.
  intros He. simpl. apply hoare_ignore. intros [s w] [HK|HL].
  - destruct HK as (Hd & Hs & Hr & Hf & Ha & Hn). unfold sendOrEnqueueElement, mbind, M_bind. simpl in *.
    destruct (decide (state s = outAuthenticated)) as [Hst|Hst].
    + rewrite Hst. rewrite (Ha Hst), app_nil_r in *.
      assert (flushing (sub ++ [e]) [e] (s, w)) as Hfl.
      { split; [done|]. simpl. split; [by apply sublist_app|]. split; [intros Hx; by rewrite Hr|].
        split; [by repeat constructor|done]. }
      pose proof (flush_one (sub ++ [e]) e [] (s, w) Hfl) as Hx.
      pose proof (sendElement_spec e s w (proj1 Hd)) as Hy.
      destruct (sendElement e (s, w)) as [[[]|err|c] [s' w']]; simpl in Hy; [| |done].
      * destruct Hy as [-> _], Hx as (? & ? & ? & _). left. repeat split; simpl; try apply Hd; try done.
        all: by rewrite (Ha Hst), ?app_nil_r in *.
      * destruct Hy as (-> & Hrel & _), Hx as (_ & Hx & _). left. repeat split; simpl; try apply Hd; try done.
        all: by rewrite (Ha Hst), ?app_nil_r in *.
    + assert (J (sub ++ [e]) (set_pendingQueue (pendingQueue s ++ [e]) s, w)) as HJ.
      { left. repeat split; simpl; try apply Hd; try done.
        - rewrite app_assoc. by apply sublist_app.
        - intros Hx. by rewrite app_assoc, Hr.
        - apply Forall_app. by repeat constructor. }
      by destruct (state s).
  - destruct HL as [(Hd & Hs & Hr) Hst]. unfold sendOrEnqueueElement, mbind, M_bind. simpl in *. rewrite Hst.
    right. split; [|done]. split; [done|]. split; [|done]. simpl. by apply sublist_inserts_r.
Qed.

Lemma J_step ev sub : Forall (fun e => is_stanza e = true) (submitted [ev]) →
  hoare never (J sub) (step ev) (fun _ => J (sub ++ submitted [ev])) (J (sub ++ submitted [ev])).
Proof.
  intros He. destruct ev as [r|e|e]; [|inversion He; subst; by apply J_send|];
    (eapply hoare_conseq; [by apply J_no_stanza|done|..]); intros; simpl; by rewrite app_nil_r.
Qed.

Lemma submitted_cons ev evs : submitted (ev :: evs) = submitted [ev] ++ submitted evs.
Proof. by destruct ev. Qed.

(** The errors of a step go to the log or to the caller's channel. *)
Lemma step_errless ev : errless (step ev).
Proof.
  assert (∀ {A} (m : M St A), errless (ignore m)) as Hi.
  { intros A m sw. unfold ignore, try, mbind, M_bind. by destruct (m sw) as [[] ?]. }
  destruct ev as [[[err|e]|]|e|e]; simpl; try apply Hi; [| |done].
  - intros sw. unfold handleSessionError, mbind, M_bind.
    pose proof (Hi _ (onSession (A := unit) ss_Close) sw) as H1.
    case_decide; simpl; [|apply Hi]. destruct (ignore _ sw) as [[] sw1]; [apply Hi|done|done].
  - intros sw. unfold mbind, M_bind, try. destruct (handleElement e sw) as [[] sw1]; [done|apply Hi|done].
Qed.

Lemma J_run evs : ∀ sub, Forall (fun e => is_stanza e = true) (submitted evs) →
  hoare never (J sub) (run evs) (fun _ => J (sub ++ submitted evs)) (fun sw => False).
Proof.
  induction evs as [|ev evs IH]; intros sub Hs sw HJ; [by rewrite app_nil_r|].
  rewrite submitted_cons, Forall_app in Hs. destruct Hs as [H1 H2]. simpl run.
  pose proof (J_step ev sub H1 sw HJ) as Hx. unfold mbind, M_bind.
  destruct (step ev sw) as [[[]|err|c] sw1] eqn:E; [|exfalso|done].
  - rewrite submitted_cons, app_assoc. by apply IH.
  - pose proof (step_errless ev sw) as He. by rewrite E in He.
Qed.

(** Before the connection is dialled, stanzas wait. *)
Definition is_send (ev : event) : bool := match ev with EvSend _ => true | _ => false end.

Lemma run_sends pre s w : Forall (fun ev => is_send ev = true) pre → state s ≠ outAuthenticated →
  run pre (s, w) = (Ok tt, (set_pendingQueue (pendingQueue s ++ submitted pre) s, w)).
Proof.
  intros Hp. revert s. induction Hp as [|ev pre Hev Hp IH]; intros s Hs.
  - simpl. rewrite app_nil_r. by destruct s.
  - destruct ev as [|e|]; [done| |done]. simpl.
    assert (ignore (sendOrEnqueueElement e) (s, w) =
      (Ok tt, (set_pendingQueue (pendingQueue s ++ [e]) s, w))) as Hx.
    { unfold ignore, sendOrEnqueueElement, try, mbind, M_bind. simpl. by destruct (state s). }
    rewrite (bind_Ok _ _ _ _ _ Hx), IH by done. simpl. by rewrite <-app_assoc.
Qed.

Lemma dial_K sub s w : typ s = defaultType → state s = outConnecting →
  Forall (fun e => is_stanza e = true) (pendingQueue s) → users w = [] → pendingQueue s = sub →
  match dial (s, w) with
  | (Ok _, sw) => K sub sw ∧ users sw.2 = []
  | (Err _, sw) => users sw.2 = []
  | (Crash _, _) => False
  end.
Proof.
  intros Ht Hst Hq Hu Hp. unfold dial, mbind, M_bind, try, onW. simpl.
  assert (∀ w', log w' = log w → users w' = []) as Hl.
  { intros w' Hl. unfold users. by rewrite Hl. }
  pose proof (oe_Dial log (target s) w) as [E1 C1].
  destruct (dl_DialContext (target s) w) as [[tls|e|c] w1]; simpl in *; [| |by destruct (C1 c)].
  2: { destruct e; try (by apply Hl). by destruct timeout; apply Hl. }
  pose proof (oe_RateLimiter log (Shaper.RateLimiter Shaper.DefaultS2S) w1) as [E2 C2].
  destruct (tr_SetReadRateLimiter _ w1) as [[[]|e|c] w2]; simpl in *; [|apply Hl; congruence|by destruct (C2 c)].
  pose proof (oe_SetFromJID log (NewJID "" (target s) "" true) w2) as [E3 C3].
  destruct (ss_SetFromJID _ w2) as [[[]|e|c] w3]; simpl in *; [|apply Hl; congruence|by destruct (C3 c)].
  assert (∀ fl, K sub (set_flags fl (set_dialed true s), w3) ∧ users w3 = []) as Hk.
  { intros fl. repeat split; simpl; try done; rewrite ?Hst, ?(Hl w3), ?Hp; try done; congruence. }
  destruct tls; [apply Hk|]. specialize (Hk (flags s)). by destruct s.
Qed.

(** C14: An outgoing S2S stream is a queue of stanzas: what the session writes is
    taken from what was handed to the stream, in the same order and nothing twice,
    whatever fails; when writing and hooks do not fail, what was written and what
    still waits is exactly what was handed over, and once the stream is
    authenticated nothing waits.  The stream never panics after it was dialled. *)
Theorem s2s_out_fifo (secret a b : string) (w0 : W) (pre evs : list event)
    (Hlog : log w0 = []) (Hpre : Forall (fun ev => is_send ev = true) pre)
    (Hst : Forall (fun e => is_stanza e = true) (submitted pre ++ submitted evs)) :
  match (run pre;; dial;; start;; run evs) (newOutS2S secret a b, w0) with
  | (Ok _, (s, w)) =>
    users w `sublist_of` submitted pre ++ submitted evs ∧
    (state s = outAuthenticated → pendingQueue s = []) ∧
    (reliable → users w ++ pendingQueue s = submitted pre ++ submitted evs)
  | (Err _, (_, w)) => users w = []
  | (Crash _, _) => False
  end.
Proof.
  apply Forall_app in Hst as [Hq Hs].
  rewrite (bind_Ok _ _ _ _ _ (run_sends pre (newOutS2S secret a b) w0 Hpre ltac:(discriminate))).
  set (s0 := set_pendingQueue _ _).
  pose proof (dial_K (submitted pre) s0 w0 eq_refl eq_refl Hq ltac:(unfold users; by rewrite Hlog) eq_refl) as Hd.
  unfold mbind at 1, M_bind at 1. destruct (dial (s0, w0)) as [[[]|e|c] sw1]; [|by destruct sw1|done].
  destruct Hd as [HK Hu].
  pose proof (good_start _ (K_good (submitted pre)) ltac:(by apply K_setState) sw1 HK) as Hk.
  pose proof (silent_start sw1 ltac:(split; [apply HK|done])) as Hk0.
  unfold mbind, M_bind. destruct (start sw1) as [[[]|e|c] sw2]; [|by destruct sw2, Hk0|done].
  pose proof (J_run evs (submitted pre) Hs sw2 (or_introl Hk)) as Hr.
  destruct (run evs sw2) as [[[]|e|c] [s w]]; [|done|done].
  destruct Hr as [(_ & Hsub & Heq & _ & Ha & _)|[(_ & Hsub & Hn) Hdis]]; simpl in *.
  - split; [|done]. etransitivity; [|exact Hsub]. by apply sublist_inserts_r.
  - split; [done|]. split; [by rewrite Hdis|done].
Qed.
End fifo.

(** ** What leaves before TLS *)
Section secured.
Context `{XmlLib} {W : Type} `{!S2SOutEnv W, !KV W}.
Context (log : W → list Element) `{!OutEnvOk log}.

Abbreviation St := (outS2S * W)%type.
Definition anyc (c : crash) : Prop := True.

(** What may be written on a connection that is not secured. *)
Definition starttls_request : Element := Build "starttls" [(Namespace, tlsNamespace)] [] "".
Definition negotiation (e : Element) : Prop :=
  e = starttls_request ∨ ∃ r, e = StreamErrorElement r None.

(** The connection is secured, *)
Definition Sec (sw : St) : Prop :=
  Flags.valid (flags sw.1) ∧ Flags.isSecured (flags sw.1) = true.
(** or it is not, and the stream is in one of the first states. *)
Definition Unsec (sw : St) : Prop :=
  Flags.valid (flags sw.1) ∧ Flags.isSecured (flags sw.1) = false ∧
  state sw.1 ∈ [outConnecting; outConnected; outSecuring; outDisconnected] ∧
  Forall negotiation (log sw.2).

Lemma sec_onW {A} (m : M W A) : inv anyc Sec (onW m).
Proof. apply (inv_onW _ (fun _ _ => True)); done. Qed.
Lemma sec_setf f : (∀ s, flags (f s) = flags s) → inv anyc Sec (setf f).
Proof. intros Hf. apply inv_setf. intros s w. unfold Sec. simpl. by rewrite Hf. Qed.
Lemma sec_setFlag m : m ∈ Flags.masks → inv anyc Sec (setFlag (Flags.set m)).
Proof.
  intros Hm [s w] [Hv Hs]. simpl in *. unfold Sec, Flags.isSecured in *. simpl.
  destruct (Flags.set_spec (flags s) m Flags.fSecured Hv Hm ltac:(set_solver)) as [Hv' ->].
  by rewrite Hs.
Qed.
Lemma sec_crash {A} c : inv anyc Sec (@crash_with St A c).
Proof. by apply inv_crash. Qed.
#[local] Hint Resolve sec_onW sec_crash : gohoare.
#[local] Hint Extern 1 (inv _ Sec (setf _)) => apply sec_setf; intros ?; reflexivity : gohoare.
#[local] Hint Extern 1 (inv _ Sec (setFlag _)) => apply sec_setFlag; set_solver : gohoare.

Lemma sec_send e : inv anyc Sec (sendElement e).
Proof. unfold sendElement, onSession, runHook. inv_walk. Qed.
Lemma sec_close : inv anyc Sec close.
Proof. unfold close, closeResult, setState, runHook, onSession. inv_walk. Qed.
#[local] Hint Resolve sec_send sec_close : gohoare.
Lemma sec_disconnect e : inv anyc Sec (disconnect e).
Proof. unfold disconnect, getState, onSession. inv_walk. Qed.
#[local] Hint Resolve sec_disconnect : gohoare.
Lemma sec_step ev : inv anyc Sec (step ev).
Proof.
  destruct ev as [[[err|e]|]|e|e]; simpl;
    unfold handleSessionError, sendOrEnqueueElement, handleElement, handleConnecting, handleConnected,
      handleSecuring, handleAuthenticating, handleVerifyingDialbackKey, handleAuthorizingDialbackKey,
      finishAuthentication, sendResult, restartSession, getState, setState, onSession; inv_walk.
Qed.

(** The unsecured side. *)
Lemma unsec_tame {A} (m : M W A) : tame log m → inv anyc Unsec (onW m).
Proof.
  intros Hm. apply (inv_onW _ (fun w w' => log w' = log w)); [intros w; apply Hm|done|].
  intros s w w' Hl. unfold Unsec. simpl. by rewrite Hl.
Qed.
Lemma unsec_modify f : (∀ w, log (f w) = log w) → inv anyc Unsec (onW (modify f)).
Proof. intros Hf. by apply unsec_tame, tame_modify. Qed.
Lemma unsec_setf f : (∀ s, flags (f s) = flags s ∧ state (f s) = state s) → inv anyc Unsec (setf f).
Proof.
  intros Hf. apply inv_setf. intros s w. destruct (Hf s) as [E1 E2]. unfold Unsec. simpl.
  by rewrite E1, E2.
Qed.
Lemma unsec_setState st : st ∈ [outConnecting; outConnected; outSecuring; outDisconnected] →
  inv anyc Unsec (setState st).
Proof. intros Hst. apply inv_setf. intros s w (? & ? & _ & ?). by repeat split. Qed.
Lemma unsec_crash {A} c : inv anyc Unsec (@crash_with St A c).
Proof. by apply inv_crash. Qed.
Lemma unsec_write e : negotiation e → inv anyc Unsec (onW (ss_Send e)).
Proof.
  intros He [s w] (? & ? & ? & Hl). unfold onW. pose proof (oe_Send log e w) as Hs.
  assert (∀ w', log w' = log w ∨ log w' = log w ++ [e] → Unsec (s, w')) as Hx.
  { intros w' Hw. repeat split; try done. simpl in *. destruct Hw as [->| ->]; [done|].
    apply Forall_app. split; [done|]. by apply Forall_singleton. }
  destruct (ss_Send e w) as [[] w']; simpl; auto. done.
Qed.

#[local] Hint Resolve oe_OpenStream oe_Close oe_Reset oe_trClose oe_hooks unsec_crash : gohoare.
#[local] Hint Extern 1 (inv _ Unsec (onW _)) => apply unsec_tame; eauto with gohoare : gohoare.
#[local] Hint Extern 1 (inv _ Unsec (onW (modify _))) =>
  apply unsec_modify; intros ?; first [apply (oe_StartTLS log)|apply (oe_unregister log)] : gohoare.
#[local] Hint Extern 1 (inv _ Unsec (setState _)) => apply unsec_setState; set_solver : gohoare.
#[local] Hint Extern 1 (inv _ Unsec (setf _)) => apply unsec_setf; intros ?; by split : gohoare.

Lemma unsec_send e : negotiation e → inv anyc Unsec (sendElement e).
Proof. intros He. pose proof (unsec_write e He). unfold sendElement, onSession, runHook. inv_walk. Qed.
Lemma unsec_starttls : inv anyc Unsec (sendElement starttls_request).
Proof. apply unsec_send. by left. Qed.
Lemma unsec_streamError r : inv anyc Unsec (sendElement (StreamErrorElement r None)).
Proof. apply unsec_send. right. by exists r. Qed.
#[local] Hint Resolve unsec_starttls unsec_streamError : gohoare.
Lemma unsec_close : inv anyc Unsec close.
Proof. unfold close, closeResult, runHook, onSession. inv_walk. Qed.
#[local] Hint Resolve unsec_close : gohoare.
Lemma unsec_disconnect e : inv anyc Unsec (disconnect e).
Proof. unfold disconnect, getState, onSession. inv_walk. Qed.
#[local] Hint Resolve unsec_disconnect : gohoare.

Definition Either (sw : St) : Prop := Sec sw ∨ Unsec sw.

Lemma unsec_to {A} (m : M St A) : inv anyc Unsec m → hoare anyc Unsec m (fun _ => Either) Either.
Proof. intros Hm. eapply hoare_conseq; [exact Hm|done|by right|by right]. Qed.
Lemma sec_to {A} (m : M St A) : inv anyc Sec m → hoare anyc Sec m (fun _ => Either) Either.
Proof. intros Hm. eapply hoare_conseq; [exact Hm|done|by left|by left]. Qed.

Lemma setSecured_sec fl : Flags.valid fl →
  Flags.valid (Flags.setSecured fl) ∧ Flags.isSecured (Flags.setSecured fl) = true.
Proof.
  intros Hv. unfold Flags.isSecured, Flags.setSecured.
  destruct (Flags.set_spec fl Flags.fSecured Flags.fSecured Hv ltac:(set_solver) ltac:(set_solver))
    as [Hv' ->]. by rewrite orb_true_r.
Qed.

Lemma handleSecuring_to e : hoare anyc Unsec (handleSecuring e) (fun _ => Either) Either.
Proof.
  unfold handleSecuring. case_match; [apply unsec_to; inv_walk|].
  case_match; [apply unsec_to; inv_walk|].
  eapply hoare_bind; [eapply hoare_conseq with (P' := Unsec) (Q' := fun _ => Unsec) (E' := Unsec)|intros ?].
  - unfold onSession. inv_walk.
  - done.
  - intros ? ? Hx. exact Hx.
  - by right.
  - eapply hoare_bind with (R := fun _ => Sec).
    + intros [s w] (Hv & _). by apply setSecured_sec.
    + intros ?. apply sec_to. unfold restartSession, setState, onSession. inv_walk.
Qed.

Lemma handleElement_to e : hoare anyc Unsec (handleElement e) (fun _ => Either) Either.
Proof.
  unfold handleElement. eapply hoare_bind; [apply hoare_fld|intros st]. cbv beta.
  eapply hoare_pre with (P' := fun sw => Unsec sw ∧
    st ∈ [outConnecting; outConnected; outSecuring; outDisconnected]).
  { intros sw [Hu ->]. split; [done|apply Hu]. }
  assert (∀ m : M St unit, hoare anyc Unsec m (fun _ => Either) Either →
    hoare anyc (fun sw => Unsec sw ∧ st ∈ [outConnecting; outConnected; outSecuring; outDisconnected])
      m (fun _ => Either) Either) as Hp.
  { intros m Hm. eapply hoare_pre; [|exact Hm]. by intros sw []. }
  destruct st; try (intros sw [_ Hn]; set_solver).
  - apply Hp, unsec_to. unfold handleConnecting. inv_walk.
  - apply Hp. unfold handleConnected. case_match; [apply unsec_to; inv_walk|].
    eapply hoare_bind; [apply hoare_fld|intros s]. cbv beta.
    destruct (Flags.isSecured (flags s)) eqn:Hs; simpl.
    { intros sw [(_ & Hn & _) ->]. congruence. }
    eapply hoare_pre with (P' := Unsec); [by intros sw []|]. apply unsec_to. inv_walk.
  - apply Hp, handleSecuring_to.
  - apply Hp, unsec_to. inv_walk.
Qed.

Lemma either_ignore {A} (m : M St A) :
  hoare anyc Unsec m (fun _ => Either) Either → inv anyc Sec m →
  hoare anyc Either (ignore m) (fun _ => Either) Either.
Proof.
  intros Hu Hs. apply hoare_ignore. intros sw [Hx|Hx]; [|by apply Hu].
  pose proof (Hs sw Hx). destruct (m sw) as [[] ?]; first [done|by left].
Qed.

Lemma unsec_close_to : hoare anyc Unsec close (fun _ => Either) Either.
Proof. apply unsec_to, unsec_close. Qed.

Lemma either_step ev : hoare anyc Either (step ev) (fun _ => Either) Either.
Proof.
  intros sw [Hs|Hu].
  { pose proof (sec_step ev sw Hs). destruct (step ev sw) as [[] ?]; first [done|by left]. }
  revert sw Hu. change (hoare anyc Unsec (step ev) (fun _ => Either) Either).
  destruct ev as [[[err|e]|]|e|e]; simpl.
  - apply unsec_to. unfold handleSessionError, onSession. inv_walk.
  - eapply hoare_bind; [apply hoare_try, handleElement_to|]. intros [err|[]]; [|by intros sw Hx].
    apply (either_ignore close unsec_close_to sec_close).
  - by right.
  - apply hoare_ignore. intros [s w] Hu. unfold sendOrEnqueueElement, mbind, M_bind. simpl.
    assert (Unsec (set_pendingQueue (pendingQueue s ++ [e]) s, w)) as Hx by exact Hu.
    destruct (state s) eqn:Hst; try (by right).
    destruct Hu as (_ & _ & Hn & _). simpl in Hn. rewrite Hst in Hn. set_solver.
  - apply hoare_ignore, unsec_to. inv_walk.
Qed.

Lemma either_run evs : hoare anyc Either (run evs) (fun _ => Either) Either.
Proof.
  induction evs as [|ev evs IH]; simpl; [by intros sw Hx|].
  eapply hoare_bind; [apply either_step|intros ?; exact IH].
Qed.

Lemma either_start : hoare anyc Either start (fun _ => Either) Either.
Proof.
  intros sw [Hs|Hu].
  - assert (inv anyc Sec start) as Hx by (unfold start, restartSession, setState, runHook, onSession; inv_walk).
    specialize (Hx sw Hs). destruct (start sw) as [[] ?]; first [done|by left].
  - assert (inv anyc Unsec start) as Hx by (unfold start, restartSession, runHook, onSession; inv_walk).
    specialize (Hx sw Hu). destruct (start sw) as [[] ?]; first [done|by right].
Qed.

Lemma dial_secured s w : Unsec (s, w) → hoare anyc (fun sw => sw = (s, w)) dial (fun _ => Either) Either.
Proof.
  intros Hu. eapply hoare_pre with (P' := Unsec); [by intros ? ->|]. unfold dial.
  eapply hoare_bind with (R := fun _ => Unsec); [by intros sw Hx|intros trgt].
  eapply hoare_bind with (R := fun _ => Unsec).
  { eapply hoare_conseq; [apply hoare_try, (unsec_tame (dl_DialContext trgt)), (oe_Dial log)|done| |].
    - by intros [] ?.
    - intros sw Hx. exact Hx. }
  intros [e|tls]; [apply unsec_to; inv_walk|].
  assert (∀ {A} (m : M St A) f, inv anyc Unsec m → hoare anyc Unsec f (fun _ : unit => Either) Either →
    hoare anyc Unsec (m ≫= (fun _ => f)) (fun _ => Either) Either) as Hb.
  { intros A m f Hm Hf. eapply hoare_bind; [|intros ?; exact Hf].
    eapply hoare_conseq; [exact Hm|done|done|by right]. }
  apply Hb; [apply unsec_tame, (oe_RateLimiter log)|]. apply Hb; [inv_walk|].
  apply Hb; [apply unsec_tame, (oe_SetFromJID log)|]. destruct tls; [|apply unsec_to; inv_walk].
  intros [s' w'] (Hv & _). left. by apply setSecured_sec.
Qed.

(** As long as the connection of an outgoing S2S stream is not secured, nothing
    is written but the request for TLS and stream errors: no stanza, no SASL
    exchange and no dialback key; the states in which the stream authenticates,
    or is authenticated, are only reached on a secured connection. *)
Theorem s2s_out_secured (secret a b : string) (p : DialbackParams) (s0 : outS2S) (w0 : W)
    (evs : list event) (Hnew : s0 ∈ [newOutS2S secret a b; newDialbackS2S secret a b p])
    (Hlog : log w0 = []) :
  match (dial;; start;; run evs) (s0, w0) with
  | (Crash _, _) => True
  | (_, (s, w)) =>
    (Flags.isSecured (flags s) = false → Forall negotiation (log w)) ∧
    (state s ∈ [outAuthenticating; outAuthenticated; outVerifyingDialbackKey; outAuthorizingDialbackKey] →
     Flags.isSecured (flags s) = true)
  end.
Proof.
  assert (Unsec (s0, w0)) as Hu.
  { assert (flags s0 = 0%Z ∧ state s0 = outConnecting) as [Hf Hs] by (by set_unfold in Hnew; destruct Hnew as [->|[->|[]]]).
    unfold Unsec. simpl. rewrite Hf, Hs, Hlog. repeat split; try done; set_solver. }
  assert (hoare anyc (fun sw => sw = (s0, w0)) (dial;; start;; run evs) (fun _ => Either) Either) as Hx.
  { eapply hoare_bind; [by apply dial_secured|intros ?].
    eapply hoare_bind; [apply either_start|intros ?; apply either_run]. }
  specialize (Hx _ eq_refl).
  assert (∀ s w, Either (s, w) → (Flags.isSecured (flags s) = false → Forall negotiation (log w)) ∧
    (state s ∈ [outAuthenticating; outAuthenticated; outVerifyingDialbackKey; outAuthorizingDialbackKey] →
     Flags.isSecured (flags s) = true)) as He.
  { intros s w [[_ Hs]|(_ & Hn & Hst & Hl)]; simpl in *; [by rewrite Hs|]. split; [done|].
    intros Hin. exfalso. revert Hst Hin. clear. destruct (state s); set_unfold; intuition discriminate. }
  destruct ((dial;; start;; run evs) (s0, w0)) as [[] [s w]]; [by apply He..|done].
Qed.
End secured.

(** ** The result of a dialback stream *)
Section dialback.
Context `{XmlLib} {W : Type} `{!S2SOutEnv W, !KV W}.
Context (log : W → list Element) `{!OutEnvOk log}.

Abbreviation St := (outS2S * W)%type.

(** The elements the session received, and what the stream reports of one. *)
Fixpoint received (evs : list event) : list Element :=
  match evs with
  | [] => []
  | EvSession (Some (inr e)) :: evs' => e :: received evs'
  | _ :: evs' => received evs'
  end.
Definition answer (e : Element) : DialbackResult :=
  MkDbResult (String.eqb (Attribute e AttrType) "valid") (Child e "error").

Section walk.
Context (rec : list Element).

Definition justified (ch : list DialbackResult) : Prop :=
  ch = [] ∨ ∃ e, e ∈ rec ∧ Name e = "db:verify" ∧ ch = [answer e].

(** The channel is open; a result may be in it. *)
Definition open (sw : St) : Prop :=
  typ sw.1 = dialbackType ∧ dialed sw.1 = true ∧ dbClosed sw.1 = false ∧ justified (dbResCh sw.1).
(** The stream goes on. *)
Definition live (sw : St) : Prop :=
  open sw ∧ dbResCh sw.1 = [] ∧ state sw.1 ≠ outDisconnected.
(** The stream has ended and reported. *)
Definition ended (sw : St) : Prop :=
  typ sw.1 = dialbackType ∧ dbClosed sw.1 = true ∧ state sw.1 = outDisconnected ∧
  justified (dbResCh sw.1).
Definition settled (sw : St) : Prop := live sw ∨ ended sw.

Lemma live_tame {A} (m : M W A) : tame log m → inv never live (onW m).
Proof. intros Hm. by apply (tame_onW log). Qed.
Lemma live_onSession {A} (m : M W A) : tame log m → inv never live (onSession m).
Proof.
  intros Hm sw Hl. pose proof Hl as [(_ & Hd & _) _]. unfold onSession, mbind, M_bind. simpl.
  rewrite Hd. exact (live_tame m Hm sw Hl).
Qed.
Lemma live_send e : inv never live (sendElement e).
Proof.
  intros [s w] Hl. pose proof Hl as [(_ & Hd & _) _]. pose proof (sendElement_spec log e s w Hd) as Hx.
  destruct (sendElement e (s, w)) as [[[]|err|c] [s' w']]; simpl in Hx; [| |done];
    by destruct Hx as [-> _].
Qed.
Lemma live_setf f : (∀ s, typ (f s) = typ s ∧ dialed (f s) = dialed s ∧ dbClosed (f s) = dbClosed s ∧
    dbResCh (f s) = dbResCh s ∧ (state (f s) = state s ∨ state (f s) ≠ outDisconnected)) →
  inv never live (setf f).
Proof.
  intros Hf. apply inv_setf. intros s w ((Ht & Hd & Hc & Hj) & Hr & Hs).
  destruct (Hf s) as (E1 & E2 & E3 & E4 & E5). unfold live, open. simpl in *.
  rewrite E1, E2, E3, E4. destruct E5 as [->|]; done.
Qed.

(** [close] never fails here: a dialback stream runs no hooks. *)
Lemma open_close : hoare never open close (fun _ => ended) (fun _ => False).
Proof.
  intros [s w] (Ht & Hd & Hc & Hj). simpl in *. unfold close, closeResult, runHook, ignore, try, onSession,
    onW, mbind, M_bind. simpl. rewrite Ht. simpl. rewrite Ht, Hc. simpl. rewrite Ht. simpl. rewrite Hd.
  pose proof (oe_trClose log w) as [_ Hx]. destruct (tr_Close w) as [[]]; [done|done|by destruct (Hx c)].
Qed.
#[local] Hint Resolve live_send oe_OpenStream oe_Close oe_Reset : gohoare.
#[local] Hint Extern 1 (inv _ live (onSession _)) => apply live_onSession; eauto with gohoare : gohoare.
#[local] Hint Extern 1 (inv _ live (onSession (modify _))) =>
  apply live_onSession, tame_modify; intros ?; apply (oe_StartTLS log) : gohoare.
#[local] Hint Extern 1 (inv _ live (setState _)) =>
  apply live_setf; intros ?; repeat split; by right : gohoare.
#[local] Hint Extern 1 (inv _ live (setf _)) => apply live_setf; intros ?; repeat split; by left : gohoare.
#[local] Hint Extern 1 (inv _ live (setFlag _)) => apply live_setf; intros ?; repeat split; by left : gohoare.

Lemma live_to {A} (m : M St A) : inv never live m → hoare never live m (fun _ => settled) live.
Proof. intros Hm. eapply hoare_conseq; [exact Hm|done|by left|done]. Qed.

Lemma close_to : hoare never live close (fun _ => settled) live.
Proof. eapply hoare_conseq; [exact open_close|by intros sw []|by right|done]. Qed.

Lemma disconnect_to e : hoare never live (disconnect e) (fun _ => settled) live.
Proof.
  unfold disconnect, getState. do 3 (eapply hoare_bind with (R := fun _ => live); [inv_walk|intros ?]).
  eapply hoare_bind with (R := fun _ => live); [inv_walk|intros ?]. apply close_to.
Qed.

(** The report: the result is put in the channel and the stream ends. *)
Lemma report_to e : e ∈ rec → Name e = "db:verify" →
  hoare never (fun sw => live sw ∧ state sw.1 = outAuthorizingDialbackKey)
    (sendResult (answer e);; disconnect None) (fun _ => settled) live.
Proof.
  intros He Hn [s w] [((Ht & Hd & Hc & _) & Hr & _) Hst]. simpl in *.
  unfold sendResult, mbind, M_bind. simpl. rewrite Ht, Hc, Hr. simpl. unfold disconnect.
  set (s1 := set_dbResCh _ _). unfold getState, mbind, M_bind. simpl. rewrite Hst. simpl.
  unfold ignore, try, onSession, onW, mbind, M_bind. simpl. rewrite Hd.
  pose proof (oe_Close log w) as [_ Hx].
  assert (∀ w', match close (s1, w') with (Ok _, sw) => settled sw | (Err _, _) => False | (Crash c, _) => never c end) as Hcl.
  { intros w'. pose proof (open_close (s1, w')) as Ho. destruct (close (s1, w')) as [[]]; [right|..];
      apply Ho; repeat split; try done; right; by exists e. }
  destruct (ss_Close w) as [[] w']; simpl; [specialize (Hcl w')|specialize (Hcl w')|by destruct (Hx c)];
    by destruct (close (s1, w')) as [[] ?].
Qed.


#[local] Hint Extern 1 (tame _ (registerDbRequest _ _ _)) => apply (oe_kvPut log) : gohoare.
#[local] Hint Extern 1 (inv _ live (onW _)) => apply live_tame; eauto with gohoare : gohoare.

Lemma bind_to {A B} (m : M St A) (f : A → M St B) : inv never live m →
  (∀ a, hoare never live (f a) (fun _ => settled) live) → hoare never live (m ≫= f) (fun _ => settled) live.
Proof. intros Hm Hf. by eapply hoare_bind. Qed.

Lemma handleElement_settled e : e ∈ rec →
  hoare never live (handleElement e) (fun _ => settled) live.
Proof.
  intros He. unfold handleElement. eapply hoare_bind; [apply hoare_fld|intros st]. cbv beta.
  assert (∀ m : M St unit, hoare never live m (fun _ => settled) live →
    hoare never (fun sw => live sw ∧ st = state sw.1) m (fun _ => settled) live) as Hp.
  { intros m Hm. eapply hoare_pre; [|exact Hm]. by intros sw []. }
  pose proof disconnect_to as Hd.
  destruct st; try (apply Hp, live_to; unfold handleConnecting; inv_walk; fail).
  - apply Hp. unfold handleConnected, finishAuthentication. case_match; [apply Hd|].
    apply bind_to; [inv_walk|intros s].
    repeat case_match; try apply Hd; apply live_to; inv_walk.
  - apply Hp. unfold handleSecuring. repeat case_match; try apply Hd.
    apply live_to. unfold restartSession. inv_walk.
  - apply Hp. unfold handleAuthenticating. repeat case_match; try apply Hd.
    apply live_to. unfold restartSession. inv_walk.
  - apply Hp. unfold handleVerifyingDialbackKey, finishAuthentication. repeat case_match; try apply Hd.
    apply live_to. inv_walk.
  - unfold handleAuthorizingDialbackKey. destruct (String.eqb_spec (Name e) "db:verify"); [|by apply Hp].
    eapply hoare_pre; [|by apply report_to]. intros sw [Hl Hs]. by split.
Qed.

Lemma step_settled ev : (∀ r, ev = EvSession (Some (inr r)) → r ∈ rec) →
  hoare never live (step ev) (fun _ => settled) (fun _ => False).
Proof.
  intros Hev. destruct ev as [[[err|e]|]|e|e]; simpl.
  - unfold handleSessionError. eapply hoare_bind with (R := fun _ => live).
    + case_decide; [apply hoare_ignore; inv_walk|by intros sw Hl].
    + intros ?. apply hoare_ignore. eapply hoare_conseq; [exact close_to|done|done|by left].
  - eapply hoare_bind; [apply hoare_try, handleElement_settled; by apply Hev|].
    intros [err|[]]; [|by intros sw Hx].
    apply hoare_ignore. eapply hoare_conseq; [exact close_to|done|done|by left].
  - by left.
  - apply hoare_ignore. eapply hoare_conseq with (P' := live) (Q' := fun _ => live) (E' := live); try done; try by left.
    unfold sendOrEnqueueElement, getState. inv_walk.
  - apply hoare_ignore. eapply hoare_conseq; [apply disconnect_to|done|done|by left].
Qed.
End walk.

(** Nothing happens to the stream after it has ended: [readLoop] stops, and nobody
    calls [Disconnect] on a dialback stream. *)
Fixpoint live_run (evs : list event) (sw : St) : Prop :=
  match evs with
  | [] => True
  | ev :: evs' => readLoop_continues sw.1 = true ∧ live_run evs' (step ev sw).2
  end.

Lemma justified_mono rec rec' ch : rec ⊆ rec' → justified rec ch → justified rec' ch.
Proof. intros Hs [->|(e & He & Hn & ->)]; [by left|]. right. exists e. set_solver. Qed.

Lemma settled_mono rec rec' sw : rec ⊆ rec' → settled rec sw → settled rec' sw.
Proof.
  intros Hs [((Ht & Hd & Hc & Hj) & Hr & Hst)|(Ht & Hc & Hst & Hj)].
  - left. repeat split; try done. by eapply justified_mono.
  - right. repeat split; try done. by eapply justified_mono.
Qed.

Lemma run_settled evs : ∀ rec sw, settled rec sw → live_run evs sw →
  match run evs sw with
  | (Ok _, sw') => settled (rec ++ received evs) sw'
  | _ => False
  end.
Proof.
  induction evs as [|ev evs IH]; intros rec sw Hs Hl; [by rewrite app_nil_r|].
  destruct Hl as [Hc Hl]. simpl run. unfold mbind, M_bind.
  destruct Hs as [Hs|(_ & _ & Hd & _)]; [|unfold readLoop_continues in Hc; by rewrite Hd in Hc].
  set (rec' := rec ++ received [ev]).
  assert (live rec' sw) as Hs'.
  { destruct Hs as ((Ht & Hdi & Hcl & Hj) & Hs). split; [|done]. repeat split; try done.
    eapply justified_mono; [|exact Hj]. unfold rec'. set_solver. }
  assert (received (ev :: evs) = received [ev] ++ received evs) as ->
    by (by destruct ev as [[[]|]| |]).
  pose proof (step_settled rec' ev ltac:(intros r ->; unfold rec'; simpl; set_solver) sw Hs') as Hx.
  destruct (step ev sw) as [[[]|err|c] sw1]; [|done|done]. specialize (IH rec' sw1 Hx Hl).
  unfold rec' in IH. by rewrite <-app_assoc in IH.
Qed.

Lemma dial_live secret a b p w : match dial (newDialbackS2S secret a b p, w) with
  | (Ok _, sw) => live [] sw | (Err _, _) => True | (Crash _, _) => False end.
Proof.
  unfold dial, mbind, M_bind, try, onW. simpl.
  pose proof (oe_Dial log b w) as [_ C1].
  destruct (dl_DialContext b w) as [[tls|e|c] w1]; simpl in *; [| |by destruct (C1 c)].
  2: { destruct e; try done. by destruct timeout. }
  pose proof (oe_RateLimiter log (Shaper.RateLimiter Shaper.DefaultS2S) w1) as [_ C2].
  destruct (tr_SetReadRateLimiter _ w1) as [[[]|e|c] w2]; simpl in *; [|done|by destruct (C2 c)].
  pose proof (oe_SetFromJID log (NewJID "" b "" true) w2) as [_ C3].
  destruct (ss_SetFromJID _ w2) as [[[]|e|c] w3]; simpl in *; [|done|by destruct (C3 c)].
  assert (∀ fl, live [] (set_flags fl (set_dialed true (newDialbackS2S secret a b p)), w3)) as Hk.
  { intros fl. repeat split; simpl; try done. by left. }
  destruct tls; [apply Hk|exact (Hk 0%Z)].
Qed.

Lemma start_live rec : hoare never (live rec) start (fun _ => live rec) (fun _ => False).
Proof.
  unfold start, restartSession. eapply hoare_bind with (R := fun _ => live rec).
  - eapply hoare_bind with (R := fun _ => live rec).
    + apply hoare_ignore, live_onSession, (oe_Reset log).
    + intros ? [s w] ((? & ? & ? & ?) & ? & ?). by repeat split.
  - intros ?. eapply hoare_bind with (R := fun _ => live rec).
    + apply hoare_ignore, live_onSession, (oe_OpenStream log).
    + intros ? sw Hl. pose proof Hl as [(Ht & _) _]. unfold runHook, mbind, M_bind. simpl. by rewrite Ht.
Qed.

(** A dialback stream reports exactly once and never panics: its channel is
    closed exactly when the stream has ended, it holds at most one result, and a
    result in it is the answer of a [db:verify] element that was received; so the
    incoming stream that waits for the result gets one or learns that there is
    none. *)
Theorem dialback_reports_once (secret a b : string) (p : DialbackParams) (w0 : W) (evs : list event)
    (Hlive : live_run evs ((dial;; start) (newDialbackS2S secret a b p, w0)).2) :
  match ((dial;; start) ≫= (fun _ => run evs)) (newDialbackS2S secret a b p, w0) with
  | (Ok _, (s, _)) =>
    (dbClosed s = true ↔ state s = outDisconnected) ∧
    (dbResCh s = [] ∨ state s = outDisconnected ∧ ∃ e, e ∈ received evs ∧ Name e = "db:verify" ∧
       dbResCh s = [answer e])
  | (Err e, _) => (dial (newDialbackS2S secret a b p, w0)).1 = Err e
  | (Crash _, _) => False
  end.
Proof.
  revert Hlive. pose proof (dial_live secret a b p w0) as Hd. unfold mbind, M_bind.
  destruct (dial _) as [[[]|e|c] sw1]; [|done|done].
  pose proof (start_live [] sw1 Hd) as Hs. destruct (start sw1) as [[[]|e|c] sw2]; [|done|done]. simpl.
  intros Hl. pose proof (run_settled evs [] sw2 (or_introl Hs) Hl) as Hr.
  destruct (run evs sw2) as [[[]|e|c] [s w]]; [|done|done].
  destruct Hr as [((_ & _ & Hc & _) & Hr & Hst)|(_ & Hc & Hst & [Hr|Hr])]; simpl in *.
  - rewrite Hc. split; [split; [done|by intros ?%Hst]|by left].
  - rewrite Hc. split; [done|by left].
  - rewrite Hc. split; [done|by right].
Qed.
End dialback.

(** ** A concrete environment

    Every call succeeds and the dialled connection is not secured. *)
Module OutDemo.
Import TreeLib.

Record world := MkWorld { written : list tree; store : gmap string string }.

Definition env : S2SOutEnv world := {|
  dl_DialContext := fun _ => mret false;
  ss_StreamID := fun _ => "D60000229F"; ss_SetFromJID := fun _ => mret tt; ss_OpenStream := mret tt;
  ss_Send := fun e => modify (fun w => MkWorld (written w ++ [e]) (store w));
  ss_Close := mret tt; ss_Reset := mret tt;
  tr_SetReadRateLimiter := fun _ => mret tt; tr_StartTLS := fun w => w; tr_Close := mret tt;
  op_unregister := fun _ _ w => w;
  hk_Run := fun _ hi => mret (false, hi) |}.

#[export] Instance kv : KV world := {|
  kv_IsNop := false;
  kv_Put := fun k v => modify (fun w => MkWorld (written w) (<[k := v]> (store w)));
  kv_Get := fun k => gets (fun w => default "" (store w !! k));
  kv_Del := fun k => modify (fun w => MkWorld (written w) (delete k (store w))); |}.

Lemma out_env_ok : @OutEnvOk tree_jid tree_xml world env kv written.
Proof. split; try (by intros; split); done. Qed.

Lemma env_reliable : @reliable tree_jid tree_xml world env.
Proof. by split; intros; intros w. Qed.

Definition world0 : world := MkWorld [] ∅.
Definition recv (e : tree) : @event tree_jid tree_xml := EvSession (Some (inr e)).
Definition header : tree := TNode "stream:stream" [("from", "xmpp.org"); ("to", "jackal.im")] [] "" None.
Definition features (cs : list tree) : tree := TNode "stream:features" [] cs "" None.
Definition with_tls : tree := features [TNode "starttls" [("xmlns", tlsNamespace)] [] "" None].
Definition with_dialback : tree := features [TNode "dialback" [("xmlns", dialbackNamespace)] [] "" None].
Definition proceed : tree := TNode "proceed" [("xmlns", tlsNamespace)] [] "" None.
Definition message (id : string) : tree :=
  TNode "message" [("from", "a@jackal.im"); ("to", "b@xmpp.org"); ("id", id)] [] "" (Some KMessage).
Definition answer_of (name type : string) : tree := TNode name [("type", type)] [] "" None.

Definition until_tls : list (@event tree_jid tree_xml) :=
  [recv header; recv with_tls; recv proceed; recv header; recv with_dialback].
(** One stanza waits before the connection is dialled, one while it is being
    authenticated, and one comes later. *)
Definition session : list (@event tree_jid tree_xml) :=
  until_tls ++ [EvSend (message "2"); recv (answer_of "db:result" "valid"); EvSend (message "3")].
Definition pre : list (@event tree_jid tree_xml) := [EvSend (message "1")].
Abbreviation outrun pre evs := ((@run _ _ world env kv pre;; @dial _ _ world env;; @start _ _ world env;;
  @run _ _ world env kv evs) (newOutS2S "s3cr3t" "jackal.im" "xmpp.org", world0)).

Lemma s2s_out_fifo_witness :
  (outrun pre session).1 = Ok tt ∧
  users written (outrun pre session).2.2 = [message "1"; message "2"; message "3"].
Proof.
  split; [vm_compute; reflexivity|].
  pose proof (@s2s_out_fifo _ _ _ env kv written out_env_ok "s3cr3t" "jackal.im" "xmpp.org" world0
    pre session eq_refl ltac:(by repeat constructor) ltac:(by repeat constructor)) as Hf.
  assert ((outrun pre session).1 = Ok tt) as Hok by (vm_compute; reflexivity).
  assert (state (outrun pre session).2.1 = outAuthenticated) as Hst by (vm_compute; reflexivity).
  destruct (outrun pre session) as [r [s w]]. simpl in Hok, Hst |- *. rewrite Hok in Hf.
  destruct Hf as (_ & Ha & Hr). specialize (Hr env_reliable). rewrite (Ha Hst), app_nil_r in Hr. exact Hr.
Defined.

Lemma s2s_out_secured_witness :
  (outrun [] [recv header; recv with_tls]).1 = Ok tt ∧
  Forall negotiation (written (outrun [] [recv header; recv with_tls]).2.2).
Proof.
  split; [vm_compute; reflexivity|].
  pose proof (@s2s_out_secured _ _ _ env kv written out_env_ok "s3cr3t" "jackal.im" "xmpp.org"
    (MkDbParams "" "" "" "") (newOutS2S "s3cr3t" "jackal.im" "xmpp.org") world0
    [recv header; recv with_tls] ltac:(set_solver) eq_refl) as Hs.
  change ((@dial _ _ world env;; @start _ _ world env;; @run _ _ world env kv _) _)
    with (outrun [] [recv header; recv with_tls]) in Hs.
  assert ((outrun [] [recv header; recv with_tls]).1 = Ok tt) as Hok by (vm_compute; reflexivity).
  assert (Flags.isSecured (flags (outrun [] [recv header; recv with_tls]).2.1) = false) as Hf
    by (vm_compute; reflexivity).
  destruct (outrun [] [recv header; recv with_tls]) as [r [s w]]. simpl in Hok, Hf |- *. rewrite Hok in Hs.
  by apply Hs.
Defined.

(** The dialback stream of RFC 3920's example. *)
Definition params : DialbackParams := MkDbParams "D60000229F" "jackal.im" "xmpp.org" "key".
Definition verifying : list (@event tree_jid tree_xml) :=
  until_tls ++ [recv (answer_of "db:verify" "valid")].
Abbreviation dbrun evs := (((@dial _ _ world env;; @start _ _ world env) ≫=
  (fun _ => @run _ _ world env kv evs)) (newDialbackS2S "s3cr3t" "jackal.im" "xmpp.org" params, world0)).

Lemma dialback_reports_once_witness :
  (dbrun verifying).1 = Ok tt ∧
  (dbClosed (dbrun verifying).2.1 = true ↔ state (dbrun verifying).2.1 = outDisconnected).
Proof.
  split; [vm_compute; reflexivity|].
  pose proof (@dialback_reports_once _ _ _ env kv written out_env_ok "s3cr3t" "jackal.im" "xmpp.org" params
    world0 verifying) as Hd.
  assert ((dbrun verifying).1 = Ok tt) as Hok by (vm_compute; reflexivity).
  assert (@live_run _ _ world env kv verifying ((@dial _ _ world env;; @start _ _ world env)
    (newDialbackS2S "s3cr3t" "jackal.im" "xmpp.org" params, world0)).2) as Hl by (vm_compute; auto 20).
  specialize (Hd Hl). destruct (dbrun verifying) as [r [s w]]. simpl in Hok |- *. rewrite Hok in Hd. apply Hd.
Defined.

End OutDemo.

(** A stream that the provider has registered but not dialled yet has no
    session: disconnecting it, as [Stop] does with every registered stream,
    panics. *)
Theorem disconnect_before_dial_panics :
  (@disconnect _ _ OutDemo.world OutDemo.env (Some SystemShutdown)
    (newOutS2S "s3cr3t" "jackal.im" "xmpp.org", OutDemo.world0)).1 = Crash NilDeref.
Proof. reflexivity. Qed.
