(* ===== verification/S2SProvider.v ===== *)
(** * Connections to other servers (pkg/s2s/dialer.go, out_provider.go)

    [Dialer] finds and dials the hosts of a remote domain; [Provider] keeps one
    outgoing stream per pair of domains, under concurrent calls. *)

From stdpp Require Import base list strings gmap.
From Stdlib Require Import ZArith Lia Ascii.
From S2P Require Import Prelude GoLib.

(** ** The dialer *)
Module Dialer.

Definition s2sService : string := "xmpp-server".
Definition s2sTLSService : string := "xmpps-server".

(** [net.SRV], without priority and weight, by which the resolver sorts. *)
Record SRV := MkSRV { Target : string; Port : Z }.

(** [strings.TrimSuffix] with the suffix ["."] *)
Fixpoint TrimDot (s : string) : string :=
  match s with
  | EmptyString => EmptyString
  | String c s' =>
    if Ascii.eqb c "."%char && String.eqb s' "" then EmptyString else String c (TrimDot s')
  end.

(** [net.JoinHostPort]: a host with a colon is put in brackets. *)
Fixpoint has_colon (s : string) : bool :=
  match s with
  | EmptyString => false
  | String c s' => Ascii.eqb c ":"%char || has_colon s'
  end.
Definition JoinHostPort (host port : string) : string :=
  if has_colon host then "[" +:+ host +:+ "]:" +:+ port else host +:+ ":" +:+ port.

Section dialer.
Context {W Conn : Type}.

(** [outDialer] *)
Record outDialer := MkDialer {
  srvResolve : string → string → string → M W (list SRV);
  dialCtx : string → string → M W Conn;
  dialTLSCtx : string → string → M W Conn;
}.

Definition errDialSRV : goerror := ErrText "s2s: failed to dial SRV".

(** The loop of [dialSRV] *)
Fixpoint dialAddrs (dialFn : string → string → M W Conn) (addrs : list SRV) : M W Conn :=
  match addrs with
  | [] => fail errDialSRV
  | addr :: addrs' =>
    if String.eqb (Target addr) "." then dialAddrs dialFn addrs'
    else
      r ← try (dialFn "tcp" (JoinHostPort (TrimDot (Target addr)) (Itoa (Port addr))));
      match r with
      | inr conn => mret conn
      | inl _ => dialAddrs dialFn addrs'
      end
  end.

(** [dialSRV] *)
Definition dialSRV (d : outDialer) (remoteDomain service : string) (dialTLS : bool) : M W Conn :=
  addrs ← srvResolve d service "tcp" remoteDomain;
  dialAddrs (if dialTLS then dialTLSCtx d else dialCtx d) addrs.

(** [DialContext] *)
Definition DialContext (d : outDialer) (remoteDomain : string) : M W (Conn * bool) :=
  r ← try (dialSRV d remoteDomain s2sTLSService true);
  match r with
  | inr conn => mret (conn, true)
  | inl _ =>
    r ← try (dialSRV d remoteDomain s2sService false);
    match r with
    | inr conn => mret (conn, false)
    | inl _ =>
      conn ← dialCtx d "tcp" (JoinHostPort remoteDomain "5269");
      mret (conn, false)
    end
  end.

(** *** The specification: a list of candidates, of which the first that answers
    is taken *)

(** The addresses a list of records offers. *)
Definition offered (r : goerror + list SRV) : list string :=
  match r with
  | inl _ => []
  | inr addrs =>
    (fun a => JoinHostPort (TrimDot (Target a)) (Itoa (Port a))) <$>
      List.filter (fun a => negb (String.eqb (Target a) ".")) addrs
  end.

(** Addresses with direct TLS, addresses without, the domain itself. *)
Definition candidates (resolve : string → goerror + list SRV) (remoteDomain : string)
    : list (bool * string) :=
  (pair true <$> offered (resolve s2sTLSService)) ++
  (pair false <$> offered (resolve s2sService)) ++ [(false, JoinHostPort remoteDomain "5269")].

Definition dial (d : outDialer) (c : bool * string) : M W Conn :=
  (if c.1 then dialTLSCtx d else dialCtx d) "tcp" c.2.

(** Tries the candidates in order; the error is the one of the last. *)
Fixpoint first_ok (d : outDialer) (cs : list (bool * string)) : M W (Conn * bool) :=
  match cs with
  | [] => fail errDialSRV
  | [c] => conn ← dial d c; mret (conn, c.1)
  | c :: cs' =>
    r ← try (dial d c);
    match r with
    | inr conn => mret (conn, c.1)
    | inl _ => first_ok d cs'
    end
  end.

Lemma first_ok_cons d c cs w : cs ≠ [] →
  first_ok d (c :: cs) w = match dial d c w with
                           | (Ok conn, w') => (Ok (conn, c.1), w')
                           | (Err _, w') => first_ok d cs w'
                           | (Crash p, w') => (Crash p, w')
                           end.
Proof.
  intros Hc. destruct cs as [|c' cs]; [done|]. simpl. unfold mbind, M_bind, try.
  by destruct (dial d c w) as [[] w'].
Qed.

Lemma first_ok_one d c : first_ok d [c] = (conn ← dial d c; mret (conn, c.1)).
Proof. done. Qed.
#[local] Arguments first_ok : simpl never.

(** What a list of records contributes to the candidates. *)
Lemma dialAddrs_first d (tls : bool) addrs rest w : rest ≠ [] →
  first_ok d ((pair tls <$> offered (inr addrs)) ++ rest) w =
  match dialAddrs (if tls then dialTLSCtx d else dialCtx d) addrs w with
  | (Ok conn, w') => (Ok (conn, tls), w')
  | (Err _, w') => first_ok d rest w'
  | (Crash p, w') => (Crash p, w')
  end.
Proof.
  intros Hr. revert w. induction addrs as [|a addrs IH]; intros w; [done|]. simpl.
  destruct (String.eqb (Target a) "."); simpl; [apply IH|].
  rewrite first_ok_cons by (by intros [_ ?]%app_nil).
  unfold mbind, M_bind, try, dial. simpl.
  destruct ((if tls then dialTLSCtx d else dialCtx d) _ _ w) as [[] w']; [done|apply IH|done].
Qed.

(** Dialling a domain is trying, in this order, the hosts of its direct-TLS
    SRV records, those of its plain SRV records and the domain itself on port
    5269, and taking the first that answers; the connection counts as secured
    exactly when it comes from a direct-TLS record. *)
Theorem dial_first_candidate (d : outDialer) (remoteDomain : string) (w : W)
    (resolve : string → goerror + list SRV)
    (Hresolve : ∀ service w, srvResolve d service "tcp" remoteDomain w =
      (match resolve service with inl e => Err e | inr l => Ok l end, w)) :
  DialContext d remoteDomain w = first_ok d (candidates resolve remoteDomain) w.
Proof.
  assert (∀ (tls : bool) service rest w, rest ≠ [] →
    first_ok d ((pair tls <$> offered (resolve service)) ++ rest) w =
    match dialSRV d remoteDomain service tls w with
    | (Ok conn, w') => (Ok (conn, tls), w')
    | (Err _, w') => first_ok d rest w'
    | (Crash p, w') => (Crash p, w')
    end) as Hsrv.
  { intros tls service rest w1 Hr. unfold dialSRV, mbind, M_bind. rewrite Hresolve.
    destruct (resolve service) as [e|addrs]; [done|]. by apply dialAddrs_first. }
  unfold candidates, DialContext. unfold mbind, M_bind, try.
  rewrite Hsrv by (by intros [_ ?]%app_nil).
  destruct (dialSRV d remoteDomain s2sTLSService true w) as [[conn|e|p] w1]; [done| |done].
  rewrite Hsrv by done.
  destruct (dialSRV d remoteDomain s2sService false w1) as [[conn|e'|p] w2]; [done| |done].
  rewrite first_ok_one. unfold mbind, M_bind, dial. simpl. by destruct (dialCtx d "tcp" _ w2) as [[] w3].
Qed.

End dialer.

(** The demonstration: the direct-TLS host refuses, the plain one answers. *)
Module DialDemo.
Definition resolve (service : string) : goerror + list SRV :=
  if String.eqb service s2sTLSService then inr [MkSRV "." 0; MkSRV "tls.xmpp.org." 5270]
  else inr [MkSRV "xmpp.xmpp.org." 5269].
Definition d : @outDialer (list string) string := MkDialer
  (fun service _ _ w => (match resolve service with inl e => Err e | inr l => Ok l end, w))
  (fun _ a => modify (fun w => w ++ [a]);; mret a)
  (fun _ a => modify (fun w => w ++ [a]);; fail (NetError true)).

Lemma dial_first_candidate_witness :
  DialContext d "xmpp.org" [] = first_ok d (candidates resolve "xmpp.org") [] ∧
  DialContext d "xmpp.org" [] =
    (Ok ("xmpp.xmpp.org:5269", false), ["tls.xmpp.org:5270"; "xmpp.xmpp.org:5269"]).
Proof.
  split; [|vm_compute; reflexivity].
  apply (dial_first_candidate d "xmpp.org" [] resolve). reflexivity.
Defined.
End DialDemo.

End Dialer.

(** ** The provider *)
Module Provider.

(** [getDomainPair] *)
Definition getDomainPair (sender target : string) : string := sender +:+ ":" +:+ target.

(** [OutProvider]: the map of registered streams.  A stream is its number among
    the streams made so far, of which [made] has the domains. *)
Record OutProvider := MkProvider {
  outStreams : gmap string nat;
  made : list (string * string);
}.

(** The critical sections of [GetOut]: the first look at the map, *)
Definition lookupStream (sender target : string) : M OutProvider (option nat) :=
  gets (fun p => outStreams p !! getDomainPair sender target).
(** the second look, under the write lock, which makes and registers a stream if
    there is none (the answer says whether it did), *)
Definition lookupOrMake (sender target : string) : M OutProvider (nat * bool) :=
  p ← get;
  match outStreams p !! getDomainPair sender target with
  | Some outStm => mret (outStm, false)
  | None =>
    let outStm := length (made p) in
    modify (fun p => MkProvider (<[getDomainPair sender target := outStm]> (outStreams p))
                       (made p ++ [(sender, target)]));;
    mret (outStm, true)
  end.
(** and the removal of a pair. *)
Definition forget (sender target : string) : M OutProvider unit :=
  modify (fun p => MkProvider (delete (getDomainPair sender target) (outStreams p)) (made p)).

(** [unregister], which removes the pair of the stream *)
Definition unregister (outStm : nat) : M OutProvider unit :=
  p ← get;
  match made p !! outStm with
  | Some (sender, target) => forget sender target
  | None => crash_with NilDeref
  end.

(** What the provider calls on a stream. *)
Class Streams (W : Type) := {
  stm_dial : nat → M W unit;
  stm_go_start : nat → W → W;
  stm_Disconnect : nat → M W unit;
}.

Section calls.
Context {W : Type} `{!Streams W}.
Abbreviation MP := (M (OutProvider * W)).

Definition onP {A} (m : M OutProvider A) : MP A := fun '(p, w) =>
  let '(r, p') := m p in (r, (p', w)).
Definition onS {A} (m : M W A) : MP A := fun '(p, w) =>
  let '(r, w') := m w in (r, (p, w')).

(** [GetOut], when nothing runs in between *)
Definition GetOut (sender target : string) : MP nat :=
  o ← onP (lookupStream sender target);
  match o with
  | Some outStm => mret outStm
  | None =>
    '(outStm, new) ← onP (lookupOrMake sender target);
    if (new : bool) then
      r ← try (onS (stm_dial outStm));
      match r with
      | inl err => onP (forget sender target);; fail err
      | inr _ => onS (modify (stm_go_start outStm));; mret outStm
      end
    else mret outStm
  end.

(** [GetDialback]: the stream is not registered. *)
Definition GetDialback (sender target : string) : MP nat :=
  outStm ← onP (p ← get; mret (length (made p)));
  onP (modify (fun p => MkProvider (outStreams p) (made p ++ [(sender, target)])));;
  onS (stm_dial outStm);;
  onS (modify (stm_go_start outStm));;
  mret outStm.

(** [Stop] *)
Definition Stop : MP unit :=
  stms ← onP (gets (fun p => (map_to_list (outStreams p)).*2));
  for_each stms (fun s => ignore (onS (stm_Disconnect s))).

End calls.

(** *** Concurrent calls

    Any number of calls of [GetOut], and streams that end, interleave between the
    critical sections. *)
Inductive call :=
| Entered (sender target : string)
| Missed (sender target : string)
| Dialing (sender target : string) (outStm : nat)
| Returned (sender target : string) (r : goerror + nat).

(** [removed]: the pairs that were removed from the map while they were in it. *)
Record sys := MkSys { prov : OutProvider; calls : gmap nat call; removed : list string }.

Definition sys0 : sys := MkSys (MkProvider ∅ []) ∅ [].

(** The state after the removal of a pair. *)
Definition without (s t : string) (σ : sys) : sys :=
  MkSys (forget s t (prov σ)).2 (calls σ)
    (match outStreams (prov σ) !! getDomainPair s t with
     | Some _ => getDomainPair s t :: removed σ
     | None => removed σ
     end).
Definition with_call (n : nat) (c : call) (σ : sys) : sys :=
  MkSys (prov σ) (<[n := c]> (calls σ)) (removed σ).
Definition with_prov (p : OutProvider) (σ : sys) : sys := MkSys p (calls σ) (removed σ).

Inductive sstep : sys → sys → Prop :=
| SEnter σ n s t : calls σ !! n = None → sstep σ (with_call n (Entered s t) σ)
| SHit σ n s t id :
    calls σ !! n = Some (Entered s t) → lookupStream s t (prov σ) = (Ok (Some id), prov σ) →
    sstep σ (with_call n (Returned s t (inr id)) σ)
| SMiss σ n s t :
    calls σ !! n = Some (Entered s t) → lookupStream s t (prov σ) = (Ok None, prov σ) →
    sstep σ (with_call n (Missed s t) σ)
| SMake σ n s t id new p' :
    calls σ !! n = Some (Missed s t) → lookupOrMake s t (prov σ) = (Ok (id, new), p') →
    sstep σ (with_call n (if new : bool then Dialing s t id else Returned s t (inr id)) (with_prov p' σ))
| SDialed σ n s t id :
    calls σ !! n = Some (Dialing s t id) → sstep σ (with_call n (Returned s t (inr id)) σ)
| SDialFailed σ n s t id err :
    calls σ !! n = Some (Dialing s t id) →
    sstep σ (with_call n (Returned s t (inl err)) (without s t σ))
(** [start] fails, or the stream closes and calls [unregister] *)
| SGone σ s t id : made (prov σ) !! id = Some (s, t) → sstep σ (without s t σ).

Definition reachable (σ : sys) : Prop := rtc sstep sys0 σ.

(** The stream a call works with. *)
Definition holds (c : call) : option (string * nat) :=
  match c with
  | Dialing s t id | Returned s t (inr id) => Some (getDomainPair s t, id)
  | _ => None
  end.
Definition pair_of (p : string * string) : string := getDomainPair p.1 p.2.
(** How many streams were made for a pair. *)
Definition made_for (pair : string) (p : OutProvider) : nat :=
  length (filter (fun q => pair_of q = pair) (made p)).


(** *** One stream per pair *)

Lemma filter_one {A} (P : A → Prop) `{!∀ x, Decision (P x)} (l : list A) i x :
  l !! i = Some x → P x → 1 ≤ length (filter P l).
Proof.
  intros Hl Hx. assert (x ∈ filter P l) as Hin
    by (apply list_elem_of_filter; split; [done|by eapply list_elem_of_lookup_2]).
  destruct (filter P l); simpl; [by apply not_elem_of_nil in Hin|lia].
Qed.

Lemma filter_unique {A} (P : A → Prop) `{!∀ x, Decision (P x)} (l : list A) i j x y :
  length (filter P l) ≤ 1 → l !! i = Some x → l !! j = Some y → P x → P y → i = j.
Proof.
  revert i j. induction l as [|z l IH]; intros i j Hlen Hi Hj Hx Hy; [done|].
  rewrite filter_cons in Hlen.
  destruct i as [|i], j as [|j]; simpl in *; simplify_eq; [done|..].
  - rewrite decide_True in Hlen by done. pose proof (filter_one P l j y Hj Hy). simpl in Hlen. lia.
  - rewrite decide_True in Hlen by done. pose proof (filter_one P l i x Hi Hx). simpl in Hlen. lia.
  - f_equal. apply IH; try done. case_decide; simpl in Hlen; lia.
Qed.

(** The stream [id] was made for [pair]. *)
Definition belongs (p : OutProvider) (pair : string) (id : nat) : Prop :=
  ∃ q, made p !! id = Some q ∧ pair_of q = pair.

Record Inv (σ : sys) : Prop := MkInv {
  inv_map : ∀ pair id, outStreams (prov σ) !! pair = Some id → belongs (prov σ) pair id;
  inv_calls : ∀ n c pair id, calls σ !! n = Some c → holds c = Some (pair, id) →
    belongs (prov σ) pair id;
  inv_count : ∀ pair, made_for pair (prov σ) =
    length (filter (eq pair) (removed σ)) + (if outStreams (prov σ) !! pair then 1 else 0);
}.

Lemma inv_with_call n c σ : Inv σ →
  (∀ pair id, holds c = Some (pair, id) → belongs (prov σ) pair id) → Inv (with_call n c σ).
Proof.
  intros [Hm Hc Hn] Hh. split; simpl; try done. intros n' c' pair id.
  rewrite lookup_insert. case_decide; [intros [= <-]; apply Hh|by apply Hc].
Qed.

Lemma inv_without s t σ : Inv σ → Inv (without s t σ).
Proof.
  intros [Hm Hc Hn]. split; simpl.
  - intros pair id [_ Hl]%lookup_delete_Some. by apply Hm.
  - exact Hc.
  - intros pair. specialize (Hn pair). rewrite lookup_delete. unfold made_for in *. simpl. rewrite Hn.
    case_decide as Hp; [subst pair|].
    + destruct (outStreams (prov σ) !! _); [|done]. rewrite filter_cons, decide_True by done. simpl. lia.
    + destruct (outStreams (prov σ) !! getDomainPair s t); [|done].
      by rewrite filter_cons, decide_False by done.
Qed.

Lemma belongs_made p m pair id q : belongs p pair id → belongs (MkProvider m (made p ++ [q])) pair id.
Proof. intros (q' & Hq & Hp). exists q'. split; [|done]. simpl. by apply lookup_app_l_Some. Qed.

Lemma inv_make s t id new p' σ : Inv σ → lookupOrMake s t (prov σ) = (Ok (id, new), p') →
  Inv (with_prov p' σ) ∧ belongs p' (getDomainPair s t) id.
Proof.
  intros [Hm Hc Hn]. unfold lookupOrMake, mbind, M_bind. simpl.
  destruct (outStreams (prov σ) !! getDomainPair s t) as [id'|] eqn:El.
  - intros [= <- <- <-]. split; [|by apply Hm]. by destruct σ.
  - intros [= <- <- <-].
    assert (belongs (MkProvider (<[getDomainPair s t := length (made (prov σ))]> (outStreams (prov σ)))
      (made (prov σ) ++ [(s, t)])) (getDomainPair s t) (length (made (prov σ)))) as Hb.
    { exists (s, t). split; [|done]. simpl. by rewrite lookup_app_r, Nat.sub_diag. }
    split; [|exact Hb]. split; simpl.
    + intros pair id. rewrite lookup_insert. case_decide as Hp; [intros [= <-]; by subst|].
      intros Hl. by apply belongs_made, Hm.
    + intros n c pair id Hl Hh. eapply belongs_made, Hc; done.
    + intros pair. specialize (Hn pair). unfold made_for in *. simpl.
      rewrite filter_app, length_app, Hn, lookup_insert. unfold filter at 2, list_filter, pair_of. simpl.
      destruct (decide (getDomainPair s t = pair)) as [<-|Hp]; [rewrite El|]; simpl; lia.
Qed.

Lemma sstep_inv σ σ' : sstep σ σ' → Inv σ → Inv σ'.
Proof.
  intros Hs HI. destruct Hs as [σ n s t Hn|σ n s t id Hn Hl|σ n s t Hn Hl|σ n s t id new p' Hn Hl
    |σ n s t id Hn|σ n s t id err Hn|σ s t id Hl].
  - by apply inv_with_call.
  - apply inv_with_call; [done|]. intros pair id' [= <- <-]. injection Hl as Hl.
    by apply (inv_map _ HI).
  - by apply inv_with_call.
  - destruct (inv_make _ _ _ _ _ _ HI Hl) as [HI' Hb]. apply inv_with_call; [done|].
    intros pair id'. destruct new; simpl; intros [= <- <-]; exact Hb.
  - apply inv_with_call; [done|]. intros pair id' [= <- <-]. by eapply (inv_calls _ HI).
  - apply inv_with_call; [by apply inv_without|done].
  - by apply inv_without.
Qed.

Lemma reachable_inv σ : reachable σ → Inv σ.
Proof.
  assert (∀ σ1, rtc sstep σ1 σ → Inv σ1 → Inv σ) as Hx.
  { intros σ1 Hr. induction Hr; eauto using sstep_inv. }
  intros Hr. by apply (Hx sys0).
Qed.

(** C25: Whatever the interleaving of concurrent calls of [GetOut] with dial
    failures and streams that end, at most one stream is made for a pair of
    domains beyond the number of times the pair was removed; and as long as the
    pair was never removed, all calls for it get the same stream, which is the
    registered one. *)
Theorem provider_one_stream (σ : sys) (pair : string) (Hr : reachable σ) :
  made_for pair (prov σ) ≤ S (length (filter (eq pair) (removed σ))) ∧
  (pair ∉ removed σ → ∀ n n' c c' id id',
    calls σ !! n = Some c → holds c = Some (pair, id) →
    calls σ !! n' = Some c' → holds c' = Some (pair, id') →
    id = id' ∧ outStreams (prov σ) !! pair = Some id).
Proof.
  destruct (reachable_inv σ Hr) as [Hm Hc Hn]. specialize (Hn pair).
  split; [destruct (outStreams (prov σ) !! pair); lia|].
  intros Hnr n n' c c' id id' Hl Hh Hl' Hh'.
  rewrite (filter_none (eq pair)) in Hn by (by intros ? ? <-). simpl in Hn. unfold made_for in Hn.
  destruct (Hc _ _ _ _ Hl Hh) as (q & Hq & Hp), (Hc _ _ _ _ Hl' Hh') as (q' & Hq' & Hp').
  pose proof (filter_one (fun q => pair_of q = pair) _ _ _ Hq Hp) as H1.
  destruct (outStreams (prov σ) !! pair) as [id0|] eqn:E; [|lia].
  destruct (Hm _ _ E) as (q0 & Hq0 & Hp0).
  assert (∀ i x, made (prov σ) !! i = Some x → pair_of x = pair → i = id0) as Hu.
  { intros i x Hi Hx. by apply (filter_unique (fun q => pair_of q = pair) (made (prov σ)) i id0 x q0);
      try done; lia. }
  rewrite (Hu id q), (Hu id' q') by done. done.
Qed.

(** Two calls miss the first look; one makes the stream, the other finds it. *)
Module ProviderDemo.
#[export] Instance streams : Streams unit :=
  {| stm_dial := fun _ => mret tt; stm_go_start := fun _ w => w; stm_Disconnect := fun _ => mret tt |}.

Definition made_one : OutProvider := MkProvider {["a:b" := 0]} [("a", "b")].
Definition race : sys :=
  MkSys made_one
    (<[1 := Returned "a" "b" (inr 0)]> (<[0 := Dialing "a" "b" 0]> (<[1 := Missed "a" "b"]>
      (<[0 := Missed "a" "b"]> (<[1 := Entered "a" "b"]> (<[0 := Entered "a" "b"]> ∅)))))) [].

Lemma race_reachable : reachable race.
Proof.
  unfold reachable, race. eapply rtc_l; [by apply (SEnter _ 0 "a" "b")|].
  eapply rtc_l; [by apply (SEnter _ 1 "a" "b")|].
  eapply rtc_l; [by apply (SMiss _ 0 "a" "b")|].
  eapply rtc_l; [by apply (SMiss _ 1 "a" "b")|].
  eapply rtc_l; [eapply (SMake _ 0 "a" "b" 0 true made_one); reflexivity|].
  eapply rtc_l; [eapply (SMake _ 1 "a" "b" 0 false made_one); reflexivity|]. apply rtc_refl.
Qed.

Lemma provider_one_stream_witness :
  made_for "a:b" (prov race) ≤ 1 ∧ outStreams (prov race) !! "a:b" = Some 0.
Proof.
  destruct (provider_one_stream race "a:b" race_reachable) as [H1 H2]. split; [exact H1|].
  exact (proj2 (H2 ltac:(apply not_elem_of_nil) 0 1 _ _ 0 0 eq_refl eq_refl eq_refl eq_refl)).
Defined.
End ProviderDemo.

(** A stream is removed by its domains: a stream [a] that closes again, after a
    newer stream [b] for the same domains was made, removes [b] from the provider,
    and the next call makes a third stream although [b] is still there. *)
Theorem late_close_forgets_newer_stream :
  let GetOut := @GetOut unit ProviderDemo.streams in
  ((a ← GetOut "jackal.im" "xmpp.org"; onP (unregister a);;
    b ← GetOut "jackal.im" "xmpp.org"; onP (unregister a);;
    c ← GetOut "jackal.im" "xmpp.org"; mret (a, b, c))
   (MkProvider ∅ [], tt)).1 = Ok (0, 1, 2).
Proof. reflexivity. Qed.

End Provider.
