(* ===== verification/S2SNet.v ===== *)
(** * Two servers

    The streams of [S2SIn] and [S2SOut] put together: the dialback handshake
    between the server that opens a stream and the one that accepts it, which
    needs four streams and the key-value store, and the EXTERNAL handshake of two
    servers of this kind.  The network delivers what is written; the calls to
    the surroundings succeed. *)

From stdpp Require Import base list strings gmap.
From Stdlib Require Import ZArith Lia.
From S2P Require Import Prelude GoLib GoHoare Stravaganza Hosts Dialback.
From S2P Require S2SIn S2SOut.

(** ** A server as its streams see it *)
Section node.
Context `{XmlLib}.

(** What was written on its streams, its key-value store, the dialback streams it
    asked for, the identifier of the stream and the certificates of the peer. *)
Record node := MkNode {
  wire : list Element;
  store : gmap string string;
  asked : list (string * string * S2SIn.DialbackParams);
  sid : string;
  certs : list (list string);
}.

Definition write (e : Element) : M node unit :=
  modify (fun n => MkNode (wire n ++ [e]) (store n) (asked n) (sid n) (certs n)).
Definition upd_store (f : gmap string string → gmap string string) : M node unit :=
  modify (fun n => MkNode (wire n) (f (store n)) (asked n) (sid n) (certs n)).

#[export] Instance node_kv : KV node := {|
  kv_IsNop := false;
  kv_Put := fun k v => upd_store <[k := v]>;
  kv_Get := fun k => gets (fun n => default "" (store n !! k));
  kv_Del := fun k => upd_store (delete k); |}.

Definition out_env : S2SOut.S2SOutEnv node := {|
  S2SOut.dl_DialContext := fun _ => mret true;
  S2SOut.ss_StreamID := sid; S2SOut.ss_SetFromJID := fun _ => mret tt; S2SOut.ss_OpenStream := mret tt;
  S2SOut.ss_Send := write; S2SOut.ss_Close := mret tt; S2SOut.ss_Reset := mret tt;
  S2SOut.tr_SetReadRateLimiter := fun _ => mret tt; S2SOut.tr_StartTLS := fun n => n;
  S2SOut.tr_Close := mret tt; S2SOut.op_unregister := fun _ _ n => n;
  S2SOut.hk_Run := fun _ hi => mret (false, hi) |}.

(** The server of the domain [d] with the dialback secret [secret]. *)
Definition in_env (d secret : string) : S2SIn.S2SInEnv node := {|
  S2SIn.ss_StreamID := sid; S2SIn.ss_SetFromJID := fun _ => mret tt; S2SIn.ss_OpenStream := mret tt;
  S2SIn.ss_Send := write; S2SIn.ss_Close := mret tt; S2SIn.ss_Reset := mret tt;
  S2SIn.tr_SetReadRateLimiter := fun _ => mret tt; S2SIn.tr_PeerCertificates := certs;
  S2SIn.tr_StartTLS := fun _ n => n; S2SIn.tr_Close := mret tt;
  S2SIn.hosts_DefaultHostName := d; S2SIn.hosts_IsLocalHost := String.eqb d;
  S2SIn.rt_Route := fun e => mret [ToJID e];
  S2SIn.comps_IsComponentHost := fun _ _ => false; S2SIn.comps_ProcessStanza := fun _ => mret tt;
  S2SIn.mods_IsModuleIQ := fun _ _ => false; S2SIn.mods_ProcessIQ := fun _ => mret tt;
  S2SIn.op_DialbackSecret := secret;
  S2SIn.op_GetDialback := fun s t p =>
    k ← gets (fun n => length (asked n));
    modify (fun n => MkNode (wire n) (store n) (asked n ++ [(s, t, p)]) (sid n) (certs n));;
    mret k;
  S2SIn.hub_register := fun _ n => n; S2SIn.hub_unregister := fun _ n => n;
  S2SIn.hk_Run := fun _ hi => mret (false, hi); S2SIn.shapers := [] |}.

(** ** The dialback handshake

    [a] opens a stream to [b].  The states of the streams: the outgoing stream of
    [a] and the dialback stream of [b] have seen the stream header, on secured
    connections; the incoming streams are connected. *)
Definition out_ready (typ : S2SOut.outType) (secret s t : string) (p : S2SIn.DialbackParams)
    (q : list Element) : S2SOut.outS2S :=
  S2SOut.MkOut typ secret s t p true S2SOut.outConnected (S2SIn.Flags.setSecured 0) q [] false.
Definition in_ready (i : Z) (j : option JID) (s t : string) : S2SIn.inS2S :=
  S2SIn.MkIn i (S2SIn.MkInConfig 32768 true) false false false S2SIn.inConnected
    (S2SIn.Flags.setSecured 0) j t s [].

(** A handler that succeeds, and the last element it wrote. *)
Definition ran {T} (r : outcome unit * (T * node)) : option (T * node) :=
  match r with (Ok _, tn) => Some tn | _ => None end.
Definition sent (n : node) : option Element := last (wire n).

Context (a b secretA secretB : string).

(** The handshake, step by step: the outgoing stream offers a key; the accepting
    server asks the domain of the key, over a dialback stream of its own, which
    the other server answers on an incoming stream; the result goes back. *)
Definition handshake (features : Element) (q : list Element) (j k : option JID) (nA nB : node)
    : option (S2SOut.outS2S * S2SIn.inS2S * node) :=
  '(oA, nA) ← ran (@S2SOut.handleElement _ _ _ out_env _ features
                  (out_ready S2SOut.defaultType secretA a b (S2SIn.MkDbParams "" "" "" "") q, nA));
  offer ← sent nA;
  '(iB, nB) ← ran (@S2SIn.handleElement _ _ _ (in_env b secretB) _ offer (in_ready 1 j a b, nB));
  '(s, t, p) ← last (asked nB);
  '(dB, nB) ← ran (@S2SOut.handleElement _ _ _ out_env _ features
                  (out_ready S2SOut.dialbackType secretB s t p [], nB));
  request ← sent nB;
  '(iA, nA) ← ran (@S2SIn.handleElement _ _ _ (in_env a secretA) _ request (in_ready 2 k b a, nA));
  verdict ← sent nA;
  '(dB, nB) ← ran (@S2SOut.handleElement _ _ _ out_env _ verdict (dB, nB));
  result ← head (S2SOut.dbResCh dB);
  '(h, _) ← head (S2SIn.waiting iB);
  '(iB, nB) ← ran (@S2SIn.step _ _ _ (in_env b secretB) _ (S2SIn.EvDialback h (S2SOut.Valid result)) (iB, nB));
  final ← sent nB;
  '(oA, nA) ← ran (@S2SOut.handleElement _ _ _ out_env _ final (oA, nA));
  Some (oA, iB, nA).


(** The attributes of an element that was built. *)
Lemma attr_build n l c x k v :
  bool_decide (NoDup l.*1) = true → (list_to_map l : gmap string string) !! k = Some v →
  Attribute (Build n l c x) k = v.
Proof. intros Hn Hk. rewrite Attribute_Build by (by apply bool_decide_eq_true in Hn). by rewrite Hk. Qed.

Definition offer_of (i : string) : Element :=
  Build "db:result" [(AttrFrom, a); (AttrTo, b)] [] (dbKey secretA b a i).
Definition params_of (i : string) : S2SIn.DialbackParams := S2SIn.MkDbParams i b a (dbKey secretA b a i).
Definition request_of (i : string) : Element :=
  Build "db:verify" [(AttrID, i); (AttrFrom, b); (AttrTo, a)] [] (dbKey secretA b a i).
Definition verdict_of (i : string) : Element :=
  Build "db:verify" [(AttrFrom, a); (AttrTo, b); (AttrID, i); ("type", "valid")] [] "".
Definition final_of : Element :=
  Build "db:result" [(AttrFrom, b); (AttrTo, a); (AttrType, "valid")] [] "".

Lemma offer_attrs i : Name (offer_of i) = "db:result" ∧ Attribute (offer_of i) AttrFrom = a ∧
  Attribute (offer_of i) AttrTo = b ∧ Text (offer_of i) = dbKey secretA b a i.
Proof. unfold offer_of. rewrite Name_Build, Text_Build. repeat split; by apply attr_build. Qed.
Lemma request_attrs i : Name (request_of i) = "db:verify" ∧ Attribute (request_of i) AttrFrom = b ∧
  Attribute (request_of i) AttrTo = a ∧ Attribute (request_of i) AttrID = i ∧
  Text (request_of i) = dbKey secretA b a i.
Proof. unfold request_of. rewrite Name_Build, Text_Build. repeat split; by apply attr_build. Qed.
Lemma verdict_attrs i : Name (verdict_of i) = "db:verify" ∧ Attribute (verdict_of i) AttrType = "valid".
Proof. unfold verdict_of. rewrite Name_Build. split; [done|]. by apply attr_build. Qed.
Lemma final_attrs : Name final_of = "db:result" ∧ Attribute final_of AttrType = "valid".
Proof. unfold final_of. rewrite Name_Build. split; [done|]. by apply attr_build. Qed.

(** The steps. *)
Context (features : Element) (Hname : Name features = "stream:features")
  (Hext : S2SOut.hasExternalAuthMechanism features = false)
  (Hdb : S2SOut.hasDialbackFeature features = true)
  (Ha : is_domain a = true) (Hb : is_domain b = true).

Lemma step_offer q nA : ∃ oA,
  ran (@S2SOut.handleElement _ _ _ out_env _ features
    (out_ready S2SOut.defaultType secretA a b (S2SIn.MkDbParams "" "" "" "") q, nA)) =
  Some (oA, MkNode (wire nA ++ [offer_of (sid nA)])
    (<[dbReqKey (sid nA) := dbReqVal b a]> (store nA)) (asked nA) (sid nA) (certs nA)) ∧
  oA = S2SOut.set_state S2SOut.outVerifyingDialbackKey
    (out_ready S2SOut.defaultType secretA a b (S2SIn.MkDbParams "" "" "" "") q).
Proof.
  eexists. split; [|reflexivity].
  unfold S2SOut.handleElement, S2SOut.handleConnected. unfold mbind at 1, M_bind at 1. simpl.
  rewrite Hname. simpl. unfold mbind at 1, M_bind at 1. simpl. rewrite Hext, Hdb. reflexivity.
Qed.

Lemma step_accept j nB i : 
  ran (@S2SIn.handleElement _ _ _ (in_env b secretB) _ (offer_of i) (in_ready 1 j a b, nB)) =
  Some (S2SIn.set_state S2SIn.inAuthorizingDialbackKey
      (S2SIn.set_waiting [(length (asked nB), (a, b))] (in_ready 1 j a b)),
    MkNode (wire nB) (store nB)
      (asked nB ++ [(b, a, S2SIn.MkDbParams (sid nB) b a (dbKey secretA b a i))]) (sid nB) (certs nB)).
Proof.
  destruct (offer_attrs i) as (En & Ef & Et & Ex).
  unfold S2SIn.handleElement, S2SIn.handleConnected. unfold mbind at 1, M_bind at 1. simpl.
  unfold mbind at 1, M_bind at 1. simpl. rewrite En. simpl. unfold S2SIn.authorizeDialbackKey. simpl.
  rewrite Et, Ef, Ex, String.eqb_refl. reflexivity.
Qed.

Lemma step_request nB i :
  ran (@S2SOut.handleElement _ _ _ out_env _ features
    (out_ready S2SOut.dialbackType secretB b a (params_of i) [], nB)) =
  Some (S2SOut.set_state S2SOut.outAuthorizingDialbackKey
      (out_ready S2SOut.dialbackType secretB b a (params_of i) []),
    MkNode (wire nB ++ [request_of i]) (store nB) (asked nB) (sid nB) (certs nB)).
Proof.
  unfold S2SOut.handleElement, S2SOut.handleConnected. unfold mbind at 1, M_bind at 1. simpl.
  rewrite Hname. reflexivity.
Qed.

Lemma step_verify k nA i : store nA !! dbReqKey i = Some (dbReqVal b a) →
  ran (@S2SIn.handleElement _ _ _ (in_env a secretA) _ (request_of i) (in_ready 2 k b a, nA)) =
  Some (in_ready 2 k b a, MkNode (wire nA ++ [verdict_of i]) (delete (dbReqKey i) (store nA))
    (asked nA) (sid nA) (certs nA)).
Proof.
  intros Hst. destruct (request_attrs i) as (En & Ef & Et & Ei & Ex).
  unfold S2SIn.handleElement, S2SIn.handleConnected. unfold mbind at 1, M_bind at 1. simpl.
  unfold mbind at 1, M_bind at 1. simpl. rewrite En. simpl. unfold S2SIn.verifyDialbackKey. simpl.
  rewrite Et, Ef, Ei, Ex, String.eqb_refl. simpl.
  unfold isDbRequestOn, mbind, M_bind. simpl. rewrite Hst. simpl.
  rewrite (proj2 (String.eqb_neq _ _) (dbReqVal_nonempty b a)), Sscanf2_dbReqVal by done. simpl.
  rewrite !String.eqb_refl. reflexivity.
Qed.

Lemma step_report p nB i : 
  ran (@S2SOut.handleElement _ _ _ out_env _ (verdict_of i)
    (S2SOut.set_state S2SOut.outAuthorizingDialbackKey (out_ready S2SOut.dialbackType secretB b a p []), nB)) =
  Some (S2SOut.set_dbClosed true (S2SOut.set_state S2SOut.outDisconnected
    (S2SOut.set_dbResCh [S2SOut.MkDbResult true (Child (verdict_of i) "error")]
      (out_ready S2SOut.dialbackType secretB b a p []))), nB).
Proof.
  destruct (verdict_attrs i) as [En Et].
  unfold S2SOut.handleElement, S2SOut.handleAuthorizingDialbackKey. unfold mbind at 1, M_bind at 1. simpl.
  rewrite En, Et. reflexivity.
Qed.

Lemma step_result j nB h :
  ran (@S2SIn.step _ _ _ (in_env b secretB) _ (S2SIn.EvDialback h true)
    (S2SIn.set_state S2SIn.inAuthorizingDialbackKey
      (S2SIn.set_waiting [(h, (a, b))] (in_ready 1 j a b)), nB)) =
  Some (S2SIn.set_flags (S2SIn.Flags.setDialbackKeyAuthorized (S2SIn.Flags.setSecured 0)) (in_ready 1 j a b),
    MkNode (wire nB ++ [final_of]) (store nB) (asked nB) (sid nB) (certs nB)).
Proof.
  unfold S2SIn.step. unfold mbind at 1, M_bind at 1. simpl. rewrite decide_True by done.
  unfold ignore, try, S2SIn.handleDialbackResult, S2SIn.updateRateLimiter, mbind, M_bind. simpl.
  by destruct j.
Qed.

Lemma flush_wire q oA n : S2SOut.dialed oA = true → S2SOut.typ oA = S2SOut.defaultType →
  for_each q (@S2SOut.sendElement _ _ _ out_env) (oA, n) =
  (Ok tt, (oA, MkNode (wire n ++ q) (store n) (asked n) (sid n) (certs n))).
Proof.
  intros Hd Ht. revert n. induction q as [|e q IH]; intros n; simpl.
  - rewrite app_nil_r. by destruct n.
  - assert (@S2SOut.sendElement _ _ _ out_env e (oA, n) =
      (Ok tt, (oA, MkNode (wire n ++ [e]) (store n) (asked n) (sid n) (certs n)))) as Hs.
    { unfold S2SOut.sendElement, S2SOut.onSession, S2SOut.runHook, mbind, M_bind. simpl.
      rewrite Hd. simpl. rewrite Ht. reflexivity. }
    rewrite (bind_Ok _ _ _ _ _ Hs), IH. simpl. by rewrite <-app_assoc.
Qed.

Lemma step_finish q nA :
  ran (@S2SOut.handleElement _ _ _ out_env _ final_of
    (S2SOut.set_state S2SOut.outVerifyingDialbackKey
      (out_ready S2SOut.defaultType secretA a b (S2SIn.MkDbParams "" "" "" "") q), nA)) =
  Some (S2SOut.set_state S2SOut.outAuthenticated
      (out_ready S2SOut.defaultType secretA a b (S2SIn.MkDbParams "" "" "" "") []),
    MkNode (wire nA ++ q) (store nA) (asked nA) (sid nA) (certs nA)).
Proof.
  destruct final_attrs as [En Et].
  unfold S2SOut.handleElement, S2SOut.handleVerifyingDialbackKey. unfold mbind at 1, M_bind at 1. simpl.
  rewrite En, Et. simpl. unfold S2SOut.finishAuthentication. unfold mbind, M_bind. simpl.
  rewrite flush_wire by done. reflexivity.
Qed.

Lemma sent_snoc l e s x i c : sent (MkNode (l ++ [e]) s x i c) = Some e.
Proof. apply last_snoc. Qed.
Lemma asked_snoc w s l x i c : last (asked (MkNode w s (l ++ [x]) i c)) = Some x.
Proof. apply last_snoc. Qed.
Lemma obind_Some {A B} (o : option A) x (f : A → option B) : o = Some x → (o ≫= f) = f x.
Proof. by intros ->. Qed.
(** Runs the next step of a sequence, of which the equation [E] gives the result. *)
Ltac run E := erewrite obind_Some by apply E; cbv beta iota.


End node.

(** ** Two servers of this kind

    [jackal.im] opens a stream with direct TLS to [xmpp.org]; both run this code,
    and [peer] are the certificates it shows. *)
Module NetDemo.
Import TreeLib.

Definition header (from to : string) : tree :=
  TNode "stream:stream" [("from", from); ("to", to)] [] "" None.
Definition message : tree :=
  TNode "message" [("from", "romeo@jackal.im"); ("to", "juliet@xmpp.org")] [] "" (Some KMessage).
Definition node0 (peer : list (list string)) : node := MkNode [] ∅ [] "D60000229F" peer.

Abbreviation outStep ev sn := (ran (@S2SOut.step tree_jid tree_xml node out_env node_kv ev sn)).
Abbreviation inStep ev sn := (ran (@S2SIn.step tree_jid tree_xml node (in_env "xmpp.org" "s3cr3t") node_kv ev sn)).
Definition to_out (e : tree) : @S2SOut.event tree_jid tree_xml := S2SOut.EvSession (Some (inr e)).
Definition to_in (e : tree) : @S2SIn.event tree_jid tree_xml := S2SIn.EvSession (Some (inr e)).

(** The exchange until the answer to the SASL request, *)
Abbreviation streams := (@S2SOut.outS2S tree_jid tree_xml * @node tree_jid tree_xml *
  (@S2SIn.inS2S tree_jid * @node tree_jid tree_xml))%type.
Definition negotiate (peer : list (list string)) : option streams :=
  '(o, nA) ← outStep (S2SOut.EvSend message) (S2SOut.newOutS2S "s3cr3t" "jackal.im" "xmpp.org", node0 []);
  '(o, nA) ← ran ((@S2SOut.dial _ _ _ out_env;; @S2SOut.start _ _ _ out_env) (o, nA));
  '(i, nB) ← ran ((@S2SIn.start _ _ _ (in_env "xmpp.org" "s3cr3t"))
    (S2SIn.MkIn 1 (S2SIn.MkInConfig 32768 true) false false false S2SIn.inConnecting
       (S2SIn.Flags.setSecured 0) None "" "" [], node0 peer));
  '(i, nB) ← inStep (to_in (header "jackal.im" "xmpp.org")) (i, nB);
  '(o, nA) ← outStep (to_out (header "xmpp.org" "jackal.im")) (o, nA);
  features ← sent nB;
  '(o, nA) ← outStep (to_out features) (o, nA);
  auth ← sent nA;
  '(i, nB) ← inStep (to_in auth) (i, nB);
  reply ← sent nB;
  '(o, nA) ← outStep (to_out reply) (o, nA);
  Some ((o, nA, (i, nB)) : streams).

(** and the restarted streams after a success. *)
Definition restart (onab : streams) : option streams :=
  '(i, nB) ← inStep (to_in (header "jackal.im" "xmpp.org")) onab.2;
  '(o, nA) ← outStep (to_out (header "xmpp.org" "jackal.im")) onab.1;
  features ← sent nB;
  '(o, nA) ← outStep (to_out features) (o, nA);
  Some ((o, nA, (i, nB)) : streams).

Definition features : tree :=
  TNode "stream:features" [] [TNode "dialback" [("xmlns", S2SIn.dialbackNamespace)] [] "" None] "" None.


End NetDemo.

(** Two servers of this kind authenticate with SASL EXTERNAL when a certificate
    names the opening domain: after the restart of the stream the outgoing side
    is authenticated, the accepting side has authorised the peer, and the stanza
    that waited has been written. *)
Theorem external_handshake :
  match NetDemo.negotiate [["jackal.im"]] ≫= NetDemo.restart with
  | Some (o, nA, (i, _)) =>
    S2SOut.state o = S2SOut.outAuthenticated ∧ S2SIn.Flags.isAuthenticated (S2SIn.flags i) = true ∧
    sent nA = Some NetDemo.message
  | None => False
  end.
Proof. vm_compute. auto. Qed.

(** When no certificate names the opening domain, the stream fails although the
    accepting server also offers dialback: it offers EXTERNAL whatever the
    certificates are, the opening server prefers it, and disconnects when it is
    refused; the stanza that waited is lost with the stream. *)
Theorem no_dialback_after_external :
  match NetDemo.negotiate [["other.example"]] with
  | Some (o, nA, (i, nB)) =>
    (∃ f, head (wire nB) = Some f ∧ S2SOut.hasDialbackFeature f = true) ∧
    S2SOut.state o = S2SOut.outDisconnected ∧ S2SOut.pendingQueue o = [NetDemo.message] ∧
    List.filter is_stanza (wire nA) = []
  | None => False
  end.
Proof.
  vm_compute. split; [eexists; split; reflexivity|]. auto.
Qed.
