(* ===== verification/Users.v ===== *)
(** * User accounts (pkg/auth/pepper, pkg/admin/server/service.go)

    Pepper keys, the credentials a user account stores, and the administration
    service that makes, changes and deletes accounts. *)

From stdpp Require Import base list strings gmap.
From Stdlib Require Import ZArith Lia.
From S2P Require Import Prelude GoLib Base64 Crypto.

(** ** Pepper keys (pkg/auth/pepper/keys.go) *)
Module Pepper.

Definition noneID : string := "none".
Definition minKeyLength : nat := 24.

Record Keys := MkKeys { ks : gmap string string; useID : string }.
Record Config := MkConfig { cfg_Keys : gmap string string; cfg_UseID : string }.

(** [NewKeys]; the order in which the map is visited only decides which of
    several short keys the error names. *)
Definition NewKeys (cfg : Config) : outcome Keys :=
  if decide (cfg_Keys cfg = ∅) then Ok (MkKeys ∅ noneID)
  else if String.eqb (cfg_UseID cfg) "" then
    Err (ErrText "pepper: no active key defined (forgot to set use key?)")
  else if existsb (fun kv => String.length kv.2 <? minKeyLength)%nat (map_to_list (cfg_Keys cfg)) then
    Err (ErrText "pepper: key must be at least 24 characters")
  else match cfg_Keys cfg !! cfg_UseID cfg with
       | None => Err (ErrText "pepper: active key not found")
       | Some _ => Ok (MkKeys (cfg_Keys cfg) (cfg_UseID cfg))
       end.

(** [GetKey]; a missing key reads as the empty string *)
Definition GetKey (k : Keys) (pepperID : string) : string :=
  if String.eqb (useID k) noneID then "" else default "" (ks k !! pepperID).
(** [GetActiveKey] and [GetActiveID] *)
Definition GetActiveKey (k : Keys) : string := GetKey k (useID k).
Definition GetActiveID (k : Keys) : string := useID k.

End Pepper.

(** ** Accounts ([usermodel.User]) *)
Record Scram_ := MkScram {
  Sha1 : string;
  Sha256 : string;
  Sha512 : string;
  Sha3512 : string;
  Salt : string;
  IterationCount : Z;
  PepperId : string;
}.
Record User := MkUser { Username : string; ScramOf : Scram_ }.

(** What the packages of [golang.org/x/crypto] provide: PBKDF2 (password, salt,
    iterations, length, hash) and SHA3-512. *)
Class XCrypto := {
  pbkdf2_Key : list Z → list Z → Z → nat → Hash → list Z;
  sha3_512 : Hash;
  sha3_512_size : hash_size sha3_512 = 64%nat;
  sha3_512_good : good_hash sha3_512;
  pbkdf2_bytes : ∀ p s i n h, Forall byte_ok (pbkdf2_Key p s i n h);
}.

(** HMAC in the place of PBKDF2, SHA-512 in the place of SHA3-512. *)
Module CryptoDemo.
Definition key_bytes (p s : list Z) (_ : Z) (_ : nat) (h : Hash) : list Z :=
  map (fun x => x mod 256)%Z (hmac h p s).
Lemma key_bytes_ok p s i n h : Forall byte_ok (key_bytes p s i n h).
Proof.
  unfold key_bytes. apply Forall_forall. intros x Hx. apply list_elem_of_fmap in Hx as (y & -> & _).
  apply Z.mod_pos_bound. lia.
Qed.
#[export] Instance crypto : XCrypto := {|
  pbkdf2_Key := key_bytes; sha3_512 := sha512; sha3_512_size := eq_refl;
  sha3_512_good := sha512_good; pbkdf2_bytes := key_bytes_ok |}.
End CryptoDemo.

(** ** The administration service *)
Module Service.

Definition iterationCount : Z := 15000.

(** gRPC status codes *)
Inductive code := Internal | AlreadyExists | NotFound.
Definition status (c : code) (msg : string) : goerror :=
  ErrText (match c with
           | Internal => "Internal: " | AlreadyExists => "AlreadyExists: " | NotFound => "NotFound: "
           end +:+ msg).

(** The repository of users, the source of random bytes and the hooks. *)
Class Env (W : Type) := {
  rep_UserExists : string → M W bool;
  rep_UpsertUser : User → M W unit;
  rep_DeleteUser : string → M W unit;
  rand_Read : nat → M W (list Z);
  hk_UserCreated : string → M W unit;
  hk_UserDeleted : string → M W unit;
}.

Section service.
Context `{XCrypto} {W : Type} `{!Env W} (peppers : Pepper.Keys).

(** The message of an error, which the status carries *)
Definition message (e : goerror) : string := match e with ErrText t => t | _ => "" end.
(** [if err != nil { return status.Error(codes.Internal, err.Error()) }] *)
Definition internal {A} (m : M W A) : M W A :=
  r ← try m;
  match r with
  | inl e => fail (status Internal (message e))
  | inr x => mret x
  end.

(** [ensureUserNotFound] *)
Definition ensureUserNotFound (username : string) : M W unit :=
  exists_ ← internal (rep_UserExists username);
  if exists_ : bool then fail (status AlreadyExists ("user " +:+ username +:+ " already exists"))
  else mret tt.

(** [ensureUserAlreadyExists] *)
Definition ensureUserAlreadyExists (username : string) : M W unit :=
  exists_ ← internal (rep_UserExists username);
  if exists_ : bool then mret tt
  else fail (status NotFound ("user " +:+ username +:+ " not found")).

(** [hashPassword] *)
Definition hashPassword (password salt : list Z) (iterations : Z) (hKeyLen : nat) (h : Hash) : list Z :=
  pbkdf2_Key password salt iterations hKeyLen h.

(** The account [upsertUser] stores, for the salt it drew *)
Definition newUser (username password : string) (salt : list Z) : User :=
  let pepperedSalt := salt ++ bytes_of_string (Pepper.GetActiveKey peppers) in
  let hash := hashPassword (bytes_of_string password) pepperedSalt iterationCount in
  MkUser username (MkScram
    (RawURLEncode (hash 20%nat sha1)) (RawURLEncode (hash 32%nat sha256))
    (RawURLEncode (hash 64%nat sha512)) (RawURLEncode (hash 64%nat sha3_512))
    (RawURLEncode salt) iterationCount (Pepper.GetActiveID peppers)).

(** [upsertUser] *)
Definition upsertUser (username password : string) : M W unit :=
  salt ← internal (rand_Read 32);
  internal (rep_UpsertUser (newUser username password salt)).

(** [CreateUser] *)
Definition CreateUser (username password : string) : M W unit :=
  ensureUserNotFound username;;
  upsertUser username password;;
  hk_UserCreated username.

(** [ChangeUserPassword] *)
Definition ChangeUserPassword (username newPassword : string) : M W unit :=
  ensureUserAlreadyExists username;;
  upsertUser username newPassword.

(** [DeleteUser] *)
Definition DeleteUser (username : string) : M W unit :=
  ensureUserAlreadyExists username;;
  internal (rep_DeleteUser username);;
  hk_UserDeleted username.

End service.

(** *** The service against a repository that keeps its promises *)
Section accounts.
Context `{XCrypto} {W : Type} `{!Env W} (peppers : Pepper.Keys).
(** The accounts the repository holds. *)
Context (accounts : W → gmap string User).

Class RepOk : Prop := {
  ok_UserExists : ∀ u w b w', rep_UserExists u w = (Ok b, w') →
    accounts w' = accounts w ∧ b = bool_decide (is_Some (accounts w !! u));
  ok_UpsertUser : ∀ u w w', rep_UpsertUser u w = (Ok tt, w') →
    accounts w' = <[Username u := u]> (accounts w);
  ok_DeleteUser : ∀ u w w', rep_DeleteUser u w = (Ok tt, w') → accounts w' = delete u (accounts w);
  ok_rand : ∀ n w l w', rand_Read n w = (Ok l, w') → accounts w' = accounts w ∧ Forall byte_ok l;
  ok_created : ∀ u w w', hk_UserCreated u w = (Ok tt, w') → accounts w' = accounts w;
  ok_deleted : ∀ u w w', hk_UserDeleted u w = (Ok tt, w') → accounts w' = accounts w;
}.
Context `{!RepOk}.

Lemma internal_ok {A} (m : M W A) w a w' : internal m w = (Ok a, w') → m w = (Ok a, w').
Proof. unfold internal, try, mbind, M_bind. by destruct (m w) as [[] w1]; intros [= <- <-]. Qed.

Lemma ensureUserNotFound_ok u w w' : ensureUserNotFound u w = (Ok tt, w') →
  accounts w' = accounts w ∧ accounts w !! u = None.
Proof.
  intros Hr. inv_bind Hr as b w1 Hb. apply internal_ok, ok_UserExists in Hb as [Ha ->].
  case_bool_decide as Hs; [done|]. injection Hr as <-. split; [done|]. by apply eq_None_not_Some.
Qed.
Lemma ensureUserAlreadyExists_ok u w w' : ensureUserAlreadyExists u w = (Ok tt, w') →
  accounts w' = accounts w ∧ is_Some (accounts w !! u).
Proof.
  intros Hr. inv_bind Hr as b w1 Hb. apply internal_ok, ok_UserExists in Hb as [Ha ->].
  case_bool_decide as Hs; [|done]. by injection Hr as <-.
Qed.
Lemma upsertUser_ok u p w w' : upsertUser peppers u p w = (Ok tt, w') →
  ∃ salt, Forall byte_ok salt ∧ accounts w' = <[u := newUser peppers u p salt]> (accounts w).
Proof.
  intros Hr. inv_bind Hr as salt w1 Hs. apply internal_ok, ok_rand in Hs as [Ha Hb].
  apply internal_ok, ok_UpsertUser in Hr. exists salt. by rewrite Hr, Ha.
Qed.

(** What a request changes. *)
Inductive request :=
| Create (username password : string)
| ChangePassword (username password : string)
| Delete (username : string).
Definition serve (r : request) : M W unit :=
  match r with
  | Create u p => CreateUser peppers u p
  | ChangePassword u p => ChangeUserPassword peppers u p
  | Delete u => DeleteUser u
  end.

(** A request of the administration service that succeeds changes the account
    it names and no other: a new account is only made where there was none, a
    password is only changed and an account only deleted where there was one;
    the account stored for a password holds its salted hashes. *)
Theorem admin_requests (r : request) (w w' : W) (Hok : serve r w = (Ok tt, w')) :
  match r with
  | Create u p => accounts w !! u = None ∧ ∃ salt, Forall byte_ok salt ∧
      accounts w' = <[u := newUser peppers u p salt]> (accounts w)
  | ChangePassword u p => is_Some (accounts w !! u) ∧ ∃ salt, Forall byte_ok salt ∧
      accounts w' = <[u := newUser peppers u p salt]> (accounts w)
  | Delete u => is_Some (accounts w !! u) ∧ accounts w' = delete u (accounts w)
  end.
Proof.
  destruct r as [u p|u p|u]; simpl in Hok; inv_bind Hok as [] w1 H1.
  - inv_bind Hok as [] w2 H2. apply ensureUserNotFound_ok in H1 as [Ha Hn].
    apply upsertUser_ok in H2 as (salt & Hs & Hu). apply ok_created in Hok.
    split; [done|]. exists salt. by rewrite Hok, Hu, Ha.
  - apply ensureUserAlreadyExists_ok in H1 as [Ha Hn].
    apply upsertUser_ok in Hok as (salt & Hs & Hu). split; [done|]. exists salt. by rewrite Hu, Ha.
  - inv_bind Hok as [] w2 H2. apply ensureUserAlreadyExists_ok in H1 as [Ha Hn].
    apply internal_ok, ok_DeleteUser in H2. apply ok_deleted in Hok. split; [done|]. by rewrite Hok, H2, Ha.
Qed.

End accounts.

(** The repository is a map, the random bytes are zeros. *)
Module ServiceDemo.
Import CryptoDemo.
Definition env : Env (gmap string User) := {|
  rep_UserExists := fun u => gets (fun w => bool_decide (is_Some (w !! u)));
  rep_UpsertUser := fun u => modify <[Username u := u]>;
  rep_DeleteUser := fun u => modify (delete u);
  rand_Read := fun n => mret (replicate n 0%Z);
  hk_UserCreated := fun _ => mret tt; hk_UserDeleted := fun _ => mret tt |}.

Lemma service_env_ok : @RepOk (gmap string User) env (fun w => w).
Proof.
  split; try (by intros; simplify_eq/=).
  - intros u w b w' [= <- <-]. done.
  - intros u w w' [= <-]. done.
  - intros u w w' [= <-]. done.
  - intros n w l w' [= <- <-]. split; [done|]. apply Forall_replicate. done.
  - intros u w w' [= <-]. done.
  - intros u w w' [= <-]. done.
Qed.

Definition peppers : Pepper.Keys := Pepper.MkKeys ∅ Pepper.noneID.
Abbreviation served := (@serve crypto (gmap string User) env peppers (Create "romeo" "1234") ∅).

Lemma admin_requests_witness :
  (∅ : gmap string User) !! "romeo" = None ∧ ∃ salt, Forall byte_ok salt ∧
    served.2 = <["romeo" := newUser peppers "romeo" "1234" salt]> ∅.
Proof.
  apply (@admin_requests crypto (gmap string User) env peppers (fun w => w) service_env_ok (Create "romeo" "1234") ∅ served.2).
  reflexivity.
Defined.
End ServiceDemo.

End Service.
