(* ===== verification/Scram.v ===== *)
(** * SASL authenticators (pkg/auth)

    The SCRAM authenticator (scram.go), the PLAIN authenticator that asks an
    external service (external.go), and the helper that splits key and value
    (pkg/util/strings).  A client that follows RFC 5802 is the reference for the
    theorems. *)

From stdpp Require Import base list strings gmap.
From Stdlib Require Import ZArith Lia Ascii.
From S2P Require Import Prelude GoLib GoStrings GoHoare Base64 Crypto Stravaganza Users.

(** ** Strings *)

(** [stringsutil.SplitKeyAndValue] *)
Definition SplitKeyAndValue (str : string) (sep : ascii) : string * string :=
  default ("", "") (cut sep str).

(** [strings.HasPrefix(s, "p=")] and the rest of such a string *)
Definition after_p (s : string) : option string :=
  match s with
  | String c (String d s') => if Ascii.eqb c "p"%char && Ascii.eqb d "="%char then Some s' else None
  | _ => None
  end.

(** ** Errors (auth.go) *)
Inductive SASLErrorReason := IncorrectEncoding | MalformedRequest | NotAuthorized | TemporaryAuthFailure.
#[global] Instance SASLErrorReason_eq_dec : EqDecision SASLErrorReason.
Proof. solve_decision. Defined.

(** [SASLErrorReason.String] *)
Definition reasonString (r : SASLErrorReason) : string :=
  match r with
  | IncorrectEncoding => "incorrect-encoding"
  | MalformedRequest => "malformed-request"
  | NotAuthorized => "not-authorized"
  | TemporaryAuthFailure => "temporary-auth-failure"
  end.

Definition saslNamespace : string := "urn:ietf:params:xml:ns:xmpp-sasl".

(** ** SCRAM *)
Inductive ScramType := ScramSHA1 | ScramSHA256 | ScramSHA512 | ScramSHA3512.
Inductive scramState := startScramState | challengedScramState.
#[global] Instance scramState_eq_dec : EqDecision scramState.
Proof. solve_decision. Defined.

Record scramParameters := MkParams {
  gs2Header : string;
  cbMechanism : string;
  authzID : string;
  params_ : list (string * string);
}.

(** [getParameter] *)
Definition getParameter (p : scramParameters) (key : string) : string :=
  match List.find (fun kv => String.eqb kv.1 key) (params_ p) with
  | Some kv => kv.2
  | None => ""
  end.

(** [String] *)
Fixpoint joinParams (l : list (string * string)) : string :=
  match l with
  | [] => ""
  | [(k, v)] => k +:+ "=" +:+ v
  | (k, v) :: l' => k +:+ "=" +:+ v +:+ "," +:+ joinParams l'
  end.
Definition paramsString (p : scramParameters) : string := joinParams (params_ p).

(** [Scram] *)
Record Scram := MkScramAuth {
  tp : ScramType;
  usesCb : bool;
  state : scramState;
  params : option scramParameters;
  user : option User;
  srvNonce : string;
  firstMessage : string;
  authenticated : bool;
}.

Definition set_params (v : option scramParameters) (s : Scram) : Scram :=
  MkScramAuth (tp s) (usesCb s) (state s) v (user s) (srvNonce s) (firstMessage s) (authenticated s).
Definition set_user (v : option User) (s : Scram) : Scram :=
  MkScramAuth (tp s) (usesCb s) (state s) (params s) v (srvNonce s) (firstMessage s) (authenticated s).
Definition set_challenge (st : scramState) (nonce first : string) (s : Scram) : Scram :=
  MkScramAuth (tp s) (usesCb s) st (params s) (user s) nonce first (authenticated s).
Definition set_authenticated (v : bool) (s : Scram) : Scram :=
  MkScramAuth (tp s) (usesCb s) (state s) (params s) (user s) (srvNonce s) (firstMessage s) v.

(** [NewScram] *)
Definition NewScram (t : ScramType) (usesChannelBinding : bool) : Scram :=
  MkScramAuth t usesChannelBinding startScramState None None "" "" false.

(** [Mechanism] *)
Definition Mechanism (s : Scram) : string :=
  match tp s with
  | ScramSHA1 => if usesCb s then "SCRAM-SHA-1-PLUS" else "SCRAM-SHA-1"
  | ScramSHA256 => if usesCb s then "SCRAM-SHA-256-PLUS" else "SCRAM-SHA-256"
  | ScramSHA512 => if usesCb s then "SCRAM-SHA-512-PLUS" else "SCRAM-SHA-512"
  | ScramSHA3512 => if usesCb s then "SCRAM-SHA3-512-PLUS" else "SCRAM-SHA3-512"
  end.

(** [Username]: the name of the user once authenticated *)
Definition ScramUsername (s : Scram) : outcome string :=
  if authenticated s then
    match user s with Some u => Ok (Username u) | None => Crash NilDeref end
  else Ok "".
(** [Authenticated] and [UsesChannelBinding] *)
Definition Authenticated (s : Scram) : bool := authenticated s.
Definition UsesChannelBinding (s : Scram) : bool := usesCb s.

(** What the authenticator calls: the repository, the transport and the UUID
    generator. *)
Inductive cbMech := TLSUnique | TLSExporter.
Class ScramEnv (W : Type) := {
  rep_FetchUser : string → M W (option User);
  tr_ChannelBindingBytes : cbMech → W → list Z;
  uuid_New : M W string;
}.

Section scram.
Context `{XmlLib} `{XCrypto} {W : Type} `{!ScramEnv W} (peppers : Pepper.Keys).
Abbreviation MS := (M (Scram * W)).
(** The result of a step: an error, or the element to answer *)
Abbreviation MR A := (M (Scram * W) (SASLErrorReason + A)).

(** [s.h], which [NewScram] sets *)
Definition hashOf (t : ScramType) : Hash :=
  match t with ScramSHA1 => sha1 | ScramSHA256 => sha256 | ScramSHA512 => sha512 | ScramSHA3512 => sha3_512 end.

(** [Reset] *)
Definition Reset : MS unit :=
  setf (fun s => MkScramAuth (tp s) (usesCb s) startScramState None None "" "" false).

(** [getElementPayload] *)
Definition getElementPayload (elem : Element) : SASLErrorReason + string :=
  if String.eqb (Text elem) "" then inl IncorrectEncoding
  else match DecodeString (Text elem) with
       | None => inl IncorrectEncoding
       | Some b => inr (string_of_bytes b)
       end.

(** [parseParameters] on the parts of the message; [cb] is [s.usesCb] *)
Definition parseParts (cb : bool) (sp : list string) : SASLErrorReason + scramParameters :=
  match sp with
  | gs2BindFlag :: authz :: rest =>
    let flag : SASLErrorReason + string :=
      if String.eqb gs2BindFlag "p" then if cb then inr "" else inl NotAuthorized
      else if String.eqb gs2BindFlag "n" || String.eqb gs2BindFlag "y" then inr ""
      else match after_p gs2BindFlag with
           | None => inl MalformedRequest
           | Some mech => if cb then inr mech else inl NotAuthorized
           end in
    match flag with
    | inl e => inl e
    | inr mech =>
      let '(key, val) := SplitKeyAndValue authz "=" in
      if negb (String.eqb authz "") && (String.eqb key "" || negb (String.eqb key "a"))
      then inl MalformedRequest
      else inr (MkParams (gs2BindFlag +:+ "," +:+ authz +:+ ",") mech
                  (if String.eqb authz "" then "" else val)
                  ((fun p => SplitKeyAndValue p "=") <$> rest))
    end
  | _ => inl IncorrectEncoding
  end.
Definition parseParameters (str : string) : MR unit :=
  cb ← fld usesCb;
  match parseParts cb (Split "," str) with
  | inl e => mret (inl e)
  | inr p => setf (set_params (Some p));; mret (inr tt)
  end.

(** [handleStart] *)
Definition handleStart (elem : Element) : MR Element :=
  match getElementPayload elem with
  | inl e => mret (inl e)
  | inr p =>
    r ← parseParameters p;
    match r with
    | inl e => mret (inl e)
    | inr _ =>
      op ← fld params;
      ps ← deref op;
      let username := getParameter ps "n" in
      let cNonce := getParameter ps "r" in
      if String.eqb username "" || String.eqb cNonce "" then mret (inl MalformedRequest)
      else
        r ← try (onW (rep_FetchUser username));
        match r with
        | inl _ => mret (inl TemporaryAuthFailure)
        | inr None => mret (inl NotAuthorized)
        | inr (Some u) =>
          setf (set_user (Some u));;
          match RawURLDecode (Salt (ScramOf u)) with
          | None => mret (inl TemporaryAuthFailure)
          | Some saltBytes =>
            let pepperedSaltB64 := EncodeToString
              (saltBytes ++ bytes_of_string (Pepper.GetKey peppers (PepperId (ScramOf u)))) in
            id ← onW uuid_New;
            let nonce := cNonce +:+ "-" +:+ id in
            let first := "r=" +:+ nonce +:+ ",s=" +:+ pepperedSaltB64 +:+ ",i=" +:+
                         Itoa (IterationCount (ScramOf u)) in
            setf (set_challenge challengedScramState nonce first);;
            mret (inr (Build "challenge" [(Namespace, saslNamespace)] []
                         (EncodeToString (bytes_of_string first))))
          end
        end
    end
  end.

(** [getCBindInputString] *)
Definition cbindInput (cb : bool) (ps : scramParameters) (w : W) : string :=
  EncodeToString (bytes_of_string (gs2Header ps) ++
    (if cb then
       if String.eqb (cbMechanism ps) "tls-unique" then tr_ChannelBindingBytes TLSUnique w
       else if String.eqb (cbMechanism ps) "tls-exporter" then tr_ChannelBindingBytes TLSExporter w
       else []
     else [])).

(** [getScramPassword] *)
Definition getScramPassword (t : ScramType) (u : User) : option (list Z) :=
  RawURLDecode (match t with
                | ScramSHA1 => Sha1 (ScramOf u) | ScramSHA256 => Sha256 (ScramOf u)
                | ScramSHA512 => Sha512 (ScramOf u) | ScramSHA3512 => Sha3512 (ScramOf u)
                end).

(** The values [handleChallenged] computes from the salted password and the
    authentication message (the arguments of [hmac] are in the order of RFC 2104:
    key, message) *)
Section keys.
Context (h : Hash) (scramPassword : list Z) (authMessage : string).
Definition clientKey : list Z := hmac h scramPassword (bytes_of_string "Client Key").
Definition storedKey : list Z := hash_sum h clientKey.
Definition clientSignature : list Z := hmac h storedKey (bytes_of_string authMessage).
Definition clientProof : list Z := xor_bytes clientKey clientSignature.
Definition serverKey : list Z := hmac h scramPassword (bytes_of_string "Server Key").
Definition serverSignature : list Z := hmac h serverKey (bytes_of_string authMessage).
End keys.

(** [handleChallenged] *)
Definition handleChallenged (elem : Element) : MR Element :=
  match getElementPayload elem with
  | inl e => mret (inl e)
  | inr p =>
    s ← fld (fun s => s);
    ps ← deref (params s);
    c ← wfld (cbindInput (usesCb s) ps);
    let initialMessage := paramsString ps in
    let clientFinalMessageBare := "c=" +:+ c +:+ ",r=" +:+ srvNonce s in
    u ← deref (user s);
    match getScramPassword (tp s) u with
    | None => mret (inl TemporaryAuthFailure)
    | Some scramPassword =>
      let h := hashOf (tp s) in
      let authMessage := initialMessage +:+ "," +:+ firstMessage s +:+ "," +:+ clientFinalMessageBare in
      if (length (clientSignature h scramPassword authMessage) <? length (clientKey h scramPassword))%nat
      then crash_with IndexOutOfRange
      else
        let clientFinalMessage := clientFinalMessageBare +:+ ",p=" +:+
          EncodeToString (clientProof h scramPassword authMessage) in
        if negb (String.eqb clientFinalMessage p) then mret (inl NotAuthorized)
        else
          let v := "v=" +:+ EncodeToString (serverSignature h scramPassword authMessage) in
          setf (set_authenticated true);;
          mret (inr (Build "success" [(Namespace, saslNamespace)] []
                       (EncodeToString (bytes_of_string v))))
    end
  end.

(** [ProcessElement] *)
Definition ProcessElement (elem : Element) : MR Element :=
  st ← fld state;
  if String.eqb (Name elem) "auth" && bool_decide (st = startScramState) then handleStart elem
  else if String.eqb (Name elem) "response" && bool_decide (st = challengedScramState) then
    handleChallenged elem
  else mret (inl NotAuthorized).

End scram.

(** ** PLAIN (external.go) *)
Module External.

Record External := MkExternal { username : string; authenticated : bool }.
Definition NewExternal : External := MkExternal "" false.
Definition Mechanism : string := "PLAIN".
Definition Username (e : External) : string := if authenticated e then username e else "".
Definition Authenticated (e : External) : bool := authenticated e.
Definition UsesChannelBinding : bool := false.

(** The gRPC client: user name and password. *)
Class Client (W : Type) := { cl_Authenticate : string → string → M W bool }.

Section external.
Context `{XmlLib} {W : Type} `{!Client W}.

(** [ProcessElement] *)
Definition ProcessElement (elem : Element) : M (External * W) (SASLErrorReason + Element) :=
  if String.eqb (Text elem) "" then mret (inl MalformedRequest)
  else match DecodeString (Text elem) with
  | None => mret (inl IncorrectEncoding)
  | Some b =>
    match split 0 b with
    | [_; u; p] =>
      r ← try (onW (cl_Authenticate (string_of_bytes u) (string_of_bytes p)));
      match r with
      | inl _ => mret (inl TemporaryAuthFailure)
      | inr false => mret (inl NotAuthorized)
      | inr true =>
        setf (fun _ => MkExternal (string_of_bytes u) true);;
        mret (inr (Build "success" [(Namespace, saslNamespace)] [] ""))
      end
    | _ => mret (inl IncorrectEncoding)
    end
  end.

(** [Reset] *)
Definition Reset : M (External * W) unit := setf (fun _ => MkExternal "" false).

End external.
End External.
