(* ===== verification/ScramProofs.v ===== *)
(** * Properties of the SASL authenticators

    A client that follows RFC 5802 logs in with the password of its account, and
    only the proof of that password for the current exchange is accepted. *)

From stdpp Require Import base list strings gmap.
From Stdlib Require Import ZArith Lia Ascii.
From S2P Require Import Prelude GoLib GoStrings GoHoare Base64 Crypto Stravaganza Users Scram.

(** ** Strings *)
Lemma prefix_self s t : String.prefix s (s +:+ t) = true.
Proof.
  induction s as [|x s IH]; [by destruct ("" +:+ t)|]. rewrite string_app_cons. simpl.
  by destruct (ascii_dec x x).
Qed.

Lemma comma_app t : "," +:+ t = String "," t.
Proof. done. Qed.

(** Encodings have no comma. *)
Lemma no_char_list c l : no_char c (String.string_of_list_ascii l) = forallb (fun x => negb (Ascii.eqb x c)) l.
Proof. induction l as [|x l IH]; simpl; [done|]. by rewrite IH. Qed.

Lemma digit_no_comma x : negb (Ascii.eqb (digit (x mod 64)) ",") = true.
Proof.
  pose proof (Z.mod_pos_bound x 64 ltac:(lia)) as Hd. set (d := (x mod 64)%Z) in *. clearbody d.
  assert (In d (map Z.of_nat (seq 0 64))) as Hin.
  { apply in_map_iff. exists (Z.to_nat d). split; [lia|]. apply in_seq. lia. }
  exact (proj1 (forallb_forall (fun d => negb (Ascii.eqb (digit d) ","%char))
    (map Z.of_nat (seq 0 64))) eq_refl d Hin).
Qed.

Lemma encode_no_comma l : no_char "," (EncodeToString l) = true.
Proof.
  unfold EncodeToString. rewrite no_char_list.
  induction l as [|a|a b|a b c l IH] using triple_ind; cbn [encode forallb]; rewrite ?digit_no_comma; done.
Qed.

Lemma Itoa_15000 : Itoa 15000 = "15000".
Proof. reflexivity. Qed.

(** ** A client of RFC 5802 *)
Record client := MkClient {
  c_flag : string;          (** the channel-binding flag of the GS2 header *)
  c_authz : string;         (** its authorization identity, possibly empty *)
  c_cb : list Z;            (** channel-binding data *)
  c_name : string;
  c_nonce : string;
  c_password : string;
  c_hash : Hash;
}.

Section client.
Context `{XmlLib} `{XCrypto}.

Definition gs2_of (c : client) : string := c_flag c +:+ "," +:+ c_authz c +:+ ",".
Definition first_bare (c : client) : string := "n=" +:+ c_name c +:+ ",r=" +:+ c_nonce c.
Definition client_first (c : client) : string := gs2_of c +:+ first_bare c.

(** The value of an attribute [x=value] *)
Definition attr_value (s : string) : string := (SplitKeyAndValue s "=").2.

(** The final message, and the signature expected of the server. *)
Definition client_final (c : client) (server_first : string) : option (string * list Z) :=
  match Split "," server_first with
  | [fr; fs; fi] =>
    salt ← DecodeString (attr_value fs);
    let nonce := attr_value fr in
    if String.prefix (c_nonce c) nonce then
      let salted := pbkdf2_Key (bytes_of_string (c_password c)) salt (Atoi (attr_value fi)).1
                      (hash_size (c_hash c)) (c_hash c) in
      let bare := "c=" +:+ EncodeToString (bytes_of_string (gs2_of c) ++ c_cb c) +:+ ",r=" +:+ nonce in
      let msg := first_bare c +:+ "," +:+ server_first +:+ "," +:+ bare in
      Some (bare +:+ ",p=" +:+ EncodeToString (clientProof (c_hash c) salted msg),
            serverSignature (c_hash c) salted msg)
    else None
  | _ => None
  end.

Definition sasl_elem (name text : string) : Element :=
  Build name [(Namespace, saslNamespace)] [] (EncodeToString (bytes_of_string text)).

Context {W : Type} `{!ScramEnv W} (peppers : Pepper.Keys).

(** A login: the two elements of the client, and whether it accepts the last
    answer of the server. *)
Definition login (c : client) : M (Scram * W) (SASLErrorReason + bool) :=
  r ← ProcessElement peppers (sasl_elem "auth" (client_first c));
  match r with
  | inl e => mret (inl e)
  | inr challenge =>
    match b ← DecodeString (Text challenge); client_final c (string_of_bytes b) with
    | None => mret (inr false)
    | Some (final, signature) =>
      r ← ProcessElement peppers (sasl_elem "response" final);
      match r with
      | inl e => mret (inl e)
      | inr success =>
        mret (inr (String.eqb (Text success)
          (EncodeToString (bytes_of_string ("v=" +:+ EncodeToString signature)))))
      end
    end
  end.

(** What the client may send: the flag fits the mechanism, [None] when it does not
    name a channel binding. *)
Definition flag_ok (cb : bool) (flag : string) (mech : string) : Prop :=
  no_char "," flag = true ∧
  ((flag = "n" ∨ flag = "y") ∧ mech = "" ∨ cb = true ∧ flag = "p" ∧ mech = "" ∨
   cb = true ∧ flag = "p=" +:+ mech).
Definition authz_ok (a : string) : Prop := a = "" ∨ ∃ x, a = "a=" +:+ x ∧ no_char "," x = true.
Definition field_ok (s : string) : Prop := s ≠ "" ∧ no_char "," s = true.


(** *** The first message *)
Lemma split_first c mech cb : flag_ok cb (c_flag c) mech → authz_ok (c_authz c) →
  field_ok (c_name c) → field_ok (c_nonce c) →
  Split "," (client_first c) = [c_flag c; c_authz c; "n=" +:+ c_name c; "r=" +:+ c_nonce c].
Proof.
  intros [Hf _] Ha [_ Hn] [_ Hr]. unfold client_first, gs2_of, first_bare.
  rewrite <-!string_app_assoc, !comma_app.
  rewrite Split_app by done. f_equal.
  assert (no_char "," (c_authz c) = true) as Ha'.
  { destruct Ha as [->|(x & -> & Hx)]; [done|]. by rewrite no_char_app, Hx. }
  rewrite Split_app by done. f_equal.
  replace ("n=" +:+ c_name c +:+ ",r=" +:+ c_nonce c) with
    (("n=" +:+ c_name c) +:+ String "," ("r=" +:+ c_nonce c)) by (by rewrite <-string_app_assoc).
  rewrite Split_app by (by rewrite no_char_app, Hn). f_equal.
  by rewrite Split_none by (by rewrite no_char_app, Hr).
Qed.

Lemma split_key k v : no_char "=" k = true → SplitKeyAndValue (k +:+ String "=" v) "=" = (k, v).
Proof. intros Hk. unfold SplitKeyAndValue. by rewrite cut_app. Qed.

Lemma flag_after_p mech : after_p ("p=" +:+ mech) = Some mech.
Proof. done. Qed.

Lemma parse_first c mech cb : flag_ok cb (c_flag c) mech → authz_ok (c_authz c) →
  field_ok (c_name c) → field_ok (c_nonce c) →
  ∃ a, parseParts cb (Split "," (client_first c)) =
    inr (MkParams (gs2_of c) mech a [("n", c_name c); ("r", c_nonce c)]).
Proof.
  intros Hf Ha Hn Hr. erewrite split_first by done. unfold parseParts.
  change ((fun p => SplitKeyAndValue p "=") <$> ["n=" +:+ c_name c; "r=" +:+ c_nonce c])
    with [("n", c_name c); ("r", c_nonce c)].
  destruct Hf as [_ Hf].
  assert ((if String.eqb (c_flag c) "p" then if cb then inr "" else inl NotAuthorized
    else if String.eqb (c_flag c) "n" || String.eqb (c_flag c) "y" then inr ""
    else match after_p (c_flag c) with
         | None => inl MalformedRequest
         | Some mech => if cb then inr mech else inl NotAuthorized
         end) = (inr mech : SASLErrorReason + string)) as ->.
  { destruct Hf as [[[->| ->] ->]|[(-> & -> & ->)|(-> & ->)]]; [done..|].
    rewrite flag_after_p. done. }
  unfold gs2_of. destruct Ha as [->|(x & -> & Hx)]; eexists; reflexivity.
Qed.

(** *** The challenge *)
Definition challenge_text (nonce : string) (salt : list Z) (i : Z) : string :=
  "r=" +:+ nonce +:+ ",s=" +:+ EncodeToString salt +:+ ",i=" +:+ Itoa i.

Lemma payload_elem name text : text ≠ "" →
  getElementPayload (sasl_elem name text) = inr text.
Proof.
  intros Ht. unfold getElementPayload, sasl_elem. rewrite Text_Build.
  assert (EncodeToString (bytes_of_string text) ≠ "") as Hne.
  { destruct text as [|c text]; [done|]. unfold bytes_of_string. simpl.
    destruct (map _ (String.list_ascii_of_string text)) as [|? [|? ?]]; simpl; discriminate. }
  rewrite (proj2 (String.eqb_neq _ _) Hne), base64_roundtrip by apply bytes_of_string_ok.
  by rewrite string_bytes_roundtrip.
Qed.

Lemma hashOf_size t : hash_size (hashOf t) =
  match t with ScramSHA1 => 20 | ScramSHA256 => 32 | ScramSHA512 => 64 | ScramSHA3512 => 64 end.
Proof. destruct t; [done..|]. apply sha3_512_size. Qed.

Lemma hashOf_good t : good_hash (hashOf t).
Proof. destruct t; [apply sha1_good|apply sha256_good|apply sha512_good|apply sha3_512_good]. Qed.

(** The channel-binding data the server uses. *)
Definition channel_data (cb : bool) (mech : string) (w : W) : list Z :=
  if cb then
    if String.eqb mech "tls-unique" then tr_ChannelBindingBytes TLSUnique w
    else if String.eqb mech "tls-exporter" then tr_ChannelBindingBytes TLSExporter w
    else []
  else [].

(** The final message without the proof, and the message that is signed. *)
Definition bare_of (s : Scram) (ps : scramParameters) (w : W) : string :=
  "c=" +:+ cbindInput (usesCb s) ps w +:+ ",r=" +:+ srvNonce s.
Definition message_of (s : Scram) (ps : scramParameters) (w : W) : string :=
  paramsString ps +:+ "," +:+ firstMessage s +:+ "," +:+ bare_of s ps w.

Lemma handleChallenged_eq elem s w p ps v pass :
  getElementPayload elem = inr p → params s = Some ps → user s = Some v →
  getScramPassword (tp s) v = Some pass →
  handleChallenged elem (s, w) =
  if String.eqb (bare_of s ps w +:+ ",p=" +:+
       EncodeToString (clientProof (hashOf (tp s)) pass (message_of s ps w))) p
  then (Ok (inr (sasl_elem "success" ("v=" +:+
          EncodeToString (serverSignature (hashOf (tp s)) pass (message_of s ps w))))),
        (set_authenticated true s, w))
  else (Ok (inl NotAuthorized), (s, w)).
Proof.
  intros Hp Hps Hu Hpass. unfold handleChallenged. rewrite Hp.
  rewrite (bind_Ok _ _ _ s (s, w)) by done. rewrite Hps.
  rewrite (bind_Ok _ _ _ ps (s, w)) by done.
  rewrite (bind_Ok _ _ _ (cbindInput (usesCb s) ps w) (s, w)) by done. rewrite Hu.
  rewrite (bind_Ok _ _ _ v (s, w)) by done. rewrite Hpass. cbv zeta.
  fold (bare_of s ps w). fold (message_of s ps w).
  assert ((length (clientSignature (hashOf (tp s)) pass (message_of s ps w)) <?
    length (clientKey (hashOf (tp s)) pass))%nat = false) as ->.
  { apply Nat.ltb_ge. unfold clientSignature, clientKey. rewrite !hmac_length by apply hashOf_good. lia. }
  by destruct (String.eqb _ p).
Qed.

(** The part of the environment a login uses. *)
Context (u : User) (id : string) (w w1 w2 : W)
  (Hid : no_char "," id = true).

Lemma start_reply c mech t cb : flag_ok cb (c_flag c) mech → authz_ok (c_authz c) →
  field_ok (c_name c) → field_ok (c_nonce c) →
  rep_FetchUser (c_name c) w = (Ok (Some u), w1) → uuid_New w1 = (Ok id, w2) →
  ∀ salt, RawURLDecode (Salt (ScramOf u)) = Some salt →
  ∃ a,
  let nonce := c_nonce c +:+ "-" +:+ id in
  let first := challenge_text nonce
    (salt ++ bytes_of_string (Pepper.GetKey peppers (PepperId (ScramOf u)))) (IterationCount (ScramOf u)) in
  ProcessElement peppers (sasl_elem "auth" (client_first c)) (NewScram t cb, w) =
    (Ok (inr (sasl_elem "challenge" first)),
     (MkScramAuth t cb challengedScramState
        (Some (MkParams (gs2_of c) mech a [("n", c_name c); ("r", c_nonce c)])) (Some u)
        nonce first false, w2)).
Proof.
  intros Hf Ha Hn Hr Hfetch Huuid salt Hsalt. destruct (parse_first c mech cb Hf Ha Hn Hr) as [a Hp].
  exists a. cbv zeta. unfold ProcessElement. unfold mbind at 1, M_bind at 1. simpl.
  unfold sasl_elem at 1. rewrite Name_Build. simpl. unfold handleStart.
  rewrite payload_elem.
  2: { unfold client_first, gs2_of. destruct (c_flag c); discriminate. }
  unfold parseParameters, mbind, M_bind. simpl. rewrite Hp. simpl.
  unfold getParameter. simpl.
  rewrite (proj2 (String.eqb_neq _ _) (proj1 Hn)), (proj2 (String.eqb_neq _ _) (proj1 Hr)). simpl.
  unfold try, onW. rewrite Hfetch. simpl. rewrite Hsalt, Huuid. reflexivity.
Qed.

(** *** The final message *)
Lemma client_final_ok c salt :
  no_char "," (c_nonce c) = true → Forall byte_ok salt →
  let nonce := c_nonce c +:+ "-" +:+ id in
  let first := challenge_text nonce salt Service.iterationCount in
  let salted := pbkdf2_Key (bytes_of_string (c_password c)) salt Service.iterationCount
                  (hash_size (c_hash c)) (c_hash c) in
  let bare := "c=" +:+ EncodeToString (bytes_of_string (gs2_of c) ++ c_cb c) +:+ ",r=" +:+ nonce in
  let msg := first_bare c +:+ "," +:+ first +:+ "," +:+ bare in
  client_final c first =
    Some (bare +:+ ",p=" +:+ EncodeToString (clientProof (c_hash c) salted msg),
          serverSignature (c_hash c) salted msg).
Proof.
  intros Hr Hs nonce first salted bare msg. unfold client_final.
  assert (no_char "," nonce = true) as Hn.
  { unfold nonce. by rewrite !no_char_app, Hr, Hid. }
  assert (Split "," first = ["r=" +:+ nonce; "s=" +:+ EncodeToString salt; "i=15000"]) as ->.
  { unfold first, challenge_text.
    replace ("r=" +:+ nonce +:+ ",s=" +:+ EncodeToString salt +:+ ",i=" +:+ Itoa Service.iterationCount) with
      (("r=" +:+ nonce) +:+ String "," (("s=" +:+ EncodeToString salt) +:+ String "," "i=15000"))
      by (by rewrite <-!string_app_assoc).
    rewrite Split_app by (by rewrite no_char_app, Hn). f_equal.
    rewrite Split_app by (by rewrite no_char_app, encode_no_comma). done. }
  change (attr_value ("s=" +:+ EncodeToString salt)) with (EncodeToString salt).
  change (attr_value ("r=" +:+ nonce)) with nonce. change (Atoi (attr_value "i=15000")).1 with 15000%Z.
  rewrite base64_roundtrip by done. simpl.
  unfold nonce at 1. by rewrite prefix_self.
Qed.

(** What an account of the administration service stores for a hash function. *)
Lemma newUser_password t name pass salt :
  getScramPassword t (Service.newUser peppers name pass salt) =
  Some (pbkdf2_Key (bytes_of_string pass) (salt ++ bytes_of_string (Pepper.GetActiveKey peppers))
          Service.iterationCount (hash_size (hashOf t)) (hashOf t)).
Proof.
  rewrite hashOf_size. unfold getScramPassword.
  destruct t; simpl; apply raw_url_roundtrip, pbkdf2_bytes.
Qed.

Lemma challenged_ok c mech a t cb pass first nonce :
  c_hash c = hashOf t → c_cb c = channel_data cb mech w2 → getScramPassword t u = Some pass →
  let bare := "c=" +:+ EncodeToString (bytes_of_string (gs2_of c) ++ c_cb c) +:+ ",r=" +:+ nonce in
  let msg := first_bare c +:+ "," +:+ first +:+ "," +:+ bare in
  let s := MkScramAuth t cb challengedScramState
    (Some (MkParams (gs2_of c) mech a [("n", c_name c); ("r", c_nonce c)])) (Some u) nonce first false in
  ProcessElement peppers (sasl_elem "response" (bare +:+ ",p=" +:+
      EncodeToString (clientProof (c_hash c) pass msg))) (s, w2) =
  (Ok (inr (sasl_elem "success" ("v=" +:+ EncodeToString (serverSignature (c_hash c) pass msg)))),
   (set_authenticated true s, w2)).
Proof.
  intros Hh Hcb Hpass bare msg s. unfold ProcessElement.
  rewrite (bind_Ok _ _ _ challengedScramState (s, w2)) by done.
  assert (Name (sasl_elem "response" (bare +:+ ",p=" +:+ EncodeToString (clientProof (c_hash c) pass msg))) =
    "response") as -> by apply Name_Build.
  change (handleChallenged (sasl_elem "response" (bare +:+ ",p=" +:+
    EncodeToString (clientProof (c_hash c) pass msg))) (s, w2) =
    (Ok (inr (sasl_elem "success" ("v=" +:+ EncodeToString (serverSignature (c_hash c) pass msg)))),
     (set_authenticated true s, w2))).
  assert (bare +:+ ",p=" +:+ EncodeToString (clientProof (c_hash c) pass msg) ≠ "") as Hne by discriminate.
  rewrite (handleChallenged_eq _ s w2 _ _ _ _ (payload_elem _ _ Hne) eq_refl eq_refl Hpass).
  assert (bare_of s (MkParams (gs2_of c) mech a [("n", c_name c); ("r", c_nonce c)]) w2 = bare) as Eb
    by (unfold bare; by rewrite Hcb).
  unfold message_of. rewrite Eb, Hh. change (hashOf (tp s)) with (hashOf t).
  change (paramsString _ +:+ "," +:+ firstMessage s +:+ "," +:+ bare) with msg.
  by rewrite String.eqb_refl.
Qed.

(** C6: A client that follows RFC 5802 logs in with the password of its account, with
    any of the four hash functions, with or without channel binding: when the
    repository holds the account that the administration service stored for the
    password, the exchange ends in success, the client accepts the signature of
    the server, and the authenticator is authenticated as this user. *)
Theorem scram_login (c : client) (t : ScramType) (cb : bool) (mech : string) (salt : list Z)
    (Hflag : flag_ok cb (c_flag c) mech) (Hauthz : authz_ok (c_authz c))
    (Hname : field_ok (c_name c)) (Hnonce : field_ok (c_nonce c)) (Hsalt : Forall byte_ok salt)
    (Hhash : c_hash c = hashOf t) (Hcb : c_cb c = channel_data cb mech w2)
    (Hu : u = Service.newUser peppers (c_name c) (c_password c) salt)
    (Hfetch : rep_FetchUser (c_name c) w = (Ok (Some u), w1)) (Huuid : uuid_New w1 = (Ok id, w2)) :
  match login c (NewScram t cb, w) with
  | (Ok r, (s, w')) => r = inr true ∧ Authenticated s = true ∧ ScramUsername s = Ok (c_name c) ∧ w' = w2
  | _ => False
  end.
Proof.
  assert (RawURLDecode (Salt (ScramOf u)) = Some salt) as Hs by (subst u; by apply raw_url_roundtrip).
  destruct (start_reply c mech t cb Hflag Hauthz Hname Hnonce Hfetch Huuid salt Hs) as [a Hstart].
  cbv zeta in Hstart. unfold login. rewrite (bind_Ok _ _ _ _ _ Hstart). cbv beta iota.
  unfold sasl_elem at 1. rewrite Text_Build, base64_roundtrip by apply bytes_of_string_ok.
  cbn [mbind option_bind]. rewrite string_bytes_roundtrip.
  assert (IterationCount (ScramOf u) = Service.iterationCount) as -> by (by subst u).
  set (psalt := salt ++ _).
  assert (Forall byte_ok psalt) as Hps by (apply Forall_app; split; [done|apply bytes_of_string_ok]).
  rewrite (client_final_ok c psalt (proj2 Hnonce) Hps). cbv zeta.
  assert (getScramPassword t u = Some (pbkdf2_Key (bytes_of_string (c_password c)) psalt Service.iterationCount
    (hash_size (c_hash c)) (c_hash c))) as Hpass.
  { rewrite Hhash. unfold psalt. subst u. rewrite newUser_password. do 2 f_equal. }
  rewrite (bind_Ok _ _ _ _ _ (challenged_ok c mech a t cb _ _ _ Hhash Hcb Hpass)). cbv beta iota.
  unfold mret, M_ret. split; [|split; [done|split; [|done]]].
  - unfold sasl_elem. by rewrite Text_Build, String.eqb_refl.
  - unfold ScramUsername. simpl. by subst u.
Qed.
End client.

(** ** What is accepted *)
Section soundness.
Context `{XmlLib} `{XCrypto} {W : Type} `{!ScramEnv W} (peppers : Pepper.Keys).

(** The elements of a stream, one after the other. *)
Fixpoint process (es : list Element) : M (Scram * W) unit :=
  match es with
  | [] => mret tt
  | e :: es' => _ ← ProcessElement peppers e; process es'
  end.

(** The user was fetched under the name the client gave. *)
Definition challenged (s : Scram) (ps : scramParameters) (v : User) : Prop :=
  params s = Some ps ∧ user s = Some v ∧
  ∃ w1 w2, rep_FetchUser (getParameter ps "n") w1 = (Ok (Some v), w2).

(** The element carries a proof that passes the check of RFC 5802: the proof and
    the signature of the exchange give a key whose hash is the stored key. *)
Definition proves (s : Scram) (ps : scramParameters) (v : User) (e : Element) : Prop :=
  ∃ pass proof w0, getScramPassword (tp s) v = Some pass ∧
    getElementPayload e = inr (bare_of s ps w0 +:+ ",p=" +:+ EncodeToString proof) ∧
    hash_sum (hashOf (tp s))
      (xor_bytes proof (clientSignature (hashOf (tp s)) pass (message_of s ps w0))) =
    storedKey (hashOf (tp s)) pass.

Definition SInv (es : list Element) (s : Scram) : Prop :=
  (state s = challengedScramState → ∃ ps v, challenged s ps v) ∧
  (authenticated s = true → state s = challengedScramState ∧
     ∃ ps v e, challenged s ps v ∧ e ∈ es ∧ Name e = "response" ∧ proves s ps v e).

Lemma proof_recovers h pass msg : good_hash h →
  hash_sum h (xor_bytes (clientProof h pass msg) (clientSignature h pass msg)) = storedKey h pass.
Proof.
  intros Hh. unfold clientProof, storedKey. rewrite xor_bytes_twice; [done|].
  unfold clientKey, clientSignature. by rewrite !hmac_length.
Qed.

(** What [handleStart] leaves. *)
Lemma handleStart_inv e s w r s' w' : handleStart peppers e (s, w) = (Ok r, (s', w')) →
  tp s' = tp s ∧ usesCb s' = usesCb s ∧ authenticated s' = authenticated s ∧
  (state s' = state s ∨ ∃ ps v, challenged s' ps v).
Proof.
  unfold handleStart. destruct (getElementPayload e) as [err|p]; [by intros [= <- <- <-]; auto|].
  intros Hr. inv_bind Hr as r0 [s0 w0] Hpp. unfold parseParameters in Hpp.
  inv_bind Hpp as cb sw1 Hcb. injection Hcb as <- <-.
  destruct (parseParts (usesCb s) (Split "," p)) as [err|ps].
  { injection Hpp as <- <- <-. injection Hr as <- <- <-. auto. }
  inv_bind Hpp as [] sw2 Hs. injection Hs as <-. injection Hpp as <- <- <-.
  inv_bind Hr as op sw3 Hop. injection Hop as <- <-. simpl in Hr.
  inv_bind Hr as ps0 sw4 Hps0. injection Hps0 as <- <-.
  destruct (_ || _); [injection Hr as <- <- <-; auto|].
  inv_bind Hr as r1 [s5 w5] Hf. unfold try, onW in Hf. simpl in Hf.
  destruct (rep_FetchUser _ w) as [[[v|]|err|c] w6] eqn:Hfetch; simplify_eq.
  - inv_bind Hr as [] sw7 Hu. injection Hu as <-.
    destruct (RawURLDecode _) as [salt|]; [|injection Hr as <- <- <-; auto].
    inv_bind Hr as id [s8 w8] Hid. unfold onW in Hid.
    destruct (uuid_New w5) as [[id'|err|c] w9]; simplify_eq.
    inv_bind Hr as [] sw10 Hc. injection Hc as <-. injection Hr as <- <- <-.
    split; [done|]. split; [done|]. split; [done|]. right. exists ps, v. split; [done|]. split; [done|].
    by eexists w, w5.
  - injection Hr as <- <- <-. auto.
  - injection Hr as <- <- <-. auto.
Qed.

Lemma handleChallenged_inv e s w r s' w' ps v : params s = Some ps → user s = Some v →
  handleChallenged e (s, w) = (Ok r, (s', w')) →
  s' = s ∨ s' = set_authenticated true s ∧ proves s ps v e.
Proof.
  intros Hps Hu Hr. destruct (getElementPayload e) as [err|p] eqn:Hp.
  { unfold handleChallenged in Hr. rewrite Hp in Hr. injection Hr as <- <- <-. by left. }
  destruct (getScramPassword (tp s) v) as [pass|] eqn:Hpass.
  - rewrite (handleChallenged_eq e s w p ps v pass) in Hr by done.
    destruct (String.eqb_spec (bare_of s ps w +:+ ",p=" +:+
       EncodeToString (clientProof (hashOf (tp s)) pass (message_of s ps w))) p) as [Heq|Hne];
      injection Hr as <- <- <-; [|by left].
    right. split; [done|]. exists pass, (clientProof (hashOf (tp s)) pass (message_of s ps w)), w.
    split; [done|]. split; [by rewrite Hp, Heq|]. apply proof_recovers, hashOf_good.
  - unfold handleChallenged in Hr. rewrite Hp in Hr.
    rewrite (bind_Ok _ _ _ s (s, w)) in Hr by done. rewrite Hps in Hr.
    rewrite (bind_Ok _ _ _ ps (s, w)) in Hr by done.
    rewrite (bind_Ok _ _ _ (cbindInput (usesCb s) ps w) (s, w)) in Hr by done. rewrite Hu in Hr.
    rewrite (bind_Ok _ _ _ v (s, w)) in Hr by done. rewrite Hpass in Hr. injection Hr as <- <- <-. by left.
Qed.


Lemma process_step es e s w r s' w' : SInv es s →
  ProcessElement peppers e (s, w) = (Ok r, (s', w')) → SInv (es ++ [e]) s'.
Proof.
  intros [Hc Ha] Hr.
  assert (SInv (es ++ [e]) s) as Hkeep.
  { split; [done|]. intros Hau. destruct (Ha Hau) as (Hst & ps & v & e' & ? & He & ?).
    split; [done|]. exists ps, v, e'. set_solver. }
  unfold ProcessElement in Hr. rewrite (bind_Ok _ _ _ (state s) (s, w)) in Hr by done.
  destruct (String.eqb (Name e) "auth" && _) eqn:E1.
  - apply andb_true_iff in E1 as [_ Est]. apply bool_decide_eq_true in Est.
    pose proof (handleStart_inv _ _ _ _ _ _ Hr) as (_ & _ & Eau & Hst). split.
    + intros Hs'. destruct Hst as [Hst|Hst]; [congruence|exact Hst].
    + rewrite Eau. intros Hau. destruct (Ha Hau) as [Hst' _]. congruence.
  - destruct (String.eqb_spec (Name e) "response") as [En|_]; [|injection Hr as <- <- <-; exact Hkeep].
    simpl in Hr. case_bool_decide as Est; [|injection Hr as <- <- <-; exact Hkeep].
    destruct (Hc Est) as (ps & v & Hch). pose proof Hch as (Hps & Hu & Hfetch).
    destruct (handleChallenged_inv _ _ _ _ _ _ _ _ Hps Hu Hr) as [->|[-> Hpr]]; [exact Hkeep|].
    split; [intros _; by exists ps, v|]. intros _. split; [done|]. exists ps, v, e.
    split; [done|]. split; [set_solver|]. done.
Qed.

(** C7: Nothing but a proof of the stored password authenticates: when a SCRAM
    authenticator is authenticated, whatever elements it was given in whatever
    order, one of them was a response with a proof for the nonce this
    authenticator issued, that passes the check of RFC 5802 against the stored
    key of the user; and that user, whose name is reported, is the one fetched
    under the name the client gave. *)
Theorem scram_sound (t : ScramType) (cb : bool) (es : list Element) (w w' : W) (s : Scram)
    (Hrun : process es (NewScram t cb, w) = (Ok tt, (s, w'))) (Hauth : Authenticated s = true) :
  ∃ ps v e, challenged s ps v ∧ e ∈ es ∧ Name e = "response" ∧ proves s ps v e ∧
    ScramUsername s = Ok (Username v).
Proof.
  assert (∀ es es0 s0 w0, SInv es0 s0 → process es (s0, w0) = (Ok tt, (s, w')) → SInv (es0 ++ es) s) as Hind.
  { clear. induction es as [|e es IH]; intros es0 s0 w0 Hi Hr; simpl in Hr.
    - injection Hr as <- <-. by rewrite app_nil_r.
    - inv_bind Hr as r [s1 w1] Hstep. rewrite (cons_middle e es0 es), app_assoc.
      eapply IH; [|exact Hr]. by eapply process_step. }
  destruct (Hind es [] (NewScram t cb) w) as [_ Ha]; [by split|done|].
  destruct (Ha Hauth) as (_ & ps & v & e & Hch & He & Hn & Hp). exists ps, v, e.
  split; [done|]. split; [done|]. split; [done|]. split; [done|].
  unfold ScramUsername. unfold Authenticated in Hauth. rewrite Hauth. by destruct Hch as (_ & -> & _).
Qed.

End soundness.

(** ** PLAIN *)
Section plain.
Context `{XmlLib} {W : Type} `{!External.Client W}.

(** The initial response of RFC 4616. *)
Definition plain_message (authzid name pass : string) : list Z :=
  bytes_of_string authzid ++ [0%Z] ++ bytes_of_string name ++ [0%Z] ++ bytes_of_string pass.

(** A PLAIN client is authenticated under its name exactly when the external
    service accepts its name and password, which are the ones it is asked for. *)
Theorem plain_asks_service (elem : Element) (authzid name pass : string) (e : External.External) (w : W)
    (Htext : Text elem = EncodeToString (plain_message authzid name pass))
    (Hz : Forall (fun s => 0%Z ∉ bytes_of_string s) [authzid; name; pass]) :
  External.ProcessElement elem (e, w) =
  match External.cl_Authenticate name pass w with
  | (Ok true, w') => (Ok (inr (Build "success" [(Namespace, saslNamespace)] [] "")),
                      (External.MkExternal name true, w'))
  | (Ok false, w') => (Ok (inl NotAuthorized), (e, w'))
  | (Err _, w') => (Ok (inl TemporaryAuthFailure), (e, w'))
  | (Crash c, w') => (Crash c, (e, w'))
  end.
Proof.
  inversion Hz as [|? ? Hz1 Hz']; subst. inversion Hz' as [|? ? Hz2 Hz'']; subst.
  inversion Hz'' as [|? ? Hz3 _]; subst.
  assert (Forall byte_ok (plain_message authzid name pass)) as Hok.
  { unfold plain_message. rewrite !Forall_app, !Forall_singleton. unfold byte_ok.
    pose proof bytes_of_string_ok. repeat split; try done; lia. }
  unfold External.ProcessElement. rewrite Htext.
  assert (EncodeToString (plain_message authzid name pass) ≠ "") as Hne.
  { intros Hx. pose proof (base64_roundtrip _ Hok) as Hr. rewrite Hx in Hr. injection Hr as Hr.
    unfold plain_message in Hr. by destruct (bytes_of_string authzid). }
  rewrite (proj2 (String.eqb_neq _ _) Hne), base64_roundtrip by done.
  unfold plain_message. cbn [app]. rewrite split_app, split_two by done.
  rewrite !string_bytes_roundtrip. unfold mbind, M_bind, try, onW. simpl.
  by destruct (External.cl_Authenticate name pass w) as [[[]|err|c] w'].
Qed.

End plain.

(** ** A concrete environment

    One account, [romeo]; [tls] gives the channel-binding data. *)
Module ScramDemo.
Import TreeLib.

Import CryptoDemo.

Definition peppers : Pepper.Keys := Pepper.MkKeys {["v1" := "6ZavKvaLqSFGM5zDnFq7WWih"]} "v1".
Definition salt : list Z := [34; 165; 29; 201]%Z.
Definition account : User := Service.newUser peppers "romeo" "1234" salt.

Definition env (tls : cbMech → list Z) : ScramEnv unit := {|
  rep_FetchUser := fun n => mret (if String.eqb n "romeo" then Some account else None);
  tr_ChannelBindingBytes := fun m _ => tls m;
  uuid_New := mret "3rfcNHYJY1ZVvWVs7j" |}.

Definition romeo (flag : string) (cb : list Z) (pass : string) : client :=
  MkClient flag "" cb "romeo" "fyko+d2lbbFgONRv9qkxdawL" pass sha1.

Abbreviation logged tls c cb := (@login tree_jid tree_xml crypto unit (env tls) peppers c
  (NewScram ScramSHA1 cb, tt)).

Lemma field_ok_romeo flag cb pass : field_ok (c_name (romeo flag cb pass)) ∧ field_ok (c_nonce (romeo flag cb pass)).
Proof. by repeat split. Qed.
Lemma salt_ok : Forall byte_ok salt.
Proof. by repeat constructor. Qed.

Lemma scram_login_witness :
  let tls := fun _ : cbMech => [1; 2; 3]%Z in
  match logged tls (romeo "p=tls-unique" [1; 2; 3]%Z "1234") true with
  | (Ok r, (s, w')) => r = inr true ∧ Authenticated s = true ∧ ScramUsername s = Ok "romeo" ∧ w' = tt
  | _ => False
  end.
Proof.
  intros tls.
  apply (@scram_login tree_jid tree_xml crypto unit (env tls) peppers account "3rfcNHYJY1ZVvWVs7j" tt tt tt
    eq_refl (romeo "p=tls-unique" [1; 2; 3]%Z "1234") ScramSHA1 true "tls-unique" salt);
    [|by left|apply field_ok_romeo|apply field_ok_romeo|apply salt_ok|reflexivity..].
  split; [reflexivity|]. right. right. done.
Defined.

(** The two elements of the same exchange. *)
Definition exchange : list tree :=
  let c := romeo "n" [] "1234" in
  [@sasl_elem _ tree_xml "auth" (client_first c);
   @sasl_elem _ tree_xml "response" (default "" (fst <$> client_final c
     (challenge_text "fyko+d2lbbFgONRv9qkxdawL-3rfcNHYJY1ZVvWVs7j"
        (salt ++ bytes_of_string "6ZavKvaLqSFGM5zDnFq7WWih") 15000)))].
Abbreviation exchanged := (@process tree_jid tree_xml crypto unit (env (fun _ => [])) peppers exchange
  (NewScram ScramSHA1 false, tt)).

Lemma scram_sound_witness : ∃ ps v e,
  @challenged unit (env (fun _ => [])) exchanged.2.1 ps v ∧ e ∈ exchange ∧ t_name e = "response" ∧
  @proves tree_jid tree_xml crypto unit (env (fun _ => [])) exchanged.2.1 ps v e ∧
  ScramUsername exchanged.2.1 = Ok (Username v).
Proof.
  apply (@scram_sound tree_jid tree_xml crypto unit (env (fun _ => [])) peppers ScramSHA1 false exchange
    tt exchanged.2.2 exchanged.2.1); [apply fst_Ok_pair; vm_compute; reflexivity|vm_compute; reflexivity].
Defined.

(** An external service that knows one password. *)
Definition service : External.Client unit := {|
  External.cl_Authenticate := fun n p => mret (String.eqb n "romeo" && String.eqb p "1234") |}.
Definition plain_elem : tree :=
  TNode "auth" [("mechanism", "PLAIN")] [] (EncodeToString (plain_message "" "romeo" "1234")) None.

Lemma plain_asks_service_witness :
  @External.ProcessElement tree_jid tree_xml unit service plain_elem (External.NewExternal, tt) =
  (Ok (inr (TNode "success" [("xmlns", saslNamespace)] [] "" None)), (External.MkExternal "romeo" true, tt)).
Proof.
  apply (@plain_asks_service tree_jid tree_xml unit service plain_elem "" "romeo" "1234" External.NewExternal tt);
    [reflexivity|].
  repeat constructor; intros Hin; repeat (apply elem_of_cons in Hin as [Hin|Hin]; [discriminate Hin|]);
    by apply not_elem_of_nil in Hin.
Defined.

End ScramDemo.

(** The [-PLUS] mechanisms do not require channel binding: a client that sends the
    flag [n], as one does that knows of no channel binding, logs in although the
    mechanism was chosen because of it, whatever the channel is. *)
Theorem plus_without_channel_binding (tls : cbMech → list Z) :
  Mechanism (NewScram ScramSHA1 true) = "SCRAM-SHA-1-PLUS" ∧
  (ScramDemo.logged tls (ScramDemo.romeo "n" [] "1234") true).1 = Ok (inr true).
Proof. split; [reflexivity|]. vm_compute. reflexivity. Qed.
