(* ===== verification/ResourceManager.v ===== *)
(** * Resources of the cluster

    The resource manager (src/pkg/cluster/resourcemanager/kvmanager.go): every
    instance writes the resources of its own clients to the shared key-value
    store and keeps the resources of all instances in memory, which it takes from
    the store once and from the changes it watches afterwards.

    Operations take the identifier of the local instance ([instance.ID]) as a
    parameter, so that several instances can be put on one store.  The order in
    which Go ranges over a map is a list given by the caller. *)

From stdpp Require Import base list strings gmap.
From Stdlib Require Import ZArith Lia Ascii.
From S2P Require Import Prelude GoLib GoStrings GoHoare Stravaganza Dialback C2SModel.

(** ** What the manager uses of protobuf *)

(** [resourcemanagerpb.ResourceInfo] and the encoding of messages; [PB] is
    [stravaganza.PBElement], [ToProto] and [PresenceFromProto] are [Proto()] and
    [NewBuilderFromProto(_).BuildPresence()]. *)
Record ResourceInfo (PB : Type) := MkResourceInfo {
  ri_InstanceId : string;
  ri_Domain : string;
  ri_Info : gmap string string;
  ri_Presence : option PB;
}.
Arguments MkResourceInfo {_}.
Arguments ri_InstanceId {_}. Arguments ri_Domain {_}. Arguments ri_Info {_}. Arguments ri_Presence {_}.

Class ProtoLib `{XmlLib} := {
  PB : Type;
  ToProto : Element → PB;
  PresenceFromProto : PB → goerror + Element;
  Marshal : ResourceInfo PB → goerror + string;
  Unmarshal : string → goerror + ResourceInfo PB;
}.

(** The documented facts: a message is read back as it was written, and so is a
    presence; [jid.New] without validation takes the parts as they are. *)
Class ProtoLibOk `{ProtoLib} : Prop := {
  Unmarshal_Marshal : ∀ i b, Marshal i = inr b → Unmarshal b = inr i;
  PresenceFromProto_ToProto : ∀ p, Kind p = Some KPresence → PresenceFromProto (ToProto p) = inr p;
  NewJID_parts : ∀ j, Domain j ≠ "" → NewJID (Node j) (Domain j) (Resource j) true = Some j;
}.

(** ** Events of the store ([kvtypes]) *)
Inductive WatchEventType := WPut | WDel.
Record WatchEvent := MkEvent { ev_Type : WatchEventType; ev_Key : string; ev_Val : string }.

(** [kvResources.store], the resources by user name, and [kvManager.instRes], by
    instance *)
Abbreviation kvResources := (gmap string (list ResourceDesc)).
Abbreviation kvManager := (gmap string kvResources).

Section manager.
Context `{ProtoLib}.

(** ** The resources of one instance *)

Definition is_resource (resource : string) (res : ResourceDesc) : bool :=
  String.eqb (Resource (ResJID res)) resource.

(** [get] and [getAll] *)
Definition kvr_get (username resource : string) (r : kvResources) : option ResourceDesc :=
  List.find (is_resource resource) (default [] (r !! username)).
Definition kvr_getAll (username : string) (r : kvResources) : list ResourceDesc :=
  default [] (r !! username).

(** The loop of [put]: the first entry with the resource is replaced. *)
Fixpoint put_first (res : ResourceDesc) (rss : list ResourceDesc) : list ResourceDesc :=
  match rss with
  | [] => [res]
  | x :: rss' => if is_resource (Resource (ResJID res)) x then res :: rss' else x :: put_first res rss'
  end.
Definition kvr_put (res : ResourceDesc) (r : kvResources) : kvResources :=
  let username := Node (ResJID res) in
  <[username := put_first res (default [] (r !! username))]> r.

(** The loop of [del]: the first entry with the resource is cut out. *)
Fixpoint del_first (resource : string) (rss : list ResourceDesc) : option (list ResourceDesc) :=
  match rss with
  | [] => None
  | x :: rss' => if is_resource resource x then Some rss' else (cons x) <$> del_first resource rss'
  end.
Definition kvr_del (username resource : string) (r : kvResources) : kvResources :=
  match del_first resource (default [] (r !! username)) with
  | None => r
  | Some [] => delete username r
  | Some rss => <[username := rss]> r
  end.

(** ** The manager *)
Definition NewKVManager : kvManager := ∅.

Definition inMemPut (res : ResourceDesc) (m : kvManager) : kvManager :=
  <[InstanceID res := kvr_put res (default ∅ (m !! InstanceID res))]> m.

Definition inMemDel (username resource instanceID : string) (m : kvManager) : kvManager :=
  match m !! instanceID with
  | Some kvr => <[instanceID := kvr_del username resource kvr]> m
  | None => m
  end.

(** [GetResource] and [GetResources]; [order] is the map in the order of the
    [range] loop. *)
Definition GetResource (order : list (string * kvResources)) (username resource : string)
    : option ResourceDesc :=
  foldr (fun '(_, kvr) rest =>
    match kvr_get username resource kvr with Some res => Some res | None => rest end) None order.
Definition GetResources (order : list (string * kvResources)) (username : string)
    : list ResourceDesc :=
  flat_map (fun '(_, kvr) => kvr_getAll username kvr) order.

(** [onMemberListUpdated]: the resources of instances that left are dropped. *)
Definition onMemberListUpdated (UnregisteredKeys : list string) (m : kvManager) : kvManager :=
  foldl (fun m instanceID => delete instanceID m) m UnregisteredKeys.

(** ** Keys and values *)
Definition resourceKeyPrefix : string := "r://".

Definition resourceKey (id username resource : string) : string :=
  resourceKeyPrefix +:+ username +:+ "@" +:+ resource +:+ "/" +:+ id.

Definition isLocalKey (id rKey : string) : bool := HasSuffix rKey ("/" +:+ id).

Definition errInvalidKey (rKey : string) : goerror := ErrText ("invalid kv resource key: " +:+ rKey).

Definition extractKeyInfo (rKey : string) : goerror + (string * string * string) :=
  match Split "@" (TrimPrefix rKey resourceKeyPrefix) with
  | [username; rest] =>
    match Split "/" rest with
    | [resource; instanceID] => inr (username, resource, instanceID)
    | _ => inl (errInvalidKey rKey)
    end
  | _ => inl (errInvalidKey rKey)
  end.

Definition resourceVal (res : ResourceDesc) : goerror + string :=
  Marshal (MkResourceInfo (InstanceID res) (Domain (ResJID res)) (Info.Map (ResInfo res))
    (ToProto <$> ResPresence res)).

(** [decodeResource]; the error of [jid.New] is dropped, and the nil JID of a
    failed call is dereferenced by the first use of the resource. *)
Definition errInvalidKeyFn (rKey : string) : goerror :=
  ErrText ("invalid resource key format: " +:+ rKey).

Definition decodeResource (key val : string) : outcome ResourceDesc :=
  match Split "@" (TrimPrefix key resourceKeyPrefix) with
  | [username; rest] =>
    match Unmarshal val with
    | inl e => Err e
    | inr resInf =>
      match Split "/" rest with
      | [resource; _] =>
        let jd := NewJID username (ri_Domain resInf) resource true in
        let inf := Info.NewInfoMapFromMap (ri_Info resInf) in
        let build pr :=
          match jd with
          | Some jd => Ok (NewResourceDesc (ri_InstanceId resInf) jd pr inf)
          | None => Crash NilDeref
          end in
        match ri_Presence resInf with
        | None => build None
        | Some p =>
          match PresenceFromProto p with
          | inl e => Err e
          | inr pr => build (Some pr)
          end
        end
      | _ => Err (errInvalidKeyFn key)
      end
    end
  | _ => Err (errInvalidKeyFn key)
  end.

(** [decodeKVResources] *)
Fixpoint decodeKVResources (kvs : list (string * string)) : outcome (list ResourceDesc) :=
  match kvs with
  | [] => Ok []
  | (k, v) :: kvs' =>
    match decodeResource k v with
    | Ok res => match decodeKVResources kvs' with Ok rs => Ok (res :: rs) | r => r end
    | Err e => Err e
    | Crash c => Crash c
    end
  end.

(** [processKVEvents] *)
Fixpoint processKVEvents (id : string) (kvEvents : list WatchEvent) : M kvManager unit :=
  match kvEvents with
  | [] => mret tt
  | ev :: kvEvents' =>
    (if isLocalKey id (ev_Key ev) then mret tt
     else match ev_Type ev with
     | WPut =>
       res ← (fun m => (decodeResource (ev_Key ev) (ev_Val ev), m));
       modify (inMemPut res)
     | WDel =>
       match extractKeyInfo (ev_Key ev) with
       | inl e => fail e
       | inr (username, resource, instanceID) => modify (inMemDel username resource instanceID)
       end
     end);;
    processKVEvents id kvEvents'
  end.

(** ** Operations that use the store *)
Context {W : Type} `{!KV W} (kv_GetPrefix : string → M W (list (string * string))).

Definition PutResource (id : string) (res : ResourceDesc) : M (kvManager * W) unit :=
  match resourceVal res with
  | inl e => fail e
  | inr b =>
    onW (kv_Put (resourceKey id (Node (ResJID res)) (Resource (ResJID res))) b);;
    setf (inMemPut res)
  end.

Definition DelResource (id username resource : string) : M (kvManager * W) unit :=
  onW (kv_Del (resourceKey id username resource));;
  setf (inMemDel username resource id).

Definition getKVResources : M (kvManager * W) (list ResourceDesc) :=
  vs ← onW (kv_GetPrefix resourceKeyPrefix);
  pureO (decodeKVResources vs).

(** [watchKVResources] up to the signal that lets [Start] return; the events of
    the watch opened before are processed by [processKVEvents] afterwards, an
    error of which is logged. *)
Definition watchKVResources : M (kvManager * W) unit :=
  rss ← getKVResources;
  for_each rss (fun res => setf (inMemPut res)).

Definition onWatchResp (id : string) (err : option goerror) (events : list WatchEvent)
    : M kvManager unit :=
  match err with
  | Some _ => mret tt
  | None => ignore (processKVEvents id events)
  end.

End manager.

(** ** Lookup in memory *)
Section view.
Context `{ProtoLib}.

(** What the manager [m] holds for a user's resource on an instance. *)
Definition mget (m : kvManager) (instanceID username resource : string) : option ResourceDesc :=
  m !! instanceID ≫= kvr_get username resource.

(** No user has a resource twice on an instance. *)
Definition resource_of (res : ResourceDesc) : string := Resource (ResJID res).
Definition resources_wf (rss : list ResourceDesc) : Prop :=
  NoDup (resource_of <$> rss).
Definition kvr_wf (r : kvResources) : Prop := map_Forall (fun _ => resources_wf) r.
Definition mgr_wf (m : kvManager) : Prop := map_Forall (fun _ => kvr_wf) m.

Lemma is_resource_spec r res : is_resource r res = true ↔ Resource (ResJID res) = r.
Proof. apply String.eqb_eq. Qed.

Lemma find_put_first res rss r :
  List.find (is_resource r) (put_first res rss) =
    if String.eqb (Resource (ResJID res)) r then Some res else List.find (is_resource r) rss.
Proof.
  induction rss as [|x rss IH]; simpl; [done|].
  destruct (is_resource (Resource (ResJID res)) x) eqn:E; simpl; fold (is_resource r res);
    [|rewrite IH]; unfold is_resource in *; [apply String.eqb_eq in E; rewrite E; by case_match|].
  apply String.eqb_neq in E.
  destruct (String.eqb_spec (Resource (ResJID x)) r), (String.eqb_spec (Resource (ResJID res)) r); congruence.
Qed.

Lemma put_first_elem res rss x : x ∈ put_first res rss → x = res ∨ x ∈ rss.
Proof.
  induction rss as [|y rss IH]; simpl; [set_solver|]. case_match; set_solver.
Qed.

Lemma put_first_wf res rss : resources_wf rss → resources_wf (put_first res rss).
Proof.
  unfold resources_wf. induction rss as [|x rss IH]; simpl.
  - intros _. apply NoDup_singleton.
  - intros [Hx Hd]%NoDup_cons. destruct (is_resource _ x) eqn:E.
    + apply is_resource_spec in E. simpl. unfold resource_of at 1. rewrite <-E. by apply NoDup_cons.
    + simpl. apply NoDup_cons. split; [|by apply IH].
      intros (y & Ey & Hy)%list_elem_of_fmap. apply put_first_elem in Hy as [->|Hy].
      * unfold resource_of in Ey. assert (is_resource (Resource (ResJID res)) x = true) by (by apply is_resource_spec).
        congruence.
      * apply Hx. rewrite Ey. by apply (list_elem_of_fmap_2 resource_of).
Qed.

Lemma find_None_resource rss r :
  r ∉ (resource_of <$> rss) → List.find (is_resource r) rss = None.
Proof.
  induction rss as [|x rss IH]; simpl; [done|]. intros [Hx Hr]%not_elem_of_cons.
  assert (is_resource r x = false) as -> by (by apply String.eqb_neq). by apply IH.
Qed.

Lemma del_first_spec r rss : resources_wf rss →
  match del_first r rss with
  | None => List.find (is_resource r) rss = None
  | Some rss' => resources_wf rss' ∧ rss' ⊆ rss ∧ List.find (is_resource r) rss' = None ∧
      ∀ r', r' ≠ r → List.find (is_resource r') rss' = List.find (is_resource r') rss
  end.
Proof.
  unfold resources_wf. induction rss as [|x rss IH]; simpl; [done|].
  intros [Hx Hd]%NoDup_cons. destruct (is_resource r x) eqn:E.
  - apply is_resource_spec in E. subst r. split; [done|]. split; [set_solver|].
    split; [by apply find_None_resource|]. intros r' Hr.
    assert (is_resource r' x = false) as -> by (apply String.eqb_neq; congruence). done.
  - specialize (IH Hd). destruct (del_first r rss) as [rss'|]; simpl; [|by rewrite IH].
    destruct IH as (Hd' & Hsub & Hn & Hr). rewrite E, Hn. split.
    + apply NoDup_cons. split; [|done]. intros (y & Ey & Hy)%list_elem_of_fmap.
      apply Hx. rewrite Ey. apply (list_elem_of_fmap_2 resource_of). by apply Hsub.
    + split; [set_solver|]. split; [done|]. intros r' Hne. by rewrite Hr.
Qed.

Lemma default_wf (r : kvResources) u : kvr_wf r → resources_wf (default [] (r !! u)).
Proof. intros Hr. destruct (r !! u) eqn:E; simpl; [by apply (Hr u)|apply NoDup_nil_2]. Qed.

Lemma kvr_put_wf res r : kvr_wf r → kvr_wf (kvr_put res r).
Proof. intros Hr. apply (map_Forall_insert_2 (M:=gmap string)); [by apply put_first_wf, default_wf|done]. Qed.

Lemma kvr_get_put res r u rs :
  kvr_get u rs (kvr_put res r) =
    if String.eqb (Node (ResJID res)) u && String.eqb (Resource (ResJID res)) rs then Some res
    else kvr_get u rs r.
Proof.
  unfold kvr_get, kvr_put. destruct (String.eqb_spec (Node (ResJID res)) u) as [<-|Hne].
  - rewrite lookup_insert_eq. simpl. by rewrite find_put_first.
  - by rewrite lookup_insert_ne.
Qed.

Lemma kvr_del_spec u rs r : kvr_wf r →
  kvr_wf (kvr_del u rs r) ∧ ∀ u' rs', kvr_get u' rs' (kvr_del u rs r) =
    if String.eqb u u' && String.eqb rs rs' then None else kvr_get u' rs' r.
Proof.
  intros Hr. pose proof (del_first_spec rs _ (default_wf r u Hr)) as Hd.
  unfold kvr_del, kvr_get in *. destruct (del_first rs _) as [rss'|] eqn:E.
  2:{ split; [done|]. intros u' rs'. destruct (String.eqb_spec u u') as [<-|]; [|done].
      by destruct (String.eqb_spec rs rs') as [<-|]. }
  destruct Hd as (Hwf & _ & Hn & Ho).
  assert (∀ rs', List.find (is_resource rs') rss' =
    if String.eqb rs rs' then None else List.find (is_resource rs') (default [] (r !! u))) as Hf.
  { intros rs'. destruct (String.eqb_spec rs rs') as [<-|Hne]; [done|by apply Ho]. }
  destruct rss' as [|x rss']; split.
  - by apply (map_Forall_delete (M:=gmap string)).
  - intros u' rs'. destruct (String.eqb_spec u u') as [<-|Hne]; simpl.
    + rewrite lookup_delete_eq. exact (Hf rs').
    + by rewrite lookup_delete_ne.
  - by apply (map_Forall_insert_2 (M:=gmap string)).
  - intros u' rs'. destruct (String.eqb_spec u u') as [<-|Hne].
    + rewrite lookup_insert_eq. exact (Hf rs').
    + by rewrite lookup_insert_ne.
Qed.

Lemma empty_kvr_wf : kvr_wf ∅.
Proof. apply (map_Forall_empty (M:=gmap string)). Qed.

Lemma inMemPut_wf res m : mgr_wf m → mgr_wf (inMemPut res m).
Proof.
  intros Hm. apply (map_Forall_insert_2 (M:=gmap string)); [|done]. apply kvr_put_wf.
  destruct (m !! InstanceID res) eqn:E; simpl; [by apply (Hm _ _ E)|apply empty_kvr_wf].
Qed.

Lemma mget_inMemPut res m j u r :
  mget (inMemPut res m) j u r =
    if String.eqb (InstanceID res) j && String.eqb (Node (ResJID res)) u &&
       String.eqb (Resource (ResJID res)) r
    then Some res else mget m j u r.
Proof.
  unfold mget, inMemPut. destruct (String.eqb_spec (InstanceID res) j) as [<-|Hne].
  - rewrite lookup_insert_eq. simpl. rewrite kvr_get_put. case_match; [done|].
    by destruct (m !! InstanceID res).
  - by rewrite lookup_insert_ne.
Qed.

Lemma inMemDel_wf u r j m : mgr_wf m → mgr_wf (inMemDel u r j m).
Proof.
  intros Hm. unfold inMemDel. destruct (m !! j) as [kvr|] eqn:E; [|done].
  apply (map_Forall_insert_2 (M:=gmap string)); [|done]. apply kvr_del_spec. by apply (Hm j).
Qed.

Lemma mget_inMemDel u r i m j u' r' : mgr_wf m →
  mget (inMemDel u r i m) j u' r' =
    if String.eqb i j && String.eqb u u' && String.eqb r r' then None else mget m j u' r'.
Proof.
  intros Hm. unfold mget, inMemDel. destruct (m !! i) as [kvr|] eqn:E.
  - destruct (String.eqb_spec i j) as [<-|Hne].
    + rewrite lookup_insert_eq, E. simpl. by apply kvr_del_spec, (Hm i).
    + by rewrite lookup_insert_ne.
  - destruct (String.eqb_spec i j) as [<-|Hne]; [rewrite E; by case_match|done].
Qed.

Lemma onMemberListUpdated_spec js m : mgr_wf m →
  mgr_wf (onMemberListUpdated js m) ∧
  ∀ j u r, mget (onMemberListUpdated js m) j u r = if bool_decide (j ∈ js) then None else mget m j u r.
Proof.
  revert m. induction js as [|i js IH]; intros m Hm; simpl; [done|].
  destruct (IH (delete i m)) as [Hw Hg]; [by apply (map_Forall_delete (M:=gmap string))|].
  split; [done|]. intros j u r. rewrite Hg. unfold mget.
  destruct (decide (j = i)) as [->|Hne].
  - rewrite lookup_delete_eq. rewrite (bool_decide_true (i ∈ i :: js)) by set_solver. by case_match.
  - rewrite lookup_delete_ne by done. repeat case_bool_decide; set_solver.
Qed.

(** [GetResource] finds a resource exactly when some instance has it. *)
Lemma GetResource_spec (order : list (string * kvResources)) m u r :
  order ≡ₚ map_to_list m →
  match GetResource order u r with
  | Some res => ∃ j, mget m j u r = Some res
  | None => ∀ j, mget m j u r = None
  end.
Proof.
  intros Hp. assert (∀ j kvr, (j, kvr) ∈ order ↔ m !! j = Some kvr) as Hin.
  { intros j kvr. rewrite Hp. apply elem_of_map_to_list. }
  clear Hp. assert (match GetResource order u r with
    | Some res => ∃ j kvr, (j, kvr) ∈ order ∧ kvr_get u r kvr = Some res
    | None => ∀ j kvr, (j, kvr) ∈ order → kvr_get u r kvr = None end) as Hs.
  { clear Hin. induction order as [|[j kvr] order IH]; simpl; [set_solver|].
    destruct (kvr_get u r kvr) as [res|] eqn:E.
    - exists j, kvr. split; [set_solver|done].
    - destruct (GetResource order u r) as [res|].
      + destruct IH as (i & k & Hi & Hk). exists i, k. split; [set_solver|done].
      + intros i k [[= -> ->]|Hi]%elem_of_cons; [done|by apply (IH i)]. }
  destruct (GetResource order u r) as [res|].
  - destruct Hs as (j & kvr & Hj%Hin & Hg). exists j. unfold mget. by rewrite Hj.
  - intros j. unfold mget. destruct (m !! j) as [kvr|] eqn:E; [|done]. apply (Hs j). by apply Hin.
Qed.

End view.

(** ** Keys *)

(** Names that the key format can hold: no separator in them. *)
Definition plain (s : string) : bool := no_char "@" s && no_char "/" s.

Section keys.
Context `{ProtoLib}.

Lemma key_split id u r : plain u = true → plain r = true → plain id = true →
  Split "@" (TrimPrefix (resourceKey id u r) resourceKeyPrefix) = [u; r +:+ "/" +:+ id] ∧
  Split "/" (r +:+ "/" +:+ id) = [r; id].
Proof.
  intros [Hu _]%andb_true_iff [Hr Hr']%andb_true_iff [Hi Hi']%andb_true_iff.
  unfold resourceKey. rewrite TrimPrefix_app.
  change ("@" +:+ r +:+ "/" +:+ id) with (String "@" (r +:+ String "/" id)).
  change ("/" +:+ id) with (String "/" id). split.
  - rewrite Split_app by done. rewrite Split_none; [done|]. rewrite no_char_app, Hr. simpl. done.
  - rewrite Split_app by done. by rewrite Split_none.
Qed.

Lemma extractKeyInfo_key id u r : plain u = true → plain r = true → plain id = true →
  extractKeyInfo (resourceKey id u r) = inr (u, r, id).
Proof.
  intros Hu Hr Hi. unfold extractKeyInfo. destruct (key_split id u r Hu Hr Hi) as [-> ->]. done.
Qed.

Lemma resourceKey_inj id u r id' u' r' :
  plain u = true → plain r = true → plain id = true →
  plain u' = true → plain r' = true → plain id' = true →
  resourceKey id u r = resourceKey id' u' r' → (id, u, r) = (id', u', r').
Proof.
  intros Hu Hr Hi Hu' Hr' Hi' E. apply (f_equal extractKeyInfo) in E.
  rewrite !extractKeyInfo_key in E by done. congruence.
Qed.

Lemma isLocalKey_key me id u r : plain me = true → plain id = true →
  isLocalKey me (resourceKey id u r) = String.eqb id me.
Proof.
  intros [_ Hm]%andb_true_iff [_ Hi]%andb_true_iff. unfold isLocalKey, resourceKey.
  rewrite !string_app_assoc. change ("/" +:+ me) with (String "/" me).
  set (p := _ +:+ r). rewrite <-string_app_assoc. change ("/" +:+ id) with (String "/" id).
  by apply HasSuffix_last.
Qed.

(** A resource that instance [id] may register. *)
Definition res_ok (id : string) (res : ResourceDesc) : Prop :=
  InstanceID res = id ∧ plain (Node (ResJID res)) = true ∧ plain (Resource (ResJID res)) = true ∧
  Domain (ResJID res) ≠ "" ∧ ∀ p, ResPresence res = Some p → Kind p = Some KPresence.

Lemma decode_val `{!ProtoLibOk} id res v : plain id = true → res_ok id res → resourceVal res = inr v →
  decodeResource (resourceKey id (Node (ResJID res)) (Resource (ResJID res))) v = Ok res.
Proof.
  intros Hid (Ei & Hn & Hr & Hd & Hp) Hv. unfold decodeResource.
  destruct (key_split id _ _ Hn Hr Hid) as [-> ->].
  apply Unmarshal_Marshal in Hv. rewrite Hv. simpl. rewrite NewJID_parts by done.
  destruct res as [i jd pr inf]. simpl in *. destruct pr as [p|]; simpl; [|done].
  by rewrite PresenceFromProto_ToProto by auto.
Qed.

End keys.

(** ** The store as a log of changes *)
Section store.
Context `{ProtoLib}.

Definition kv_apply (kv : gmap string string) (ev : WatchEvent) : gmap string string :=
  match ev_Type ev with
  | WPut => <[ev_Key ev := ev_Val ev]> kv
  | WDel => delete (ev_Key ev) kv
  end.
Definition content (kv : gmap string string) (log : list WatchEvent) : gmap string string :=
  foldl kv_apply kv log.

(** The last change of a key in a log. *)
Definition written (ev : WatchEvent) : option string :=
  match ev_Type ev with WPut => Some (ev_Val ev) | WDel => None end.
Fixpoint last_write (log : list WatchEvent) (k : string) : option (option string) :=
  match log with
  | [] => None
  | ev :: log' =>
    match last_write log' k with
    | Some v => Some v
    | None => if String.eqb (ev_Key ev) k then Some (written ev) else None
    end
  end.

Lemma kv_apply_lookup kv ev k :
  kv_apply kv ev !! k = if String.eqb (ev_Key ev) k then written ev else kv !! k.
Proof.
  unfold kv_apply, written. destruct (String.eqb_spec (ev_Key ev) k) as [<-|Hne].
  - destruct (ev_Type ev); [apply lookup_insert_eq|apply lookup_delete_eq].
  - destruct (ev_Type ev); [by apply lookup_insert_ne|by apply lookup_delete_ne].
Qed.

Lemma content_lookup log : ∀ kv k,
  content kv log !! k = match last_write log k with Some v => v | None => kv !! k end.
Proof.
  induction log as [|ev log IH]; intros kv k; simpl; [done|]. rewrite IH.
  destruct (last_write log k); [done|]. rewrite kv_apply_lookup. by case_match.
Qed.

Lemma last_write_app a b k : last_write (a ++ b) k =
  match last_write b k with Some v => Some v | None => last_write a k end.
Proof.
  induction a as [|ev a IH]; simpl; [by case_match|]. rewrite IH. by destruct (last_write b k).
Qed.

(** Changes that are seen a second time, in order and up to the end, do not
    matter: a snapshot that is newer than the start of the watch is repaired. *)
Lemma content_replay log n s : n ≤ s →
  content (content ∅ (take s log)) (drop n log) = content ∅ log.
Proof.
  intros Hn. apply map_eq. intros k. rewrite !content_lookup.
  rewrite <-(take_drop n log) at 2. rewrite last_write_app.
  destruct (last_write (drop n log) k) as [v|] eqn:E; [done|].
  replace s with (n + (s - n)) by lia. rewrite <-take_take_drop, last_write_app.
  destruct (last_write (take (s - n) (drop n log)) k) as [v|] eqn:E'; [|done].
  rewrite <-(take_drop (s - n) (drop n log)), last_write_app, E' in E. by case_match.
Qed.

(** What the store says about a resource. *)
Definition stored (kv : gmap string string) (id u r : string) : option ResourceDesc :=
  match kv !! resourceKey id u r with
  | Some v => match decodeResource (resourceKey id u r) v with Ok res => Some res | _ => None end
  | None => None
  end.

(** A change that instance [id] makes. *)
Definition ev_by (id : string) (ev : WatchEvent) : Prop :=
  plain id = true ∧ ∃ u r, plain u = true ∧ plain r = true ∧ ev_Key ev = resourceKey id u r ∧
  (ev_Type ev = WPut → ∃ res, res_ok id res ∧ Node (ResJID res) = u ∧ Resource (ResJID res) = r ∧
     resourceVal res = inr (ev_Val ev)).
Definition ev_ok (ev : WatchEvent) : Prop := ∃ id, ev_by id ev.

Definition same_key (id u r id' u' r' : string) : bool :=
  String.eqb id id' && String.eqb u u' && String.eqb r r'.

Lemma same_key_spec id u r id' u' r' : plain id = true → plain u = true → plain r = true →
  plain id' = true → plain u' = true → plain r' = true →
  String.eqb (resourceKey id u r) (resourceKey id' u' r') = same_key id u r id' u' r'.
Proof.
  intros. unfold same_key. destruct (String.eqb_spec (resourceKey id u r) (resourceKey id' u' r')) as [E|E].
  - apply resourceKey_inj in E as [= -> -> ->]; [|done..]. by rewrite !String.eqb_refl.
  - destruct (String.eqb_spec id id') as [->|], (String.eqb_spec u u') as [->|],
      (String.eqb_spec r r') as [->|]; done.
Qed.

Lemma stored_put `{!ProtoLibOk} id res v kv : plain id = true → res_ok id res → resourceVal res = inr v →
  ∀ j u r, plain j = true → plain u = true → plain r = true →
  stored (<[resourceKey id (Node (ResJID res)) (Resource (ResJID res)) := v]> kv) j u r =
    if same_key id (Node (ResJID res)) (Resource (ResJID res)) j u r then Some res else stored kv j u r.
Proof.
  intros Hid Hok Hv j u r Hj Hu Hr. pose proof Hok as (_ & Hn & Hs & _).
  rewrite <-same_key_spec by done. unfold stored.
  destruct (String.eqb_spec (resourceKey id (Node (ResJID res)) (Resource (ResJID res)))
    (resourceKey j u r)) as [<-|Hne].
  - rewrite lookup_insert_eq. by erewrite decode_val.
  - by rewrite lookup_insert_ne.
Qed.

Lemma stored_del id u r kv : plain id = true → plain u = true → plain r = true →
  ∀ j u' r', plain j = true → plain u' = true → plain r' = true →
  stored (delete (resourceKey id u r) kv) j u' r' =
    if same_key id u r j u' r' then None else stored kv j u' r'.
Proof.
  intros Hid Hu Hr j u' r' Hj Hu' Hr'. rewrite <-same_key_spec by done. unfold stored.
  destruct (String.eqb_spec (resourceKey id u r) (resourceKey j u' r')) as [<-|Hne].
  - by rewrite lookup_delete_eq.
  - by rewrite lookup_delete_ne.
Qed.

(** How one change shows in the store, and how an instance follows it. *)
Lemma stored_apply `{!ProtoLibOk} id ev kv : ev_by id ev →
  ∃ u r o,
    (∀ j u' r', plain j = true → plain u' = true → plain r' = true →
      stored (kv_apply kv ev) j u' r' = if same_key id u r j u' r' then o else stored kv j u' r') ∧
    ∀ me m, plain me = true → mgr_wf m → ∃ m', processKVEvents me [ev] m = (Ok tt, m') ∧ mgr_wf m' ∧
      ∀ j u' r', mget m' j u' r' =
        if negb (String.eqb id me) && same_key id u r j u' r' then o else mget m j u' r'.
Proof.
  intros (Hid & u & r & Hu & Hr & Ek & Hput). unfold kv_apply. rewrite Ek.
  destruct (ev_Type ev) eqn:Et.
  - destruct Hput as (res & Hok & <- & <- & Hv); [done|].
    exists (Node (ResJID res)), (Resource (ResJID res)), (Some res).
    split; [by apply stored_put|]. intros me m Hme Hm. simpl. rewrite Ek, isLocalKey_key by done.
    destruct (String.eqb_spec id me) as [->|Hne]; simpl; [by exists m|].
    rewrite Et. unfold mbind at 2, M_bind at 2. rewrite (decode_val id res) by done. simpl.
    exists (inMemPut res m). split; [done|]. split; [by apply inMemPut_wf|].
    intros j u' r'. rewrite mget_inMemPut. destruct Hok as (-> & _). done.
  - exists u, r, None. split; [by apply stored_del|]. intros me m Hme Hm. simpl.
    rewrite Ek, isLocalKey_key by done. destruct (String.eqb_spec id me) as [->|Hne]; simpl; [by exists m|].
    rewrite Et, extractKeyInfo_key by done. exists (inMemDel u r id m). split; [done|].
    split; [by apply inMemDel_wf|]. intros j u' r'. by rewrite mget_inMemDel.
Qed.

Lemma same_key_id id u r j u' r' : id ≠ j → same_key id u r j u' r' = false.
Proof. intros Hne. unfold same_key. by destruct (String.eqb_spec id j). Qed.

(** Changes of other instances leave what the store says about [me]. *)
Lemma stored_others `{!ProtoLibOk} me evs : plain me = true →
  Forall (fun ev => ∃ id, id ≠ me ∧ ev_by id ev) evs →
  ∀ kv u r, plain u = true → plain r = true → stored (content kv evs) me u r = stored kv me u r.
Proof.
  intros Hme. induction 1 as [|ev evs (id & Hne & Hev) _ IH]; intros kv u r Hu Hr; [done|].
  change (stored (content (kv_apply kv ev) evs) me u r = stored kv me u r). rewrite IH by done.
  destruct (stored_apply id ev kv Hev) as (u0 & r0 & o & Hst & _).
  rewrite Hst by done. by rewrite same_key_id.
Qed.

Lemma process_cons me ev evs m m1 : processKVEvents me [ev] m = (Ok tt, m1) →
  processKVEvents me (ev :: evs) m = processKVEvents me evs m1.
Proof.
  intros Hr. cbn [processKVEvents] in *. inv_bind Hr as x m2 H2. injection Hr as <-.
  destruct x. by rewrite (bind_Ok _ _ _ tt m2).
Qed.

(** What is known about instance [j]: all the store says, or part of it. *)
Definition follows (partly : bool) (m : kvManager) (kv : gmap string string) (j : string) : Prop :=
  ∀ u r, plain u = true → plain r = true →
    if partly then ∀ res, mget m j u r = Some res → stored kv j u r = Some res
    else mget m j u r = stored kv j u r.

Lemma process_follows `{!ProtoLibOk} me evs : plain me = true → Forall ev_ok evs → ∀ m, mgr_wf m →
  ∃ m', processKVEvents me evs m = (Ok tt, m') ∧ mgr_wf m' ∧
    (∀ u r, mget m' me u r = mget m me u r) ∧
    ∀ p kv j, plain j = true → j ≠ me → follows p m kv j → follows p m' (content kv evs) j.
Proof.
  intros Hme. induction 1 as [|ev evs (id & Hev) _ IH]; intros m Hm; [by exists m|].
  destruct (stored_apply id ev ∅ Hev) as (u0 & r0 & o & _ & Hproc).
  destruct (Hproc me m Hme Hm) as (m1 & R1 & Hm1 & Hg1).
  destruct (IH m1 Hm1) as (m2 & R2 & Hm2 & Hown & Hfol).
  exists m2. split; [by rewrite (process_cons _ _ _ _ _ R1)|]. split; [done|]. split.
  - intros u r. rewrite Hown, Hg1. destruct (String.eqb_spec id me) as [->|Hne]; simpl; [done|].
    by rewrite same_key_id.
  - intros p kv j Hj Hne Hf. apply (Hfol p (kv_apply kv ev)); [done..|].
    destruct (stored_apply id ev kv Hev) as (u1 & r1 & o1 & Hst & Hproc1).
    destruct (Hproc1 me m Hme Hm) as (m1' & R1' & _ & Hg). rewrite R1 in R1'. injection R1' as <-.
    intros u r Hu Hr. specialize (Hf u r Hu Hr). rewrite Hg, Hst by done.
    destruct (String.eqb_spec id me) as [->|Hid]; simpl; [by rewrite same_key_id by done|].
    destruct (same_key id u1 r1 j u r); [by destruct p|done].
Qed.

End store.

(** ** A manager in a cluster *)

(** What the store does, as etcd documents it: a call that fails changes
    nothing; [kv_log] are the changes below the prefix of resource keys, in the
    order in which every watch delivers them; [GetPrefix] reads the current
    content, as a map, hence in any order. *)
Class KVWatch (W : Type) `{!KV W} := {
  kv_GetPrefix : string → M W (list (string * string));
  kv_log : W → list WatchEvent;
  kv_Put_log : ∀ k v w r w', kv_Put k v w = (r, w') →
    kv_log w' = kv_log w ++ match r with Ok _ => [MkEvent WPut k v] | _ => [] end;
  kv_Del_log : ∀ k w r w', kv_Del k w = (r, w') →
    match r with
    | Ok _ => kv_log w' = kv_log w ++ [MkEvent WDel k ""] ∨
              kv_log w' = kv_log w ∧ content ∅ (kv_log w) !! k = None
    | _ => kv_log w' = kv_log w
    end;
  kv_GetPrefix_log : ∀ w vs w', kv_GetPrefix resourceKeyPrefix w = (Ok vs, w') →
    vs ≡ₚ map_to_list (content ∅ (kv_log w)) ∧ kv_log w' = kv_log w;
}.

Section cluster.
Context `{ProtoLibOk} {W : Type} `{!KV W} `{!KVWatch W} (me : string).

(** A running manager: its memory, the store, how many changes the watch has
    delivered, and the instances it was told to forget. *)
Record sys := MkSys { s_mgr : kvManager; s_store : W; s_pos : nat; s_gone : list string }.

(** What can happen: local resources come and go; other instances change the
    store; a batch of changes is delivered; the watch reports an error;
    instances leave. *)
Inductive cstep : sys → sys → Prop :=
| c_put m w pos g res r m' w' : res_ok me res →
    PutResource me res (m, w) = (r, (m', w')) → cstep (MkSys m w pos g) (MkSys m' w' pos g)
| c_del m w pos g u rs r m' w' : plain u = true → plain rs = true →
    DelResource me u rs (m, w) = (r, (m', w')) → cstep (MkSys m w pos g) (MkSys m' w' pos g)
| c_others m w pos g evs w' : Forall (fun ev => ∃ id, id ≠ me ∧ ev_by id ev) evs →
    kv_log w' = kv_log w ++ evs → cstep (MkSys m w pos g) (MkSys m w' pos g)
| c_deliver m w pos g n r m' : pos + n ≤ length (kv_log w) →
    onWatchResp me None (take n (drop pos (kv_log w))) m = (r, m') →
    cstep (MkSys m w pos g) (MkSys m' w (pos + n) g)
| c_error m w pos g e r m' : onWatchResp me (Some e) [] m = (r, m') →
    cstep (MkSys m w pos g) (MkSys m' w pos g)
| c_leave m w pos g js : me ∉ js →
    cstep (MkSys m w pos g) (MkSys (onMemberListUpdated js m) w pos (js ++ g)).

(** The invariant; [pos0] is where the watch was opened, [snap] where the
    snapshot was taken. *)
Definition view_inv (pos0 snap : nat) (σ : sys) : Prop :=
  let log := kv_log (s_store σ) in
  mgr_wf (s_mgr σ) ∧ Forall ev_ok log ∧
  pos0 ≤ snap ≤ length log ∧ pos0 ≤ s_pos σ ≤ length log ∧
  follows false (s_mgr σ) (content ∅ log) me ∧
  ∀ j, plain j = true → j ≠ me →
    follows (bool_decide (j ∈ s_gone σ)) (s_mgr σ)
      (content (content ∅ (take snap log)) (drop pos0 (take (s_pos σ) log))) j.

Lemma follows_ext p m m' kv j : (∀ u r, mget m' j u r = mget m j u r) →
  follows p m kv j → follows p m' kv j.
Proof. intros Hg Hf u r Hu Hr. rewrite Hg. by apply Hf. Qed.

(** The log grows: what was delivered stays the same. *)
Lemma inv_grow pos0 snap m m' w w' pos g evs :
  kv_log w' = kv_log w ++ evs → mgr_wf m' → Forall ev_ok evs →
  (∀ j u r, j ≠ me → mget m' j u r = mget m j u r) →
  follows false m' (content ∅ (kv_log w')) me →
  view_inv pos0 snap (MkSys m w pos g) → view_inv pos0 snap (MkSys m' w' pos g).
Proof.
  intros El Hm' Hevs Hg Hown (Hm & Hlog & Hs & Hp & _ & Hfol). unfold view_inv. simpl in *.
  split; [done|]. split; [rewrite El; by apply Forall_app|].
  split; [rewrite El, length_app; lia|]. split; [rewrite El, length_app; lia|]. split; [done|].
  intros j Hj Hne. apply (follows_ext _ m); [by intros; apply Hg|].
  rewrite El, !take_app_le by lia. by apply Hfol.
Qed.

Lemma content_snoc kv log ev : content kv (log ++ [ev]) = kv_apply (content kv log) ev.
Proof. unfold content. by rewrite foldl_app. Qed.

Lemma content_app kv a b : content kv (a ++ b) = content (content kv a) b.
Proof. unfold content. by rewrite foldl_app. Qed.

Lemma same_inv pos0 snap m w w' pos g : kv_log w' = kv_log w →
  view_inv pos0 snap (MkSys m w pos g) → view_inv pos0 snap (MkSys m w' pos g).
Proof. unfold view_inv. simpl. by intros ->. Qed.

Lemma put_inv pos0 snap m w pos g res r m' w' : plain me = true → res_ok me res →
  PutResource me res (m, w) = (r, (m', w')) →
  view_inv pos0 snap (MkSys m w pos g) → view_inv pos0 snap (MkSys m' w' pos g).
Proof.
  intros Hme Hok Hr Hinv. pose proof Hok as (Hi & Hn & Hs & _). unfold PutResource in Hr.
  destruct (resourceVal res) as [e|v] eqn:Ev; [by injection Hr as <- <- <-|].
  unfold mbind, M_bind, onW, setf, modify in Hr.
  destruct (kv_Put _ v w) as [r1 w1] eqn:Ep. apply kv_Put_log in Ep.
  destruct r1 as [[]|e|c]; injection Hr as <- <- <-.
  2,3: rewrite app_nil_r in Ep; by apply (same_inv _ _ _ w).
  pose proof Hinv as (Hm & _ & _ & _ & Hown & _). simpl in Hm, Hown.
  apply (inv_grow _ _ m _ w _ _ _ [MkEvent WPut (resourceKey me (Node (ResJID res)) (Resource (ResJID res))) v]);
    [done|by apply inMemPut_wf| | | |done].
  - constructor; [|done]. exists me. split; [done|].
    exists (Node (ResJID res)), (Resource (ResJID res)). split_and!; [done..|]. intros _. by exists res.
  - intros j u rs Hne. rewrite mget_inMemPut, Hi. by destruct (String.eqb_spec me j).
  - intros u rs Hu Hrs. rewrite Ep, content_snoc, mget_inMemPut. unfold kv_apply. simpl.
    rewrite (stored_put me res v) by done. rewrite Hi. fold (same_key me (Node (ResJID res)) (Resource (ResJID res)) me u rs).
    case_match; [done|]. by apply Hown.
Qed.

Lemma del_inv pos0 snap m w pos g u rs r m' w' : plain me = true → plain u = true → plain rs = true →
  DelResource me u rs (m, w) = (r, (m', w')) →
  view_inv pos0 snap (MkSys m w pos g) → view_inv pos0 snap (MkSys m' w' pos g).
Proof.
  intros Hme Hu Hrs Hr Hinv. unfold DelResource in Hr.
  unfold mbind, M_bind, onW, setf, modify in Hr.
  destruct (kv_Del _ w) as [r1 w1] eqn:Ep. apply kv_Del_log in Ep.
  destruct r1 as [[]|e|c]; injection Hr as <- <- <-.
  2,3: by apply (same_inv _ _ _ w).
  pose proof Hinv as (Hm & _ & _ & _ & Hown & _). simpl in Hm, Hown.
  assert (content ∅ (kv_log w1) = delete (resourceKey me u rs) (content ∅ (kv_log w))) as Hc.
  { destruct Ep as [->|[-> Hn]]; [by rewrite content_snoc|]. symmetry. by apply delete_id. }
  assert (∃ evs, kv_log w1 = kv_log w ++ evs ∧ Forall ev_ok evs) as (evs & El & Hevs).
  { destruct Ep as [Ep|[Ep _]]; [|exists []; by rewrite app_nil_r].
    eexists. split; [done|]. constructor; [|done]. exists me. split; [done|].
    exists u, rs. split_and!; done. }
  apply (inv_grow _ _ m _ w _ _ _ evs); [done|by apply inMemDel_wf|done| | |done].
  - intros j u' rs' Hne. rewrite mget_inMemDel by done. by destruct (String.eqb_spec me j).
  - intros u' rs' Hu' Hrs'. rewrite Hc, stored_del, mget_inMemDel by done.
    fold (same_key me u rs me u' rs'). case_match; [done|]. by apply Hown.
Qed.

Lemma deliver_inv pos0 snap m w pos g n r m' : plain me = true → pos + n ≤ length (kv_log w) →
  onWatchResp me None (take n (drop pos (kv_log w))) m = (r, m') →
  view_inv pos0 snap (MkSys m w pos g) → view_inv pos0 snap (MkSys m' w (pos + n) g).
Proof.
  intros Hme Hn Hr (Hm & Hlog & Hs & Hp & Hown & Hfol). simpl in *.
  destruct (process_follows me (take n (drop pos (kv_log w))) Hme) with (m := m)
    as (m1 & R1 & Hm1 & Ho & Hf); [by apply Forall_take, Forall_drop|done|].
  assert (m' = m1) as ->.
  { unfold onWatchResp, ignore, try, mbind, M_bind in Hr. rewrite R1 in Hr. by injection Hr. }
  unfold view_inv. simpl. split_and!; [done|done|lia|lia|lia|lia| |].
  - by apply (follows_ext _ m).
  - intros j Hj Hne. replace (drop pos0 (take (pos + n) (kv_log w))) with
      (drop pos0 (take pos (kv_log w)) ++ take n (drop pos (kv_log w))).
    + rewrite content_app. apply Hf; [done..|]. by apply Hfol.
    + rewrite <-take_take_drop. symmetry. apply drop_app_le. rewrite length_take. lia.
Qed.

Lemma leave_inv pos0 snap m w pos g js : me ∉ js →
  view_inv pos0 snap (MkSys m w pos g) →
  view_inv pos0 snap (MkSys (onMemberListUpdated js m) w pos (js ++ g)).
Proof.
  intros Hnot (Hm & Hlog & Hs & Hp & Hown & Hfol). simpl in *.
  destruct (onMemberListUpdated_spec js m Hm) as [Hw Hg].
  split; [done|]. split; [done|]. split; [done|]. split; [done|]. simpl. split.
  - apply (follows_ext _ m); [|done]. intros u r. rewrite Hg. by rewrite bool_decide_false.
  - intros j Hj Hne u r Hu Hr. specialize (Hfol j Hj Hne u r Hu Hr). rewrite Hg.
    destruct (decide (j ∈ js)) as [Hin|Hin].
    + rewrite (bool_decide_true (j ∈ js ++ g)) by set_solver. by rewrite bool_decide_true.
    + rewrite (bool_decide_false (j ∈ js)) by done.
      rewrite (bool_decide_ext (j ∈ js ++ g) (j ∈ g)) by set_solver. done.
Qed.

Lemma cstep_inv pos0 snap σ σ' : plain me = true → cstep σ σ' →
  view_inv pos0 snap σ → view_inv pos0 snap σ'.
Proof.
  intros Hme [m w pos g res r m' w' Hok Hr|m w pos g u rs r m' w' Hu Hrs Hr|m w pos g evs w' Hevs El
    |m w pos g n r m' Hn Hr|m w pos g e r m' Hr|m w pos g js Hjs].
  - by apply (put_inv _ _ _ _ _ _ res r).
  - by apply (del_inv _ _ _ _ _ _ u rs r).
  - intros Hinv. pose proof Hinv as (Hm & _ & _ & _ & Hown & _). simpl in *.
    apply (inv_grow _ _ m _ w _ _ _ evs); [done..| |done| |done].
    + eapply Forall_impl; [exact Hevs|]. intros ev (id & _ & Hev). by exists id.
    + intros u r Hu Hr. rewrite El, content_app, stored_others by done. by apply Hown.
  - by apply (deliver_inv _ _ _ _ _ _ _ r).
  - injection Hr as _ <-. done.
  - by apply leave_inv.
Qed.

(** *** Start-up *)
Definition kv_entry_ok (kv : string * string) : Prop :=
  ∃ id res, plain id = true ∧ res_ok id res ∧ resourceVal res = inr kv.2 ∧
    kv.1 = resourceKey id (Node (ResJID res)) (Resource (ResJID res)).

Lemma last_write_put log k v : last_write log k = Some (Some v) →
  ∃ ev, ev ∈ log ∧ ev_Type ev = WPut ∧ ev_Key ev = k ∧ ev_Val ev = v.
Proof.
  induction log as [|ev log IH]; simpl; [done|]. destruct (last_write log k) as [o|].
  - intros [= ->]. destruct IH as (ev' & Hin & Hev); [done|]. exists ev'. split; [set_solver|done].
  - destruct (String.eqb_spec (ev_Key ev) k); [|done]. unfold written.
    destruct (ev_Type ev) eqn:Et; intros [= <-]. exists ev. split; [set_solver|done].
Qed.

Lemma content_entries log : Forall ev_ok log → Forall kv_entry_ok (map_to_list (content ∅ log)).
Proof.
  intros Hlog. apply Forall_forall. intros [k v] Hin%elem_of_map_to_list.
  rewrite content_lookup in Hin. destruct (last_write log k) as [o|] eqn:E; [|done]. subst o.
  apply last_write_put in E as (ev & Hev & Et & <- & <-).
  rewrite Forall_forall in Hlog. destruct (Hlog ev Hev) as (id & Hid & u & r & _ & _ & Ek & Hput).
  destruct (Hput Et) as (res & Hok & <- & <- & Hv). by exists id, res.
Qed.

Lemma start_follows vs : NoDup vs.*1 → Forall kv_entry_ok vs →
  ∃ rss, decodeKVResources vs = Ok rss ∧ ∀ m, mgr_wf m →
    let m' := foldl (fun m res => inMemPut res m) m rss in mgr_wf m' ∧
    ∀ j u r, plain j = true → plain u = true → plain r = true →
      mget m' j u r = match stored (list_to_map vs) j u r with Some res => Some res | None => mget m j u r end.
Proof.
  intros Hd Hvs. induction Hvs as [|[k v] vs (id & res & Hid & Hok & Hv & Ek) Hvs IH].
  - exists []. split; [done|]. intros m Hm. simpl. split; [done|]. intros j u r _ _ _.
    unfold stored. by rewrite lookup_empty.
  - apply NoDup_cons in Hd as [Hk Hd]. destruct (IH Hd) as (rss & Hdec & Hrss). simpl in *. subst k.
    exists (res :: rss). split; [by rewrite (decode_val id res), Hdec|]. intros m Hm.
    destruct (Hrss (inMemPut res m)) as [Hwf Hg]; [by apply inMemPut_wf|]. split; [done|].
    intros j u r Hj Hu Hr. pose proof Hok as (Hi & Hn & Hs & _).
    assert ((list_to_map vs : gmap string string) !!
      resourceKey id (Node (ResJID res)) (Resource (ResJID res)) = None) as Hl.
    { by apply not_elem_of_list_to_map_1. }
    rewrite Hg, stored_put, mget_inMemPut by done. rewrite Hi.
    fold (same_key id (Node (ResJID res)) (Resource (ResJID res)) j u r).
    destruct (same_key _ _ _ _ _ _) eqn:E; [|done].
    rewrite <-same_key_spec in E by done. apply String.eqb_eq in E. unfold stored.
    by rewrite <-E, Hl.
Qed.

Lemma watch_start w vs w' : kv_GetPrefix resourceKeyPrefix w = (Ok vs, w') →
  Forall ev_ok (kv_log w) →
  ∃ m, watchKVResources kv_GetPrefix (NewKVManager, w) = (Ok tt, (m, w')) ∧ mgr_wf m ∧
    ∀ j, plain j = true → follows false m (content ∅ (kv_log w)) j.
Proof.
  intros Hget Hlog. destruct (kv_GetPrefix_log w vs w' Hget) as [Hp _].
  destruct (start_follows vs) as (rss & Hdec & Hrss).
  { rewrite Hp. apply NoDup_fst_map_to_list. }
  { rewrite Hp. by apply content_entries. }
  destruct (Hrss NewKVManager) as [Hwf Hg]; [apply (map_Forall_empty (M:=gmap string))|].
  exists (foldl (fun m res => inMemPut res m) NewKVManager rss). split.
  - unfold watchKVResources, getKVResources.
    rewrite (bind_Ok _ _ _ rss (NewKVManager, w')).
    + clear. generalize NewKVManager. induction rss as [|res rss IH]; intros m; [done|]. exact (IH _).
    + rewrite (bind_Ok _ _ _ vs (NewKVManager, w')); [by unfold pureO; rewrite Hdec|].
      unfold onW. by rewrite Hget.
  - split; [done|]. intros j Hj u r Hu Hr. rewrite Hg by done.
    replace (list_to_map vs) with (content ∅ (kv_log w)).
    + by destruct (stored _ j u r).
    + rewrite <-(list_to_map_to_list (content ∅ (kv_log w))). apply list_to_map_proper; [|done].
      apply NoDup_fst_map_to_list.
Qed.


End cluster.

(** ** Names that the key format cannot hold *)
Section odd_names.
Context `{ProtoLib}.

Lemma odd_key id u r : plain u = true → plain r = false →
  (∀ v, ∃ e, decodeResource (resourceKey id u r) v = Err e) ∧
  ∃ e, extractKeyInfo (resourceKey id u r) = inl e.
Proof.
  intros [Hu _]%andb_true_iff Hr. unfold decodeResource, extractKeyInfo, resourceKey.
  rewrite TrimPrefix_app. change ("@" +:+ r +:+ "/" +:+ id) with (String "@" (r +:+ String "/" id)).
  rewrite Split_app by done. destruct (no_char "@" r) eqn:Ea.
  - unfold plain in Hr. rewrite Ea in Hr. simpl in Hr. apply Split_char in Hr.
    destruct (Split "@" (r +:+ String "/" id)) as [|rest [|? ?]] eqn:Es; [eauto| |eauto].
    destruct (no_char "@" (r +:+ String "/" id)) eqn:En.
    + rewrite Split_none in Es by done. injection Es as <-. rewrite Split_sep.
      pose proof (Split_length_pos "/" id) as Hp.
      destruct (Split "/" r ++ Split "/" id) as [|x1 [|x2 [|x3 l]]] eqn:El;
        apply (f_equal length) in El; rewrite length_app in El; simpl in El; try lia.
      split; [|eauto]. intros v. destruct (Unmarshal v); eauto.
    + apply Split_char in En. rewrite Es in En. simpl in En. lia.
  - assert (no_char "@" (r +:+ String "/" id) = false) as En by (by rewrite no_char_app, Ea).
    apply Split_char in En. destruct (Split "@" (r +:+ String "/" id)) as [|x [|y l]]; simpl in En; try lia.
    eauto.
Qed.

(** A resource name with an [@] or a [/], which XMPP allows, is registered by
    its own instance and breaks the others: every batch of changes that holds it
    is given up at this point, and an instance that starts while the store holds
    it fails to start. *)
Theorem odd_resource_name_breaks (me id u r v : string) (evs : list WatchEvent) (m : kvManager)
    (vs : list (string * string)) (Hme : plain me = true) (Hid : plain id = true) (Hne : id ≠ me)
    (Hu : plain u = true) (Hr : plain r = false) (Hvs : (resourceKey id u r, v) ∈ vs) :
  (∃ e, processKVEvents me (MkEvent WPut (resourceKey id u r) v :: evs) m = (Err e, m)) ∧
  (∃ e, processKVEvents me (MkEvent WDel (resourceKey id u r) "" :: evs) m = (Err e, m)) ∧
  ∀ rss, decodeKVResources vs ≠ Ok rss.
Proof.
  destruct (odd_key id u r Hu Hr) as [Hdec [e He]]. simpl.
  rewrite isLocalKey_key by done. rewrite (proj2 (String.eqb_neq id me)) by done. split; [|split].
  - destruct (Hdec v) as [e' He']. exists e'. unfold mbind, M_bind. by rewrite He'.
  - exists e. by rewrite He.
  - destruct (Hdec v) as [e' He']. induction vs as [|[k' v'] vs IH]; intros rss; [set_solver|]. simpl.
    apply elem_of_cons in Hvs as [[= <- <-]|Hvs].
    + by rewrite He'.
    + specialize (IH Hvs). destruct (decodeResource k' v'); [|done..]. destruct (decodeKVResources vs) as [rss'| |]; [|done..].
      by destruct (IH rss').
Qed.

End odd_names.

(** ** A concrete cluster *)
Module ClusterDemo.
Import TreeLib.

(** Messages without info and presence, their two fields separated by a bar. *)
Definition marshal (i : ResourceInfo tree) : goerror + string :=
  if bool_decide (ri_Info i = ∅ ∧ ri_Presence i = None) && no_char "|" (ri_InstanceId i) &&
     no_char "|" (ri_Domain i)
  then inr (ri_InstanceId i +:+ String "|" (ri_Domain i)) else inl (ErrText "unsupported").
Definition unmarshal (s : string) : goerror + ResourceInfo tree :=
  match Split "|" s with
  | [id; d] => inr (MkResourceInfo id d ∅ None)
  | _ => inl (ErrText "proto: cannot parse")
  end.

#[export] Instance proto : @ProtoLib tree_jid tree_xml :=
  @Build_ProtoLib tree_jid tree_xml tree (fun e => e) (fun p => inr p) marshal unmarshal.

#[export] Instance proto_ok : @ProtoLibOk tree_jid tree_xml proto.
Proof.
  split.
  - intros [id d inf pr] b. unfold Marshal, Unmarshal, proto, marshal, unmarshal. simpl.
    case_bool_decide as Hb; [|done]. destruct Hb as [-> ->]. simpl.
    destruct (no_char "|" id) eqn:Ei, (no_char "|" d) eqn:Ed; simpl; try done.
    intros [= <-]. by rewrite Split_app, Split_none.
  - done.
  - intros [n d r] Hd. simpl in *. by rewrite (proj2 (String.eqb_neq d "")).
Qed.

(** A store that is its log. *)
#[export] Instance kv : KV (list WatchEvent) := {|
  kv_IsNop := false;
  kv_Put := fun k v => modify (fun log => log ++ [MkEvent WPut k v]);
  kv_Get := fun k => gets (fun log => default "" (content ∅ log !! k));
  kv_Del := fun k => modify (fun log => log ++ [MkEvent WDel k ""]);
|}.

#[export] Instance kv_watch : KVWatch (list WatchEvent).
Proof.
  refine {| kv_GetPrefix := fun _ => gets (fun log => map_to_list (content ∅ log)); kv_log := fun log => log |}.
  - by intros k v w r w' [= <- <-].
  - intros k w r w' [= <- <-]. by left.
  - by intros w vs w' [= <- <-].
Defined.

Definition romeo : ResourceDesc := NewResourceDesc "i2" (MkJid "romeo" "jackal.im" "balcony") None ∅.
Definition joined : WatchEvent :=
  MkEvent WPut (resourceKey "i2" "romeo" "balcony") "i2|jackal.im".
Definition m1 : kvManager := inMemPut romeo NewKVManager.

Lemma joined_ok : ev_by "i2" joined.
Proof.
  split; [done|]. exists "romeo", "balcony". split_and!; [done..|]. intros _. exists romeo. done.
Qed.


Lemma odd_resource_name_breaks_witness :
  decodeKVResources [(resourceKey "i2" "romeo" "a@b", "i2|jackal.im")] ≠ Ok [romeo].
Proof.
  apply (@odd_resource_name_breaks tree_jid tree_xml proto "i1" "i2" "romeo" "a@b" "i2|jackal.im" [] ∅);
    [done..|set_solver].
Defined.

End ClusterDemo.
