(* ===== verification/Members.v ===== *)
(** * Members of the cluster and the connections between them

    The member list (src/pkg/cluster/memberlist/kv_memberlist.go), the semantic
    versions members report (src/pkg/version/version.go), the manager of the
    connections to the other members (src/pkg/cluster/connmanager) and the router
    that uses them (src/pkg/cluster/router/router.go).

    The member list holds a mutex over the loop that processes changes and runs
    a hook afterwards; the mutex is part of the state, and locking it twice is a
    [Deadlock].  The connection manager is one of the handlers of the hook. *)

From stdpp Require Import base list strings gmap.
From Stdlib Require Import ZArith Lia Ascii.
From S2P Require Import Prelude GoLib GoStrings GoHoare Stravaganza Dialback C2SModel ResourceManager.
Local Open Scope Z_scope.

(** ** Semantic versions *)
Module Version.

Record SemanticVersion := NewVersion { major : Z; minor : Z; patch : Z }.

Definition ClusterAPIVersion : SemanticVersion := NewVersion 1 0 0.

Definition VersionString (v : SemanticVersion) : string :=
  "v" +:+ FormatUint (major v) +:+ "." +:+ FormatUint (minor v) +:+ "." +:+ FormatUint (patch v).

Definition IsEqual (v v2 : SemanticVersion) : bool :=
  (major v =? major v2) && (minor v =? minor v2) && (patch v =? patch v2).

Definition IsLess (v v2 : SemanticVersion) : bool :=
  if major v =? major v2 then
    if minor v =? minor v2 then
      if patch v =? patch v2 then false else patch v <? patch v2
    else minor v <? minor v2
  else major v <? major v2.

Definition IsLessOrEqual (v v2 : SemanticVersion) : bool := IsLess v v2 || IsEqual v v2.

Definition IsGreater (v v2 : SemanticVersion) : bool :=
  if major v =? major v2 then
    if minor v =? minor v2 then
      if patch v =? patch v2 then false else patch v2 <? patch v
    else minor v2 <? minor v
  else major v2 <? major v.

Definition IsGreaterOrEqual (v v2 : SemanticVersion) : bool := IsGreater v v2 || IsEqual v v2.

(** The comparisons are those of one total order: [IsLess] is the lexicographic
    order, [IsGreater] its converse, [IsEqual] equality, and exactly one of the
    three holds. *)
Theorem version_order (v v2 : SemanticVersion) :
  (IsLess v v2 = true ↔ major v < major v2 ∨ major v = major v2 ∧
    (minor v < minor v2 ∨ minor v = minor v2 ∧ patch v < patch v2)) ∧
  IsGreater v v2 = IsLess v2 v ∧ (IsEqual v v2 = true ↔ v = v2) ∧
  IsLessOrEqual v v2 = negb (IsGreater v v2) ∧ IsGreaterOrEqual v v2 = negb (IsLess v v2).
Proof.
  destruct v as [a b c], v2 as [x y z].
  unfold IsLessOrEqual, IsGreaterOrEqual, IsGreater, IsLess, IsEqual. simpl.
  destruct (Z.eqb_spec a x), (Z.eqb_spec x a), (Z.eqb_spec b y), (Z.eqb_spec y b),
    (Z.eqb_spec c z), (Z.eqb_spec z c); try lia; subst; simpl;
    repeat match goal with |- context [?p <? ?q] => destruct (Z.ltb_spec p q) end; simpl; try lia;
    (split; [split; [intros; try discriminate; lia|intros; try reflexivity; lia]|]);
    repeat split; try reflexivity; try discriminate; try lia; try congruence.
Qed.

End Version.
Export Version.

(** ** Addresses and values *)

(** [clustermodel.Member] *)
Record Member := MkMember {
  InstanceID : string; Host : string; Port : Z; APIVer : SemanticVersion }.

Definition MemberString (m : Member) : string := Host m +:+ ":" +:+ Itoa (Port m).

(** [net.SplitHostPort] *)
Definition errMissingPort : goerror := ErrText "missing port in address".
Definition errTooManyColons : goerror := ErrText "too many colons in address".
Definition errBracket : goerror := ErrText "unexpected bracket in address".

Definition SplitHostPort (hostport : string) : goerror + (string * string) :=
  match rcut ":" hostport with
  | None => inl errMissingPort
  | Some (before, port) =>
    match CutPrefix "[" hostport with
    | Some rest =>
      match cut "]" rest with
      | None => inl (ErrText "missing ']' in address")
      | Some (host, after) =>
        match CutPrefix ":" after with
        | None => inl errMissingPort
        | Some p =>
          if negb (no_char ":" p) then inl errTooManyColons
          else if negb (no_char "[" rest) || negb (no_char "]" after) then inl errBracket
          else inr (host, p)
        end
      end
    | None =>
      if negb (no_char ":" before) then inl errTooManyColons
      else if negb (no_char "[" hostport) || negb (no_char "]" hostport) then inl errBracket
      else inr (before, port)
    end
  end.

(** [fmt.Sscanf(val, "a=%s cv=%s", ..)] on ASCII input; what was not scanned
    reads as the empty string. *)
Definition scanMember (val : string) : string * string :=
  match CutPrefix "a=" val with
  | None => ("", "")
  | Some s1 =>
    let '(addr, s2) := scan_word (skip_spaces s1) in
    if String.eqb addr "" then ("", "")
    else match CutPrefix "cv=" (skip_spaces s2) with
    | None => (addr, "")
    | Some s3 => (addr, (scan_word (skip_spaces s3)).1)
    end
  end.

(** [%d] for an unsigned integer: at least one digit, a value of 64 bits *)
Fixpoint scan_digits (s : string) : string * string :=
  match s with
  | String c s' =>
    match digit_value c with
    | Some _ => let '(d, r) := scan_digits s' in (String c d, r)
    | None => ("", s)
    end
  | EmptyString => ("", "")
  end.
Definition scan_uint (s : string) : option (Z * string) :=
  let '(d, r) := scan_digits (skip_spaces s) in
  match parse_digits d with
  | Some n => if n <? 2 ^ 64 then Some (n, r) else None
  | None => None
  end.

(** [fmt.Sscanf(ver, "v%d.%d.%d", ..)]; the numbers that were not scanned are
    zero. *)
Definition scanVersion (ver : string) : SemanticVersion :=
  match CutPrefix "v" ver ≫= scan_uint with
  | None => NewVersion 0 0 0
  | Some (a, s1) =>
    match CutPrefix "." s1 ≫= scan_uint with
    | None => NewVersion a 0 0
    | Some (b, s2) =>
      match CutPrefix "." s2 ≫= scan_uint with
      | None => NewVersion a b 0
      | Some (c, _) => NewVersion a b c
      end
    end
  end.

Definition memberKeyPrefix : string := "i://".

Definition localMemberKey (id : string) : string := memberKeyPrefix +:+ id.
Definition isLocalMemberKey (id k : string) : bool := String.eqb k (localMemberKey id).

(** The value [join] writes, [memberValueFormat] *)
Definition memberValue (m : Member) : string :=
  "a=" +:+ MemberString m +:+ " cv=" +:+ VersionString (APIVer m).

Definition decodeClusterMember (key val : string) : goerror + Member :=
  let instanceID := TrimPrefix key memberKeyPrefix in
  let '(addr, minClusterVer) := scanMember val in
  let ver := scanVersion minClusterVer in
  match SplitHostPort addr with
  | inl e => inl e
  | inr (host, sPort) => inr (MkMember instanceID host (Atoi sPort).1 ver)
  end.

(** ** The member list ([KVMemberList]) *)
Record mlState := MkML { members : gmap string Member; mu_locked : bool }.
Definition NewKVMemberList : mlState := MkML ∅ false.

(** What it calls: the handlers of the hook [MemberListUpdated], which get the
    new members and the keys of those that left, and [getHostIP]. *)
Class MLEnv (W : Type) := {
  ml_runHook : list Member → list string → M W unit;
  ml_getHostIP : M W string;
}.

Section memberlist.
Context {W : Type} `{!KV W} `{!MLEnv W}.
Context (kv_GetPrefix : string → M W (list (string * string))) (id : string) (localPort : Z).
Abbreviation MS := (M (mlState * W)).

Definition lock : MS unit :=
  l ← fld mu_locked;
  if l : bool then crash_with Deadlock else setf (fun s => MkML (members s) true).
Definition unlock : MS unit := setf (fun s => MkML (members s) false).

(** [GetMember] and [GetMembers] *)
Definition GetMember (instanceID : string) : MS (option Member) :=
  lock;;
  m ← fld (fun s => members s !! instanceID);
  unlock;;
  mret m.
Definition GetMembers : MS (gmap string Member) :=
  lock;;
  ms ← fld members;
  unlock;;
  mret ms.

Definition getLocalMember : MS Member :=
  hostIP ← onW ml_getHostIP;
  mret (MkMember id hostIP localPort ClusterAPIVersion).

Definition join : MS unit :=
  lm ← getLocalMember;
  onW (kv_Put (localMemberKey id) (memberValue lm)).

(** [getMembers]: values that do not decode are skipped. *)
Fixpoint decodeMembers (vs : list (string * string)) : list Member :=
  match vs with
  | [] => []
  | (k, val) :: vs' =>
    if isLocalMemberKey id k then decodeMembers vs'
    else match decodeClusterMember k val with
    | inl _ => decodeMembers vs'
    | inr m => m :: decodeMembers vs'
    end
  end.
Definition getMembers : MS (list Member) :=
  vs ← onW (kv_GetPrefix memberKeyPrefix);
  mret (decodeMembers vs).

Definition addMember (m : Member) (s : mlState) : mlState :=
  MkML (<[InstanceID m := m]> (members s)) (mu_locked s).

(** [refreshMemberList] up to the signal that lets [Start] return *)
Definition refreshMemberList : MS unit :=
  ms ← getMembers;
  lock;;
  for_each ms (fun m => setf (addMember m));;
  unlock;;
  onW (ml_runHook ms []).

Definition Start : MS unit :=
  join;;
  refreshMemberList.

Definition Stop : MS unit := onW (kv_Del (localMemberKey id)).

(** [processKVEvents]: the loop, under the mutex, and the hook after it.  The
    return in the loop leaves the mutex locked. *)
Fixpoint processLoop (putMembers : list Member) (delMemberKeys : list string)
    (kvEvents : list WatchEvent) : MS (list Member * list string) :=
  match kvEvents with
  | [] => mret (putMembers, delMemberKeys)
  | ev :: kvEvents' =>
    if isLocalMemberKey id (ev_Key ev) then processLoop putMembers delMemberKeys kvEvents'
    else match ev_Type ev with
    | WPut =>
      match decodeClusterMember (ev_Key ev) (ev_Val ev) with
      | inl e => fail e
      | inr m =>
        setf (addMember m);;
        processLoop (putMembers ++ [m]) delMemberKeys kvEvents'
      end
    | WDel =>
      let memberKey := TrimPrefix (ev_Key ev) memberKeyPrefix in
      setf (fun s => MkML (delete memberKey (members s)) (mu_locked s));;
      processLoop putMembers (delMemberKeys ++ [memberKey]) kvEvents'
    end
  end.

Definition processKVEvents (kvEvents : list WatchEvent) : MS unit :=
  lock;;
  '(putMembers, delMemberKeys) ← processLoop [] [] kvEvents;
  unlock;;
  onW (ml_runHook putMembers delMemberKeys).

(** A response of the watch: errors are logged. *)
Definition onWatchResp (err : option goerror) (events : list WatchEvent) : MS unit :=
  match err with
  | Some _ => mret tt
  | None => ignore (processKVEvents events)
  end.

End memberlist.

(** ** Values are read back *)

(** All characters of a string satisfy [P]. *)
Fixpoint all_chars (P : ascii → bool) (s : string) : bool :=
  match s with String c s' => P c && all_chars P s' | EmptyString => true end.

Lemma all_chars_impl (P Q : ascii → bool) s : (∀ c, P c = true → Q c = true) →
  all_chars P s = true → all_chars Q s = true.
Proof.
  intros HPQ. induction s as [|c s IH]; simpl; [done|]. intros [Hc Hs]%andb_true_iff.
  by rewrite HPQ, IH.
Qed.

Lemma all_chars_app P s t : all_chars P (s +:+ t) = all_chars P s && all_chars P t.
Proof.
  induction s as [|c s IH]; [done|]. rewrite string_app_cons. simpl. by rewrite IH, andb_assoc.
Qed.

Lemma no_char_all c s : no_char c s = all_chars (fun x => negb (Ascii.eqb x c)) s.
Proof. induction s as [|x s IH]; simpl; [done|by rewrite IH]. Qed.
Lemma no_space_all s : no_space s = all_chars (fun x => negb (is_space x) && negb (is_break x)) s.
Proof. induction s as [|x s IH]; simpl; [done|by rewrite IH]. Qed.

(** Words of digits, with a minus sign where it may be. *)
Definition is_digit (c : ascii) : bool := match digit_value c with Some _ => true | None => false end.
Definition is_numeric (c : ascii) : bool := is_digit c || Ascii.eqb c "-".

Lemma FormatUint_digits n : all_chars is_digit (FormatUint n) = true.
Proof.
  unfold FormatUint. assert (∀ fuel n acc, all_chars is_digit acc = true →
    all_chars is_digit (udigits fuel n acc) = true) as H; [|by apply H].
  induction fuel as [|fuel IH]; intros k acc Hacc; simpl; [done|].
  assert (all_chars is_digit (String (digit_char (k mod 10)) acc) = true) as Ha.
  { simpl. unfold is_digit. rewrite digit_value_char by (apply Z.mod_pos_bound; lia). done. }
  case_match; [done|by apply IH].
Qed.

Lemma FormatUint_cons n : ∃ c s, FormatUint n = String c s.
Proof. destruct (udigits_cons 19 n "") as (c & s & Hs & _). by exists c, s. Qed.

Lemma Itoa_numeric z : all_chars is_numeric (Itoa z) = true.
Proof.
  assert (∀ n, all_chars is_numeric (FormatUint n) = true) as Hd.
  { intros n. eapply all_chars_impl; [|apply FormatUint_digits]. intros c Hc. unfold is_numeric. by rewrite Hc. }
  unfold Itoa. case_match; [|done]. simpl. by rewrite Hd.
Qed.

(** The characters that end words, hosts and numbers are not numeric. *)
Lemma numeric_word c : is_numeric c = true → negb (is_space c) && negb (is_break c) = true.
Proof. by destruct c as [[] [] [] [] [] [] [] []]. Qed.
Lemma numeric_no c d : is_numeric d = false → is_numeric c = true → negb (Ascii.eqb c d) = true.
Proof. intros Hd Hc. destruct (Ascii.eqb_spec c d); [congruence|done]. Qed.
Lemma numeric_no_space s : all_chars is_numeric s = true → no_space s = true.
Proof. rewrite no_space_all. apply all_chars_impl, numeric_word. Qed.
Lemma numeric_no_char d s : is_numeric d = false → all_chars is_numeric s = true → no_char d s = true.
Proof. intros Hd. rewrite no_char_all. apply all_chars_impl. intros c. by apply numeric_no. Qed.

Lemma no_space_app s t : no_space (s +:+ t) = no_space s && no_space t.
Proof. rewrite !no_space_all. apply all_chars_app. Qed.

Lemma scan_digits_app s t : all_chars is_digit s = true →
  match t with String c _ => is_digit c = false | EmptyString => True end →
  scan_digits (s +:+ t) = (s, t).
Proof.
  intros Hs Ht. induction s as [|c s IH].
  - change ("" +:+ t) with t. destruct t as [|c t]; [done|]. simpl. unfold is_digit in Ht.
    by destruct (digit_value c).
  - rewrite string_app_cons. simpl in *. apply andb_true_iff in Hs as [Hc Hs]. unfold is_digit in Hc.
    destruct (digit_value c); [|done]. by rewrite IH.
Qed.

Lemma scan_uint_app n t : 0 <= n < 2 ^ 64 →
  match t with String c _ => is_digit c = false | EmptyString => True end →
  scan_uint (FormatUint n +:+ t) = Some (n, t).
Proof.
  intros Hn Ht. unfold scan_uint. pose proof (FormatUint_digits n) as Hd.
  destruct (FormatUint_cons n) as (c & s & Ec).
  assert (skip_spaces (FormatUint n +:+ t) = FormatUint n +:+ t) as ->.
  { rewrite Ec in *. rewrite string_app_cons. simpl in *. apply andb_true_iff in Hd as [Hc _].
    assert (is_numeric c = true) as Hnum by (unfold is_numeric; by rewrite Hc).
    apply numeric_word, andb_true_iff in Hnum as [Hsp _]. apply negb_true_iff in Hsp. by rewrite Hsp. }
  rewrite scan_digits_app by done. rewrite parse_digits_FormatUint by lia.
  by rewrite (proj2 (Z.ltb_lt n (2 ^ 64))) by lia.
Qed.

Definition version_ok (v : SemanticVersion) : Prop :=
  0 <= major v < 2 ^ 64 ∧ 0 <= minor v < 2 ^ 64 ∧ 0 <= patch v < 2 ^ 64.

Lemma scanVersion_String v : version_ok v → scanVersion (VersionString v) = v.
Proof.
  destruct v as [a b c]. intros (Ha & Hb & Hc). unfold scanVersion, VersionString.
  cbn [major minor patch] in *. assert (∀ s o, o = Some s → o ≫= scan_uint = scan_uint s) as Hcut.
  { by intros s o ->. }
  rewrite (Hcut _ _ (CutPrefix_app "v" _)), scan_uint_app by done.
  rewrite (Hcut _ _ (CutPrefix_app "." _)), scan_uint_app by done.
  rewrite (Hcut _ _ (CutPrefix_app "." _)).
  pose proof (scan_uint_app c "" Hc I) as Hs. rewrite string_app_nil in Hs. by rewrite Hs.
Qed.

(** A host as [getHostIP] gives it. *)
Definition host_ok (h : string) : Prop :=
  is_domain h = true ∧ no_char ":" h = true ∧ no_char "[" h = true ∧ no_char "]" h = true.

Lemma SplitHostPort_Member m : host_ok (Host m) →
  SplitHostPort (MemberString m) = inr (Host m, Itoa (Port m)).
Proof.
  intros (_ & Hc & Ho & Hcl). unfold SplitHostPort, MemberString.
  change (":" +:+ Itoa (Port m)) with (String ":" (Itoa (Port m))).
  pose proof (Itoa_numeric (Port m)) as Hn.
  rewrite rcut_app by (by apply numeric_no_char).
  assert (no_char "[" (Host m +:+ String ":" (Itoa (Port m))) = true) as Hb1.
  { rewrite no_char_app, Ho. simpl. by apply numeric_no_char. }
  assert (no_char "]" (Host m +:+ String ":" (Itoa (Port m))) = true) as Hb2.
  { rewrite no_char_app, Hcl. simpl. by apply numeric_no_char. }
  rewrite Hc, Hb1, Hb2.
  by rewrite CutPrefix_no_char.
Qed.

(** A member is read back as it was registered: what an instance writes when it
    joins is decoded by the others to its identifier, address, port and
    version. *)
Theorem member_roundtrip (m : Member) (Hhost : host_ok (Host m)) (Hport : - 2 ^ 63 <= Port m < 2 ^ 63)
    (Hver : version_ok (APIVer m)) :
  decodeClusterMember (localMemberKey (InstanceID m)) (memberValue m) = inr m.
Proof.
  unfold decodeClusterMember, localMemberKey, memberValue. rewrite TrimPrefix_app.
  unfold scanMember. rewrite CutPrefix_app.
  pose proof Hhost as (Hdom & _). pose proof Hdom as [Hne Hsp]%andb_true_iff.
  assert (is_domain (MemberString m) = true) as Hm.
  { unfold is_domain, MemberString. rewrite no_space_app, Hsp.
    change (":" +:+ Itoa (Port m)) with (String ":" (Itoa (Port m))). cbn [no_space].
    rewrite (numeric_no_space _ (Itoa_numeric (Port m))). by destruct (Host m). }
  rewrite skip_spaces_word by done. pose proof Hm as [Hmne Hmsp]%andb_true_iff.
  change (" cv=" +:+ VersionString (APIVer m)) with (String " " ("cv=" +:+ VersionString (APIVer m))).
  rewrite scan_word_app by done. apply negb_true_iff in Hmne. rewrite Hmne.
  change (skip_spaces (String " " ("cv=" +:+ VersionString (APIVer m)))) with
    ("cv=" +:+ VersionString (APIVer m)). rewrite CutPrefix_app.
  assert (is_domain (VersionString (APIVer m)) = true) as Hv.
  { assert (∀ n, no_space (FormatUint n) = true) as Hd.
    { intros n. apply numeric_no_space. eapply all_chars_impl; [|apply FormatUint_digits].
      intros c Hc. unfold is_numeric. by rewrite Hc. }
    unfold VersionString, is_domain. rewrite !no_space_app, !Hd. done. }
  pose proof (skip_spaces_word _ "" Hv) as Hk. rewrite string_app_nil in Hk. rewrite Hk.
  apply andb_true_iff in Hv as [_ Hv]. rewrite scan_word_all by done. cbn [fst].
  rewrite SplitHostPort_Member, scanVersion_String, Atoi_Itoa by done. by destruct m.
Qed.

(** ** Connections to the other members ([clusterconnmanager]) *)
Record clusterConn := MkConn { conn_target : string; conn_ver : SemanticVersion }.

Definition newConn (addr : string) (port : Z) (ver : SemanticVersion) : clusterConn :=
  MkConn (addr +:+ ":" +:+ Itoa port) ver.

(** Dialling a target and closing its connection. *)
Class ConnEnv (W : Type) := {
  conn_dial : string → M W unit;
  conn_Close : string → M W unit;
}.

Definition ErrConnNotFound (instanceID : string) : goerror :=
  ErrText ("clusterconnmanager: cluster connection not found: " +:+ instanceID).
Definition ErrIncompatibleProtocol (want got : SemanticVersion) : goerror :=
  ErrText ("clusterconnmanager: incompatible cluster API protocol: expected " +:+
    VersionString want +:+ ", got " +:+ VersionString got).

Section connmanager.
Context {W : Type} `{!ConnEnv W}.
Abbreviation conns := (gmap string clusterConn).
Abbreviation MC := (M (gmap string clusterConn * W)).

Definition NewManager : conns := ∅.

Definition GetConnection (instanceID : string) : MC clusterConn :=
  c ← fld (fun cs : conns => cs !! instanceID);
  match c with
  | None => fail (ErrConnNotFound instanceID)
  | Some conn =>
    if negb (major ClusterAPIVersion =? major (conn_ver conn))
    then fail (ErrIncompatibleProtocol ClusterAPIVersion (conn_ver conn))
    else mret conn
  end.

(** [close] of a connection, of the nil connection where there is none *)
Definition close (cl : option clusterConn) : MC unit :=
  match cl with
  | Some c => onW (conn_Close (conn_target c))
  | None => crash_with NilDeref
  end.

Definition dropConn (instanceID : string) : MC unit :=
  cl ← fld (fun cs : conns => cs !! instanceID);
  ignore (close cl);;
  setf (delete instanceID).
Definition addConn (member : Member) : MC unit :=
  let cl := newConn (Host member) (Port member) (APIVer member) in
  r ← try (onW (conn_dial (conn_target cl)));
  match r with
  | inl _ => mret tt
  | inr _ => setf (<[InstanceID member := cl]>)
  end.
Definition onMemberListUpdated (Registered : list Member) (UnregisteredKeys : list string) : MC unit :=
  for_each UnregisteredKeys dropConn;;
  for_each Registered addConn.

(** [Stop] of the manager, up to the first connection that does not close *)
Definition StopManager (order : list (string * clusterConn)) : MC unit :=
  for_each order (fun '(instanceID, cl) => close (Some cl);; setf (delete instanceID)).

(** The cluster router ([clusterrouter.Router]): the call is made on the local
    router of the instance, over its connection. *)
Context {Stanza : Type} (lr_Route : string → Stanza → string → string → M W unit).
Context (lr_Disconnect : string → string → string → goerror → M W unit).

Definition Route (stanza : Stanza) (username resource instanceID : string) : MC unit :=
  conn ← GetConnection instanceID;
  onW (lr_Route (conn_target conn) stanza username resource).

Definition Disconnect (username resource : string) (streamErr : goerror) (instanceID : string)
    : MC unit :=
  conn ← GetConnection instanceID;
  onW (lr_Disconnect (conn_target conn) username resource streamErr).

End connmanager.

(** ** Both together *)
Section together.
Context {W : Type} `{!KV W} `{!ConnEnv W}.
Context (kv_GetPrefix : string → M W (list (string * string))) (id : string).

(** The world of the member list is the connection manager and what is below. *)
#[local] Instance conn_ml (getHostIP : M W string) : MLEnv (gmap string clusterConn * W) := {|
  ml_runHook := onMemberListUpdated;
  ml_getHostIP := onW getHostIP;
|}.

Context (getHostIP : M W string).
Let env := conn_ml getHostIP.

(** Dialling succeeds, and closing does not panic. *)
Class ConnOk : Prop := {
  dial_ok : ∀ t w, ∃ w', conn_dial t w = (Ok tt, w');
  close_ok : ∀ t w c, (conn_Close t w).1 ≠ Crash c;
}.
Context `{!ConnOk}.

Definition conn_of (m : Member) : clusterConn := newConn (Host m) (Port m) (APIVer m).

(** What the members are after changes. *)
Definition member_apply (ms : gmap string Member) (ev : WatchEvent) : gmap string Member :=
  if isLocalMemberKey id (ev_Key ev) then ms
  else match ev_Type ev with
  | WPut =>
    match decodeClusterMember (ev_Key ev) (ev_Val ev) with
    | inr m => <[InstanceID m := m]> ms
    | inl _ => ms
    end
  | WDel => delete (TrimPrefix (ev_Key ev) memberKeyPrefix) ms
  end.
Definition members_after (ms : gmap string Member) (evs : list WatchEvent) : gmap string Member :=
  foldl member_apply ms evs.

(** A change that is about the key of a member: a value that decodes, or the end
    of a known member. *)
Definition change_ok (ms : gmap string Member) (ev : WatchEvent) : Prop :=
  ∃ j, ev_Key ev = localMemberKey j ∧
    (j ≠ id → match ev_Type ev with
      | WPut => ∃ m, decodeClusterMember (ev_Key ev) (ev_Val ev) = inr m
      | WDel => is_Some (ms !! j)
      end).
Definition batch_ok (ms : gmap string Member) (evs : list WatchEvent) : Prop :=
  NoDup (ev_Key <$> evs) ∧ Forall (change_ok ms) evs.

Definition ins (ps : list Member) (ms : gmap string Member) : gmap string Member :=
  foldl (fun ms m => <[InstanceID m := m]> ms) ms ps.
Definition del (ds : list string) (ms : gmap string Member) : gmap string Member :=
  foldl (fun ms j => delete j ms) ms ds.

Lemma delete_ins j ps ms : j ∉ (InstanceID <$> ps) → delete j (ins ps ms) = ins ps (delete j ms).
Proof.
  revert ms. induction ps as [|m ps IH]; intros ms Hj; [done|].
  apply not_elem_of_cons in Hj as [Hne Hj]. simpl. rewrite IH by done. f_equal.
  by apply delete_insert_ne.
Qed.

Lemma decode_id key val m : decodeClusterMember key val = inr m → InstanceID m = TrimPrefix key memberKeyPrefix.
Proof.
  unfold decodeClusterMember. destruct (scanMember val) as [addr v].
  destruct (SplitHostPort addr) as [|[h p]]; [done|]. by intros [= <-].
Qed.

Lemma local_key j : isLocalMemberKey id (localMemberKey j) = String.eqb j id.
Proof.
  unfold isLocalMemberKey. destruct (String.eqb_spec j id) as [->|Hne]; [apply String.eqb_refl|].
  apply String.eqb_neq. intros E. apply (f_equal (fun s => TrimPrefix s memberKeyPrefix)) in E.
  unfold localMemberKey in E. by rewrite !TrimPrefix_app in E.
Qed.

(** The loop: what it collects gives the members when the keys are distinct. *)
Lemma processLoop_ok ms0 evs : ∀ ps ds s w,
  batch_ok ms0 evs → members s = ins ps (del ds ms0) → NoDup ds → Forall (fun j => is_Some (ms0 !! j)) ds →
  (∀ ev, ev ∈ evs → TrimPrefix (ev_Key ev) memberKeyPrefix ∉ ds ∧
     TrimPrefix (ev_Key ev) memberKeyPrefix ∉ (InstanceID <$> ps)) →
  ∃ ps' ds', processLoop (W:=gmap string clusterConn * W) id ps ds evs (s, w) =
      (Ok (ps', ds'), (MkML (members_after (members s) evs) (mu_locked s), w)) ∧
    members_after (members s) evs = ins ps' (del ds' ms0) ∧
    NoDup ds' ∧ Forall (fun j => is_Some (ms0 !! j)) ds'.
Proof.
  induction evs as [|ev evs IH]; intros ps ds s w [Hnd Hok] Hs Hds Hin Hfresh.
  { exists ps, ds. by destruct s. }
  apply NoDup_cons in Hnd as [Hk Hnd]. apply Forall_cons in Hok as [(j & Ej & Hj) Hok].
  assert (∀ ev', ev' ∈ evs → TrimPrefix (ev_Key ev') memberKeyPrefix ≠ j) as Hother.
  { intros ev' Hev' E. rewrite Forall_forall in Hok. destruct (Hok ev' Hev') as (j' & Ej' & _).
    apply Hk. rewrite Ej in *. rewrite Ej' in E. unfold localMemberKey in E. rewrite TrimPrefix_app in E.
    subst j'. apply list_elem_of_fmap. exists ev'. split; [|done]. congruence. }
  destruct (Hfresh ev) as [Hf1 Hf2]; [set_solver|].
  simpl. unfold member_apply at 1 2. rewrite Ej, local_key in *.
  assert (TrimPrefix (localMemberKey j) memberKeyPrefix = j) as Etrim by apply TrimPrefix_app.
  rewrite Etrim in *. destruct (String.eqb_spec j id) as [->|Hne].
  { apply IH; [done..|]. set_solver. }
  specialize (Hj Hne). destruct (ev_Type ev).
  - destruct Hj as (m & Hm). rewrite Hm.
    pose proof (decode_id _ _ _ Hm) as Hid. rewrite Etrim in Hid.
    rewrite (bind_Ok _ _ _ tt (addMember m s, w)) by done.
    apply (IH (ps ++ [m]) ds (addMember m s)); [done| |done|done|].
    + simpl. rewrite Hs. unfold ins. by rewrite foldl_app.
    + intros ev' Hev'. split; [set_solver|]. rewrite fmap_app. simpl.
      pose proof (Hother ev' Hev'). set_solver.
  - rewrite (bind_Ok _ _ _ tt (MkML (delete j (members s)) (mu_locked s), w)) by done.
    specialize (IH ps (ds ++ [j]) (MkML (delete j (members s)) (mu_locked s)) w).
    cbn [members mu_locked] in IH. apply IH; [done| | | |].
    + rewrite Hs, delete_ins by done. unfold del. by rewrite foldl_app.
    + apply NoDup_app. split; [done|]. split; [set_solver|apply NoDup_singleton].
    + apply Forall_app. split; [done|by constructor].
    + intros ev' Hev'. pose proof (Hother ev' Hev'). split; [set_solver|set_solver].
Qed.

(** The handler of the connection manager follows. *)
Lemma drop_conns ds : ∀ ms w, NoDup ds → Forall (fun j => is_Some (ms !! j)) ds →
  ∃ w', for_each ds (dropConn (W:=W)) (conn_of <$> ms, w) = (Ok tt, (conn_of <$> del ds ms, w')).
Proof.
  induction ds as [|j ds IH]; intros ms w Hnd Hin; [by exists w|].
  apply NoDup_cons in Hnd as [Hj Hnd]. apply Forall_cons in Hin as [[m Hm] Hin].
  destruct (IH (delete j ms) (conn_Close (conn_target (conn_of m)) w).2 Hnd) as [w' Hw'].
  { rewrite Forall_forall in Hin |- *. intros k Hk. rewrite lookup_delete_ne by set_solver. by apply Hin. }
  exists w'. cbn [for_each]. rewrite (bind_Ok _ _ _ tt (conn_of <$> delete j ms, (conn_Close (conn_target (conn_of m)) w).2)); [exact Hw'|].
  unfold dropConn, fld, gets. unfold mbind at 1, M_bind at 1. simpl. rewrite lookup_fmap, Hm. simpl.
  unfold ignore, try, mbind, M_bind, onW, setf, modify. pose proof (close_ok (conn_target (conn_of m)) w) as Hc.
  change (Host m +:+ ":" +:+ Itoa (Port m)) with (conn_target (conn_of m)).
  destruct (conn_Close (conn_target (conn_of m)) w) as [[[]|e|c] w1]; simpl in *; [by rewrite fmap_delete..|].
  by destruct (Hc c).
Qed.

Lemma add_conns ps : ∀ ms w,
  ∃ w', for_each ps (addConn (W:=W)) (conn_of <$> ms, w) = (Ok tt, (conn_of <$> ins ps ms, w')).
Proof.
  induction ps as [|m ps IH]; intros ms w; [by exists w|].
  destruct (dial_ok (conn_target (conn_of m)) w) as [w1 Hd].
  destruct (IH (<[InstanceID m := m]> ms) w1) as [w' Hw']. exists w'. cbn [for_each].
  rewrite (bind_Ok _ _ _ tt (conn_of <$> <[InstanceID m := m]> ms, w1)); [exact Hw'|].
  unfold addConn. fold (conn_of m). unfold try, mbind, M_bind, onW, setf, modify.
  rewrite Hd. simpl. by rewrite fmap_insert.
Qed.

Lemma batch_connected evs ms w : batch_ok ms evs → ∃ w',
  processKVEvents (MLEnv0:=env) id evs (MkML ms false, (conn_of <$> ms, w)) =
    (Ok tt, (MkML (members_after ms evs) false, (conn_of <$> members_after ms evs, w'))).
Proof.
  intros Hok.
  destruct (processLoop_ok ms evs [] [] (MkML ms true) (conn_of <$> ms, w)) as (ps & ds & Hrun & Heq & Hnd & Hin);
    [done|done|apply NoDup_nil_2|constructor|set_solver|].
  destruct (drop_conns ds ms w Hnd Hin) as [w1 H1].
  destruct (add_conns ps (del ds ms) w1) as [w2 H2]. exists w2.
  unfold processKVEvents. rewrite (bind_Ok _ _ _ tt (MkML ms true, (conn_of <$> ms, w))) by done.
  rewrite (bind_Ok _ _ _ (ps, ds) (MkML (members_after ms evs) true, (conn_of <$> ms, w))) by exact Hrun.
  rewrite (bind_Ok _ _ _ tt (MkML (members_after ms evs) false, (conn_of <$> ms, w))) by done.
  unfold onW at 1. simpl. unfold onMemberListUpdated.
  rewrite (bind_Ok _ _ _ tt _ H1), H2. simpl in Heq. by rewrite Heq.
Qed.

Fixpoint batches_ok (ms : gmap string Member) (bs : list (list WatchEvent)) : Prop :=
  match bs with
  | [] => True
  | b :: bs' => batch_ok ms b ∧ batches_ok (members_after ms b) bs'
  end.

Lemma batches_connected bs : ∀ ms w, batches_ok ms bs → ∃ w',
  for_each bs (processKVEvents (MLEnv0:=env) id) (MkML ms false, (conn_of <$> ms, w)) =
    (Ok tt, (MkML (members_after ms (concat bs)) false, (conn_of <$> members_after ms (concat bs), w'))).
Proof.
  induction bs as [|b bs IH]; intros ms w Hok; [by exists w|]. destruct Hok as [Hb Hok].
  destruct (batch_connected b ms w Hb) as [w1 H1]. destruct (IH _ w1 Hok) as [w2 H2].
  exists w2. cbn [for_each]. rewrite (bind_Ok _ _ _ tt _ H1), H2. simpl.
  unfold members_after. by rewrite foldl_app.
Qed.

Lemma refresh_connected w vs w1 : kv_GetPrefix memberKeyPrefix w = (Ok vs, w1) → ∃ w',
  refreshMemberList (MLEnv0:=env) (fun p => onW (kv_GetPrefix p)) id (NewKVMemberList, (NewManager, w)) =
    (Ok tt, (MkML (ins (decodeMembers id vs) ∅) false, (conn_of <$> ins (decodeMembers id vs) ∅, w'))).
Proof.
  intros Hget. destruct (add_conns (decodeMembers id vs) ∅ w1) as [w2 H2]. exists w2.
  unfold refreshMemberList, getMembers.
  rewrite (bind_Ok _ _ _ (decodeMembers id vs) (NewKVMemberList, (NewManager, w1))).
  2:{ rewrite (bind_Ok _ _ _ vs (NewKVMemberList, (NewManager, w1))); [done|].
      unfold onW. by rewrite Hget. }
  rewrite (bind_Ok _ _ _ tt (MkML ∅ true, (NewManager, w1))) by done.
  rewrite (bind_Ok _ _ _ tt (MkML (ins (decodeMembers id vs) ∅) true, (NewManager, w1))).
  2:{ clear. generalize (∅ : gmap string Member). induction (decodeMembers id vs) as [|m ms IH]; intros ms0; [done|].
      exact (IH _). }
  rewrite (bind_Ok _ _ _ tt (MkML (ins (decodeMembers id vs) ∅) false, (NewManager, w1))) by done.
  unfold onW at 1. simpl. unfold onMemberListUpdated.
  rewrite (bind_Ok _ _ _ tt (NewManager, w1)) by done.
  rewrite fmap_empty in H2. unfold NewManager. by rewrite H2.
Qed.

(** The member list and the connections agree.  From the start on, through any
    number of batches of changes of the store, the member list holds exactly the
    members that the changes leave, the manager has exactly one connection to
    each of them, at the address and with the version it registered, and a
    connection is given out exactly to a member of the same major version.  In
    each batch the keys are distinct, values decode, and only known members
    leave; dialling succeeds. *)
Theorem members_connected (w w1 : W) (vs : list (string * string)) (bs : list (list WatchEvent))
    (Hget : kv_GetPrefix memberKeyPrefix w = (Ok vs, w1))
    (Hbs : batches_ok (ins (decodeMembers id vs) ∅) bs) :
  let ms := members_after (ins (decodeMembers id vs) ∅) (concat bs) in
  ∃ w',
    (refreshMemberList (MLEnv0:=env) (fun p => onW (kv_GetPrefix p)) id;;
     for_each bs (processKVEvents (MLEnv0:=env) id)) (NewKVMemberList, (NewManager, w)) =
      (Ok tt, (MkML ms false, (conn_of <$> ms, w'))) ∧
    ∀ j c, (GetConnection j (conn_of <$> ms, w')).1 = Ok c ↔
      ∃ m, ms !! j = Some m ∧ c = conn_of m ∧ major (APIVer m) = major ClusterAPIVersion.
Proof.
  intros ms. destruct (refresh_connected w vs w1 Hget) as [w2 H2].
  destruct (batches_connected bs _ w2 Hbs) as [w3 H3]. exists w3. split.
  - by rewrite (bind_Ok _ _ _ tt _ H2).
  - intros j c. fold ms. unfold GetConnection.
    rewrite (bind_Ok _ _ _ (conn_of <$> ms !! j) (conn_of <$> ms, w3)).
    2:{ unfold fld, gets. cbn [fst]. by rewrite lookup_fmap. }
    destruct (ms !! j) as [m|] eqn:E; cbn [fmap option_fmap option_map];
      [|split; [done|by intros (? & ? & _)]].
    change (conn_ver (conn_of m)) with (APIVer m).
    destruct (Z.eqb_spec (major ClusterAPIVersion) (major (APIVer m))) as [Hv|Hv]; cbn [negb]; split.
    + intros [= <-]. by exists m.
    + by intros (m' & [= <-] & -> & _).
    + done.
    + intros (m' & [= <-] & _ & Hm). by destruct Hv.
Qed.

(** A member without a connection takes the instance down when it leaves.
    Closing the connection that is not there dereferences nil, in a goroutine of
    its own.  A member has none after a failed dial, and when it leaves between
    the opening of the watch and the reading of the snapshot at start-up. *)
Theorem unknown_leave_panics (j : string) (ms : gmap string Member) (cs : gmap string clusterConn)
    (w : W) (Hj : j ≠ id) (Hcs : cs !! j = None) :
  (processKVEvents (MLEnv0:=env) id [MkEvent WDel (localMemberKey j) ""]
    (MkML ms false, (cs, w))).1 = Crash NilDeref.
Proof.
  unfold processKVEvents. rewrite (bind_Ok _ _ _ tt (MkML ms true, (cs, w))) by done.
  rewrite (bind_Ok _ _ _ ([], [j]) (MkML (delete j ms) true, (cs, w))).
  2:{ cbn [processLoop ev_Key ev_Type]. rewrite local_key, (proj2 (String.eqb_neq j id)) by done.
      unfold localMemberKey. by rewrite TrimPrefix_app. }
  rewrite (bind_Ok _ _ _ tt (MkML (delete j ms) false, (cs, w))) by done.
  assert (dropConn j (cs, w) = (Crash NilDeref, (cs, w))) as Hd.
  { unfold dropConn. by rewrite (bind_Ok _ _ _ None (cs, w)) by (unfold fld, gets; by rewrite <-Hcs). }
  unfold onW, ml_runHook, env, conn_ml, onMemberListUpdated, for_each, mbind, M_bind. by rewrite Hd.
Qed.

End together.

(** A value that does not decode blocks the member list for good: the loop
    returns with the mutex locked, and every later look at the members, and every
    later change, waits for it. *)
Theorem bad_member_value_blocks {W : Type} `{!MLEnv W} (id k v : string) (e : goerror)
    (evs : list WatchEvent) (ms : gmap string Member) (w : W)
    (Hk : isLocalMemberKey id k = false) (Hv : decodeClusterMember k v = inl e) :
  processKVEvents id (MkEvent WPut k v :: evs) (MkML ms false, w) = (Err e, (MkML ms true, w)) ∧
  (∀ j, (GetMember j (MkML ms true, w)).1 = Crash Deadlock) ∧
  (∀ evs', (processKVEvents id evs' (MkML ms true, w)).1 = Crash Deadlock).
Proof.
  split; [|done]. unfold processKVEvents. rewrite (bind_Ok _ _ _ tt (MkML ms true, w)) by done.
  cbn [processLoop ev_Key ev_Type ev_Val]. by rewrite Hk, Hv.
Qed.

(** ** Two members *)
Module MembersDemo.

#[export] Instance env : ConnEnv unit := {|
  conn_dial := fun _ => mret tt;
  conn_Close := fun _ => mret tt;
|}.
#[export] Instance members_env_ok : ConnOk (W:=unit).
Proof. split; [by intros t []; exists tt|done]. Qed.

Definition romeo : Member := MkMember "i2" "10.0.0.2" 14369 ClusterAPIVersion.
Definition old : Member := MkMember "i3" "10.0.0.3" 14369 (NewVersion 0 9 12).

Lemma romeo_host : host_ok (Host romeo).
Proof. done. Qed.

Lemma member_roundtrip_witness :
  decodeClusterMember "i://i2" "a=10.0.0.2:14369 cv=v1.0.0" = inr romeo.
Proof. apply (member_roundtrip romeo); [apply romeo_host|simpl; lia|]. repeat split; simpl; lia. Defined.

(** One member is there at the start, a second one of another version joins, and
    the first one leaves. *)
Definition snapshot : list (string * string) := [("i://i2", "a=10.0.0.2:14369 cv=v1.0.0")].
Definition joins : list WatchEvent := [MkEvent WPut "i://i3" "a=10.0.0.3:14369 cv=v0.9.12"].
Definition leaves : list WatchEvent := [MkEvent WDel "i://i2" ""].

Lemma snapshot_members : decodeMembers "i1" snapshot = [romeo].
Proof. vm_compute. reflexivity. Qed.

Lemma members_connected_witness : ∃ w',
  (refreshMemberList (MLEnv0:=conn_ml (mret "10.0.0.1")) (fun p => onW ((fun _ => mret snapshot) p)) "i1";;
   for_each [joins; leaves] (processKVEvents (MLEnv0:=conn_ml (mret "10.0.0.1")) "i1"))
    (NewKVMemberList, (NewManager, tt)) =
    (Ok tt, (MkML {["i3" := old]} false, ({["i3" := conn_of old]}, w'))).
Proof.
  destruct (@members_connected unit env (fun _ => mret snapshot) "i1" (mret "10.0.0.1")
    members_env_ok tt tt snapshot [joins; leaves]) as (w' & Hrun & _); [done| |].
  { rewrite snapshot_members.
    split; [split; [apply NoDup_singleton|]|split; [split; [apply NoDup_singleton|]|done]].
    - constructor; [|done]. exists "i3". split; [done|]. intros _. exists old. vm_compute. reflexivity.
    - constructor; [|done]. exists "i2". split; [done|]. intros _. exists romeo. vm_compute. reflexivity. }
  exists w'. etransitivity; [exact Hrun|]. vm_compute. reflexivity.
Defined.

Lemma unknown_leave_panics_witness :
  (processKVEvents (MLEnv0:=conn_ml (mret "10.0.0.1")) "i1" leaves (NewKVMemberList, (NewManager, tt))).1 =
    Crash NilDeref.
Proof. by apply (@unknown_leave_panics unit env "i1" (mret "10.0.0.1") "i2" ∅ ∅ tt). Defined.

Lemma bad_member_value_blocks_witness :
  (GetMember "i2" (MkML ∅ true, (NewManager, tt))).1 = Crash Deadlock.
Proof.
  by apply (@bad_member_value_blocks _ (conn_ml (mret "10.0.0.1")) "i1" "i://i2" "a=10.0.0.2" errMissingPort
    [] ∅ (NewManager, tt)).
Defined.

End MembersDemo.
