(* ===== verification/Repository.v ===== *)
(** * The repository interface

    src/pkg/storage/repository: what the modules ask of storage.  The back ends
    ([Bolt], and [Cached] on top of another repository) implement it. *)

From stdpp Require Import base list strings gmap.
From Stdlib Require Import ZArith.
From S2P Require Import Prelude Stravaganza Roster Storage.
From S2P Require Users.

(** Accounts, rosters and what users store ([repository.User], [Last],
    [Capabilities], [BlockList], [Private], [VCard], [Roster]) and transactions;
    a method called on a transaction is the method of the same name. *)
Class Rep `{XmlLib} (W : Type) := {
  rep_UpsertUser : Users.User → M W unit;
  rep_DeleteUser : string → M W unit;
  rep_FetchUser : string → M W (option Users.User);
  rep_UserExists : string → M W bool;
  rep_UpsertLast : Last → M W unit;
  rep_FetchLast : string → M W (option Last);
  rep_DeleteLast : string → M W unit;
  rep_UpsertCapabilities : Capabilities → M W unit;
  rep_CapabilitiesExist : string → string → M W bool;
  rep_FetchCapabilities : string → string → M W (option Capabilities);
  rep_UpsertBlockListItem : BlockItem → M W unit;
  rep_DeleteBlockListItem : BlockItem → M W unit;
  rep_FetchBlockListItems : string → M W (list BlockItem);
  rep_DeleteBlockListItems : string → M W unit;
  rep_FetchPrivate : string → string → M W (option Element);
  rep_UpsertPrivate : Element → string → string → M W unit;
  rep_DeletePrivates : string → M W unit;
  rep_UpsertVCard : Element → string → M W unit;
  rep_FetchVCard : string → M W (option Element);
  rep_DeleteVCard : string → M W unit;
  rep_TouchRosterVersion : string → M W Z;
  rep_FetchRosterVersion : string → M W Z;
  rep_UpsertRosterItem : Item → M W unit;
  rep_DeleteRosterItem : string → string → M W unit;
  rep_DeleteRosterItems : string → M W unit;
  rep_FetchRosterItems : string → M W (list Item);
  rep_FetchRosterItemsInGroups : string → list string → M W (list Item);
  rep_FetchRosterItem : string → string → M W (option Item);
  rep_UpsertRosterNotification : Notification → M W unit;
  rep_DeleteRosterNotification : string → string → M W unit;
  rep_DeleteRosterNotifications : string → M W unit;
  rep_FetchRosterNotification : string → string → M W (option Notification);
  rep_FetchRosterNotifications : string → M W (list Notification);
  rep_FetchRosterGroups : string → M W (list string);
  rep_InTransaction : M W unit → M W unit;
}.

(** Messages and locks ([repository.Offline], [Archive], [Locker]). *)
Class RepMessages `{XmlLib} (W : Type) := {
  rep_InsertOfflineMessage : Element → string → M W unit;
  rep_CountOfflineMessages : string → M W Z;
  rep_FetchOfflineMessages : string → M W (list Element);
  rep_DeleteOfflineMessages : string → M W unit;
  rep_InsertArchiveMessage : ArchiveMessage → M W unit;
  rep_FetchArchiveMetadata : string → M W (option Metadata);
  rep_FetchArchiveMessages : Filters → string → M W (list ArchiveMessage);
  rep_DeleteArchiveOldestMessages : string → Z → M W unit;
  rep_DeleteArchive : string → M W unit;
  rep_Lock : string → M W unit;
  rep_Unlock : string → M W unit;
}.
