(* ===== verification/MemRep.v ===== *)
(** * A repository in memory

    An implementation of the repository interface on finite maps, for any world
    that holds it; the witnesses of the development run on it. *)

From stdpp Require Import base list strings gmap.
From Stdlib Require Import ZArith.
From S2P Require Import Prelude Stravaganza Roster Storage Repository.
From S2P Require Users.
Import TreeLib.

Abbreviation XElement := (@Element tree_jid tree_xml).
Abbreviation XNotification := (@Notification tree_jid tree_xml).
Abbreviation XArchiveMessage := (@ArchiveMessage tree_jid tree_xml).

Record mem := MkMem {
  m_users : gmap string Users.User; m_last : gmap string Last;
  m_caps : gmap (string * string) Capabilities; m_block : gmap string (list BlockItem);
  m_private : gmap string (gmap string XElement); m_vcard : gmap string XElement;
  m_version : gmap string Z; m_items : gmap string (list Item); m_notifs : gmap string (list XNotification) }.
Definition no_mem : mem := MkMem ∅ ∅ ∅ ∅ ∅ ∅ ∅ ∅ ∅.

(** A world that holds the repository. *)
Class HasMem (W : Type) := {
  get_mem : W → mem;
  set_mem : mem → W → W;
  (** what is stored in the first world, with the rest of the second *)
  roll_back : W → W → W;
}.

Definition put {W} `{!HasMem W} (f : mem → mem) : M W unit := fun w => (Ok tt, set_mem (f (get_mem w)) w).
Definition read {W A} `{!HasMem W} (f : mem → A) : M W A := gets (fun w => f (get_mem w)).

Definition set_users g r := let 'MkMem a b c d e f h i j := r in MkMem (g a) b c d e f h i j.
Definition set_last g r := let 'MkMem a b c d e f h i j := r in MkMem a (g b) c d e f h i j.
Definition set_caps g r := let 'MkMem a b c d e f h i j := r in MkMem a b (g c) d e f h i j.
Definition set_block g r := let 'MkMem a b c d e f h i j := r in MkMem a b c (g d) e f h i j.
Definition set_private g r := let 'MkMem a b c d e f h i j := r in MkMem a b c d (g e) f h i j.
Definition set_vcard g r := let 'MkMem a b c d e f h i j := r in MkMem a b c d e (g f) h i j.
Definition set_version g r := let 'MkMem a b c d e f h i j := r in MkMem a b c d e f (g h) i j.
Definition set_items g r := let 'MkMem a b c d e f h i j := r in MkMem a b c d e f h (g i) j.
Definition set_notifs g r := let 'MkMem a b c d e f h i j := r in MkMem a b c d e f h i (g j).

Definition on_list {A} (u : string) (f : list A → list A) (m : gmap string (list A)) : gmap string (list A) :=
  <[u := f (default [] (m !! u))]> m.
Lemma lookup_on_list {A} (m : gmap string (list A)) (u : string) (f : list A → list A) (v : string) :
  default [] (on_list u f m !! v) = if decide (v = u) then f (default [] (m !! u)) else default [] (m !! v).
Proof.
  unfold on_list. case_decide as Hd; [subst v; by rewrite lookup_insert_eq|by rewrite lookup_insert_ne].
Qed.

#[export] Instance map_rep {W} `{!HasMem W} : @Rep tree_jid tree_xml W := {|
  rep_UpsertUser := fun user => put (set_users (insert (Users.Username user) user));
  rep_DeleteUser := fun u => put (set_users (delete u));
  rep_FetchUser := fun u => read (fun r => m_users r !! u);
  rep_UserExists := fun u => read (fun r => bool_decide (is_Some (m_users r !! u)));
  rep_UpsertLast := fun l => put (set_last (insert (la_Username l) l));
  rep_FetchLast := fun u => read (fun r => m_last r !! u);
  rep_DeleteLast := fun u => put (set_last (delete u));
  rep_UpsertCapabilities := fun c => put (set_caps (insert (ca_Node c, ca_Ver c) c));
  rep_CapabilitiesExist := fun n v => read (fun r => bool_decide (is_Some (m_caps r !! (n, v))));
  rep_FetchCapabilities := fun n v => read (fun r => m_caps r !! (n, v));
  rep_UpsertBlockListItem := fun i => put (set_block (on_list (bl_Username i) (fun l => i :: filter (fun x => bl_Jid x ≠ bl_Jid i) l)));
  rep_DeleteBlockListItem := fun i => put (set_block (on_list (bl_Username i) (filter (fun x => bl_Jid x ≠ bl_Jid i))));
  rep_FetchBlockListItems := fun u => read (fun r => default [] (m_block r !! u));
  rep_DeleteBlockListItems := fun u => put (set_block (delete u));
  rep_FetchPrivate := fun n u => read (fun r => m_private r !! u ≫= lookup n);
  rep_UpsertPrivate := fun e n u => put (set_private (fun m => <[u := <[n := e]> (default ∅ (m !! u))]> m));
  rep_DeletePrivates := fun u => put (set_private (delete u));
  rep_UpsertVCard := fun e u => put (set_vcard (insert u e));
  rep_FetchVCard := fun u => read (fun r => m_vcard r !! u);
  rep_DeleteVCard := fun u => put (set_vcard (delete u));
  rep_TouchRosterVersion := fun u => put (set_version (fun m => <[u := (default 0 (m !! u) + 1)%Z]> m));; read (fun r => int32 (default 0%Z (m_version r !! u)));
  rep_FetchRosterVersion := fun u => read (fun r => int32 (default 0%Z (m_version r !! u)));
  rep_UpsertRosterItem := fun i => put (set_items (on_list (Username i) (fun l => i :: filter (fun x => Jid x ≠ Jid i) l)));
  rep_DeleteRosterItem := fun u j => put (set_items (on_list u (filter (fun x => Jid x ≠ j))));
  rep_DeleteRosterItems := fun u => put (set_items (delete u));
  rep_FetchRosterItems := fun u => read (fun r => default [] (m_items r !! u));
  rep_FetchRosterItemsInGroups := fun u gs => read (fun r => filter (fun i => Exists (fun g => g ∈ gs) (Groups i)) (default [] (m_items r !! u)));
  rep_FetchRosterItem := fun u j => read (fun r => list_find (fun i => Jid i = j) (default [] (m_items r !! u)) ≫= (fun x => Some x.2));
  rep_UpsertRosterNotification := fun n =>
    put (set_notifs (on_list (rn_Contact n) (fun l => n :: filter (fun x => rn_Jid x ≠ rn_Jid n) l)));
  rep_DeleteRosterNotification := fun c j => put (set_notifs (on_list c (filter (fun x => rn_Jid x ≠ j))));
  rep_DeleteRosterNotifications := fun c => put (set_notifs (delete c));
  rep_FetchRosterNotification := fun c j => read (fun r => list_find (fun n => rn_Jid n = j) (default [] (m_notifs r !! c)) ≫= (fun x => Some x.2));
  rep_FetchRosterNotifications := fun c => read (fun r => default [] (m_notifs r !! c));
  rep_FetchRosterGroups := fun u => read (fun r => remove_dups (default [] (m_items r !! u) ≫= Groups));
  rep_InTransaction := fun m w =>
    match m w with
    | (Ok _, w') => (Ok tt, w')
    | (r, w') => (r, roll_back w w')
    end;
|}.

(** ** Messages *)
Record mail := MkMail { ml_offline : gmap string (list XElement); ml_archive : gmap string (list XArchiveMessage);
  ml_locks : list string }.
Definition no_mail : mail := MkMail ∅ ∅ [].
Class HasMail (W : Type) := { get_mail : W → mail; set_mail : mail → W → W }.

Definition put_mail {W} `{!HasMail W} (f : mail → mail) : M W unit := fun w => (Ok tt, set_mail (f (get_mail w)) w).
Definition read_mail {W A} `{!HasMail W} (f : mail → A) : M W A := gets (fun w => f (get_mail w)).
Definition set_offline g r := let 'MkMail a b c := r in MkMail (g a) b c.
Definition set_archive g r := let 'MkMail a b c := r in MkMail a (g b) c.
Definition set_locks g r := let 'MkMail a b c := r in MkMail a b (g c).

#[export] Instance map_messages {W} `{!HasMail W} : @RepMessages tree_jid tree_xml W := {|
  rep_InsertOfflineMessage := fun m u => put_mail (set_offline (on_list u (fun l => l ++ [m])));
  rep_CountOfflineMessages := fun u => read_mail (fun r => Z.of_nat (length (default [] (ml_offline r !! u))));
  rep_FetchOfflineMessages := fun u => read_mail (fun r => default [] (ml_offline r !! u));
  rep_DeleteOfflineMessages := fun u => put_mail (set_offline (delete u));
  rep_InsertArchiveMessage := fun m => put_mail (set_archive (on_list (ar_ArchiveId m) (fun l => l ++ [m])));
  rep_FetchArchiveMetadata := fun a => read_mail (fun r =>
    match default [] (ml_archive r !! a), last (default [] (ml_archive r !! a)) with
    | m :: _, Some m' => Some (MkMetadata (ar_Id m) "" (ar_Id m') "")
    | _, _ => None
    end);
  rep_FetchArchiveMessages := fun f a => read_mail (fun r =>
    List.filter (fun m => match fi_Ids f with [] => true | ids => existsb (String.eqb (ar_Id m)) ids end)
      (default [] (ml_archive r !! a)));
  rep_DeleteArchiveOldestMessages := fun a n =>
    put_mail (set_archive (on_list a (fun l => drop (length l - Z.to_nat n) l)));
  rep_DeleteArchive := fun a => put_mail (set_archive (delete a));
  rep_Lock := fun k => put_mail (set_locks (cons k));
  rep_Unlock := fun k => put_mail (set_locks (List.filter (fun x => negb (String.eqb x k))));
|}.
