(* ===== verification/Bolt.v ===== *)
(** * The BoltDB repository

    src/pkg/storage/boltdb: the operations on buckets (op.go), one repository per
    kind of entity on top of them, the methods that wrap each call in a managed
    transaction, and explicit transactions (repository.go).

    The library [go.etcd.io/bbolt] is a class ([Bolt]); [BoltOk] states what it
    documents, in terms of the buckets a transaction sees.  [MapBolt] at the end
    of the file is an instance. *)

From stdpp Require Import base list strings gmap sorting.
From Stdlib Require Import ZArith Lia Ascii.
From S2P Require Import Prelude GoLib GoStrings Stravaganza C2SModel Roster RosterProofs Storage.
From S2P Require Users.

(** ** The database library *)

(** Methods of [bolt.DB], [bolt.Tx], [bolt.Bucket] and [bolt.Cursor].  Buckets are
    given by name; a bucket that is not there has no entries.  [b_Exit] is what
    is left of an open transaction when the process ends. *)
Class Bolt (W : Type) := {
  TX : Type;
  b_Begin : M W TX;
  b_Commit : TX → M W unit;
  b_Rollback : TX → M W unit;
  b_Exit : TX → W → W;
  b_Update : ∀ {A : Type}, M W A → M W A;
  b_View : ∀ {A : Type}, M W A → M W A;
  b_HasBucket : string → W → bool;
  b_CreateBucketIfNotExists : string → M W unit;
  b_DeleteBucket : string → M W unit;
  b_Get : string → string → W → option string;
  b_Put : string → string → string → M W unit;
  b_Delete : string → string → M W unit;
  b_NextSequence : string → M W Z;
  b_Cursor : string → W → list (string * string);
}.

Definition ErrBucketNotFound : goerror := ErrText "bucket not found".

Section ops.
Context {W : Type} `{!Bolt W}.

(** ** Operations on buckets (op.go) *)
Definition liftC {A} (r : goerror + A) : M W A :=
  match r with inl e => fail e | inr a => mret a end.

Definition upsertKeyOp {A} `{!Codec A} (bucket key : string) (obj : A) : M W unit :=
  b_CreateBucketIfNotExists bucket;;
  p ← liftC (MarshalBinary obj);
  b_Put bucket key p.

Definition insertSeqOp {A} `{!Codec A} (bucket : string) (obj : A) : M W unit :=
  b_CreateBucketIfNotExists bucket;;
  p ← liftC (MarshalBinary obj);
  seq ← b_NextSequence bucket;
  b_Put bucket (FormatUint seq) p.

Definition delBucketOp (bucket : string) : M W unit := b_DeleteBucket bucket.

Definition delKeyOp (bucket key : string) : M W unit :=
  b ← gets (b_HasBucket bucket);
  if b : bool then b_Delete bucket key else mret tt.

Definition bucketExistsOp (bucket : string) : M W bool := gets (b_HasBucket bucket).

Definition fetchKeyOp {A} `{!Codec A} (bucket key : string) : M W (option A) :=
  b ← gets (b_HasBucket bucket);
  if negb b then mret None
  else
    data ← gets (b_Get bucket key);
    match data with
    | None => mret None
    | Some p => a ← liftC (UnmarshalBinary p); mret (Some a)
    end.

Definition countKeysOp (bucket : string) : M W Z :=
  b ← gets (b_HasBucket bucket);
  if negb b then mret 0%Z
  else l ← gets (b_Cursor bucket); mret (Z.of_nat (length l)).

(** [iterKeysOp]; [iterFn] extends what was collected so far. *)
Fixpoint iterList {B} (iterFn : B → string → string → goerror + B) (acc : B)
    (l : list (string * string)) : M W B :=
  match l with
  | [] => mret acc
  | (k, v) :: l' => acc' ← liftC (iterFn acc k v); iterList iterFn acc' l'
  end.
Definition iterKeysOp {B} (bucket : string) (iterFn : B → string → string → goerror + B) (acc : B)
    : M W B :=
  b ← gets (b_HasBucket bucket);
  if negb b then mret acc else l ← gets (b_Cursor bucket); iterList iterFn acc l.

(** The loop body that unmarshals a value and keeps it when [p] holds. *)
Definition collect {A} `{!Codec A} (p : A → bool) (acc : list A) (_ v : string) : goerror + list A :=
  match UnmarshalBinary v with
  | inl e => inl e
  | inr a => inr (if p a then acc ++ [a] else acc)
  end.
Definition fetchAll {A} `{!Codec A} (bucket : string) (p : A → bool) : M W (list A) :=
  iterKeysOp bucket (collect p) [].

End ops.

(** ** Repositories in a transaction *)

Definition userBucketKey (username : string) : string := "user:" +:+ username.
Definition lastBucketKey (username : string) : string := "last:" +:+ username.
Definition capsBucketKey (node ver : string) : string := "caps:" +:+ node +:+ ":" +:+ ver.
Definition offlineBucket (username : string) : string := "offline:" +:+ username.
Definition blockListBucket (username : string) : string := "blocklist:" +:+ username.
Definition privateBucketKey (username : string) : string := "prv:" +:+ username.
Definition rosterVersionBucketKey (username : string) : string := "roster:ver:" +:+ username.
Definition rosterItemsBucketKey (username : string) : string := "roster:items:" +:+ username.
Definition rosterNotificationsBucketKey (username : string) : string := "roster:notif:" +:+ username.
Definition vCardBucketKey (username : string) : string := "vcard:" +:+ username.
Definition archiveBucket (archiveID : string) : string := "archive:" +:+ archiveID.

Module Tx.
Section repositories.
Context {W : Type} `{!Bolt W}.
Context `{XmlLib} `{!SortSlice}.
Context `{!Codec Users.User} `{!Codec Item} `{!Codec Notification} `{!Codec RosterVersion}.
Context `{!Codec BlockItem} `{!Codec Last} `{!Codec Capabilities} `{!Codec Element} `{!Codec ArchiveMessage}.

(** [boltDBUserRep] *)
Definition UpsertUser (user : Users.User) : M W unit :=
  upsertKeyOp (userBucketKey (Users.Username user)) "usr" user.
Definition DeleteUser (username : string) : M W unit := delBucketOp (userBucketKey username).
Definition FetchUser (username : string) : M W (option Users.User) :=
  fetchKeyOp (userBucketKey username) "usr".
Definition UserExists (username : string) : M W bool := bucketExistsOp (userBucketKey username).

(** [boltDBLastRep] *)
Definition UpsertLast (last : Last) : M W unit := upsertKeyOp (lastBucketKey (la_Username last)) "lst" last.
Definition FetchLast (username : string) : M W (option Last) := fetchKeyOp (lastBucketKey username) "lst".
Definition DeleteLast (username : string) : M W unit := delBucketOp (lastBucketKey username).

(** [boltDBCapsRep] *)
Definition UpsertCapabilities (caps : Capabilities) : M W unit :=
  upsertKeyOp (capsBucketKey (ca_Node caps) (ca_Ver caps)) "caps" caps.
Definition CapabilitiesExist (node ver : string) : M W bool := bucketExistsOp (capsBucketKey node ver).
Definition FetchCapabilities (node ver : string) : M W (option Capabilities) :=
  fetchKeyOp (capsBucketKey node ver) "caps".

(** [boltDBOfflineRep] *)
Definition InsertOfflineMessage (message : Element) (username : string) : M W unit :=
  insertSeqOp (offlineBucket username) message.
Definition CountOfflineMessages (username : string) : M W Z := countKeysOp (offlineBucket username).
Definition FetchOfflineMessages (username : string) : M W (list Element) :=
  fetchAll (offlineBucket username) (fun _ => true).
Definition DeleteOfflineMessages (username : string) : M W unit := delBucketOp (offlineBucket username).

(** [boltDBBlockListRep] *)
Definition UpsertBlockListItem (item : BlockItem) : M W unit :=
  upsertKeyOp (blockListBucket (bl_Username item)) (bl_Jid item) item.
Definition DeleteBlockListItem (item : BlockItem) : M W unit :=
  delKeyOp (blockListBucket (bl_Username item)) (bl_Jid item).
Definition FetchBlockListItems (username : string) : M W (list BlockItem) :=
  fetchAll (blockListBucket username) (fun _ => true).
Definition DeleteBlockListItems (username : string) : M W unit := delBucketOp (blockListBucket username).

(** [boltDBPrivateRep] *)
Definition FetchPrivate (namespace username : string) : M W (option Element) :=
  fetchKeyOp (privateBucketKey username) namespace.
Definition UpsertPrivate (private : Element) (namespace username : string) : M W unit :=
  upsertKeyOp (privateBucketKey username) namespace private.
Definition DeletePrivates (username : string) : M W unit := delBucketOp (privateBucketKey username).

(** [boltDBVCardRep] *)
Definition UpsertVCard (vCard : Element) (username : string) : M W unit :=
  upsertKeyOp (vCardBucketKey username) "vcard" vCard.
Definition FetchVCard (username : string) : M W (option Element) := fetchKeyOp (vCardBucketKey username) "vcard".
Definition DeleteVCard (username : string) : M W unit := delBucketOp (vCardBucketKey username).

(** [boltDBRosterRep] *)
Definition TouchRosterVersion (username : string) : M W Z :=
  obj ← fetchKeyOp (A:=RosterVersion) (rosterVersionBucketKey username) "ver";
  let ver := match obj with Some v => MkVersion (int32 (rv_Version v + 1)) | None => MkVersion 1 end in
  upsertKeyOp (rosterVersionBucketKey username) "ver" ver;;
  mret (rv_Version ver).
Definition FetchRosterVersion (username : string) : M W Z :=
  obj ← fetchKeyOp (A:=RosterVersion) (rosterVersionBucketKey username) "ver";
  mret (match obj with Some v => rv_Version v | None => 0%Z end).
Definition UpsertRosterItem (ri : Item) : M W unit :=
  upsertKeyOp (rosterItemsBucketKey (Username ri)) (Jid ri) ri.
Definition DeleteRosterItem (username jid : string) : M W unit :=
  delKeyOp (rosterItemsBucketKey username) jid.
Definition DeleteRosterItems (username : string) : M W unit := delBucketOp (rosterItemsBucketKey username).
Definition FetchRosterItems (username : string) : M W (list Item) :=
  fetchAll (rosterItemsBucketKey username) (fun _ => true).
Definition FetchRosterItemsInGroups (username : string) (groups : list string) : M W (list Item) :=
  fetchAll (rosterItemsBucketKey username) (fun itm => existsb (fun gr => bool_decide (gr ∈ groups)) (Groups itm)).
Definition FetchRosterItem (username jid : string) : M W (option Item) :=
  fetchKeyOp (rosterItemsBucketKey username) jid.
Definition UpsertRosterNotification (rn : Notification) : M W unit :=
  upsertKeyOp (rosterNotificationsBucketKey (rn_Contact rn)) (rn_Jid rn) rn.
Definition DeleteRosterNotification (contact jid : string) : M W unit :=
  delKeyOp (rosterNotificationsBucketKey contact) jid.
Definition DeleteRosterNotifications (contact : string) : M W unit :=
  delBucketOp (rosterNotificationsBucketKey contact).
Definition FetchRosterNotification (contact jid : string) : M W (option Notification) :=
  fetchKeyOp (rosterNotificationsBucketKey contact) jid.
Definition FetchRosterNotifications (contact : string) : M W (list Notification) :=
  fetchAll (rosterNotificationsBucketKey contact) (fun _ => true).

(** The groups are collected in a set and sorted; [order] is the set in the order
    of the [range] loop. *)
Definition collectGroups (acc : gset string) (_ v : string) : goerror + gset string :=
  match UnmarshalBinary (A:=Item) v with
  | inl e => inl e
  | inr itm => inr (acc ∪ list_to_set (Groups itm))
  end.
Definition FetchRosterGroups (order : gset string → list string) (username : string) : M W (list string) :=
  groupsMap ← iterKeysOp (rosterItemsBucketKey username) collectGroups ∅;
  mret (sort_slice String.ltb (order groupsMap)).

(** [boltDBArchiveRep]; [formatStamp] writes a time in [archiveStampFormat] *)
Context (formatStamp : Z → string).

Definition InsertArchiveMessage (message : ArchiveMessage) : M W unit :=
  insertSeqOp (archiveBucket (ar_ArchiveId message)) message.

(** A cursor on an empty bucket gives a nil value, which unmarshals like no
    bytes. *)
Definition FetchArchiveMetadata (archiveID : string) : M W (option Metadata) :=
  b ← gets (b_HasBucket (archiveBucket archiveID));
  if negb b then mret None
  else
    l ← gets (b_Cursor (archiveBucket archiveID));
    first ← liftC (UnmarshalBinary (A:=ArchiveMessage) (default "" (snd <$> head l)));
    final ← liftC (UnmarshalBinary (A:=ArchiveMessage) (default "" (snd <$> last l)));
    mret (Some (MkMetadata (ar_Id first) (formatStamp (ar_Stamp first))
                  (ar_Id final) (formatStamp (ar_Stamp final)))).

(** [applyFilters] *)
Fixpoint filterWith (jd : JID) (messages : list ArchiveMessage) : M W (list ArchiveMessage) :=
  match messages with
  | [] => mret []
  | msg :: messages' =>
    matches ← (if IsFull jd then
        mret (String.eqb (ar_FromJid msg) (JIDString jd) || String.eqb (ar_ToJid msg) (JIDString jd))
      else
        let fromJID := NewWithString (ar_FromJid msg) true in
        let toJID := NewWithString (ar_ToJid msg) true in
        f ← deref fromJID;
        if MatchesBare f jd then mret true
        else t ← deref toJID; mret (MatchesBare t jd));
    filtered ← filterWith jd messages';
    mret (if matches : bool then msg :: filtered else filtered)
  end.

(** The loops that cut the list at the first message that satisfies [p]. *)
Fixpoint cutBefore (p : ArchiveMessage → bool) (messages : list ArchiveMessage)
    : option (list ArchiveMessage) :=
  match messages with
  | [] => None
  | msg :: messages' => if p msg then Some [] else (cons msg) <$> cutBefore p messages'
  end.
Fixpoint cutAfter (p : ArchiveMessage → bool) (messages : list ArchiveMessage)
    : option (list ArchiveMessage) :=
  match messages with
  | [] => None
  | msg :: messages' => if p msg then Some messages' else cutAfter p messages'
  end.
Fixpoint cutFrom (p : ArchiveMessage → bool) (messages : list ArchiveMessage)
    : option (list ArchiveMessage) :=
  match messages with
  | [] => None
  | msg :: messages' => if p msg then Some messages else cutFrom p messages'
  end.

Definition filterIds (f : Filters) (retVal : list ArchiveMessage) : list ArchiveMessage :=
  if (0 <? length (fi_Ids f))%nat then
    List.filter (fun msg => existsb (String.eqb (ar_Id msg)) (fi_Ids f)) retVal
  else
    let retVal := if String.eqb (fi_BeforeId f) "" then retVal
      else default retVal (cutBefore (fun msg => String.eqb (ar_Id msg) (fi_BeforeId f)) retVal) in
    if String.eqb (fi_AfterId f) "" then retVal
    else default retVal (cutAfter (fun msg => String.eqb (ar_Id msg) (fi_AfterId f)) retVal).

Definition filterStamps (f : Filters) (retVal : list ArchiveMessage) : list ArchiveMessage :=
  let retVal := match fi_Start f with
    | None => retVal
    | Some start => default retVal (cutFrom (fun msg => (start <? ar_Stamp msg)%Z) retVal)
    end in
  match fi_End f with
  | None => retVal
  | Some fin => default retVal (cutBefore (fun msg => negb (ar_Stamp msg <? fin)%Z) retVal)
  end.

Definition applyFilters (messages : list ArchiveMessage) (f : Filters) : M W (list ArchiveMessage) :=
  retVal ← (if String.eqb (fi_With f) "" then mret messages
    else match NewWithString (fi_With f) false with
    | None => fail (ErrText "jid: invalid")
    | Some jd => filterWith jd messages
    end);
  mret (filterStamps f (filterIds f retVal)).

Definition FetchArchiveMessages (f : Filters) (archiveID : string) : M W (list ArchiveMessage) :=
  retVal ← fetchAll (archiveBucket archiveID) (fun _ => true);
  applyFilters retVal f.

(** [DeleteArchiveOldestMessages]: the first keys of the cursor, as many as there
    are too many. *)
Definition DeleteArchiveOldestMessages (archiveID : string) (maxElements : Z) : M W unit :=
  b ← gets (b_HasBucket (archiveBucket archiveID));
  if negb b then mret tt
  else
    l ← gets (b_Cursor (archiveBucket archiveID));
    let count := Z.of_nat (length l) in
    if (count <? maxElements)%Z then mret tt
    else
      for_each (take (Z.to_nat (count - maxElements)) l.*1)
        (fun k => b_Delete (archiveBucket archiveID) k).

Definition DeleteArchive (archiveID : string) : M W unit := delBucketOp (archiveBucket archiveID).

End repositories.
End Tx.

(** ** The repository: every call in a transaction of its own *)
Section repository.
Context {W : Type} `{!Bolt W}.
Context `{XmlLib} `{!SortSlice}.
Context `{!Codec Users.User} `{!Codec Item} `{!Codec Notification} `{!Codec RosterVersion}.
Context `{!Codec BlockItem} `{!Codec Last} `{!Codec Capabilities} `{!Codec Element} `{!Codec ArchiveMessage}.
Context (formatStamp : Z → string).

(** [InTransaction]; a panic of [f] ends the process with the transaction open. *)
Definition InTransaction (f : M W unit) : M W unit := fun w =>
  match b_Begin w with
  | (Ok tx, w1) =>
    match f w1 with
    | (Ok _, w2) => b_Commit tx w2
    | (Err e, w2) => (Err e, (b_Rollback tx w2).2)
    | (Crash c, w2) => (Crash c, b_Exit tx w2)
    end
  | (Err e, w1) => (Err e, w1)
  | (Crash c, w1) => (Crash c, w1)
  end.

Definition UpsertUser u : M W unit := b_Update (Tx.UpsertUser u).
Definition DeleteUser u : M W unit := b_Update (Tx.DeleteUser u).
Definition FetchUser u : M W (option Users.User) := b_View (Tx.FetchUser u).
Definition UserExists u : M W bool := b_View (Tx.UserExists u).
Definition UpsertLast l : M W unit := b_Update (Tx.UpsertLast l).
Definition FetchLast u : M W (option Last) := b_View (Tx.FetchLast u).
Definition DeleteLast u : M W unit := b_Update (Tx.DeleteLast u).
Definition UpsertCapabilities c : M W unit := b_Update (Tx.UpsertCapabilities c).
Definition CapabilitiesExist n v : M W bool := b_View (Tx.CapabilitiesExist n v).
Definition FetchCapabilities n v : M W (option Capabilities) := b_View (Tx.FetchCapabilities n v).
Definition InsertOfflineMessage m u : M W unit := b_Update (Tx.InsertOfflineMessage m u).
Definition CountOfflineMessages u : M W Z := b_View (Tx.CountOfflineMessages u).
Definition FetchOfflineMessages u : M W (list Element) := b_View (Tx.FetchOfflineMessages u).
Definition DeleteOfflineMessages u : M W unit := b_Update (Tx.DeleteOfflineMessages u).
Definition UpsertBlockListItem i : M W unit := b_Update (Tx.UpsertBlockListItem i).
Definition DeleteBlockListItem i : M W unit := b_Update (Tx.DeleteBlockListItem i).
Definition FetchBlockListItems u : M W (list BlockItem) := b_View (Tx.FetchBlockListItems u).
Definition DeleteBlockListItems u : M W unit := b_Update (Tx.DeleteBlockListItems u).
Definition FetchPrivate n u : M W (option Element) := b_View (Tx.FetchPrivate n u).
Definition UpsertPrivate p n u : M W unit := b_Update (Tx.UpsertPrivate p n u).
Definition DeletePrivates u : M W unit := b_Update (Tx.DeletePrivates u).
Definition UpsertVCard v u : M W unit := b_Update (Tx.UpsertVCard v u).
Definition FetchVCard u : M W (option Element) := b_View (Tx.FetchVCard u).
Definition DeleteVCard u : M W unit := b_Update (Tx.DeleteVCard u).
Definition TouchRosterVersion u : M W Z := b_Update (Tx.TouchRosterVersion u).
Definition FetchRosterVersion u : M W Z := b_View (Tx.FetchRosterVersion u).
Definition UpsertRosterItem ri : M W unit := b_Update (Tx.UpsertRosterItem ri).
Definition DeleteRosterItem u j : M W unit := b_Update (Tx.DeleteRosterItem u j).
Definition DeleteRosterItems u : M W unit := b_Update (Tx.DeleteRosterItems u).
Definition FetchRosterItems u : M W (list Item) := b_View (Tx.FetchRosterItems u).
Definition FetchRosterItemsInGroups u gs : M W (list Item) := b_View (Tx.FetchRosterItemsInGroups u gs).
Definition FetchRosterItem u j : M W (option Item) := b_View (Tx.FetchRosterItem u j).
Definition UpsertRosterNotification rn : M W unit := b_Update (Tx.UpsertRosterNotification rn).
Definition DeleteRosterNotification c j : M W unit := b_Update (Tx.DeleteRosterNotification c j).
Definition DeleteRosterNotifications c : M W unit := b_Update (Tx.DeleteRosterNotifications c).
Definition FetchRosterNotification c j : M W (option Notification) :=
  b_View (Tx.FetchRosterNotification c j).
Definition FetchRosterNotifications c : M W (list Notification) :=
  b_View (Tx.FetchRosterNotifications c).
Definition FetchRosterGroups order u : M W (list string) := b_View (Tx.FetchRosterGroups order u).
Definition InsertArchiveMessage m : M W unit := b_Update (Tx.InsertArchiveMessage m).
Definition FetchArchiveMetadata a : M W (option Metadata) := b_View (Tx.FetchArchiveMetadata formatStamp a).
Definition FetchArchiveMessages f a : M W (list ArchiveMessage) := b_View (Tx.FetchArchiveMessages f a).
Definition DeleteArchiveOldestMessages a n : M W unit := b_Update (Tx.DeleteArchiveOldestMessages a n).
Definition DeleteArchive a : M W unit := b_Update (Tx.DeleteArchive a).

End repository.
