(* ===== verification/BoltProofs.v ===== *)
(** * Properties of the BoltDB repository

    What the database library documents ([BoltOk]), what the operations on
    buckets do to the stored cells, that the repository keeps the contract the
    roster module is verified against, the order of sequences, and where the
    repository departs from what its callers expect. *)

From stdpp Require Import base list strings gmap sorting.
From Stdlib Require Import ZArith Lia Ascii.
From S2P Require Import Prelude GoLib GoStrings Stravaganza C2SModel Roster RosterProofs Storage Bolt.
From S2P Require Users.

(** ** The contract of the library *)
Record bucket := MkBucket { b_seq : Z; b_kvs : gmap string string }.
Definition upd_kvs (f : gmap string string → gmap string string) (b : bucket) : bucket :=
  MkBucket (b_seq b) (f (b_kvs b)).

(** [buckets] is what the current transaction sees, or the committed content;
    [snapshot] is the content at the beginning of a transaction.  A call that
    fails changes nothing. *)
Class BoltOk (W : Type) `{!Bolt W} := {
  buckets : W → gmap string bucket;
  snapshot : TX → gmap string bucket;
  HasBucket_spec : ∀ n w, b_HasBucket n w = bool_decide (is_Some (buckets w !! n));
  Get_spec : ∀ n k w, b_Get n k w = buckets w !! n ≫= (fun b => b_kvs b !! k);
  Cursor_spec : ∀ n w, b_Cursor n w = default [] ((fun b => cursor_of (b_kvs b)) <$> buckets w !! n);
  Create_spec : ∀ n w,
    match b_CreateBucketIfNotExists n w with
    | (Ok _, w') => buckets w' = match buckets w !! n with
                                 | Some _ => buckets w
                                 | None => <[n := MkBucket 0 ∅]> (buckets w)
                                 end
    | (_, w') => buckets w' = buckets w
    end;
  DeleteBucket_spec : ∀ n w,
    match b_DeleteBucket n w with
    | (Ok _, w') => is_Some (buckets w !! n) ∧ buckets w' = delete n (buckets w)
    | (_, w') => buckets w' = buckets w
    end;
  DeleteBucket_missing : ∀ n w, buckets w !! n = None →
    (b_DeleteBucket n w).1 = Err ErrBucketNotFound;
  Put_spec : ∀ n k v w,
    match b_Put n k v w with
    | (Ok _, w') => buckets w' = alter (upd_kvs (insert k v)) n (buckets w)
    | (_, w') => buckets w' = buckets w
    end;
  Delete_spec : ∀ n k w,
    match b_Delete n k w with
    | (Ok _, w') => buckets w' = alter (upd_kvs (delete k)) n (buckets w)
    | (_, w') => buckets w' = buckets w
    end;
  NextSequence_spec : ∀ n w,
    match b_NextSequence n w with
    | (Ok s, w') => ∃ b, buckets w !! n = Some b ∧ s = (b_seq b + 1)%Z ∧
        buckets w' = <[n := MkBucket s (b_kvs b)]> (buckets w)
    | (_, w') => buckets w' = buckets w
    end;
  Begin_spec : ∀ w,
    match b_Begin w with
    | (Ok tx, w') => w' = w ∧ snapshot tx = buckets w
    | (_, w') => buckets w' = buckets w
    end;
  Commit_spec : ∀ tx w,
    match b_Commit tx w with
    | (Ok _, w') => buckets w' = buckets w
    | (_, w') => buckets w' = snapshot tx
    end;
  Rollback_spec : ∀ tx w, buckets (b_Rollback tx w).2 = snapshot tx;
  Exit_spec : ∀ tx w, buckets (b_Exit tx w) = snapshot tx;
  Update_spec : ∀ {A} (m : M W A) w,
    match b_Update m w with
    | (Ok a, w') => ∃ w1, m w = (Ok a, w1) ∧ buckets w' = buckets w1
    | (_, w') => buckets w' = buckets w
    end;
  View_spec : ∀ {A} (m : M W A) w,
    match b_View m w with
    | (Ok a, w') => ∃ w1, m w = (Ok a, w1) ∧ buckets w' = buckets w
    | (_, w') => buckets w' = buckets w
    end;
}.

Section cells.
Context {W : Type} `{!Bolt W} `{!BoltOk W}.

(** ** Cells *)
Definition cell (w : W) (n k : string) : option string := buckets w !! n ≫= (fun b => b_kvs b !! k).

(** The cells of [w'] are those of [w] with [f] applied to the ones of bucket
    [n]. *)
Definition cells_but (n : string) (f : string → option string → option string) (w w' : W) : Prop :=
  ∀ n' k, cell w' n' k = if String.eqb n' n then f k (cell w n k) else cell w n' k.
Definition same_cells (w w' : W) : Prop := ∀ n k, cell w' n k = cell w n k.

Lemma same_buckets w w' : buckets w' = buckets w → same_cells w w'.
Proof. intros E n k. unfold cell. by rewrite E. Qed.

Lemma same_cells_trans w1 w2 w3 : same_cells w1 w2 → same_cells w2 w3 → same_cells w1 w3.
Proof. intros H1 H2 n k. by rewrite H2. Qed.

Lemma create_cells n w :
  match b_CreateBucketIfNotExists n w with
  | (Ok _, w') => same_cells w w' ∧ is_Some (buckets w' !! n)
  | (_, w') => same_cells w w'
  end.
Proof.
  pose proof (Create_spec n w) as Hc. destruct (b_CreateBucketIfNotExists n w) as [[[]|e|c] w'];
    [|by apply same_buckets..].
  destruct (buckets w !! n) as [b|] eqn:E.
  - split; [by apply same_buckets|]. rewrite Hc, E. done.
  - split; [|rewrite Hc, lookup_insert_eq; done]. intros n' k. unfold cell. rewrite Hc.
    destruct (decide (n' = n)) as [->|Hne]; [|by rewrite lookup_insert_ne].
    rewrite lookup_insert_eq, E. simpl. apply lookup_empty.
Qed.

Lemma put_cells n k v w : is_Some (buckets w !! n) →
  match b_Put n k v w with
  | (Ok _, w') => cells_but n (fun k' o => if String.eqb k' k then Some v else o) w w'
  | (_, w') => same_cells w w'
  end.
Proof.
  intros [b Hb]. pose proof (Put_spec n k v w) as Hp. destruct (b_Put n k v w) as [[[]|e|c] w'];
    [|by apply same_buckets..].
  intros n' k'. unfold cell. rewrite Hp. destruct (String.eqb_spec n' n) as [->|Hne].
  - rewrite lookup_alter_eq, Hb. simpl. destruct (String.eqb_spec k' k) as [->|Hk].
    + apply lookup_insert_eq.
    + by apply lookup_insert_ne.
  - by rewrite lookup_alter_ne.
Qed.

Lemma upsert_cells {A} `{!Codec A} n k (a : A) w :
  match upsertKeyOp n k a w with
  | (Ok _, w') => ∃ v, MarshalBinary a = inr v ∧
      cells_but n (fun k' o => if String.eqb k' k then Some v else o) w w'
  | (_, w') => same_cells w w'
  end.
Proof.
  unfold upsertKeyOp, liftC, mbind, M_bind. pose proof (create_cells n w) as Hc.
  destruct (b_CreateBucketIfNotExists n w) as [[[]|e|c] w1]; [|done..]. destruct Hc as [Hs Hb].
  destruct (MarshalBinary a) as [e|v]; [done|]. simpl.
  pose proof (put_cells n k v w1 Hb) as Hp. destruct (b_Put n k v w1) as [[[]|e|c] w'].
  - exists v. split; [done|]. intros n' k'. rewrite Hp. by rewrite !Hs.
  - by eapply same_cells_trans.
  - by eapply same_cells_trans.
Qed.

Lemma delKey_cells n k w :
  match delKeyOp n k w with
  | (Ok _, w') => cells_but n (fun k' o => if String.eqb k' k then None else o) w w'
  | (_, w') => same_cells w w'
  end.
Proof.
  unfold delKeyOp, gets, mbind, M_bind. rewrite HasBucket_spec. case_bool_decide as Hb.
  - pose proof (Delete_spec n k w) as Hd. destruct (b_Delete n k w) as [[[]|e|c] w'];
      [|by apply same_buckets..].
    destruct Hb as [b Hb]. intros n' k'. unfold cell. rewrite Hd.
    destruct (String.eqb_spec n' n) as [->|Hne]; [|by rewrite lookup_alter_ne].
    rewrite lookup_alter_eq, Hb. simpl. destruct (String.eqb_spec k' k) as [->|Hk].
    + apply lookup_delete_eq.
    + by apply lookup_delete_ne.
  - simpl. intros n' k'. destruct (String.eqb_spec n' n) as [->|]; [|done]. unfold cell.
    apply eq_None_not_Some in Hb. rewrite Hb. by case_match.
Qed.

Lemma delBucket_cells n w :
  match delBucketOp n w with
  | (Ok _, w') => cells_but n (fun _ _ => None) w w'
  | (_, w') => same_cells w w'
  end.
Proof.
  unfold delBucketOp. pose proof (DeleteBucket_spec n w) as Hd.
  destruct (b_DeleteBucket n w) as [[[]|e|c] w']; [|by apply same_buckets..].
  destruct Hd as [_ Hd]. intros n' k. unfold cell. rewrite Hd.
  destruct (String.eqb_spec n' n) as [->|Hne]; [by rewrite lookup_delete_eq|by rewrite lookup_delete_ne].
Qed.

Lemma fetchKey_cells {A} `{!Codec A} n k w :
  (fetchKeyOp (A:=A) n k w).2 = w ∧
  ∀ o, (fetchKeyOp (A:=A) n k w).1 = Ok o →
    match cell w n k with
    | None => o = None
    | Some v => ∃ a, UnmarshalBinary v = inr a ∧ o = Some a
    end.
Proof.
  unfold fetchKeyOp, gets, mbind, M_bind, liftC, cell. rewrite HasBucket_spec.
  case_bool_decide as Hb; simpl.
  - rewrite Get_spec. destruct (buckets w !! n ≫= _) as [v|]; simpl; [|split; [done|by intros o [= <-]]].
    destruct (UnmarshalBinary v) as [e|a]; simpl; (split; [done|]); [done|].
    intros o [= <-]. by exists a.
  - apply eq_None_not_Some in Hb. rewrite Hb. split; [done|by intros o [= <-]].
Qed.

Lemma view_keeps {A} (m : M W A) w : same_cells w (b_View m w).2.
Proof.
  pose proof (View_spec m w) as Hv. destruct (b_View m w) as [[a|e|c] w'];
    [destruct Hv as (w1 & _ & Hv)|..]; by apply same_buckets.
Qed.

End cells.

(** ** Cells as a map *)
Section views.
Context {A : Type}.

(** The values of the buckets whose name starts with [prefix], by what follows
    the prefix and by key. *)
Definition bucket_entries (dec : string → option A) (u : string) (b : bucket)
    : list ((string * string) * A) :=
  map_to_list (b_kvs b) ≫= (fun '(k, v) =>
    match dec v with Some a => [((u, k), a)] | None => [] end).
Definition entries (prefix : string) (dec : string → option A) (db : gmap string bucket)
    : list ((string * string) * A) :=
  map_to_list db ≫= (fun '(n, b) =>
    match CutPrefix prefix n with Some u => bucket_entries dec u b | None => [] end).
Definition prefix_view (prefix : string) (dec : string → option A) (db : gmap string bucket)
    : gmap (string * string) A := list_to_map (entries prefix dec db).

Lemma elem_of_entries prefix dec db u k a :
  ((u, k), a) ∈ entries prefix dec db ↔
  ((db !! (prefix +:+ u) : option bucket) ≫= (fun b => b_kvs b !! k)) ≫= dec = Some a.
Proof.
  unfold entries. rewrite list_elem_of_bind. split.
  - intros ([n b] & Hin & Hdb%elem_of_map_to_list).
    destruct (CutPrefix prefix n) as [u'|] eqn:E; [|set_solver]. apply CutPrefix_inv in E. subst n.
    unfold bucket_entries in Hin. apply list_elem_of_bind in Hin as ([k' v] & Hin & Hk%elem_of_map_to_list).
    destruct (dec v) as [a'|] eqn:Ed; [|set_solver]. apply list_elem_of_singleton in Hin as [= -> -> ->].
    rewrite Hdb. simpl. by rewrite Hk.
  - destruct (db !! (prefix +:+ u)) as [b|] eqn:Hdb; simpl; [|done].
    destruct (b_kvs b !! k) as [v|] eqn:Hk; simpl; [|done]. intros Hd.
    exists (prefix +:+ u, b). split; [|by apply elem_of_map_to_list]. simpl.
    rewrite CutPrefix_app. apply list_elem_of_bind. exists (k, v).
    split; [|by apply elem_of_map_to_list]. simpl. rewrite Hd. set_solver.
Qed.

Lemma prefix_view_lookup prefix dec db u k :
  prefix_view prefix dec db !! (u, k) =
  ((db !! (prefix +:+ u) : option bucket) ≫= (fun b => b_kvs b !! k)) ≫= dec.
Proof.
  destruct (prefix_view prefix dec db !! (u, k)) as [a|] eqn:E.
  - apply elem_of_list_to_map_2, elem_of_entries in E. done.
  - apply not_elem_of_list_to_map_2 in E. symmetry. apply eq_None_not_Some. intros [a Ha].
    apply elem_of_entries in Ha. apply E. by apply (list_elem_of_fmap_2' _ _ ((u, k), a)).
Qed.

End views.

(** ** The contract of the roster module *)

(** What the roster module calls besides the repository. *)
Class RosterSurround `{XmlLib} (W : Type) := {
  su_Route : Element → M W unit;
  su_GetResources : string → M W (list ResourceDesc);
  su_LocalStream : string → string → M W Z;
  su_StreamInfo : Z → W → Info.t;
  su_SetInfoBool : Z → string → bool → M W unit;
  su_IsLocalHost : string → bool;
  su_runHook : string → string → string → string → M W unit;
  su_uuid : M W string;
}.

Section roster.
Context `{XmlLib} {W : Type} `{!Bolt W} `{!BoltOk W} `{!RosterSurround W}.
Context `{!Codec Item} `{!CodecOk Item} `{!Codec Notification} `{!CodecOk Notification}.
Context `{!Codec RosterVersion}.

Definition leaves_buckets {A} (m : M W A) : Prop := ∀ w, buckets (m w).2 = buckets w.
Class SurroundOk : Prop := {
  ok_Route : ∀ e, leaves_buckets (su_Route e);
  ok_GetResources : ∀ u, leaves_buckets (su_GetResources u);
  ok_LocalStream : ∀ u r, leaves_buckets (su_LocalStream u r);
  ok_SetInfoBool : ∀ s k b, leaves_buckets (su_SetInfoBool s k b);
  ok_runHook : ∀ n u j s, leaves_buckets (su_runHook n u j s);
  ok_uuid : leaves_buckets su_uuid;
}.
Context `{!SurroundOk}.

(** The roster module on this repository. *)
#[local] Instance bolt_roster_env : RosterEnv W := {|
  rep_FetchRosterVersion := FetchRosterVersion;
  rep_FetchRosterItem := FetchRosterItem;
  rep_FetchRosterItems := FetchRosterItems;
  rep_UpsertRosterNotification := fun contact jid p =>
    UpsertRosterNotification (MkNotification contact jid p);
  rep_FetchRosterNotification := fun contact jid =>
    rn ← FetchRosterNotification contact jid; mret (rn_Presence <$> rn);
  rep_FetchRosterNotifications := fun contact =>
    rns ← FetchRosterNotifications contact; mret (rn_Presence <$> rns);
  rep_DeleteRosterNotification := DeleteRosterNotification;
  rep_InTransaction := InTransaction;
  tx_TouchRosterVersion := Tx.TouchRosterVersion;
  tx_UpsertRosterItem := Tx.UpsertRosterItem;
  tx_DeleteRosterItem := Tx.DeleteRosterItem;
  tx_DeleteRosterNotifications := Tx.DeleteRosterNotifications;
  tx_DeleteRosterItems := Tx.DeleteRosterItems;
  ro_Route := su_Route;
  ro_GetResources := su_GetResources;
  ro_LocalStream := su_LocalStream;
  ro_StreamInfo := su_StreamInfo;
  ro_SetInfoBool := su_SetInfoBool;
  ro_IsLocalHost := su_IsLocalHost;
  ro_runHook := su_runHook;
  ro_uuid := su_uuid;
|}.

Definition dec_item (v : string) : option Item :=
  match UnmarshalBinary v with inr a => Some a | inl _ => None end.
Definition dec_notif (v : string) : option Element :=
  match UnmarshalBinary (A:=Notification) v with inr a => Some (rn_Presence a) | inl _ => None end.

#[local] Instance bolt_roster_views : RosterViews := {|
  items := fun w => prefix_view "roster:items:" dec_item (buckets w);
  notifs := fun w => prefix_view "roster:notif:" dec_notif (buckets w);
|}.

#[local] Arguments items : simpl never.
#[local] Arguments notifs : simpl never.

Lemma items_lookup w u j : items w !! (u, j) = cell w (rosterItemsBucketKey u) j ≫= dec_item.
Proof. apply prefix_view_lookup. Qed.
Lemma notifs_lookup w u j : notifs w !! (u, j) = cell w (rosterNotificationsBucketKey u) j ≫= dec_notif.
Proof. apply prefix_view_lookup. Qed.

(** Buckets of different kinds, or of different users, have different names. *)
Lemma items_key_inj u v : String.eqb (rosterItemsBucketKey u) (rosterItemsBucketKey v) = String.eqb u v.
Proof.
  destruct (String.eqb_spec u v) as [->|Hne]; [apply String.eqb_refl|]. apply String.eqb_neq.
  intros E. apply (f_equal (CutPrefix "roster:items:")) in E.
  unfold rosterItemsBucketKey in E. rewrite !CutPrefix_app in E. congruence.
Qed.
Lemma notif_key_inj u v :
  String.eqb (rosterNotificationsBucketKey u) (rosterNotificationsBucketKey v) = String.eqb u v.
Proof.
  destruct (String.eqb_spec u v) as [->|Hne]; [apply String.eqb_refl|]. apply String.eqb_neq.
  intros E. apply (f_equal (CutPrefix "roster:notif:")) in E.
  unfold rosterNotificationsBucketKey in E. rewrite !CutPrefix_app in E. congruence.
Qed.
Lemma key_kinds u v :
  String.eqb (rosterNotificationsBucketKey u) (rosterItemsBucketKey v) = false ∧
  String.eqb (rosterItemsBucketKey u) (rosterNotificationsBucketKey v) = false ∧
  String.eqb (rosterItemsBucketKey u) (rosterVersionBucketKey v) = false ∧
  String.eqb (rosterNotificationsBucketKey u) (rosterVersionBucketKey v) = false.
Proof. done. Qed.

Lemma same_views w w' : same_cells w w' → same w w'.
Proof.
  intros Hs. split; apply map_eq; intros [u j].
  - by rewrite !items_lookup, Hs.
  - by rewrite !notifs_lookup, Hs.
Qed.

(** What a change of one bucket does to the views. *)
Lemma items_change (u : string) (f : string → option string → option string) (w w' : W) (g : gmap (string * string) Item) :
  cells_but (rosterItemsBucketKey u) f w w' →
  (∀ u' j, g !! (u', j) = if String.eqb u' u then f j (cell w (rosterItemsBucketKey u) j) ≫= dec_item
                          else items w !! (u', j)) →
  items w' = g ∧ notifs w' = notifs w.
Proof.
  intros Hc Hg. split; apply map_eq; intros [u' j].
  - rewrite Hg, items_lookup, Hc, items_key_inj. case_match; [done|]. by rewrite items_lookup.
  - rewrite !notifs_lookup, Hc. by rewrite (proj1 (key_kinds u' u)).
Qed.
Lemma notifs_change (u : string) (f : string → option string → option string) (w w' : W) (g : gmap (string * string) Element) :
  cells_but (rosterNotificationsBucketKey u) f w w' →
  (∀ u' j, g !! (u', j) = if String.eqb u' u then f j (cell w (rosterNotificationsBucketKey u) j) ≫= dec_notif
                          else notifs w !! (u', j)) →
  items w' = items w ∧ notifs w' = g.
Proof.
  intros Hc Hg. split; apply map_eq; intros [u' j].
  - rewrite !items_lookup, Hc. by rewrite (proj1 (proj2 (key_kinds u' u))).
  - rewrite Hg, notifs_lookup, Hc, notif_key_inj. case_match; [done|]. by rewrite notifs_lookup.
Qed.

Lemma lookup_insert_pair {X} (m : gmap (string * string) X) (u j : string) (x : X) (u' j' : string) :
  <[(u, j) := x]> m !! (u', j') =
    if String.eqb u' u && String.eqb j' j then Some x else m !! (u', j').
Proof.
  destruct (String.eqb_spec u' u) as [->|], (String.eqb_spec j' j) as [->|]; simpl;
    [apply lookup_insert_eq|apply lookup_insert_ne; congruence..].
Qed.
Lemma lookup_delete_pair {X} (m : gmap (string * string) X) (u j u' j' : string) :
  delete (u, j) m !! (u', j') = if String.eqb u' u && String.eqb j' j then None else m !! (u', j').
Proof.
  destruct (String.eqb_spec u' u) as [->|], (String.eqb_spec j' j) as [->|]; simpl;
    [apply lookup_delete_eq|apply lookup_delete_ne; congruence..].
Qed.
Lemma lookup_filter_user {X} (m : gmap (string * string) X) (u u' j : string) :
  filter (fun kv => kv.1.1 ≠ u) m !! (u', j) = if String.eqb u' u then None else m !! (u', j).
Proof.
  rewrite map_lookup_filter. destruct (String.eqb_spec u' u) as [->|Hne].
  - destruct (m !! (u, j)); simpl; [|done]. by rewrite option_guard_False by (simpl; tauto).
  - destruct (m !! (u', j)); simpl; [|done]. by rewrite option_guard_True.
Qed.

Lemma upsertItem_ok ri w :
  match Tx.UpsertRosterItem ri w with
  | (Ok _, w') => items w' = <[(Username ri, Jid ri) := ri]> (items w) ∧ notifs w' = notifs w
  | (_, w') => same w w'
  end.
Proof.
  unfold Tx.UpsertRosterItem. pose proof (upsert_cells (rosterItemsBucketKey (Username ri)) (Jid ri) ri w) as Hu.
  destruct (upsertKeyOp _ _ ri w) as [[[]|e|c] w']; [|by apply same_views..].
  destruct Hu as (v & Hv & Hc). eapply items_change; [exact Hc|]. intros u' j. simpl.
  rewrite lookup_insert_pair. destruct (String.eqb_spec u' (Username ri)) as [->|]; simpl; [|done].
  rewrite items_lookup. destruct (String.eqb_spec j (Jid ri)) as [->|]; [|done].
  simpl. unfold dec_item. by rewrite (codec_roundtrip ri v).
Qed.

Lemma upsertNotif_ok rn w :
  match Tx.UpsertRosterNotification rn w with
  | (Ok _, w') => items w' = items w ∧ notifs w' = <[(rn_Contact rn, rn_Jid rn) := rn_Presence rn]> (notifs w)
  | (_, w') => same w w'
  end.
Proof.
  unfold Tx.UpsertRosterNotification.
  pose proof (upsert_cells (rosterNotificationsBucketKey (rn_Contact rn)) (rn_Jid rn) rn w) as Hu.
  destruct (upsertKeyOp _ _ rn w) as [[[]|e|c] w']; [|by apply same_views..].
  destruct Hu as (v & Hv & Hc). eapply notifs_change; [exact Hc|]. intros u' j. simpl.
  rewrite lookup_insert_pair. destruct (String.eqb_spec u' (rn_Contact rn)) as [->|]; simpl; [|done].
  rewrite notifs_lookup. destruct (String.eqb_spec j (rn_Jid rn)) as [->|]; [|done].
  simpl. unfold dec_notif. by rewrite (codec_roundtrip rn v).
Qed.

Lemma delItem_ok u j w :
  match Tx.DeleteRosterItem u j w with
  | (Ok _, w') => items w' = delete (u, j) (items w) ∧ notifs w' = notifs w
  | (_, w') => same w w'
  end.
Proof.
  unfold Tx.DeleteRosterItem. pose proof (delKey_cells (rosterItemsBucketKey u) j w) as Hd.
  destruct (delKeyOp _ _ w) as [[[]|e|c] w']; [|by apply same_views..].
  eapply items_change; [exact Hd|]. intros u' j'. simpl. rewrite lookup_delete_pair.
  destruct (String.eqb_spec u' u) as [->|]; simpl; [|done]. rewrite items_lookup. by destruct (String.eqb j' j).
Qed.

Lemma delNotif_ok u j w :
  match Tx.DeleteRosterNotification u j w with
  | (Ok _, w') => items w' = items w ∧ notifs w' = delete (u, j) (notifs w)
  | (_, w') => same w w'
  end.
Proof.
  unfold Tx.DeleteRosterNotification. pose proof (delKey_cells (rosterNotificationsBucketKey u) j w) as Hd.
  destruct (delKeyOp _ _ w) as [[[]|e|c] w']; [|by apply same_views..].
  eapply notifs_change; [exact Hd|]. intros u' j'. simpl. rewrite lookup_delete_pair.
  destruct (String.eqb_spec u' u) as [->|]; simpl; [|done]. rewrite notifs_lookup. by destruct (String.eqb j' j).
Qed.

Lemma delItems_ok u w :
  match Tx.DeleteRosterItems u w with
  | (Ok _, w') => items w' = filter (fun kv => kv.1.1 ≠ u) (items w) ∧ notifs w' = notifs w
  | (_, w') => same w w'
  end.
Proof.
  unfold Tx.DeleteRosterItems. pose proof (delBucket_cells (rosterItemsBucketKey u) w) as Hd.
  destruct (delBucketOp _ w) as [[[]|e|c] w']; [|by apply same_views..].
  eapply items_change; [exact Hd|]. intros u' j'. simpl. apply lookup_filter_user.
Qed.

Lemma delNotifs_ok u w :
  match Tx.DeleteRosterNotifications u w with
  | (Ok _, w') => items w' = items w ∧ notifs w' = filter (fun kv => kv.1.1 ≠ u) (notifs w)
  | (_, w') => same w w'
  end.
Proof.
  unfold Tx.DeleteRosterNotifications. pose proof (delBucket_cells (rosterNotificationsBucketKey u) w) as Hd.
  destruct (delBucketOp _ w) as [[[]|e|c] w']; [|by apply same_views..].
  eapply notifs_change; [exact Hd|]. intros u' j'. simpl. apply lookup_filter_user.
Qed.

(** A managed update keeps what holds of its transaction. *)
Lemma buckets_views w w' : buckets w' = buckets w → items w' = items w ∧ notifs w' = notifs w.
Proof. intros E. unfold items, notifs, bolt_roster_views. by rewrite E. Qed.

Lemma update_ok (m : M W unit) (P : W → W → Prop) w :
  (∀ w1 w2 w', buckets w' = buckets w2 → P w1 w2 → P w1 w') →
  match m w with (Ok _, w') => P w w' | _ => True end →
  match b_Update m w with (Ok _, w') => P w w' | (_, w') => same w w' end.
Proof.
  intros HP Hm. pose proof (Update_spec m w) as Hu. destruct (b_Update m w) as [[[]|e|c] w'];
    [|by apply buckets_views..].
  destruct Hu as (w1 & Em & Eb). rewrite Em in Hm. by eapply HP.
Qed.

Lemma view_frame {A} (m : M W A) : frame (b_View m).
Proof. intros w. apply same_views, view_keeps. Qed.

Lemma bind_frame {A B} (m : M W A) (f : A → M W B) : frame m → (∀ a, frame (f a)) → frame (m ≫= f).
Proof.
  intros Hm Hf. apply keeps_bind; [|done..].
  intros w1 w2 w3 [Hi Hn] [Hi' Hn']. split; by etrans.
Qed.
Lemma ret_frame {A} (a : A) : frame (mret a).
Proof. by intros w. Qed.

Lemma leaves_frame {A} (m : M W A) : leaves_buckets m → frame m.
Proof. intros Hm w. by apply buckets_views. Qed.

Lemma touch_frame u : frame (Tx.TouchRosterVersion u).
Proof.
  intros w. unfold Tx.TouchRosterVersion.
  pose proof (fetchKey_cells (A:=RosterVersion) (rosterVersionBucketKey u) "ver" w) as [Hw _].
  unfold mbind at 1, M_bind at 1. destruct (fetchKeyOp _ _ w) as [[o|e|c] w1]; simpl in Hw; subst w1; [|done..].
  set (ver := match o with Some _ => _ | None => _ end).
  pose proof (upsert_cells (rosterVersionBucketKey u) "ver" ver w) as Hu.
  unfold mbind, M_bind. destruct (upsertKeyOp _ _ ver w) as [[[]|e|c] w']; [|by apply same_views..].
  destruct Hu as (v & _ & Hc). simpl. split; apply map_eq; intros [u' j].
  - rewrite !items_lookup, Hc. by rewrite (proj1 (proj2 (proj2 (key_kinds u' u)))).
  - rewrite !notifs_lookup, Hc. by rewrite (proj2 (proj2 (proj2 (key_kinds u' u)))).
Qed.

Lemma fetched {A} `{!Codec A} n k w (o : option A) w' :
  b_View (fetchKeyOp n k) w = (Ok o, w') →
  o = match cell w n k with Some v => match UnmarshalBinary v with inr a => Some a | inl _ => None end | None => None end.
Proof.
  intros Hr. pose proof (View_spec (fetchKeyOp (A:=A) n k) w) as Hv. rewrite Hr in Hv.
  destruct Hv as (w1 & Em & _). destruct (fetchKey_cells (A:=A) n k w) as [_ Hf].
  rewrite Em in Hf. specialize (Hf o eq_refl). destruct (cell w n k) as [v|]; [|done].
  destruct Hf as (a & -> & ->). done.
Qed.

(** C8: The BoltDB repository keeps the contract the roster module is verified
    against: for items and notifications each call does exactly what the
    contract says, a failed call and a failed transaction leave them as they
    were, and everything else leaves them alone.  So what is proved of the roster
    module holds on this repository. *)
Theorem bolt_keeps_roster_contract : RosterRepo.
Proof.
  split; try (intros; apply view_frame);
    try (intros; apply leaves_frame; first [apply ok_Route|apply ok_GetResources|apply ok_LocalStream
      |apply ok_SetInfoBool|apply ok_runHook|apply ok_uuid]).
  - intros u j. apply bind_frame; [apply view_frame|intros; apply ret_frame].
  - intros u. apply bind_frame; [apply view_frame|intros; apply ret_frame].
  - intros u. apply touch_frame.
  - intros u j w o w' Hr. apply fetched in Hr. rewrite items_lookup. subst o. by destruct (cell _ _ _).
  - intros u j w o w' Hr. apply bind_inv in Hr as (rn & w1 & Hr & Ho). injection Ho as <- _.
    apply fetched in Hr. rewrite notifs_lookup. subst rn. unfold dec_notif.
    destruct (cell w (rosterNotificationsBucketKey u) j) as [v|]; [|done]. simpl.
    by destruct (UnmarshalBinary v).
  - intros u j e w.
    apply (update_ok _ (fun w w' => items w' = items w ∧ notifs w' = <[(u, j) := e]> (notifs w))).
    + intros w1 w2 w' E [Hi Hn]. apply buckets_views in E as [-> ->]. done.
    + pose proof (upsertNotif_ok (MkNotification u j e) w) as Hu. by destruct (Tx.UpsertRosterNotification _ w) as [[]].
  - intros u j w.
    apply (update_ok _ (fun w w' => items w' = items w ∧ notifs w' = delete (u, j) (notifs w))).
    + intros w1 w2 w' E [Hi Hn]. apply buckets_views in E as [-> ->]. done.
    + pose proof (delNotif_ok u j w) as Hu. by destruct (Tx.DeleteRosterNotification u j w) as [[]].
  - apply upsertItem_ok.
  - apply delItem_ok.
  - apply delNotifs_ok.
  - apply delItems_ok.
  - intros m w. simpl. unfold InTransaction. pose proof (Begin_spec w) as Hb.
    destruct (b_Begin w) as [[tx|e|c] w1]; [|by apply buckets_views..]. destruct Hb as [-> Hs].
    destruct (m w) as [[[]|e|c] w2] eqn:Em.
    + pose proof (Commit_spec tx w2) as Hc. destruct (b_Commit tx w2) as [[[]|e|c] w'].
      * exists w2. split; [done|by apply buckets_views].
      * apply buckets_views. congruence.
      * apply buckets_views. congruence.
    + apply buckets_views. rewrite Rollback_spec. done.
    + apply buckets_views. rewrite Exit_spec. done.
Qed.

(** C40: Deleting an account leaves its roster behind when no subscription request
    waits for it: the bucket of requests is not there, its deletion is an error,
    and the transaction that deletes both is rolled back. *)
Theorem bolt_user_deletion_keeps_roster (u : string) (w : W) (tx : TX)
    (Hbegin : b_Begin w = (Ok tx, w)) (Hnone : buckets w !! rosterNotificationsBucketKey u = None) :
  (onUserDeleted u w).1 = Err ErrBucketNotFound ∧ same w (onUserDeleted u w).2.
Proof.
  unfold onUserDeleted, rep_InTransaction, bolt_roster_env, InTransaction.
  pose proof (Begin_spec w) as Hs. rewrite Hbegin in *. destruct Hs as [_ Hs].
  unfold tx_DeleteRosterNotifications, Tx.DeleteRosterNotifications, delBucketOp, mbind, M_bind.
  pose proof (DeleteBucket_missing _ _ Hnone) as Hd.
  destruct (b_DeleteBucket (rosterNotificationsBucketKey u) w) as [r w1]. simpl in Hd. subst r. simpl.
  split; [done|]. apply buckets_views. rewrite Rollback_spec. done.
Qed.

End roster.

(** ** Sequences *)
Section sequences.
Context {W : Type} `{!Bolt W} `{!BoltOk W} {A : Type} `{!Codec A} `{!CodecOk A}.

(** Entries with consecutive numbers, from [i] on, as keys. *)
Fixpoint numbered (i : Z) (vs : list string) : list (string * string) :=
  match vs with [] => [] | v :: vs' => (FormatUint i, v) :: numbered (i + 1) vs' end.

Lemma numbered_app i vs v :
  numbered i (vs ++ [v]) = numbered i vs ++ [(FormatUint (i + Z.of_nat (length vs)), v)].
Proof.
  revert i. induction vs as [|v' vs IH]; intros i; simpl; [by rewrite Z.add_0_r|].
  rewrite IH. by replace (i + 1 + Z.of_nat (length vs))%Z with (i + Z.of_nat (S (length vs)))%Z by lia.
Qed.

Lemma numbered_snd i vs : (numbered i vs).*2 = vs.
Proof. revert i. induction vs as [|v vs IH]; intros i; simpl; [done|by rewrite IH]. Qed.

Lemma numbered_keys i vs k : (0 <= i)%Z → (i + Z.of_nat (length vs) <= 10 ^ 20)%Z → k ∈ (numbered i vs).*1 →
  ∃ n, (i <= n < i + Z.of_nat (length vs))%Z ∧ k = FormatUint n.
Proof.
  revert i. induction vs as [|v vs IH]; intros i Hi Hb; cbn [numbered fmap list_fmap fst length]; [set_solver|].
  cbn [length] in Hb. intros [->|Hk]%elem_of_cons; [exists i; split; [lia|done]|].
  apply IH in Hk as (n & Hn & ->); [|lia..]. exists n. split; [lia|done].
Qed.

Lemma FormatUint_inj n m : (0 <= n < 10 ^ 20)%Z → (0 <= m < 10 ^ 20)%Z → FormatUint n = FormatUint m → n = m.
Proof.
  intros Hn Hm E. apply (f_equal parse_digits) in E. rewrite !parse_digits_FormatUint in E by done. congruence.
Qed.

Lemma numbered_NoDup i vs : (0 <= i)%Z → (i + Z.of_nat (length vs) <= 10 ^ 20)%Z → NoDup (numbered i vs).*1.
Proof.
  revert i. induction vs as [|v vs IH]; intros i Hi Hb; [apply NoDup_nil_2|].
  cbn [length] in Hb. cbn [numbered fmap list_fmap fst]. apply NoDup_cons. split; [|apply IH; lia].
  intros Hk. apply numbered_keys in Hk as (n & Hn & E); [|lia..]. apply FormatUint_inj in E; lia.
Qed.

(** Up to nine entries are in the order of their numbers. *)
Lemma digits_sorted : StronglySorted key_le (map FormatUint [1; 2; 3; 4; 5; 6; 7; 8; 9]%Z).
Proof. repeat constructor. Qed.

Lemma StronglySorted_take {X} (R : X → X → Prop) n l : StronglySorted R l → StronglySorted R (take n l).
Proof.
  intros Hs. revert n. induction Hs as [|x l Hs IH Hx]; intros [|n]; simpl; try constructor; [done|].
  by apply Forall_take.
Qed.

Lemma numbered_sorted vs : length vs ≤ 9 → StronglySorted entry_le (numbered 1 vs).
Proof.
  intros Hl. assert ((numbered 1 vs).*1 = take (length vs) (map FormatUint [1; 2; 3; 4; 5; 6; 7; 8; 9]%Z)) as Hk.
  { do 10 (destruct vs as [|? vs]; [done|]). simpl in Hl. lia. }
  pose proof (StronglySorted_take _ (length vs) _ digits_sorted) as Hs. rewrite <-Hk in Hs.
  clear Hk Hl. induction (numbered 1 vs) as [|x l IH]; [constructor|].
  simpl in Hs. apply StronglySorted_inv in Hs as [Hs Hx]. constructor; [by apply IH|].
  apply Forall_forall. intros y Hy. rewrite Forall_forall in Hx. apply Hx. by apply list_elem_of_fmap_2.
Qed.

(** The state of a bucket that was only inserted into. *)
Definition seq_bucket (w : W) (n : string) (vs : list string) : Prop :=
  buckets w !! n = Some (MkBucket (Z.of_nat (length vs)) (list_to_map (numbered 1 vs))) ∨
  vs = [] ∧ buckets w !! n = None.

Lemma insertSeq_bucket n (a : A) w w' vs : (Z.of_nat (length vs) + 2 <= 10 ^ 20)%Z →
  seq_bucket w n vs → insertSeqOp n a w = (Ok tt, w') →
  ∃ v, MarshalBinary a = inr v ∧ seq_bucket w' n (vs ++ [v]).
Proof.
  intros Hlen Hb Hr. unfold insertSeqOp in Hr. inv_bind Hr as x w1 Hc. inv_bind Hr as v w2 Hm.
  inv_bind Hr as sq w3 Hs.
  unfold liftC in Hm. destruct (MarshalBinary a) as [e|v'] eqn:Ea; [done|]. injection Hm as -> ->.
  exists v. split; [done|]. left.
  assert (buckets w2 !! n = Some (MkBucket (Z.of_nat (length vs)) (list_to_map (numbered 1 vs)))) as Hb2.
  { pose proof (Create_spec n w) as Hcs. rewrite Hc in Hcs. destruct Hb as [Hb|[-> Hb]]; rewrite Hb in Hcs; rewrite Hcs.
    - done.
    - by rewrite lookup_insert_eq. }
  pose proof (NextSequence_spec n w2) as Hns. rewrite Hs in Hns.
  destruct Hns as (b & Hb' & -> & Hb3). rewrite Hb2 in Hb'. injection Hb' as <-. simpl in *.
  pose proof (Put_spec n (FormatUint (Z.of_nat (length vs) + 1)) v w3) as Hp. rewrite Hr in Hp.
  rewrite Hp, Hb3, lookup_alter_eq, lookup_insert_eq. simpl. unfold upd_kvs. simpl. do 2 f_equal.
  - rewrite length_app. simpl. lia.
  - rewrite numbered_app. replace (Z.of_nat (length vs) + 1)%Z with (1 + Z.of_nat (length vs))%Z by lia.
    rewrite list_to_map_app. simpl. rewrite insert_union_singleton_l.
    rewrite insert_empty. apply map_union_comm, map_disjoint_singleton_l.
    apply not_elem_of_list_to_map_1. intros Hk.
    apply numbered_keys in Hk as (m & Hm & E); [|lia..]. apply FormatUint_inj in E; lia.
Qed.

Lemma insertAll_bucket n (l : list A) : ∀ w w' vs, (Z.of_nat (length vs + length l) + 2 <= 10 ^ 20)%Z →
  seq_bucket w n vs → for_each l (insertSeqOp n) w = (Ok tt, w') →
  ∃ vs', Forall2 (fun a v => MarshalBinary a = inr v) l vs' ∧ seq_bucket w' n (vs ++ vs').
Proof.
  induction l as [|a l IH]; intros w w' vs Hlen Hb Hr.
  - injection Hr as <-. exists []. rewrite app_nil_r. by split.
  - cbn [for_each length] in *. inv_bind Hr as x w1 H1. destruct x.
    destruct (insertSeq_bucket n a w w1 vs) as (v & Hv & Hb1); [lia|done..|].
    destruct (IH w1 w' (vs ++ [v])) as (vs' & Hvs & Hb'); [rewrite length_app; simpl; lia|done..|].
    exists (v :: vs'). split; [by constructor|]. by rewrite <-app_assoc in Hb'.
Qed.

Lemma iterList_collect (l : list (string * string)) (w : W) (as_ acc : list A) :
  Forall2 (fun a v => UnmarshalBinary v = inr a) as_ l.*2 →
  iterList (collect (fun _ => true)) acc l w = (Ok (acc ++ as_), w).
Proof.
  revert acc as_. induction l as [|[k v] l IH]; intros acc as_ Hf; simpl in *.
  - apply Forall2_nil_inv_r in Hf as ->. by rewrite app_nil_r.
  - apply Forall2_cons_inv_r in Hf as (a & as' & Ha & Hf & ->).
    assert (collect (fun _ => true) acc k v = inr (acc ++ [a])) as Hc by (unfold collect; by rewrite Ha).
    rewrite Hc. unfold mbind, M_bind. simpl. rewrite (IH _ as') by done. by rewrite <-app_assoc.
Qed.

Lemma fetchAll_bucket n w (kvs : gmap string string) sq (as_ : list A) :
  buckets w !! n = Some (MkBucket sq kvs) → Forall2 (fun a v => UnmarshalBinary v = inr a) as_ (cursor_of kvs).*2 →
  fetchAll n (fun _ : A => true) w = (Ok as_, w).
Proof.
  intros Hb Hf. unfold fetchAll, iterKeysOp, gets, mbind, M_bind. rewrite HasBucket_spec, Hb.
  rewrite bool_decide_true by done. simpl. rewrite Cursor_spec, Hb. simpl.
  by rewrite (iterList_collect _ _ as_).
Qed.

(** What was inserted one by one is fetched completely, in the order of the
    decimal numbers of the entries as strings. *)
Lemma sequence_fetched n (l : list A) w w' : (Z.of_nat (length l) < 2 ^ 64)%Z →
  buckets w !! n = None → for_each l (insertSeqOp n) w = (Ok tt, w') →
  ∃ l', fetchAll n (fun _ : A => true) w' = (Ok l', w') ∧ l' ≡ₚ l ∧ (length l ≤ 9 → l' = l).
Proof.
  intros Hlen Hn Hr. destruct l as [|a0 l0] eqn:El.
  { injection Hr as <-. exists []. split; [|done]. unfold fetchAll, iterKeysOp, gets, mbind, M_bind.
    rewrite HasBucket_spec, Hn. by rewrite bool_decide_false by (by intros [? ?]). }
  rewrite <-El in *. destruct (insertAll_bucket n l w w' []) as (vs & Hvs & Hb); [simpl; lia|by right|done|].
  simpl in Hb. destruct Hb as [Hb|[-> _]]; [|apply Forall2_nil_inv_r in Hvs; congruence].
  pose proof (Forall2_length _ _ _ Hvs) as Hl.
  assert (NoDup (numbered 1 vs).*1) as Hnd by (apply numbered_NoDup; lia).
  assert (cursor_of (list_to_map (numbered 1 vs)) ≡ₚ numbered 1 vs) as Hp.
  { rewrite cursor_perm. by apply map_to_list_to_map. }
  assert (Forall2 (fun a v => UnmarshalBinary v = inr a) l vs) as Hun.
  { eapply Forall2_impl; [exact Hvs|]. intros a v. apply codec_roundtrip. }
  assert (∃ l', l' ≡ₚ l ∧ Forall2 (fun a v => UnmarshalBinary v = inr a) l'
    (cursor_of (list_to_map (numbered 1 vs))).*2) as (l' & Hl' & Hf).
  { assert ((cursor_of (list_to_map (numbered 1 vs))).*2 ≡ₚ vs) as Hp2.
    { rewrite <-(numbered_snd 1 vs) at 2. by apply fmap_Permutation. }
    apply Forall2_flip in Hun.
    symmetry in Hp2. destruct (Permutation_Forall2 Hp2 Hun) as (l' & Hl' & Hf).
    exists l'. split; [by rewrite Hl'|].
    by apply Forall2_flip. }
  exists l'. split; [by eapply fetchAll_bucket|]. split; [done|]. intros H9.
  assert (cursor_of (list_to_map (numbered 1 vs)) = numbered 1 vs) as Hc.
  { symmetry. apply sorted_entries_unique; [done|apply numbered_sorted; lia|apply cursor_sorted|done]. }
  rewrite Hc, numbered_snd in Hf. clear -Hf Hun. revert l' Hf.
  induction Hun as [|a v l vs Ha Hun IH]; intros l' Hf.
  - by apply Forall2_nil_inv_r in Hf.
  - apply Forall2_cons_inv_r in Hf as (a' & l'' & Ha' & Hf & ->). f_equal; [congruence|by apply IH].
Qed.

End sequences.

Section repositories.
Context `{XmlLib} {W : Type} `{!Bolt W} `{!BoltOk W}.
Context `{!Codec Element} `{!CodecOk Element} `{!Codec ArchiveMessage} `{!Codec Capabilities}.

(** Offline messages are kept: what was stored for a user is fetched
    completely, nothing twice; up to nine messages come in the order in which
    they were stored. *)
Theorem bolt_offline_kept (u : string) (ms : list Element) (w w' : W)
    (Hlen : (Z.of_nat (length ms) < 2 ^ 64)%Z) (Hnone : buckets w !! offlineBucket u = None)
    (Hins : for_each ms (fun m => Tx.InsertOfflineMessage m u) w = (Ok tt, w')) :
  ∃ ms', Tx.FetchOfflineMessages u w' = (Ok ms', w') ∧ ms' ≡ₚ ms ∧ (length ms ≤ 9 → ms' = ms).
Proof. by apply (sequence_fetched (offlineBucket u) ms w w'). Qed.

(** The capabilities of two clients get in each other's way when the node of one
    ends where the version of the other begins: they have the same bucket. *)
Theorem caps_buckets_collide (a b c : string) :
  capsBucketKey (a +:+ ":" +:+ b) c = capsBucketKey a (b +:+ ":" +:+ c).
Proof. unfold capsBucketKey. by rewrite <-!string_app_assoc. Qed.

(** A start date after all messages filters nothing: the loop that cuts the list
    finds no message to cut at. *)
Theorem late_start_returns_all (start : Z) (ms : list ArchiveMessage)
    (Hall : Forall (fun m => ar_Stamp m <= start)%Z ms) :
  Tx.filterStamps (MkFilters (Some start) None "" "" "" []) ms = ms.
Proof.
  unfold Tx.filterStamps. simpl.
  assert (Tx.cutFrom (fun msg => (start <? ar_Stamp msg)%Z) ms = None) as ->; [|done].
  induction Hall as [|m ms Hm _ IH]; simpl; [done|].
  by rewrite (proj2 (Z.ltb_ge start (ar_Stamp m))).
Qed.

End repositories.

(** ** A database in memory *)
Module MapBolt.
Import TreeLib.

Abbreviation db := (gmap string bucket).

Definition on_bucket (n : string) (f : bucket → bucket) : M db unit := fun w =>
  match w !! n with
  | Some b => (Ok tt, <[n := f b]> w)
  | None => (Err ErrBucketNotFound, w)
  end.

#[export] Instance map_bolt : Bolt db := {|
  TX := db;
  b_Begin := fun w => (Ok w, w);
  b_Commit := fun _ => mret tt;
  b_Rollback := fun tx _ => (Ok tt, tx);
  b_Exit := fun tx _ => tx;
  b_Update := fun A m w => match m w with (Ok a, w') => (Ok a, w') | (r, _) => (r, w) end;
  b_View := fun A m w => ((m w).1, w);
  b_HasBucket := fun n w => bool_decide (is_Some (w !! n));
  b_CreateBucketIfNotExists := fun n w =>
    (Ok tt, match w !! n with Some _ => w | None => <[n := MkBucket 0 ∅]> w end);
  b_DeleteBucket := fun n w =>
    match w !! n with Some _ => (Ok tt, delete n w) | None => (Err ErrBucketNotFound, w) end;
  b_Get := fun n k w => w !! n ≫= (fun b => b_kvs b !! k);
  b_Put := fun n k v => on_bucket n (upd_kvs (insert k v));
  b_Delete := fun n k => on_bucket n (upd_kvs (delete k));
  b_NextSequence := fun n w =>
    match w !! n with
    | Some b => (Ok (b_seq b + 1)%Z, <[n := MkBucket (b_seq b + 1) (b_kvs b)]> w)
    | None => (Err ErrBucketNotFound, w)
    end;
  b_Cursor := fun n w => default [] ((fun b => cursor_of (b_kvs b)) <$> w !! n);
|}.

Lemma on_bucket_alter n f (w : db) :
  match on_bucket n f w with (Ok _, w') => w' = alter f n w | (_, w') => w' = w end.
Proof.
  unfold on_bucket. destruct (w !! n) as [b|] eqn:E; [|done]. apply map_eq. intros k.
  destruct (decide (k = n)) as [->|Hne].
  - rewrite lookup_insert_eq, lookup_alter_eq, E. done.
  - by rewrite lookup_insert_ne, lookup_alter_ne.
Qed.

#[export] Instance map_bolt_ok : BoltOk db.
Proof.
  refine {| buckets := fun w => w; snapshot := fun tx => tx |}; try done.
  - intros n w. simpl. destruct (w !! n) eqn:E; [|done]. by split.
  - intros n w Hn. simpl. by rewrite Hn.
  - intros n k v w. apply on_bucket_alter.
  - intros n k w. apply on_bucket_alter.
  - intros n w. simpl. destruct (w !! n) as [b|] eqn:E; [|done]. by exists b.
  - intros A m w. simpl. destruct (m w) as [[a|e|c] w']; [by exists w'|done..].
  - intros A m w. simpl. destruct (m w) as [[a|e|c] w']; [by exists w'|done..].
Defined.

(** Binary forms for the entities of the examples. *)
Definition unsupported : goerror := ErrText "unsupported".

#[export] Instance version_codec : Codec RosterVersion := {|
  MarshalBinary := fun v => inr (Itoa (rv_Version v));
  UnmarshalBinary := fun s => inr (MkVersion (Atoi s).1);
|}.

(** Items without name, groups and pending request. *)
#[export] Instance item_codec : Codec Item := {|
  MarshalBinary := fun i =>
    if bool_decide (ItemName i = "" ∧ Groups i = [] ∧ Ask i = false) &&
       no_char "|" (Username i) && no_char "|" (Jid i) && no_char "|" (Subscription i)
    then inr (Username i +:+ String "|" (Jid i +:+ String "|" (Subscription i)))
    else inl unsupported;
  UnmarshalBinary := fun s =>
    match Split "|" s with [u; j; sub] => inr (MkItem u j "" sub [] false) | _ => inl unsupported end;
|}.
#[export] Instance item_codec_ok : CodecOk Item.
Proof.
  intros [u j n sub gs ask] b. unfold MarshalBinary, UnmarshalBinary, item_codec. simpl.
  case_bool_decide as Hb; [|done]. destruct Hb as (-> & -> & ->). simpl.
  destruct (no_char "|" u) eqn:Eu, (no_char "|" j) eqn:Ej, (no_char "|" sub) eqn:Es; simpl; try done.
  intros [= <-]. by rewrite !Split_app, Split_none.
Qed.

(** Elements without attributes, children and text. *)
Definition stanza_name (k : option stanza_kind) : string :=
  match k with Some KIQ => "I" | Some KPresence => "P" | Some KMessage => "M" | None => "E" end.
Definition name_kind (s : string) : option stanza_kind :=
  if String.eqb s "I" then Some KIQ else if String.eqb s "P" then Some KPresence
  else if String.eqb s "M" then Some KMessage else None.
Definition encode_tree (e : tree) : goerror + string :=
  match e with
  | TNode n [] [] "" k => inr (stanza_name k +:+ n)
  | _ => inl unsupported
  end.
Definition decode_tree (s : string) : goerror + tree :=
  match s with
  | String c n => inr (TNode n [] [] "" (name_kind (String c "")))
  | _ => inl unsupported
  end.
Lemma tree_roundtrip e b : encode_tree e = inr b → decode_tree b = inr e.
Proof. destruct e as [n [|] [|] [|] k]; simpl; try done. intros [= <-]. by destruct k as [[]|]. Qed.

#[export] Instance tree_codec : Codec (@Element tree_jid tree_xml) :=
  @Build_Codec tree encode_tree decode_tree.
#[export] Instance tree_codec_ok : CodecOk (@Element tree_jid tree_xml) := tree_roundtrip.

#[export] Instance notif_codec : Codec (@Notification tree_jid tree_xml) := {|
  MarshalBinary := fun n =>
    match encode_tree (rn_Presence n) with
    | inl e => inl e
    | inr p =>
      if no_char "|" (rn_Contact n) && no_char "|" (rn_Jid n) && no_char "|" p
      then inr (rn_Contact n +:+ String "|" (rn_Jid n +:+ String "|" p)) else inl unsupported
    end;
  UnmarshalBinary := fun s =>
    match Split "|" s with
    | [c; j; p] =>
      match decode_tree p with inr e => inr (@MkNotification tree_jid tree_xml c j e) | inl e => inl e end
    | _ => inl unsupported
    end;
|}.
#[export] Instance notif_codec_ok : CodecOk (@Notification tree_jid tree_xml).
Proof.
  intros [c j p] b. unfold MarshalBinary, UnmarshalBinary, notif_codec. simpl.
  destruct (encode_tree p) as [e|s] eqn:Ep; [done|].
  destruct (no_char "|" c) eqn:Ec, (no_char "|" j) eqn:Ej, (no_char "|" s) eqn:Es; simpl; try done.
  intros [= <-]. rewrite !Split_app, Split_none by done. by rewrite (tree_roundtrip p s).
Qed.

#[export] Instance quiet_surround : @RosterSurround tree_jid tree_xml db := {|
  su_Route := fun _ => mret tt; su_GetResources := fun _ => mret []; su_LocalStream := fun _ _ => mret 1%Z;
  su_StreamInfo := fun _ _ => ∅; su_SetInfoBool := fun _ _ _ => mret tt;
  su_IsLocalHost := fun d => String.eqb d "jackal.im"; su_runHook := fun _ _ _ _ => mret tt;
  su_uuid := mret "uuid" |}.
#[export] Instance quiet_ok : @SurroundOk tree_jid tree_xml db map_bolt map_bolt_ok quiet_surround.
Proof. split; done. Qed.

Lemma bolt_keeps_roster_contract_witness :
  @RosterRepo tree_jid tree_xml db
    (@bolt_roster_env tree_jid tree_xml db map_bolt quiet_surround item_codec notif_codec version_codec)
    (@bolt_roster_views tree_jid tree_xml db map_bolt map_bolt_ok item_codec notif_codec).
Proof.
  exact (@bolt_keeps_roster_contract tree_jid tree_xml db map_bolt map_bolt_ok quiet_surround
    item_codec item_codec_ok notif_codec notif_codec_ok version_codec quiet_ok).
Defined.

(** An account with one roster item and no request. *)
Definition romeo_item : Item := MkItem "romeo" "juliet@jackal.im" "" "both" [] false.
Definition one_item : db := ((Tx.UpsertRosterItem romeo_item : M db unit) ∅).2.

Lemma bolt_user_deletion_keeps_roster_witness :
  (@onUserDeleted tree_jid tree_xml db
    (@bolt_roster_env tree_jid tree_xml db map_bolt quiet_surround item_codec notif_codec version_codec)
    "romeo" one_item).1 = Err ErrBucketNotFound.
Proof.
  apply (@bolt_user_deletion_keeps_roster tree_jid tree_xml db map_bolt map_bolt_ok quiet_surround
    item_codec notif_codec version_codec "romeo" one_item one_item); [done|]. vm_compute. reflexivity.
Defined.

Definition msg (n : string) : @Element tree_jid tree_xml := TNode n [] [] "" (Some KMessage).
Lemma bolt_offline_kept_witness : ∃ ms',
  (Tx.FetchOfflineMessages "romeo" : M db (list (@Element tree_jid tree_xml)))
    (for_each [msg "a"; msg "b"] (fun m => Tx.InsertOfflineMessage m "romeo") (∅ : db)).2 =
    (Ok ms', (for_each [msg "a"; msg "b"] (fun m => Tx.InsertOfflineMessage m "romeo") (∅ : db)).2) ∧
  ms' ≡ₚ [msg "a"; msg "b"] ∧ (length [msg "a"; msg "b"] ≤ 9 → ms' = [msg "a"; msg "b"]).
Proof.
  apply (@bolt_offline_kept tree_jid tree_xml db map_bolt map_bolt_ok tree_codec tree_codec_ok
    "romeo" [msg "a"; msg "b"] ∅); [simpl; lia|done|]. vm_compute. reflexivity.
Defined.

(** The tenth message overtakes: its key [10] is before [2] in byte order. *)
Definition stored_offline (ms : list (@Element tree_jid tree_xml)) : outcome (list (@Element tree_jid tree_xml)) :=
  ((for_each ms (fun m => Tx.InsertOfflineMessage m "romeo");; Tx.FetchOfflineMessages "romeo") (∅ : db)).1.

Theorem tenth_message_overtakes :
  stored_offline (map msg ["a"; "b"; "c"; "d"; "e"; "f"; "g"; "h"; "i"; "j"]) =
    Ok (map msg ["a"; "j"; "b"; "c"; "d"; "e"; "f"; "g"; "h"; "i"]).
Proof. vm_compute. reflexivity. Qed.

End MapBolt.
