(* ===== verification/Cached.v ===== *)
(** * The caching repository

    src/pkg/storage/cached: reads go to a cache first and fill it from the
    repository, writes remove the entries they make stale and go to the
    repository.  [existsOp], [updateOp] and [fetchOp] (op.go) are the three ways
    to use the cache; the rest are their uses. *)

From stdpp Require Import base list strings gmap sorting.
From Stdlib Require Import ZArith Lia Ascii.
From S2P Require Import Prelude GoLib GoStrings Stravaganza Roster Storage Repository.
From S2P Require Users.

(** ** What the layer stands on *)

(** The cache store ([Cache]): values by name space and key. *)
Class Cache (W : Type) := {
  c_Get : string → string → M W (option string);
  c_Put : string → string → string → M W unit;
  c_Del : string → list string → M W unit;
  c_DelNS : string → M W unit;
  c_HasKey : string → string → M W bool;
}.

(** ** The three operations (op.go) *)
Section ops.
Context {W : Type} `{!Cache W}.

Definition existsOp (namespace key : string) (missFn : M W bool) : M W bool :=
  r ← try (c_HasKey namespace key);
  match r with
  | inl _ => missFn
  | inr true => mret true
  | inr false => missFn
  end.

Definition updateOp {A} (namespace : string) (invalidateKeys : list string) (updateFn : M W A) : M W A :=
  match invalidateKeys with
  | [] => c_DelNS namespace
  | _ :: _ => c_Del namespace invalidateKeys
  end;;
  updateFn.

(** [missFn] gives nil where there is no value. *)
Definition fetchOp {A} `{!Codec A} (namespace key : string) (missFn : M W (option A)) : M W (option A) :=
  r ← try (c_Get namespace key);
  match r with
  | inl _ => missFn
  | inr None =>
    cdc ← missFn;
    match cdc with
    | None => mret None
    | Some a =>
      match MarshalBinary a with
      | inl e => fail e
      | inr b => c_Put namespace key b;; mret (Some a)
      end
    end
  | inr (Some b) =>
    match UnmarshalBinary b with
    | inl e => fail e
    | inr a => mret (Some a)
    end
  end.

(** A miss function that always has a value. *)
Definition always {A} (m : M W A) : M W (option A) := a ← m; mret (Some a).

End ops.

(** ** Name spaces and keys *)
Definition userNS (username : string) : string := "usr:" +:+ username.
Definition lastNS (username : string) : string := "lst:" +:+ username.
Definition capsNS (node ver : string) : string := "caps:" +:+ node +:+ ":" +:+ ver.
Definition blockListNS (username : string) : string := "bl:" +:+ username.
Definition privateNS (username : string) : string := "prv:" +:+ username.
Definition vCardNS (username : string) : string := "vc:" +:+ username.
Definition rosterItemsNS (username : string) : string := "ros:items:" +:+ username.
Definition rosterNotificationsNS (contact : string) : string := "ros:notif:" +:+ contact.

Definition userKey : string := "usr".
Definition lastKey : string := "lst".
Definition capsKey : string := "caps".
Definition blockListItems : string := "items".
Definition vCardKey : string := "vc".
Definition rosterVersionKey : string := "ver".
Definition rosterItemsKey : string := "items".
Definition rosterNotificationsKey : string := "notifications".
Definition rosterGroupsKey : string := "groups".

(** [strings.Join(ss, "|")] *)
Fixpoint join_bar (ss : list string) : string :=
  match ss with
  | [] => ""
  | [s] => s
  | s :: ss' => s +:+ "|" +:+ join_bar ss'
  end.
Definition rosterGroupsSliceKey `{SortSlice} (groups : list string) : string :=
  "groups:" +:+ join_bar (sort_slice String.ltb groups).

(** ** The repository *)
Section cached.
Context `{XmlLib} `{!SortSlice} {W : Type} `{!Cache W} `{!Rep W}.
Context `{!Codec Users.User} `{!Codec Last} `{!Codec Capabilities} `{!Codec (list BlockItem)}.
Context `{!Codec Element} `{!Codec RosterVersion} `{!Codec Item} `{!Codec (list Item)}.
Context `{!Codec Notification} `{!Codec (list Notification)} `{!Codec (list string)}.

(** [cachedUserRep] *)
Definition UpsertUser (user : Users.User) : M W unit :=
  updateOp (userNS (Users.Username user)) [userKey] (rep_UpsertUser user).
Definition DeleteUser (username : string) : M W unit :=
  updateOp (userNS username) [userKey] (rep_DeleteUser username).
Definition FetchUser (username : string) : M W (option Users.User) :=
  fetchOp (userNS username) userKey (rep_FetchUser username).
Definition UserExists (username : string) : M W bool :=
  existsOp (userNS username) userKey (rep_UserExists username).

(** [cachedLastRep] *)
Definition UpsertLast (last : Last) : M W unit :=
  updateOp (lastNS (la_Username last)) [lastKey] (rep_UpsertLast last).
Definition FetchLast (username : string) : M W (option Last) :=
  fetchOp (lastNS username) lastKey (rep_FetchLast username).
Definition DeleteLast (username : string) : M W unit :=
  updateOp (lastNS username) [lastKey] (rep_DeleteLast username).

(** [cachedCapsRep] *)
Definition UpsertCapabilities (caps : Capabilities) : M W unit :=
  updateOp (capsNS (ca_Node caps) (ca_Ver caps)) [capsKey] (rep_UpsertCapabilities caps).
Definition CapabilitiesExist (node ver : string) : M W bool :=
  existsOp (capsNS node ver) capsKey (rep_CapabilitiesExist node ver).
Definition FetchCapabilities (node ver : string) : M W (option Capabilities) :=
  fetchOp (capsNS node ver) capsKey (rep_FetchCapabilities node ver).

(** [cachedBlockListRep] *)
Definition UpsertBlockListItem (item : BlockItem) : M W unit :=
  updateOp (blockListNS (bl_Username item)) [blockListItems] (rep_UpsertBlockListItem item).
Definition DeleteBlockListItem (item : BlockItem) : M W unit :=
  updateOp (blockListNS (bl_Username item)) [blockListItems] (rep_DeleteBlockListItem item).
Definition FetchBlockListItems (username : string) : M W (list BlockItem) :=
  v ← fetchOp (blockListNS username) blockListItems (always (rep_FetchBlockListItems username));
  mret (default [] v).
Definition DeleteBlockListItems (username : string) : M W unit :=
  updateOp (blockListNS username) [] (rep_DeleteBlockListItems username).

(** [cachedPrivateRep] *)
Definition FetchPrivate (namespace username : string) : M W (option Element) :=
  fetchOp (privateNS username) namespace (rep_FetchPrivate namespace username).
Definition UpsertPrivate (private : Element) (namespace username : string) : M W unit :=
  updateOp (privateNS username) [namespace] (rep_UpsertPrivate private namespace username).
Definition DeletePrivates (username : string) : M W unit :=
  updateOp (privateNS username) [] (rep_DeletePrivates username).

(** [cachedVCardRep] *)
Definition UpsertVCard (vCard : Element) (username : string) : M W unit :=
  updateOp (vCardNS username) [vCardKey] (rep_UpsertVCard vCard username).
Definition FetchVCard (username : string) : M W (option Element) :=
  fetchOp (vCardNS username) vCardKey (rep_FetchVCard username).
Definition DeleteVCard (username : string) : M W unit :=
  updateOp (vCardNS username) [vCardKey] (rep_DeleteVCard username).

(** [cachedRosterRep] *)
Definition TouchRosterVersion (username : string) : M W Z :=
  updateOp (rosterItemsNS username) [rosterVersionKey] (rep_TouchRosterVersion username).
Definition FetchRosterVersion (username : string) : M W Z :=
  v ← fetchOp (A:=RosterVersion) (rosterItemsNS username) rosterVersionKey
    (always (ver ← rep_FetchRosterVersion username; mret (MkVersion (int32 ver))));
  mret (match v with Some v => rv_Version v | None => 0%Z end).
Definition UpsertRosterItem (ri : Item) : M W unit :=
  updateOp (rosterItemsNS (Username ri)) [] (rep_UpsertRosterItem ri).
Definition DeleteRosterItem (username jid : string) : M W unit :=
  updateOp (rosterItemsNS username) [] (rep_DeleteRosterItem username jid).
Definition DeleteRosterItems (username : string) : M W unit :=
  updateOp (rosterItemsNS username) [] (rep_DeleteRosterItems username).
Definition FetchRosterItems (username : string) : M W (list Item) :=
  v ← fetchOp (rosterItemsNS username) rosterItemsKey (always (rep_FetchRosterItems username));
  mret (default [] v).
Definition FetchRosterItemsInGroups (username : string) (groups : list string) : M W (list Item) :=
  v ← fetchOp (rosterItemsNS username) (rosterGroupsSliceKey groups)
    (always (rep_FetchRosterItemsInGroups username groups));
  mret (default [] v).
Definition FetchRosterItem (username jid : string) : M W (option Item) :=
  fetchOp (rosterItemsNS username) jid (rep_FetchRosterItem username jid).
Definition UpsertRosterNotification (rn : Notification) : M W unit :=
  updateOp (rosterNotificationsNS (rn_Contact rn)) [] (rep_UpsertRosterNotification rn).
Definition DeleteRosterNotification (contact jid : string) : M W unit :=
  updateOp (rosterNotificationsNS contact) [] (rep_DeleteRosterNotification contact jid).
Definition DeleteRosterNotifications (contact : string) : M W unit :=
  updateOp (rosterNotificationsNS contact) [] (rep_DeleteRosterNotifications contact).
Definition FetchRosterNotification (contact jid : string) : M W (option Notification) :=
  fetchOp (rosterNotificationsNS contact) jid (rep_FetchRosterNotification contact jid).
Definition FetchRosterNotifications (contact : string) : M W (list Notification) :=
  v ← fetchOp (rosterNotificationsNS contact) rosterNotificationsKey
    (always (rep_FetchRosterNotifications contact));
  mret (default [] v).
Definition FetchRosterGroups (username : string) : M W (list string) :=
  v ← fetchOp (rosterItemsNS username) rosterGroupsKey (always (rep_FetchRosterGroups username));
  mret (default [] v).

(** [CachedRepository.InTransaction]: the methods the function calls go through
    the same cache ([newCacheTx]). *)
Definition InTransaction (f : M W unit) : M W unit := rep_InTransaction f.

End cached.
