(* ===== verification/CachedProofs.v ===== *)
(** * The caching repository answers like the repository

    Reads through the cache of [Cached] give what the repository below holds: the
    entries of the cache stay coherent, because a read enters what the repository
    answered and every write removes the entries that it can make stale.  The
    cache may lose entries at any time and its calls may fail.

    Reads and writes are data here ([Query], [Update]), so that the contract of
    the repository is stated once for all of its methods. *)

From stdpp Require Import base list strings gmap sorting.
From Stdlib Require Import ZArith Lia Ascii.
From S2P Require Import Prelude GoLib GoStrings Stravaganza Roster Storage Repository MemRep Cached.
From S2P Require Users BoltProofs.

(** ** Reads and writes *)
Section calls.
Context `{XmlLib}.

Inductive Query : Type → Type :=
  | QUser (username : string) : Query (option Users.User)
  | QUserExists (username : string) : Query bool
  | QLast (username : string) : Query (option Last)
  | QCaps (node ver : string) : Query (option Capabilities)
  | QCapsExist (node ver : string) : Query bool
  | QBlockList (username : string) : Query (list BlockItem)
  | QPrivate (namespace username : string) : Query (option Element)
  | QVCard (username : string) : Query (option Element)
  | QVersion (username : string) : Query Z
  | QItems (username : string) : Query (list Item)
  | QItemsIn (username : string) (groups : list string) : Query (list Item)
  | QItem (username jid : string) : Query (option Item)
  | QGroups (username : string) : Query (list string)
  | QNotif (contact jid : string) : Query (option Notification)
  | QNotifs (contact : string) : Query (list Notification).

Inductive Update :=
  | UUser (user : Users.User) | DUser (username : string)
  | ULast (last : Last) | DLast (username : string)
  | UCaps (caps : Capabilities)
  | UBlock (item : BlockItem) | DBlock (item : BlockItem) | DBlocks (username : string)
  | UPrivate (private : Element) (namespace username : string) | DPrivates (username : string)
  | UVCard (vCard : Element) (username : string) | DVCard (username : string)
  | TouchVersion (username : string)
  | UItem (ri : Item) | DItem (username jid : string) | DItems (username : string)
  | UNotif (rn : Notification) | DNotif (contact jid : string) | DNotifs (contact : string).

(** What a write may change; every read of a roster counts as changed by a write
    to its items. *)
Definition touches (up : Update) {A} (q : Query A) : Prop :=
  match up, q with
  | UUser (Users.MkUser u _), (QUser v | QUserExists v) => u = v
  | DUser u, (QUser v | QUserExists v) => u = v
  | ULast l, QLast v => la_Username l = v
  | DLast u, QLast v => u = v
  | UCaps c, (QCaps n v | QCapsExist n v) => ca_Node c = n ∧ ca_Ver c = v
  | (UBlock i | DBlock i), QBlockList v => bl_Username i = v
  | DBlocks u, QBlockList v => u = v
  | UPrivate _ n u, QPrivate n' v => n = n' ∧ u = v
  | DPrivates u, QPrivate _ v => u = v
  | (UVCard _ u | DVCard u), QVCard v => u = v
  | TouchVersion u, QVersion v => u = v
  | UItem i, (QVersion v | QItems v | QItemsIn v _ | QItem v _ | QGroups v) => Username i = v
  | (DItem u _ | DItems u), (QVersion v | QItems v | QItemsIn v _ | QItem v _ | QGroups v) => u = v
  | UNotif n, (QNotif v _ | QNotifs v) => rn_Contact n = v
  | (DNotif u _ | DNotifs u), (QNotif v _ | QNotifs v) => u = v
  | _, _ => False
  end.

(** Where a read looks in the cache. *)
Definition slot `{!SortSlice} {A} (q : Query A) : string * string :=
  match q with
  | QUser u | QUserExists u => (userNS u, userKey)
  | QLast u => (lastNS u, lastKey)
  | QCaps n v | QCapsExist n v => (capsNS n v, capsKey)
  | QBlockList u => (blockListNS u, blockListItems)
  | QPrivate n u => (privateNS u, n)
  | QVCard u => (vCardNS u, vCardKey)
  | QVersion u => (rosterItemsNS u, rosterVersionKey)
  | QItems u => (rosterItemsNS u, rosterItemsKey)
  | QItemsIn u gs => (rosterItemsNS u, rosterGroupsSliceKey gs)
  | QItem u j => (rosterItemsNS u, j)
  | QGroups u => (rosterItemsNS u, rosterGroupsKey)
  | QNotif c j => (rosterNotificationsNS c, j)
  | QNotifs c => (rosterNotificationsNS c, rosterNotificationsKey)
  end.

(** Reads whose place in the cache is theirs alone: a contact is not called like
    one of the fixed keys, a group has a name without a bar, a client's node has
    no colon. *)
Definition reserved (j : string) : bool :=
  String.eqb j rosterVersionKey || String.eqb j rosterItemsKey || String.eqb j rosterGroupsKey ||
  String.prefix "groups:" j.
Definition group_ok (g : string) : bool := negb (String.eqb g "") && no_char "|" g.
Definition proper {A} (q : Query A) : bool :=
  match q with
  | QCaps n _ | QCapsExist n _ => no_char ":" n
  | QItem _ j => negb (reserved j)
  | QItemsIn _ gs => forallb group_ok gs
  | QNotif _ j => negb (String.eqb j rosterNotificationsKey)
  | _ => true
  end.

(** Where a write removes entries. *)
Definition stale (up : Update) : string * list string :=
  match up with
  | UUser user => (userNS (Users.Username user), [userKey])
  | DUser u => (userNS u, [userKey])
  | ULast l => (lastNS (la_Username l), [lastKey])
  | DLast u => (lastNS u, [lastKey])
  | UCaps c => (capsNS (ca_Node c) (ca_Ver c), [capsKey])
  | UBlock i | DBlock i => (blockListNS (bl_Username i), [blockListItems])
  | DBlocks u => (blockListNS u, [])
  | UPrivate _ n u => (privateNS u, [n])
  | DPrivates u => (privateNS u, [])
  | UVCard _ u | DVCard u => (vCardNS u, [vCardKey])
  | TouchVersion u => (rosterItemsNS u, [rosterVersionKey])
  | UItem i => (rosterItemsNS (Username i), [])
  | DItem u _ | DItems u => (rosterItemsNS u, [])
  | UNotif n => (rosterNotificationsNS (rn_Contact n), [])
  | DNotif c _ | DNotifs c => (rosterNotificationsNS c, [])
  end.

(** A write removes the entries of all that it may change. *)
Lemma touched_stale `{!SortSlice} up {A} (q : Query A) : touches up q →
  (slot q).1 = (stale up).1 ∧ ((stale up).2 = [] ∨ (slot q).2 ∈ (stale up).2).
Proof.
  destruct up, q; simpl; try (destruct user; simpl); try done; intros; simplify_eq;
    try (match goal with h : _ ∧ _ |- _ => destruct h as [<- <-] end);
    (split; [done|]; first [by left|right; set_solver]).
Qed.

End calls.

(** ** The contracts *)
Section coherence.
Context `{XmlLib} `{!SortSlice} {W : Type} `{!Cache W} `{!Rep W}.
Context `{!Codec Users.User} `{!Codec Last} `{!Codec Capabilities} `{!Codec (list BlockItem)}.
Context `{!Codec Element} `{!Codec RosterVersion} `{!Codec Item} `{!Codec (list Item)}.
Context `{!Codec Notification} `{!Codec (list Notification)} `{!Codec (list string)}.
Context `{!CodecOk Users.User} `{!CodecOk Last} `{!CodecOk Capabilities} `{!CodecOk (list BlockItem)}.
Context `{!CodecOk Element} `{!CodecOk RosterVersion} `{!CodecOk Item} `{!CodecOk (list Item)}.
Context `{!CodecOk Notification} `{!CodecOk (list Notification)} `{!CodecOk (list string)}.

(** The calls the reads and writes stand for, of the repository and of the
    caching repository. *)
Definition rep_ask {A} (q : Query A) : M W A :=
  match q with
  | QUser u => rep_FetchUser u
  | QUserExists u => rep_UserExists u
  | QLast u => rep_FetchLast u
  | QCaps n v => rep_FetchCapabilities n v
  | QCapsExist n v => rep_CapabilitiesExist n v
  | QBlockList u => rep_FetchBlockListItems u
  | QPrivate n u => rep_FetchPrivate n u
  | QVCard u => rep_FetchVCard u
  | QVersion u => rep_FetchRosterVersion u
  | QItems u => rep_FetchRosterItems u
  | QItemsIn u gs => rep_FetchRosterItemsInGroups u gs
  | QItem u j => rep_FetchRosterItem u j
  | QGroups u => rep_FetchRosterGroups u
  | QNotif c j => rep_FetchRosterNotification c j
  | QNotifs c => rep_FetchRosterNotifications c
  end.

Definition ask {A} (q : Query A) : M W A :=
  match q with
  | QUser u => FetchUser u
  | QUserExists u => UserExists u
  | QLast u => FetchLast u
  | QCaps n v => FetchCapabilities n v
  | QCapsExist n v => CapabilitiesExist n v
  | QBlockList u => FetchBlockListItems u
  | QPrivate n u => FetchPrivate n u
  | QVCard u => FetchVCard u
  | QVersion u => FetchRosterVersion u
  | QItems u => FetchRosterItems u
  | QItemsIn u gs => FetchRosterItemsInGroups u gs
  | QItem u j => FetchRosterItem u j
  | QGroups u => FetchRosterGroups u
  | QNotif c j => FetchRosterNotification c j
  | QNotifs c => FetchRosterNotifications c
  end.

Definition rep_change (up : Update) : M W unit :=
  match up with
  | UUser user => rep_UpsertUser user
  | DUser u => rep_DeleteUser u
  | ULast l => rep_UpsertLast l
  | DLast u => rep_DeleteLast u
  | UCaps c => rep_UpsertCapabilities c
  | UBlock i => rep_UpsertBlockListItem i
  | DBlock i => rep_DeleteBlockListItem i
  | DBlocks u => rep_DeleteBlockListItems u
  | UPrivate e n u => rep_UpsertPrivate e n u
  | DPrivates u => rep_DeletePrivates u
  | UVCard e u => rep_UpsertVCard e u
  | DVCard u => rep_DeleteVCard u
  | TouchVersion u => rep_TouchRosterVersion u;; mret tt
  | UItem i => rep_UpsertRosterItem i
  | DItem u j => rep_DeleteRosterItem u j
  | DItems u => rep_DeleteRosterItems u
  | UNotif n => rep_UpsertRosterNotification n
  | DNotif c j => rep_DeleteRosterNotification c j
  | DNotifs c => rep_DeleteRosterNotifications c
  end.

Definition change (up : Update) : M W unit :=
  match up with
  | UUser user => UpsertUser user
  | DUser u => DeleteUser u
  | ULast l => UpsertLast l
  | DLast u => DeleteLast u
  | UCaps c => UpsertCapabilities c
  | UBlock i => UpsertBlockListItem i
  | DBlock i => DeleteBlockListItem i
  | DBlocks u => DeleteBlockListItems u
  | UPrivate e n u => UpsertPrivate e n u
  | DPrivates u => DeletePrivates u
  | UVCard e u => UpsertVCard e u
  | DVCard u => DeleteVCard u
  | TouchVersion u => TouchRosterVersion u;; mret tt
  | UItem i => UpsertRosterItem i
  | DItem u j => DeleteRosterItem u j
  | DItems u => DeleteRosterItems u
  | UNotif n => UpsertRosterNotification n
  | DNotif c j => DeleteRosterNotification c j
  | DNotifs c => DeleteRosterNotifications c
  end.

(** What the cache holds and what the repository would answer. *)
Class Views := {
  entries : W → gmap (string * string) string;
  answer : W → ∀ {A}, Query A → A;
}.
Context `{!Views}.

Definition same_answers (w w' : W) : Prop := ∀ A (q : Query A), answer w' q = answer w q.

#[local] Instance same_answers_preorder : PreOrder same_answers.
Proof. split; [by intros w A q|]. intros w1 w2 w3 E1 E2 A q. by rewrite E2. Qed.

(** The cache ([Cache]): it gives what it holds; it may lose entries in every
    call and fail in every call, but what it was asked to remove is gone when it
    reports no error. *)
Class CacheOk : Prop := {
  cache_Get : ∀ n k w, let '(r, w') := c_Get n k w in
    same_answers w w' ∧ entries w' ⊆ entries w ∧ ∀ v, r = Ok (Some v) → entries w !! (n, k) = Some v;
  cache_HasKey : ∀ n k w, let '(r, w') := c_HasKey n k w in
    same_answers w w' ∧ entries w' ⊆ entries w ∧ (r = Ok true → is_Some (entries w !! (n, k)));
  cache_Put : ∀ n k v w, let '(r, w') := c_Put n k v w in
    same_answers w w' ∧ (entries w' ⊆ entries w ∨ entries w' ⊆ <[(n, k) := v]> (entries w));
  cache_Del : ∀ n ks w, let '(r, w') := c_Del n ks w in
    same_answers w w' ∧ entries w' ⊆ entries w ∧
    (r = Ok tt → ∀ k, k ∈ ks → entries w' !! (n, k) = None);
  cache_DelNS : ∀ n w, let '(r, w') := c_DelNS n w in
    same_answers w w' ∧ entries w' ⊆ entries w ∧ (r = Ok tt → ∀ k, entries w' !! (n, k) = None);
}.

(** The repository: it answers by what it holds; a write changes, whether it
    reports an error or not, at most what it is about; a transaction takes effect
    as a whole or not at all. *)
Class RepOk : Prop := {
  rep_reads : ∀ A (q : Query A) w, let '(r, w') := rep_ask q w in
    same_answers w w' ∧ entries w' = entries w ∧ ∀ a, r = Ok a → a = answer w q;
  rep_writes : ∀ up w, let w' := (rep_change up w).2 in
    entries w' = entries w ∧ ∀ A (q : Query A), ¬ touches up q → answer w' q = answer w q;
  rep_transaction : ∀ m w,
    match rep_InTransaction m w with
    | (Ok _, w') => ∃ w1 w2, same_answers w w1 ∧ entries w1 = entries w ∧ m w1 = (Ok tt, w2) ∧
        same_answers w2 w' ∧ entries w' = entries w2
    | (_, w') => same_answers w w' ∧
        (entries w' = entries w ∨ ∃ w1, same_answers w w1 ∧ entries w1 = entries w ∧ entries w' = entries (m w1).2)
    end;
  rep_user_exists : ∀ w u, answer w (QUserExists u) = bool_decide (is_Some (answer w (QUser u)));
  rep_caps_exist : ∀ w n v, answer w (QCapsExist n v) = bool_decide (is_Some (answer w (QCaps n v)));
  rep_groups_order : ∀ w u gs gs', gs ≡ₚ gs' → answer w (QItemsIn u gs) = answer w (QItemsIn u gs');
  rep_version_range : ∀ w u, (- 2 ^ 31 <= answer w (QVersion u) < 2 ^ 31)%Z;
}.
Context `{!CacheOk} `{!RepOk}.

(** ** Coherence *)

(** The bytes [v] stand for the repository's answer to [q]. *)
Definition tells (w : W) {A} (q : Query A) (v : string) : Prop :=
  match q with
  | QUser u => ∃ x, answer w (QUser u) = Some x ∧ UnmarshalBinary v = inr x
  | QUserExists u => answer w (QUserExists u) = true
  | QLast u => ∃ x, answer w (QLast u) = Some x ∧ UnmarshalBinary v = inr x
  | QCaps n m => ∃ x, answer w (QCaps n m) = Some x ∧ UnmarshalBinary v = inr x
  | QCapsExist n m => answer w (QCapsExist n m) = true
  | QBlockList u => UnmarshalBinary v = inr (answer w (QBlockList u))
  | QPrivate n u => ∃ x, answer w (QPrivate n u) = Some x ∧ UnmarshalBinary v = inr x
  | QVCard u => ∃ x, answer w (QVCard u) = Some x ∧ UnmarshalBinary v = inr x
  | QVersion u => UnmarshalBinary v = inr (MkVersion (answer w (QVersion u)))
  | QItems u => UnmarshalBinary v = inr (answer w (QItems u))
  | QItemsIn u gs => UnmarshalBinary v = inr (answer w (QItemsIn u gs))
  | QItem u j => ∃ x, answer w (QItem u j) = Some x ∧ UnmarshalBinary v = inr x
  | QGroups u => UnmarshalBinary v = inr (answer w (QGroups u))
  | QNotif c j => ∃ x, answer w (QNotif c j) = Some x ∧ UnmarshalBinary v = inr x
  | QNotifs c => UnmarshalBinary v = inr (answer w (QNotifs c))
  end.

Definition coherent (w : W) : Prop :=
  ∀ A (q : Query A) v, proper q = true → entries w !! slot q = Some v → tells w q v.

Lemma tells_same w w' {A} (q : Query A) v : answer w' q = answer w q → tells w q v → tells w' q v.
Proof. destruct q; simpl; intros ->; done. Qed.

Lemma coherent_mono w w' : same_answers w w' → entries w' ⊆ entries w → coherent w → coherent w'.
Proof.
  intros Ha Hs Hc A q v Hp Hv. apply (tells_same w); [apply Ha|]. apply Hc; [done|].
  by eapply lookup_weaken.
Qed.

(** *** Places in the cache *)

Lemma Split_join_bar gs : gs ≠ [] → forallb (no_char "|") gs = true → Split "|" (join_bar gs) = gs.
Proof.
  induction gs as [|g [|g' gs] IH]; intros Hne Hg; [done|..]; simpl in *.
  - apply Split_none. by rewrite andb_true_r in Hg.
  - apply andb_true_iff in Hg as [Hg Hgs]. rewrite string_app_cons, Split_app by done. f_equal. by apply IH.
Qed.

Lemma join_bar_nil gs : forallb group_ok gs = true → join_bar gs = "" → gs = [].
Proof.
  destruct gs as [|g [|g' gs]]; simpl; [done|..]; unfold group_ok at 1.
  - intros Hg ->. done.
  - intros _ E. by destruct g.
Qed.

Lemma join_bar_inj gs gs' : forallb group_ok gs = true → forallb group_ok gs' = true →
  join_bar gs = join_bar gs' → gs = gs'.
Proof.
  intros Hg Hg' E.
  assert (∀ l, forallb group_ok l = true → forallb (no_char "|") l = true) as Hb.
  { intros l. rewrite <-!Is_true_true, !forallb_True. intros Hf.
    eapply Forall_impl; [exact Hf|]. intros x Hx. by apply andb_prop_elim in Hx as [_ Hx]. }
  destruct (decide (gs = [])) as [->|Hn]; [symmetry; by apply join_bar_nil|].
  destruct (decide (gs' = [])) as [->|Hn']; [by apply join_bar_nil|].
  rewrite <-(Split_join_bar gs), <-(Split_join_bar gs') by auto. by rewrite E.
Qed.

Lemma group_keys gs gs' : forallb group_ok gs = true → forallb group_ok gs' = true →
  rosterGroupsSliceKey gs = rosterGroupsSliceKey gs' → gs ≡ₚ gs'.
Proof.
  intros Hg Hg' E. unfold rosterGroupsSliceKey in E. simplify_eq/=.
  assert (∀ l, forallb group_ok l = true → forallb group_ok (sort_slice String.ltb l) = true) as Hs.
  { intros l. rewrite <-!Is_true_true, !forallb_True. by rewrite sort_slice_perm. }
  apply join_bar_inj in E; [|by apply Hs..].
  by rewrite <-(sort_slice_perm String.ltb gs), E, sort_slice_perm.
Qed.

Lemma caps_key n v n' v' : no_char ":" n = true → no_char ":" n' = true →
  capsNS n v = capsNS n' v' → n = n' ∧ v = v'.
Proof.
  intros Hn Hn' E. unfold capsNS in E. simplify_eq/=. apply (f_equal (cut ":")) in E.
  change (":" +:+ v) with (String ":" v) in E. change (":" +:+ v') with (String ":" v') in E.
  rewrite !cut_app in E by done. by simplify_eq.
Qed.

Lemma reserved_groups gs : reserved (rosterGroupsSliceKey gs) = true.
Proof. unfold reserved, rosterGroupsSliceKey. simpl. by destruct (join_bar _). Qed.

(** Two reads that share a place agree on what an entry there means, when the
    first one is a read that enters its answer. *)
Definition is_fetch {A} (q : Query A) : bool :=
  match q with QUserExists _ | QCapsExist _ _ => false | _ => true end.

Lemma slot_shared w {A B} (q : Query A) (q' : Query B) v : is_fetch q = true →
  proper q = true → proper q' = true → slot q = slot q' → tells w q v → tells w q' v.
Proof.
  destruct q, q'; intros Hf Hq Hq' E; pose proof (f_equal fst E) as En; pose proof (f_equal snd E) as Ek;
    clear E; cbn in En, Ek; try discriminate En; try discriminate Ek; try discriminate Hf;
    try (by subst; first [discriminate Hq|discriminate Hq']);
    try (apply caps_key in En as [-> ->]; [|done..]); simplify_eq; try done.
  - intros (x & Hx & _). simpl. by rewrite rep_user_exists, Hx.
  - intros (x & Hx & _). simpl. by rewrite rep_caps_exist, Hx.
  - simpl. apply (f_equal (String.append "groups:")) in Ek. apply group_keys in Ek; [|done..].
    by rewrite (rep_groups_order w _ _ _ Ek).
  - simpl in Hq'. by rewrite reserved_groups in Hq'.
  - simpl in Hq. by rewrite reserved_groups in Hq.
Qed.

Lemma coherent_put w w' {A} (q : Query A) v : is_fetch q = true → proper q = true →
  same_answers w w' → entries w' ⊆ <[slot q := v]> (entries w) → tells w q v → coherent w → coherent w'.
Proof.
  intros Hf Hq Ha Hs Ht Hc B q' v' Hq' Hv. apply (tells_same w); [apply Ha|].
  eapply lookup_weaken in Hv; [|exact Hs].
  destruct (decide (slot q = slot q')) as [E|Hne].
  - rewrite E, lookup_insert_eq in Hv. injection Hv as <-. by apply (slot_shared w q).
  - rewrite lookup_insert_ne in Hv by done. by apply Hc.
Qed.

(** ** The three operations *)

(** What an operation that reads has to give: the answer, and a coherent cache. *)
Definition serves {A} (t : A) (w : W) (r : outcome A * W) : Prop :=
  same_answers w r.2 ∧ coherent r.2 ∧ ∀ a, r.1 = Ok a → a = t.

Lemma existsOp_serves w (q : Query bool) : (∀ v, tells w q v → answer w q = true) → coherent w → proper q = true →
  serves (answer w q) w (existsOp (slot q).1 (slot q).2 (rep_ask q) w).
Proof.
  intros Hf Hc Hq. unfold existsOp, try. destruct (slot q) as [n k] eqn:Es. simpl.
  pose proof (cache_HasKey n k w) as Hk. unfold mbind, M_bind.
  destruct (c_HasKey n k w) as [r w1]. destruct Hk as (Ha & He & Hr).
  pose proof (rep_reads _ q w1) as Hm. destruct (rep_ask q w1) as [r2 w2] eqn:E2. destruct Hm as (Ha2 & He2 & Hr2).
  assert (coherent w1) as Hc1 by (by eapply coherent_mono).
  assert (serves (answer w q) w (r2, w2)) as Hserve.
  { unfold serves. simpl. split; [by etrans|]. split; [|intros a Ho; rewrite (Hr2 a Ho); apply Ha].
    apply (coherent_mono w1); [done|by rewrite He2|done]. }
  destruct r as [[]|e|c]; rewrite ?E2; try done.
  split; [done|]. split; [done|]. intros a [= <-]. destruct (Hr eq_refl) as [v Hv].
  rewrite <-Es in Hv. symmetry. by apply (Hf v), Hc.
Qed.

(** [fetchOp] at the place of [q]: [miss] asks the repository for [t], and [t] is
    what an entry for [q] stands for. *)
Lemma fetchOp_serves {A B} `{!Codec B} `{!CodecOk B} (q : Query A) w (miss : M W (option B)) (t : option B) :
  is_fetch q = true → proper q = true → coherent w →
  (∀ w1, same_answers w w1 → let '(r, w2) := miss w1 in
    same_answers w1 w2 ∧ entries w2 = entries w1 ∧ ∀ a, r = Ok a → a = t) →
  (∀ v, tells w q v ↔ ∃ x, t = Some x ∧ UnmarshalBinary v = inr x) →
  serves t w (fetchOp (slot q).1 (slot q).2 miss w).
Proof.
  intros Hf Hq Hc Hm Ht. unfold fetchOp, try. destruct (slot q) as [n k] eqn:Es. simpl.
  pose proof (cache_Get n k w) as Hg. unfold mbind, M_bind.
  destruct (c_Get n k w) as [r w1]. destruct Hg as (Ha & He & Hr).
  specialize (Hm w1 Ha). assert (coherent w1) as Hc1 by (by eapply coherent_mono).
  destruct (miss w1) as [r2 w2] eqn:E2. destruct Hm as (Ha2 & He2 & Hr2).
  assert (same_answers w w2) as Ha3 by (by etrans).
  assert (coherent w2) as Hc2 by (apply (coherent_mono w1); [done|by rewrite He2|done]).
  destruct r as [[v|]|e|c].
  - specialize (Hr v eq_refl). rewrite <-Es in Hr. apply Hc, Ht in Hr as (x & -> & ->); [|done].
    split; [done|]. split; [done|]. by intros a [= <-].
  - rewrite E2. destruct r2 as [[a|]|e|c]; try done.
    specialize (Hr2 _ eq_refl) as <-.
    destruct (MarshalBinary a) as [e|b] eqn:Eb; [done|].
    apply codec_roundtrip in Eb. pose proof (cache_Put n k b w2) as Hp.
    destruct (c_Put n k b w2) as [r3 w3]. destruct Hp as (Ha4 & Hp). rewrite <-Es in Hp.
    assert (serves (Some a) w (Ok (Some a), w3)) as Hs.
    { split; [by etrans|]. split; [|by intros ? [= <-]]. destruct Hp as [Hp|Hp]; [by apply (coherent_mono w2)|].
      apply (coherent_put w2 w3 q b); try done. apply (tells_same w); [apply Ha3|]. apply Ht. eauto. }
    destruct r3 as [[]|e|c]; [exact Hs|destruct Hs as (? & ? & _); done..].
  - rewrite E2. split; [done|]. by split.
  - split; [done|]. by split.
Qed.

Lemma serves_map {A B} (f : A → B) (m : M W A) (t : A) w :
  serves t w (m w) → serves (f t) w ((a ← m; mret (f a)) w).
Proof.
  unfold mbind, M_bind. destruct (m w) as [[a|e|c] w1]; intros (Ha & Hc & Hr); split; try done.
  split; [done|]. intros b [= <-]. f_equal. by apply Hr.
Qed.

(** What [miss] has to give to [fetchOp]. *)
Definition misses {B} (miss : M W B) (t : B) (w : W) : Prop :=
  ∀ w1, same_answers w w1 → let '(r, w2) := miss w1 in
    same_answers w1 w2 ∧ entries w2 = entries w1 ∧ ∀ a, r = Ok a → a = t.

Lemma misses_ask {A} (q : Query A) w : misses (rep_ask q) (answer w q) w.
Proof.
  intros w1 Ha. pose proof (rep_reads _ q w1) as Hr. destruct (rep_ask q w1) as [r w2].
  destruct Hr as (Ha2 & He & Hr). split; [done|]. split; [done|]. intros a E. rewrite (Hr a E). apply Ha.
Qed.

Lemma misses_map {A B} (f : A → B) (m : M W A) t w : misses m t w → misses (a ← m; mret (f a)) (f t) w.
Proof.
  intros Hm w1 Ha. specialize (Hm w1 Ha). unfold mbind, M_bind.
  destruct (m w1) as [[a|e|c] w2]; destruct Hm as (Ha2 & He & Hr); split; try done.
  split; [done|]. intros b [= <-]. f_equal. by apply Hr.
Qed.

Lemma int32_id z : (- 2 ^ 31 <= z < 2 ^ 31)%Z → int32 z = z.
Proof. intros Hz. unfold int32. rewrite Z.mod_small; lia. Qed.

(** A list is entered as one value. *)
Lemma fetch_list_serves {B} `{!Codec (list B)} `{!CodecOk (list B)} (q : Query (list B)) w :
  is_fetch q = true → proper q = true → coherent w →
  (∀ v, tells w q v ↔ UnmarshalBinary v = inr (answer w q)) →
  serves (answer w q) w ((v ← fetchOp (slot q).1 (slot q).2 (always (rep_ask q)); mret (default [] v)) w).
Proof.
  intros Hf Hq Hc Ht. apply (serves_map (default []) _ (Some (answer w q))).
  apply (fetchOp_serves q); [done..|by apply (misses_map Some), misses_ask|].
  intros v. rewrite Ht. naive_solver.
Qed.

Lemma fetch_one_serves {B} `{!Codec B} `{!CodecOk B} (q : Query (option B)) w :
  is_fetch q = true → proper q = true → coherent w →
  (∀ v, tells w q v ↔ ∃ x, answer w q = Some x ∧ UnmarshalBinary v = inr x) →
  serves (answer w q) w (fetchOp (slot q).1 (slot q).2 (rep_ask q) w).
Proof. intros Hf Hq Hc Ht. by apply (fetchOp_serves q); [..|apply misses_ask|]. Qed.

Lemma ask_serves {A} (q : Query A) w : proper q = true → coherent w → serves (answer w q) w (ask q w).
Proof.
  destruct q; intros Hq Hc;
    try (match goal with
      | |- serves (answer _ ?q) _ _ => first [by apply (fetch_one_serves q)|by apply (fetch_list_serves q)
          |by apply (existsOp_serves w q)]
      end).
  set (q := QVersion username).
  apply (serves_map (fun v => match v with Some x => rv_Version x | None => 0%Z end) _ (Some (MkVersion (answer w q)))).
  apply (fetchOp_serves q); [done..| |intros v; naive_solver].
  rewrite <-(int32_id (answer w q)) by apply rep_version_range.
  apply (misses_map Some), (misses_map (fun z => MkVersion (int32 z))), (misses_ask q).
Qed.

(** *** Writes *)

(** What the caching repository does for a write. *)
Lemma change_updateOp up w : change up w = updateOp (stale up).1 (stale up).2 (rep_change up) w.
Proof.
  destruct up; try reflexivity.
  unfold change, TouchRosterVersion, updateOp, mbind, M_bind. simpl.
  by destruct (c_Del _ _ w) as [[]].
Qed.

(** The entries go before the repository is changed. *)
Lemma updateOp_invalidates up w :
  let w' := (change up w).2 in
  entries w' ⊆ entries w ∧ (coherent w → coherent w') ∧
  ((change up w).1 = Ok tt → ∃ w1, same_answers w w1 ∧ rep_change up w1 = change up w).
Proof.
  cbv zeta. rewrite change_updateOp. set (n := (stale up).1). set (ks := (stale up).2).
  assert (∀ r1 w1, same_answers w w1 → entries w1 ⊆ entries w →
    (r1 = Ok tt → ∀ k, ks = [] ∨ k ∈ ks → entries w1 !! (n, k) = None) →
    let x := match r1 with Ok tt => rep_change up w1 | Err e => (Err e, w1) | Crash c => (Crash c, w1) end in
    entries x.2 ⊆ entries w ∧ (coherent w → coherent x.2) ∧
    (x.1 = Ok tt → ∃ w1, same_answers w w1 ∧ rep_change up w1 = x)) as Hcommon.
  { intros r1 w1 Ha He Hd. cbv zeta. destruct r1 as [[]|e|c]; simpl.
    - pose proof (rep_writes up w1) as [He2 Hw]. split; [by rewrite He2|]. split; [|by exists w1].
      intros Hc A q v Hq Hv. rewrite He2 in Hv.
      assert (¬ touches up q) as Hn.
      { intros Ht. apply touched_stale in Ht as [E1 E2]. fold n ks in E1, E2.
        destruct (slot q) as [sn sk]. simpl in *. subst sn. by rewrite (Hd eq_refl) in Hv. }
      apply (tells_same w1); [by apply Hw|]. by apply (coherent_mono w w1 Ha He Hc).
    - split; [done|]. split; [|done]. by apply coherent_mono.
    - split; [done|]. split; [|done]. by apply coherent_mono. }
  unfold updateOp, mbind, M_bind. destruct ks as [|k0 ks'] eqn:Eks.
  - pose proof (cache_DelNS n w) as Hd. destruct (c_DelNS n w) as [r1 w1]. destruct Hd as (Ha & He & Hd).
    specialize (Hcommon r1 w1 Ha He). destruct r1 as [[]|e|c]; apply Hcommon; naive_solver.
  - pose proof (cache_Del n ks w) as Hd. rewrite Eks in Hd. destruct (c_Del n _ w) as [r1 w1]. destruct Hd as (Ha & He & Hd).
    specialize (Hcommon r1 w1 Ha He). destruct r1 as [[]|e|c]; apply Hcommon; naive_solver.
Qed.

(** ** Histories *)

(** One step of a server that uses the repository: a read, a write, a transaction
    that writes, and whatever changes neither answers nor adds entries (time, the
    cache losing entries, calls that are not about these entities). *)
Inductive step : W → W → Prop :=
  | step_read A (q : Query A) w : proper q = true → step w (ask q w).2
  | step_write up w : step w (change up w).2
  | step_transaction ups w : step w (InTransaction (for_each ups change) w).2
  | step_other w w' : same_answers w w' → entries w' ⊆ entries w → step w w'.

Lemma writes_invalidate ups w :
  let w' := (for_each ups change w).2 in entries w' ⊆ entries w ∧ (coherent w → coherent w').
Proof.
  revert w. induction ups as [|up ups IH]; intros w; [done|]. cbn [for_each]. unfold mbind, M_bind.
  destruct (updateOp_invalidates up w) as (He & Hc & _).
  destruct (change up w) as [[[]|e|c] w1]; simpl in *; [|done..].
  destruct (IH w1) as [He' Hc']. split; [by etrans|auto].
Qed.

Lemma step_coherent w w' : step w w' → coherent w → coherent w'.
Proof.
  intros [A q w1 Hq|up w1|ups w1|w1 w2 Ha He] Hc.
  - by apply ask_serves.
  - by apply updateOp_invalidates.
  - unfold InTransaction. pose proof (rep_transaction (for_each ups change) w1) as Ht.
    assert (∀ w0 w2, same_answers w1 w2 → same_answers w1 w0 → entries w0 = entries w1 →
      entries w2 = entries (for_each ups change w0).2 → coherent w2) as Hback.
    { intros w0 w2 Ha Ha0 He0 He. apply (coherent_mono w1); [done| |done]. rewrite He, <-He0. apply writes_invalidate. }
    destruct (rep_InTransaction _ w1) as [[[]|e|c] w2]; simpl.
    + destruct Ht as (w3 & w4 & Ha & He & Hm & Ha' & He'). apply (coherent_mono w4); [done|by rewrite He'|].
      pose proof (writes_invalidate ups w3) as [_ Hw]. rewrite Hm in Hw. apply Hw.
      apply (coherent_mono w1); [done|by rewrite He|done].
    + destruct Ht as [Ha [He|(w3 & Ha3 & He3 & He)]]; [|by apply (Hback w3)].
      apply (coherent_mono w1); [done|by rewrite He|done].
    + destruct Ht as [Ha [He|(w3 & Ha3 & He3 & He)]]; [|by apply (Hback w3)].
      apply (coherent_mono w1); [done|by rewrite He|done].
  - by apply (coherent_mono w1).
Qed.


End coherence.

(** ** Where two reads meet in the cache *)

(** A contact called like a fixed key shares the place of the whole roster. *)
Theorem reserved_contact_collides `{XmlLib} `{!SortSlice} (u : string) :
  slot (QItem u "items") = slot (QItems u) ∧ slot (QItem u "groups") = slot (QGroups u) ∧
  slot (QItem u "ver") = slot (QVersion u).
Proof. done. Qed.

(** ** A repository and a cache in memory *)
Module MapRep.
Import TreeLib.
Import BoltProofs.MapBolt.

Record world := MkWorld { w_cache : gmap (string * string) string; w_mem : mem }.
#[export] Instance world_mem : HasMem world := {|
  get_mem := w_mem; set_mem := fun r w => MkWorld (w_cache w) r;
  roll_back := fun w w' => MkWorld (w_cache w') (w_mem w) |}.

#[export] Instance map_cache : Cache world := {|
  c_Get := fun n k w => (Ok (w_cache w !! (n, k)), w);
  c_Put := fun n k v w => (Ok tt, MkWorld (<[(n, k) := v]> (w_cache w)) (w_mem w));
  c_Del := fun n ks w => (Ok tt, MkWorld (filter (fun kv => ¬ (kv.1.1 = n ∧ kv.1.2 ∈ ks)) (w_cache w)) (w_mem w));
  c_DelNS := fun n w => (Ok tt, MkWorld (filter (fun kv => kv.1.1 ≠ n) (w_cache w)) (w_mem w));
  c_HasKey := fun n k w => (Ok (bool_decide (is_Some (w_cache w !! (n, k)))), w);
|}.

Definition holds (w : world) {A} (q : @Query tree_jid tree_xml A) : A :=
  let r := w_mem w in
  match q with
  | QUser u => m_users r !! u
  | QUserExists u => bool_decide (is_Some (m_users r !! u))
  | QLast u => m_last r !! u
  | QCaps n v => m_caps r !! (n, v)
  | QCapsExist n v => bool_decide (is_Some (m_caps r !! (n, v)))
  | QBlockList u => default [] (m_block r !! u)
  | QPrivate n u => m_private r !! u ≫= lookup n
  | QVCard u => m_vcard r !! u
  | QVersion u => int32 (default 0%Z (m_version r !! u))
  | QItems u => default [] (m_items r !! u)
  | QItemsIn u gs => filter (fun i => Exists (fun g => g ∈ gs) (Groups i)) (default [] (m_items r !! u))
  | QItem u j => list_find (fun i => Jid i = j) (default [] (m_items r !! u)) ≫= (fun x => Some x.2)
  | QGroups u => remove_dups (default [] (m_items r !! u) ≫= Groups)
  | QNotif c j => list_find (fun n => rn_Jid n = j) (default [] (m_notifs r !! c)) ≫= (fun x => Some x.2)
  | QNotifs c => default [] (m_notifs r !! c)
  end.
#[export] Instance map_views : @Views tree_jid tree_xml world := {| entries := w_cache; answer := @holds |}.

#[export] Instance map_cache_ok : @CacheOk tree_jid tree_xml world map_cache map_views.
Proof.
  split; simpl.
  - intros n k w. split; [done|]. split; [done|]. by intros v [= E].
  - intros n k w. split; [done|]. split; [done|]. intros [= E]. by apply bool_decide_eq_true in E.
  - intros n k v w. split; [done|]. by right.
  - intros n ks w. split; [done|]. split; [apply map_filter_subseteq|]. intros _ k Hk.
    apply map_lookup_filter_None. right. naive_solver.
  - intros n w. split; [done|]. split; [apply map_filter_subseteq|]. intros _ k.
    apply map_lookup_filter_None. right. naive_solver.
Qed.

Lemma insert_inner {A} (m : gmap string (gmap string A)) (u n n' : string) (a : A) : n ≠ n' →
  <[u := <[n := a]> (default ∅ (m !! u))]> m !! u ≫= lookup n' = m !! u ≫= lookup n'.
Proof.
  intros Hne. rewrite lookup_insert_eq. cbn. rewrite lookup_insert_ne by done.
  by destruct (m !! u).
Qed.

Lemma writes_local (up : @Update tree_jid tree_xml) w A (q : Query A) : ¬ touches up q →
  holds (rep_change up w).2 q = holds w q.
Proof.
  destruct w as [c [m1 m2 m3 m4 m5 m6 m7 m8 m9]]. unfold holds.
  destruct up, q; simpl; unfold on_list; try (destruct user; simpl); try done; intros Hn;
    rewrite ?lookup_insert_ne, ?lookup_delete_ne by naive_solver; try done.
  destruct (decide (username = username0)) as [<-|Hne]; [|by rewrite lookup_insert_ne].
  apply insert_inner. naive_solver.
Qed.

Lemma int32_range z : (- 2 ^ 31 <= int32 z < 2 ^ 31)%Z.
Proof. unfold int32. pose proof (Z.mod_pos_bound (z + 2 ^ 31) (2 ^ 32)). lia. Qed.

#[export] Instance map_rep_ok : @RepOk tree_jid tree_xml world map_rep map_views.
Proof.
  split.
  - intros A q w. by destruct q; (split; [done|]; split; [done|]; intros a [= <-]).
  - intros up w. split; [|intros; by apply writes_local]. by destruct up.
  - intros m w. simpl. destruct (m w) as [[[]|e|c] w'] eqn:E.
    + by exists w, w'.
    + split; [done|]. right. exists w. by rewrite E.
    + split; [done|]. right. exists w. by rewrite E.
  - done.
  - done.
  - intros w u gs gs' Hp. simpl. apply list_filter_iff. intros i. by setoid_rewrite Hp.
  - intros w u. apply int32_range.
Qed.

(** Entities the examples do not enter in the cache. *)
Definition no_codec (A : Type) : Codec A :=
  {| MarshalBinary := fun _ => inl unsupported; UnmarshalBinary := fun _ => inl unsupported |}.
Lemma no_codec_ok (A : Type) : @CodecOk A (no_codec A).
Proof. by intros a b. Qed.

Definition empty_world : world := MkWorld ∅ no_mem.

(** The caching repository of the examples. *)
Definition m_ask {A} (q : Query A) : M world A :=
  @ask tree_jid tree_xml go_insertion_sort world map_cache map_rep (no_codec _) (no_codec _) (no_codec _) (no_codec _)
    tree_codec (no_codec _) item_codec (no_codec _) notif_codec (no_codec _) (no_codec _) A q.
Definition m_change : @Update tree_jid tree_xml → M world unit := @change tree_jid tree_xml world map_cache map_rep.
Definition m_step : world → world → Prop :=
  @step tree_jid tree_xml go_insertion_sort world map_cache map_rep (no_codec _) (no_codec _) (no_codec _) (no_codec _)
    tree_codec (no_codec _) item_codec (no_codec _) notif_codec (no_codec _) (no_codec _) map_views.

Definition juliet : string := "juliet@jackal.im".
Definition friend : Item := MkItem "romeo" juliet "" "both" [] false.
Definition stranger : Item := MkItem "romeo" juliet "" "none" [] false.

(** A write and a read that enters the item in the cache. *)
Definition warm : world := (m_ask (QItem "romeo" juliet) (m_change (UItem friend) empty_world).2).2.

Lemma warm_reached : rtc m_step empty_world warm.
Proof.
  eapply rtc_l; [apply (step_write (UItem friend))|].
  eapply rtc_l; [by apply (step_read _ (QItem "romeo" juliet))|]. apply rtc_refl.
Qed.


(** A write removes the entry first and changes the repository then: a reader
    between the two enters the old item again, and it stays. *)
Definition raced : world :=
  ((c_DelNS (rosterItemsNS "romeo");;
    m_ask (QItem "romeo" juliet);;
    rep_UpsertRosterItem stranger) warm).2.
Theorem read_between_keeps_old_value :
  holds raced (QItem "romeo" juliet) = Some stranger ∧ (m_ask (QItem "romeo" juliet) raced).1 = Ok (Some friend).
Proof. split; vm_compute; reflexivity. Qed.

(** A read in a transaction enters what is not committed; it stays when the
    transaction is rolled back. *)
Definition rolled_back : world :=
  (rep_InTransaction (m_change (UItem friend);; m_ask (QItem "romeo" juliet);; fail unsupported) empty_world).2.
Theorem rollback_keeps_uncommitted_value :
  holds rolled_back (QItem "romeo" juliet) = None ∧ (m_ask (QItem "romeo" juliet) rolled_back).1 = Ok (Some friend).
Proof. split; vm_compute; reflexivity. Qed.

End MapRep.
