(* ===== verification/ModLib.v ===== *)
(** * What the modules are written against

    More of the XML and JID library, the stanzas of src/pkg/util/xmpp/xmpp.go, and
    the parts of the server that every module gets when it is created: router,
    hooks, hosts, resource manager, local streams, clock.

    A hook handler works on the execution context, whose element and context
    values it may replace ([ExecCtx]): it is a computation on the pair of that
    context and the world, so that [Hooks.run_handlers] runs the handlers of
    several modules. *)

From stdpp Require Import base list strings gmap.
From Stdlib Require Import ZArith Lia Ascii.
From S2P Require Import Prelude GoLib Stravaganza C2SModel Roster Storage.

(** ** JIDs *)
Class JidMore `{!JidLib} := {
  (** [MatchesWithOptions(_, jid.MatchesDomain)] *)
  MatchesDomain : JID → JID → bool;
  (** the JID matches what has all the parts that it has itself *)
  Matches : JID → JID → bool;
  IsBare : JID → bool;
  IsFullWithServer : JID → bool;
  MatchesDomain_spec : ∀ i j, MatchesDomain i j = String.eqb (Domain i) (Domain j);
  Matches_spec : ∀ i j, Matches i j =
    (String.eqb (Node i) "" || String.eqb (Node i) (Node j)) && String.eqb (Domain i) (Domain j) &&
    (String.eqb (Resource i) "" || String.eqb (Resource i) (Resource j));
  IsBare_spec : ∀ j, IsBare j = negb (String.eqb (Node j) "") && String.eqb (Resource j) "";
  IsFullWithServer_spec : ∀ j, IsFullWithServer j = String.eqb (Node j) "" && negb (String.eqb (Resource j) "");
  (** what is printed is read back *)
  NewWithString_print : ∀ s b j, NewWithString s b = Some j → NewWithString (JIDString j) true = Some j;
}.

(** ** Elements *)
Definition ChatType : string := "chat".
Definition NormalType : string := "normal".

Class XmlMore `{!JidLib} `{!XmlLib} := {
  (** [Message.IsNormal], [IsChat], [IsMessageWithBody] and [Presence.Status] *)
  IsNormal : Element → bool;
  IsChat : Element → bool;
  IsMessageWithBody : Element → bool;
  Status : Element → string;
  (** [NewBuilderFromElement(e).WithAttribute(..).Build()] *)
  BuildElementFrom : Element → list (string * string) → Element;
  (** [NewBuilderFromElement(e).WithoutChildrenNamespace(name, ns).BuildMessage()] *)
  WithoutChildrenNamespace : Element → string → string → option Element;
  (** [stanzaerror.E(reason, e)] with a text and an application element, [.Stanza(false)] *)
  StanzaErrorWith : stanza_reason → Element → string → Element → option Element;
  ChildNamespace_spec : ∀ e n ns, ChildNamespace e n ns =
    head (List.filter (fun c => String.eqb (Attribute c Namespace) ns) (Children e n));
  BuildFrom_children : ∀ e a c k e', BuildFrom e a c k = Some e' → AllChildren e' = AllChildren e ++ c;
  BuildFrom_jids : ∀ e c k e', BuildFrom e [] c k = Some e' → FromJID e' = FromJID e ∧ ToJID e' = ToJID e;
  WithoutChildren_spec : ∀ e n ns e', WithoutChildrenNamespace e n ns = Some e' →
    AllChildren e' =
      List.filter (fun c => negb (String.eqb (Name c) n && String.eqb (Attribute c Namespace) ns)) (AllChildren e) ∧
    Kind e' = Some KMessage ∧ FromJID e' = FromJID e ∧ ToJID e' = ToJID e;
}.

(** [ChildrenNamespace] *)
Definition ChildrenNamespace `{XmlLib} (e : Element) (n ns : string) : list Element :=
  List.filter (fun c => String.eqb (Attribute c Namespace) ns) (Children e n).

Definition has_child `{XmlLib} (e : Element) (n ns : string) : bool :=
  match ChildNamespace e n ns with Some _ => true | None => false end.

Section children.
Context `{XmlMore}.

Lemma has_child_spec e n ns : has_child e n ns =
  existsb (fun c => String.eqb (Name c) n && String.eqb (Attribute c Namespace) ns) (AllChildren e).
Proof.
  unfold has_child. rewrite ChildNamespace_spec, Children_spec.
  induction (AllChildren e) as [|c l IH]; simpl; [done|].
  destruct (String.eqb (Name c) n); simpl; [|done]. by destruct (String.eqb (Attribute c Namespace) ns).
Qed.

(** A name that was removed is not there, the others are as before. *)
Lemma stripped_child e n ns e' n' ns' : WithoutChildrenNamespace e n ns = Some e' →
  has_child e' n' ns' =
    if String.eqb n n' && String.eqb ns ns' then false else has_child e n' ns'.
Proof.
  intros E. apply WithoutChildren_spec in E as (E & _). rewrite !has_child_spec, E. clear E.
  induction (AllChildren e) as [|c l IH]; simpl; [by case_match|].
  destruct (String.eqb_spec (Name c) n) as [En|En], (String.eqb_spec (Attribute c Namespace) ns) as [Es|Es]; simpl;
    rewrite IH; destruct (String.eqb_spec n n') as [<-|Hn], (String.eqb_spec ns ns') as [<-|Hs]; simpl;
    rewrite ?En, ?Es; try done.
  all: repeat match goal with |- context [String.eqb ?x ?y] => destruct (String.eqb_spec x y); simpl; try congruence end.
Qed.

End children.

(** ** Stanzas of src/pkg/util/xmpp/xmpp.go

    [fmt] writes a time in the format of the delay element; a builder that fails
    gives nil. *)
Section stanzas.
Context `{XmlMore}.

Definition MakeDelayMessage (fmt : Z → string) (stanza : Element) (stamp : Z) (from text : string) : option Element :=
  BuildFrom stanza []
    [Build "delay" [(Namespace, "urn:xmpp:delay"); (AttrFrom, from); ("stamp", fmt stamp)] [] text] KMessage.

Definition stanza_id (stanzaID by_ : string) : Element :=
  Build "stanza-id" [(Namespace, "urn:xmpp:sid:0"); ("by", by_); ("id", stanzaID)] [] "".
Definition MakeStanzaIDMessage (originalMsg : Element) (stanzaID by_ : string) : option Element :=
  BuildFrom originalMsg [] [stanza_id stanzaID by_] KMessage.

Definition MessageStanzaID (msg : Element) : string :=
  match ChildNamespace msg "stanza-id" "urn:xmpp:sid:0" with
  | Some sidElem => Attribute sidElem "id"
  | None => ""
  end.

Definition MakeForwardedStanza (fmt : Z → string) (stanza : Element) (stamp : option Z) : Element :=
  Build "forwarded" [(Namespace, "urn:xmpp:forward:0")]
    (BuildElementFrom stanza [(Namespace, "jabber:client")] ::
     match stamp with
     | Some t => [Build "delay" [(Namespace, "urn:xmpp:delay"); ("stamp", fmt t)] [] ""]
     | None => []
     end) "".

End stanzas.

(** ** The surroundings of a module *)

Section events.
Context `{XmlLib}.

(** What the hooks of the modules are run with (src/pkg/hook). *)
Inductive HookEvent :=
  | EvBlockList (name username : string) (jids : list JID)
  | EvOffline (username : string) (message : option Element)
  | EvMam (name archiveID : string) (message : option ArchiveMessage) (filters : option Filters)
  | EvLast (username : string) (jid : JID)
  | EvPrivate (name username : string) (private : option Element)
  | EvVCard (name username : string) (vCard : option Element)
  | EvModules (name : string) (modules : list string)
  | EvComponents (name : string) (hosts : list string)
  | EvDiscoProvidersStarted.

End events.

Class ModEnv `{XmlLib} (W : Type) := {
  me_Route : Element → M W unit;
  me_LocalStream : string → string → M W Z;
  me_StreamUsername : Z → W → string;
  me_StreamInfo : Z → W → Info.t;
  me_SetInfoBool : Z → string → bool → M W unit;
  me_SendElement : Z → Element → M W unit;
  me_GetResources : string → M W (list ResourceDesc);
  me_IsLocalHost : string → bool;
  me_runHook : HookEvent → M W unit;
  me_uuid : M W string;
  me_Now : M W Z;
  (** [time.Time.Format] in the formats of the delay element and of forms *)
  me_FormatDelay : Z → string;
}.

Section env.
Context `{XmlLib} {W : Type} `{!ModEnv W}.

(** [_, _ = router.Route(ctx, stanza)]; routing a nil stanza panics. *)
Definition route (p : option Element) : M W unit := e ← deref p; ignore (me_Route e).

(** [_, _ = router.Route(ctx, xmpputil.MakeErrorStanza(stanza, reason))] *)
Definition refuse (e : Element) (r : stanza_reason) : M W unit := route (MakeErrorStanza e r).

(** A call whose error is answered with a stanza error and returned. *)
Definition or_internal {A} (e : Element) (m : M W A) : M W A :=
  r ← try m;
  match r with
  | inr a => mret a
  | inl err => refuse e SEInternalServerError;; fail err
  end.

End env.

(** The surroundings leave a part of the world alone. *)
Class EnvKeeps `{XmlLib} {W : Type} `{!ModEnv W} (R : W → W → Prop) : Prop := {
  ek_Route : ∀ e, keeps R (me_Route e);
  ek_LocalStream : ∀ u r, keeps R (me_LocalStream u r);
  ek_SetInfo : ∀ s k b, keeps R (me_SetInfoBool s k b);
  ek_Send : ∀ s e, keeps R (me_SendElement s e);
  ek_Resources : ∀ u, keeps R (me_GetResources u);
  ek_runHook : ∀ ev, keeps R (me_runHook ev);
  ek_uuid : keeps R me_uuid;
  ek_Now : keeps R me_Now;
}.
#[export] Hint Resolve ek_Route ek_LocalStream ek_SetInfo ek_Send ek_Resources ek_runHook ek_uuid ek_Now : gomonad.

Section keeps_env.
Context `{XmlLib} {W : Type} `{!ModEnv W} (R : W → W → Prop) `{!PreOrder R} `{!EnvKeeps R}.

Lemma keeps_route p : keeps R (route p).
Proof. unfold route. keeps_auto. Qed.
Lemma keeps_refuse e r : keeps R (refuse e r).
Proof. apply keeps_route. Qed.
Lemma keeps_or_internal {A} e (m : M W A) : keeps R m → keeps R (or_internal e m).
Proof. intros Hm. unfold or_internal. keeps_auto. apply keeps_refuse. Qed.

(** A call that succeeds behind [or_internal] did succeed. *)
Lemma or_internal_inv {A} e (m : M W A) w a w' : or_internal e m w = (Ok a, w') → m w = (Ok a, w').
Proof.
  unfold or_internal, try, mbind, M_bind. destruct (m w) as [[a'|err|c] w1]; simpl; try done.
  destruct (refuse e SEInternalServerError w1) as [[]]; done.
Qed.

End keeps_env.
#[export] Hint Resolve keeps_route keeps_refuse keeps_or_internal : gomonad.
#[export] Hint Extern 1 (EnvKeeps _) => typeclasses eauto : gomonad.

(** ** What was routed *)
Class RouteLog `{XmlLib} (W : Type) := routed : W → list Element.
Definition same_routed `{XmlLib} {W : Type} `{!RouteLog W} (w w' : W) : Prop := routed w' = routed w.
#[export] Instance same_routed_preorder `{XmlLib} {W : Type} `{!RouteLog W} : PreOrder same_routed.
Proof. split; [done|]. intros w1 w2 w3 E1 E2. unfold same_routed in *. congruence. Qed.

(** The log holds what was handed to the router, whether it could deliver it or
    not; nothing else adds to it. *)
Class RouteLaws `{XmlLib} (W : Type) `{!ModEnv W} `{!RouteLog W} : Prop := {
  rl_Route : ∀ e w, let '(r, w') := me_Route e w in (∀ c, r ≠ Crash c) ∧ routed w' = routed w ++ [e];
  rl_LocalStream : ∀ u r, keeps same_routed (me_LocalStream u r);
  rl_SetInfo : ∀ s k b, keeps same_routed (me_SetInfoBool s k b);
  rl_Resources : ∀ u, keeps same_routed (me_GetResources u);
  rl_runHook : ∀ ev, keeps same_routed (me_runHook ev);
  rl_uuid : keeps same_routed me_uuid;
  rl_Now : keeps same_routed me_Now;
}.

Section routed.
Context `{XmlLib} {W : Type} `{!ModEnv W} `{!RouteLog W} `{!RouteLaws W}.

Lemma route_ok p w w' : route p w = (Ok tt, w') → ∃ e, p = Some e ∧ routed w' = routed w ++ [e].
Proof.
  unfold route, ignore, try, mbind, M_bind. destruct p as [e|]; simpl; [|done].
  pose proof (rl_Route e w) as Hr. destruct (me_Route e w) as [[a|err|c] w1]; destruct Hr as [Hc Hl];
    [..|by destruct (Hc c)]; intros [= <-]; by exists e.
Qed.

(** A loop whose rounds route one stanza each. *)
Lemma route_each {A} (P : A → Element → Prop) (f : A → M W unit) (l : list A) :
  (∀ x w w', f x w = (Ok tt, w') → ∃ e, P x e ∧ routed w' = routed w ++ [e]) →
  ∀ w w', for_each l f w = (Ok tt, w') → ∃ es, Forall2 P l es ∧ routed w' = routed w ++ es.
Proof.
  intros Hf. induction l as [|m l IH]; intros w w' Hr.
  - injection Hr as <-. exists []. split; [constructor|by rewrite app_nil_r].
  - cbn [for_each] in Hr. inv_bind Hr as u w1 Hm. destruct u. apply Hf in Hm as (e & He & Hl).
    apply IH in Hr as (es & Hes & Hl'). exists (e :: es). split; [by constructor|]. by rewrite Hl', Hl, <-app_assoc.
Qed.

End routed.

Section contexts.
Context `{XmlLib}.

(** The execution context of the hooks of a stream ([hook.ExecutionContext] with
    its [C2SStreamInfo] or [S2SStreamInfo]): the element, the JIDs it was routed
    to, and the values the message archive leaves in the context. *)
Record ExecCtx := MkExec {
  ex_Element : option Element;
  ex_Targets : list JID;
  ex_SentArchiveID : string;
  ex_ReceivedArchiveID : string;
}.
Definition set_element (e : option Element) (x : ExecCtx) : ExecCtx :=
  MkExec e (ex_Targets x) (ex_SentArchiveID x) (ex_ReceivedArchiveID x).
Definition set_sent_id (i : string) (x : ExecCtx) : ExecCtx :=
  MkExec (ex_Element x) (ex_Targets x) i (ex_ReceivedArchiveID x).
Definition set_received_id (i : string) (x : ExecCtx) : ExecCtx :=
  MkExec (ex_Element x) (ex_Targets x) (ex_SentArchiveID x) i.

End contexts.

(** The element when it is a stanza of a kind. *)
Definition stanza_as `{XmlLib} (k : stanza_kind) (e : option Element) : option Element :=
  match e with Some e => if decide (Kind e = Some k) then Some e else None | None => None end.
Definition any_stanza `{XmlLib} (e : option Element) : option Element :=
  match e with Some e => if is_stanza e then Some e else None | None => None end.

(** ** The concrete library *)
Module TreeMore.
Import TreeLib.

#[export] Instance tree_jid_more : @JidMore tree_jid.
Proof.
  refine {|
    MatchesDomain := fun (i j : @JID tree_jid) => String.eqb (Domain i) (Domain j);
    Matches := fun (i j : @JID tree_jid) =>
      (String.eqb (Node i) "" || String.eqb (Node i) (Node j)) && String.eqb (Domain i) (Domain j) &&
      (String.eqb (Resource i) "" || String.eqb (Resource i) (Resource j));
    IsBare := fun j : @JID tree_jid => negb (String.eqb (Node j) "") && String.eqb (Resource j) "";
    IsFullWithServer := fun j : @JID tree_jid => String.eqb (Node j) "" && negb (String.eqb (Resource j) "");
    NewWithString_print := tjid_reparse_parsed;
  |}; reflexivity.
Defined.

Definition t_without (t : tree) (n ns : string) : tree :=
  TNode "message" (t_attrs t)
    (List.filter (fun c => negb (String.eqb (t_name c) n && String.eqb (t_attr c "xmlns") ns)) (t_children t))
    (t_text t) (Some KMessage).

#[export] Instance tree_more : @XmlMore tree_jid tree_xml.
Proof.
  refine {|
    IsNormal := fun t : @Element tree_jid tree_xml => String.eqb (t_attr t "type") "normal" || String.eqb (t_attr t "type") "";
    IsChat := fun t : @Element tree_jid tree_xml => String.eqb (t_attr t "type") "chat";
    IsMessageWithBody := fun t : @Element tree_jid tree_xml => match head (t_named t "body") with Some _ => true | None => false end;
    Status := fun t : @Element tree_jid tree_xml => match head (t_named t "status") with Some s => t_text s | None => "" end;
    BuildElementFrom := fun (t : @Element tree_jid tree_xml) a =>
      TNode (t_name t) (a ++ t_attrs t) (t_children t) (t_text t) (t_kind t) : @Element tree_jid tree_xml;
    WithoutChildrenNamespace := fun t n ns => Some (t_without t n ns : @Element tree_jid tree_xml);
    StanzaErrorWith := fun r (t : @Element tree_jid tree_xml) text app =>
      Some (t_with t (("type", "error") :: t_swap t)
        [TNode (reason_name r) [] [] "" None; TNode "text" [] [] text None; app] (default KIQ (t_kind t)));
  |}.
  - abstract done.
  - abstract (by intros e a c k e' [= <-]).
  - abstract (intros [n a ch t k0] c k e' [= <-]; unfold FromJID, ToJID; simpl; unfold t_with, t_jid, t_attr; simpl;
      rewrite (List.forallb_filter_id _ a) by (by rewrite forallb_forall); done).
  - abstract (intros e n ns e' [= <-]; done).
Defined.

End TreeMore.
