(* ===== verification/ModDemo.v ===== *)
(** * A server in memory for the modules

    The surroundings of a module ([ModLib.ModEnv]) with a log of what is routed and
    sent, next to the repository of [MemRep]; the witnesses of the modules run on
    it. *)

From stdpp Require Import base list strings gmap.
From Stdlib Require Import ZArith.
From S2P Require Import Prelude GoLib Stravaganza C2SModel Roster Storage Repository MemRep ModLib.
Import TreeLib TreeMore.

Record server := MkServer {
  sv_mem : mem; sv_mail : mail;
  sv_routed : list XElement; sv_sent : list (Z * XElement);
  sv_resources : gmap string (list (@ResourceDesc tree_jid tree_xml));
  sv_streams : list (string * string); (** users and resources, known by their position *)
  sv_info : gmap Z Info.t;
  sv_clock : Z;
}.

#[export] Instance server_mem : HasMem server := {|
  get_mem := sv_mem;
  set_mem := fun r w => let 'MkServer _ b c d e f g h := w in MkServer r b c d e f g h;
  roll_back := fun w w' => let 'MkServer _ _ c d e f g h := w' in MkServer (sv_mem w) (sv_mail w) c d e f g h |}.
#[export] Instance server_mail : HasMail server := {|
  get_mail := sv_mail;
  set_mail := fun r w => let 'MkServer a _ c d e f g h := w in MkServer a r c d e f g h |}.

Definition log_routed (x : XElement) (w : server) : server :=
  let 'MkServer a b c d e f g h := w in MkServer a b (c ++ [x]) d e f g h.
Definition log_sent (i : Z) (x : XElement) (w : server) : server :=
  let 'MkServer a b c d e f g h := w in MkServer a b c (d ++ [(i, x)]) e f g h.
Definition upd_info (i : Z) (k : string) (b : bool) (w : server) : server :=
  let 'MkServer a1 a2 c d e f g h := w in
  MkServer a1 a2 c d e f (<[i := Info.SetBool k b (default ∅ (g !! i))]> g) h.
Definition tick (w : server) : server :=
  let 'MkServer a b c d e f g h := w in MkServer a b c d e f g (h + 1).

#[export] Instance server_env : @ModEnv tree_jid tree_xml server := {|
  me_Route := fun e w => (Ok tt, log_routed e w);
  me_LocalStream := fun u r w =>
    match list_find (fun x => x = (u, r)) (sv_streams w) with
    | Some (i, _) => (Ok (Z.of_nat i), w)
    | None => (Err (ErrText "no stream"), w)
    end;
  me_StreamUsername := fun i w => match sv_streams w !! Z.to_nat i with Some x => x.1 | None => "" end;
  me_StreamInfo := fun i w => default ∅ (sv_info w !! i);
  me_SetInfoBool := fun i k b w => (Ok tt, upd_info i k b w);
  me_SendElement := fun i e w => (Ok tt, log_sent i e w);
  me_GetResources := fun u => gets (fun w => default [] (sv_resources w !! u));
  me_IsLocalHost := fun d => String.eqb d "jackal.im";
  me_runHook := fun _ => mret tt;
  me_uuid := fun w => (Ok ("id" +:+ Itoa (sv_clock w)), tick w);
  me_Now := fun w => (Ok (sv_clock w), tick w);
  me_FormatDelay := Itoa;
|}.

#[export] Instance server_log : @RouteLog tree_jid tree_xml server := sv_routed.
#[export] Instance server_routes : @RouteLaws tree_jid tree_xml server server_env server_log.
Proof.
  split.
  - by intros e [].
  - intros u r []. simpl. by case_match; [case_match|].
  - by intros s k b [].
  - by intros u [].
  - by intros ev [].
  - by intros [].
  - by intros [].
Qed.

Definition empty_server : server := MkServer no_mem no_mail [] [] ∅ [] ∅ 0.
