(* ===== verification/Blocklist.v ===== *)
(** * The block list module (XEP-0191)

    src/pkg/module/xep0191/blocklist.go: the requests that read and change the
    block list of a user, and the handlers that keep stanzas from and to blocked
    JIDs from being processed. *)

From stdpp Require Import base list strings gmap sets.
From Stdlib Require Import ZArith Lia.
From S2P Require Import Prelude GoLib Stravaganza C2SModel GoHoare Roster Storage Repository ModLib MemRep ModDemo.

Definition blockListNamespace : string := "urn:xmpp:blocking".
Definition blockListErrorsNamespace : string := "urn:xmpp:blocking:errors".
Definition blockListRequestedCtxKey : string := "blocklist:requested".
Definition blockedTargetErrorText : string := "Your active block list has denied the routing of this stanza.".
Definition BlockListFetched : string := "blocklist.items.fetched".
Definition BlockListItemsBlocked : string := "blocklist.items.blocked".
Definition BlockListItemsUnblocked : string := "blocklist.items.unblocked".

Section module.
Context `{XmlMore} `{!JidMore} {W : Type} `{!ModEnv W} `{!Rep W}.

(** [MatchesNamespace] *)
Definition MatchesNamespace (namespace : string) (serverTarget : bool) : bool :=
  if serverTarget then false else String.eqb namespace blockListNamespace.

(** *** Filtering *)

(** The loop over the list: does an item match [j]? *)
Fixpoint anyMatches (bli : list BlockItem) (j : JID) : M W bool :=
  match bli with
  | [] => mret false
  | itm :: bli' =>
    jd ← deref (NewWithString (bl_Jid itm) true);
    if Matches jd j then mret true else anyMatches bli' j
  end.

(** [processIncomingStanza] *)
Definition processIncomingStanza (stanza : Element) : M W unit :=
  let fromJID := FromJID stanza in
  let toJID := ToJID stanza in
  let isLocalTo := me_IsLocalHost (Domain toJID) in
  if String.eqb (Node toJID) "" || negb isLocalTo || (isLocalTo && MatchesBare toJID fromJID) then mret tt
  else
    bli ← rep_FetchBlockListItems (Node toJID);
    blocked ← anyMatches bli fromJID;
    if blocked : bool then
      match Kind stanza with
      | Some KIQ => if IsGet stanza || IsSet stanza then refuse stanza SEServiceUnavailable else mret tt
      | Some KMessage => refuse stanza SEServiceUnavailable
      | _ => mret tt
      end;;
      fail ErrStopped
    else mret tt.

(** [processOutgoingStanza] *)
Definition processOutgoingStanza (stanza : Element) : M W unit :=
  let fromJID := FromJID stanza in
  let toJID := ToJID stanza in
  let isLocalFrom := me_IsLocalHost (Domain fromJID) in
  if negb isLocalFrom || (isLocalFrom && MatchesBare fromJID toJID) then mret tt
  else
    bli ← rep_FetchBlockListItems (Node fromJID);
    blocked ← anyMatches bli toJID;
    if blocked : bool then
      route (StanzaErrorWith SENotAcceptable stanza blockedTargetErrorText
        (Build "blocked" [(Namespace, blockListErrorsNamespace)] [] ""));;
      fail ErrStopped
    else mret tt.

(** [onC2SElementRecv], [onS2SElementRecv] and [onC2SElementWillRoute],
    [onS2SElementWillRoute], which differ in the type of the stream info. *)
Definition onElementRecv : M (ExecCtx * W) unit :=
  e ← fld ex_Element;
  match any_stanza e with Some stanza => onW (processIncomingStanza stanza) | None => mret tt end.
Definition onElementWillRoute : M (ExecCtx * W) unit :=
  e ← fld ex_Element;
  match any_stanza e with Some stanza => onW (processOutgoingStanza stanza) | None => mret tt end.

(** [onUserDeleted] *)
Definition onUserDeleted (username : string) : M W unit := rep_DeleteBlockListItems username.

(** *** Requests *)

(** [getItemJIDs] *)
Fixpoint itemJIDs (items : list Element) : option (list JID) :=
  match items with
  | [] => Some []
  | itm :: items' =>
    j ← NewWithString (Attribute itm "jid") false;
    js ← itemJIDs items';
    Some (j :: js)
  end.
Definition getItemJIDs (el : Element) : option (list JID) := itemJIDs (Children el "item").

(** The JIDs of a list, parsed again. *)
Fixpoint parseAll (skip : bool) (bli : list BlockItem) : M W (list JID) :=
  match bli with
  | [] => mret []
  | itm :: bli' =>
    j ← deref (NewWithString (bl_Jid itm) skip);
    js ← parseAll skip bli';
    mret (j :: js)
  end.

(** [getBlockList] *)
Definition getBlockList (iq : Element) : M W unit :=
  if negb (has_child iq "blocklist" blockListNamespace) then refuse iq SEBadRequest
  else
    let fromJID := FromJID iq in
    bli ← or_internal iq (rep_FetchBlockListItems (Node fromJID));
    route (MakeResultIQ iq (Some (Build "blocklist" [(Namespace, blockListNamespace)]
      (map (fun itm => Build "item" [("jid", bl_Jid itm)] [] "") bli) "")));;
    stm ← or_internal iq (me_LocalStream (Node fromJID) (Resource fromJID));
    or_internal iq (me_SetInfoBool stm blockListRequestedCtxKey true);;
    allJIDs ← parseAll false bli;
    me_runHook (EvBlockList BlockListFetched (Node fromJID) allJIDs).

(** [getPresenceTargets]: the target for one blocked JID and one roster item *)
Definition presenceTarget (bj : JID) (ri : Item) : M W (list JID) :=
  if negb (String.eqb (Subscription ri) SubFrom) && negb (String.eqb (Subscription ri) SubBoth) then mret []
  else
    rj ← deref (NewWithString (Jid ri) true);
    if IsFullWithUser bj && MatchesBare bj rj then mret [bj]
    else if IsFullWithServer bj && MatchesDomain bj rj then
      t ← deref (NewJID (Node rj) (Domain rj) (Resource bj) true); mret [t]
    else if (IsBare bj && MatchesBare bj rj) || (IsServer bj && MatchesDomain bj rj) then mret [rj]
    else mret [].
Fixpoint targetsFor (bj : JID) (ris : list Item) : M W (list JID) :=
  match ris with
  | [] => mret []
  | ri :: ris' => t ← presenceTarget bj ri; ts ← targetsFor bj ris'; mret (t ++ ts)
  end.
Fixpoint allTargets (bjs : list JID) (ris : list Item) : M W (list JID) :=
  match bjs with
  | [] => mret []
  | bj :: bjs' => t ← targetsFor bj ris; ts ← allTargets bjs' ris; mret (t ++ ts)
  end.
Definition getPresenceTargets (blockListJIDs : list JID) (username : string) : M W (list JID) :=
  ris ← rep_FetchRosterItems username;
  allTargets blockListJIDs ris.

(** [sendUnavailablePresences], [sendAvailablePresences] *)
Definition sendUnavailablePresences (blockJIDs : list JID) (resources : list ResourceDesc) (username : string)
    : M W unit :=
  targets ← getPresenceTargets blockJIDs username;
  for_each resources (fun res => for_each targets (fun target =>
    route (MakePresence (ResJID res) target UnavailableType []))).
Definition sendAvailablePresences (unblockJIDs : list JID) (resources : list ResourceDesc) (username : string)
    : M W unit :=
  targets ← getPresenceTargets unblockJIDs username;
  for_each resources (fun res => for_each targets (fun target =>
    pr ← deref (ResPresence res);
    route (MakePresence (ResJID res) target AvailableType (AllChildren pr)))).

(** [sendPush] *)
Definition sendPush (pushed : Element) (resources : list ResourceDesc) : M W unit :=
  for_each resources (fun res =>
    if negb (Info.Bool blockListRequestedCtxKey (ResInfo res)) then mret tt
    else
      uid ← me_uuid;
      route (BuildStanza KIQ
        [(AttrFrom, JIDString (ToBareJID (ResJID res))); (AttrTo, JIDString (ResJID res));
         (AttrType, SetType); (AttrID, uid)] [pushed])).

Definition listed (bli : list BlockItem) (jd : JID) : bool := existsb (fun i => String.eqb (JIDString jd) (bl_Jid i)) bli.

(** [blockJIDs] *)
Definition blockJIDs (iq block : Element) (blockList : list BlockItem) : M W unit :=
  match getItemJIDs block with
  | None => refuse iq SEBadRequest;; fail (ErrText "jid")
  | Some js =>
    let bjs := List.filter (fun jd => negb (listed blockList jd)) js in
    let username := Node (FromJID iq) in
    or_internal iq (rep_InTransaction (for_each bjs (fun bj =>
      rep_UpsertBlockListItem (MkBlockItem username (JIDString bj)))));;
    rss ← or_internal iq (me_GetResources username);
    or_internal iq (sendUnavailablePresences bjs rss username);;
    route (MakeResultIQ iq None);;
    sendPush block rss;;
    me_runHook (EvBlockList BlockListItemsBlocked username bjs)
  end.

(** [unblockJIDs] *)
Definition unblockJIDs (iq unblock : Element) (blockList : list BlockItem) : M W unit :=
  match getItemJIDs unblock with
  | None => refuse iq SEBadRequest;; fail (ErrText "jid")
  | Some js =>
    ujs ← (match js with
      | _ :: _ => mret (List.filter (listed blockList) js)
      | [] => parseAll true blockList
      end);
    let username := Node (FromJID iq) in
    or_internal iq (rep_InTransaction (for_each ujs (fun uj =>
      rep_DeleteBlockListItem (MkBlockItem username (JIDString uj)))));;
    rss ← or_internal iq (me_GetResources username);
    or_internal iq (sendAvailablePresences ujs rss username);;
    route (MakeResultIQ iq None);;
    sendPush unblock rss;;
    me_runHook (EvBlockList BlockListItemsUnblocked username ujs)
  end.

(** [alterBlockList] *)
Definition alterBlockList (iq : Element) : M W unit :=
  bli ← or_internal iq (rep_FetchBlockListItems (Node (FromJID iq)));
  match ChildNamespace iq "block" blockListNamespace with
  | Some block => blockJIDs iq block bli
  | None =>
    match ChildNamespace iq "unblock" blockListNamespace with
    | Some unblock => unblockJIDs iq unblock bli
    | None => refuse iq SEBadRequest
    end
  end.

(** [ProcessIQ] *)
Definition ProcessIQ (iq : Element) : M W unit :=
  if negb (MatchesBare (FromJID iq) (ToJID iq)) then refuse iq SEForbidden
  else if IsGet iq then getBlockList iq
  else if IsSet iq then alterBlockList iq
  else mret tt.

End module.

(** ** What is blocked *)
Section proofs.
Context `{XmlMore} `{!JidMore} {W : Type} `{!ModEnv W} `{!Rep W}.

(** The stored list as a set of users and JIDs. *)
Class BlockViews := blocks : W → gset (string * string).
Context `{!BlockViews}.

Definition same_blocks (w w' : W) : Prop := blocks w' = blocks w.
#[local] Instance same_blocks_preorder : PreOrder same_blocks.
Proof. split; [done|]. intros w1 w2 w3 E1 E2. unfold same_blocks in *. congruence. Qed.

Class BlockRepo : Prop := {
  bk_env :: EnvKeeps same_blocks;
  bk_Items : ∀ u, keeps same_blocks (rep_FetchRosterItems u);
  bk_fetch_keeps : ∀ u, keeps same_blocks (rep_FetchBlockListItems u);
  bk_fetch : ∀ u w l w', rep_FetchBlockListItems u w = (Ok l, w') →
    ∀ j, j ∈ map bl_Jid l ↔ (u, j) ∈ blocks w;
  bk_upsert : ∀ i w, let '(r, w') := rep_UpsertBlockListItem i w in
    blocks w' = if is_ok r then {[(bl_Username i, bl_Jid i)]} ∪ blocks w else blocks w;
  bk_delete : ∀ i w, let '(r, w') := rep_DeleteBlockListItem i w in
    blocks w' = if is_ok r then blocks w ∖ {[(bl_Username i, bl_Jid i)]} else blocks w;
  bk_transaction : ∀ m w,
    match rep_InTransaction m w with
    | (Ok _, w') => ∃ w1, m w = (Ok tt, w1) ∧ same_blocks w1 w'
    | (_, w') => same_blocks w w'
    end;
}.
Context `{!BlockRepo}.
#[local] Hint Resolve bk_Items bk_fetch_keeps : gomonad.

(** *** Changing the list *)

Lemma upserts_ok u bjs w w' :
  for_each bjs (fun bj => rep_UpsertBlockListItem (MkBlockItem u (JIDString bj))) w = (Ok tt, w') →
  blocks w' = list_to_set (map (fun bj => (u, JIDString bj)) bjs) ∪ blocks w.
Proof.
  revert w. induction bjs as [|bj bjs IH]; intros w Hr; [injection Hr as <-; set_solver|].
  cbn [for_each] in Hr. inv_bind Hr as x w1 Hx. destruct x.
  pose proof (bk_upsert (MkBlockItem u (JIDString bj)) w) as Hu. rewrite Hx in Hu. simpl in Hu.
  rewrite (IH w1 Hr), Hu. simpl. set_solver.
Qed.

Lemma deletes_ok u ujs w w' :
  for_each ujs (fun uj => rep_DeleteBlockListItem (MkBlockItem u (JIDString uj))) w = (Ok tt, w') →
  blocks w' = blocks w ∖ list_to_set (map (fun uj => (u, JIDString uj)) ujs).
Proof.
  revert w. induction ujs as [|uj ujs IH]; intros w Hr; [injection Hr as <-; set_solver|].
  cbn [for_each] in Hr. inv_bind Hr as x w1 Hx. destruct x.
  pose proof (bk_delete (MkBlockItem u (JIDString uj)) w) as Hu. rewrite Hx in Hu. simpl in Hu.
  rewrite (IH w1 Hr), Hu. simpl. set_solver.
Qed.

Lemma keeps_parse b l : keeps same_blocks (parseAll b l : M W (list JID)).
Proof. induction l; simpl; keeps_auto. Qed.
Lemma keeps_target bj ri : keeps same_blocks (presenceTarget bj ri : M W (list JID)).
Proof. unfold presenceTarget. keeps_auto. Qed.
Lemma keeps_targets bj ris : keeps same_blocks (targetsFor bj ris : M W (list JID)).
Proof. induction ris; simpl; keeps_auto. apply keeps_target. Qed.
Lemma keeps_all_targets bjs ris : keeps same_blocks (allTargets bjs ris : M W (list JID)).
Proof. induction bjs; simpl; keeps_auto. apply keeps_targets. Qed.
#[local] Hint Resolve keeps_parse keeps_all_targets : gomonad.

Lemma keeps_unavailable bjs rss u : keeps same_blocks (sendUnavailablePresences bjs rss u).
Proof. unfold sendUnavailablePresences, getPresenceTargets. keeps_auto. Qed.
Lemma keeps_available ujs rss u : keeps same_blocks (sendAvailablePresences ujs rss u).
Proof. unfold sendAvailablePresences, getPresenceTargets. keeps_auto. Qed.
Lemma keeps_push e rss : keeps same_blocks (sendPush e rss).
Proof. unfold sendPush. keeps_auto. Qed.
#[local] Hint Resolve keeps_unavailable keeps_available keeps_push : gomonad.

(** Every stored JID is one that was printed: it can be read, and printing it
    again gives the same string. *)
Definition printed (s : string) : Prop := ∃ j, NewWithString s true = Some j ∧ JIDString j = s.
Definition canonical (w : W) : Prop := ∀ u s, (u, s) ∈ blocks w → printed s.

Lemma itemJIDs_printed items js : itemJIDs items = Some js → Forall (fun j => printed (JIDString j)) js.
Proof.
  revert js. induction items as [|e items IH]; simpl; intros js E; [injection E as <-; constructor|].
  destruct (NewWithString _ false) as [j|] eqn:Ej; [|done]. simpl in E.
  destruct (itemJIDs items) as [js'|]; [|done]. injection E as <-. constructor; [|by apply IH].
  exists j. split; [|done]. by apply NewWithString_print in Ej.
Qed.

(** The pairs of a user and JIDs. *)
Definition entries_of (u : string) (js : list JID) : gset (string * string) :=
  list_to_set (map (fun j => (u, JIDString j)) js).
Lemma elem_of_block_entries u js p : p ∈ entries_of u js ↔ ∃ j, p = (u, JIDString j) ∧ j ∈ js.
Proof.
  unfold entries_of. rewrite elem_of_list_to_set, list_elem_of_In, in_map_iff.
  setoid_rewrite <-list_elem_of_In. naive_solver.
Qed.

Lemma listed_spec bli j : listed bli j = true ↔ JIDString j ∈ map bl_Jid bli.
Proof.
  unfold listed. rewrite existsb_exists, list_elem_of_In, in_map_iff.
  split; intros (i & Hi & Hj); exists i.
  - apply String.eqb_eq in Hj. by split.
  - split; [done|]. by apply String.eqb_eq.
Qed.

Lemma transaction_ok m w w' : rep_InTransaction m w = (Ok tt, w') → ∃ w1, m w = (Ok tt, w1) ∧ same_blocks w1 w'.
Proof. intros E. pose proof (bk_transaction m w) as Ht. by rewrite E in Ht. Qed.

(** What comes after the transaction leaves the list as it is. *)
Lemma block_tail_keeps iq e rss (send : M W unit) ev : keeps same_blocks send →
  keeps same_blocks (or_internal iq send;; route (MakeResultIQ iq None);; sendPush e rss;; me_runHook ev).
Proof. intros Hs. keeps_auto. Qed.

Lemma blockJIDs_ok iq block bli w w' : blockJIDs iq block bli w = (Ok tt, w') →
  (∀ j, j ∈ map bl_Jid bli ↔ (Node (FromJID iq), j) ∈ blocks w) →
  ∃ js, getItemJIDs block = Some js ∧ blocks w' = entries_of (Node (FromJID iq)) js ∪ blocks w.
Proof.
  intros Hr Hb. unfold blockJIDs in Hr. destruct (getItemJIDs block) as [js|].
  2:{ inv_bind Hr as x w1 Hx. done. }
  exists js. split; [done|]. inv_bind Hr as x w1 Hx. destruct x. apply or_internal_inv in Hx.
  apply transaction_ok in Hx as (w2 & Hx & Hs). apply upserts_ok in Hx.
  inv_bind Hr as rss w3 Hrss. apply or_internal_inv in Hrss.
  apply (keeps_run same_blocks) in Hrss; [|apply ek_Resources].
  apply (keeps_run same_blocks) in Hr; [|apply block_tail_keeps, keeps_unavailable].
  unfold same_blocks in *. rewrite Hr, Hrss, Hs, Hx. apply set_eq. intros p.
  rewrite !elem_of_union, elem_of_block_entries. setoid_rewrite elem_of_block_entries.
  split; [|].
  - intros [(j & -> & Hj)|Hp]; [|by right]. apply list_elem_of_In, List.filter_In in Hj as [Hj _].
    left. exists j. split; [done|]. by apply list_elem_of_In.
  - intros [(j & -> & Hj)|Hp]; [|by right]. destruct (listed bli j) eqn:El.
    + right. apply Hb. by apply listed_spec.
    + left. exists j. split; [done|]. apply list_elem_of_In, List.filter_In. split; [by apply list_elem_of_In|].
      by rewrite El.
Qed.

Lemma parseAll_ok (l : list BlockItem) (w w' : W) js : Forall (fun i => printed (bl_Jid i)) l →
  parseAll true l w = (Ok js, w') → map JIDString js = map bl_Jid l ∧ w' = w.
Proof.
  revert js w w'. induction l as [|i l IH]; intros js w w' Hp Hr; [by injection Hr as <- <-|].
  apply Forall_cons in Hp as [(j & Hj & Hs) Hp]. cbn [parseAll] in Hr. rewrite Hj in Hr.
  inv_bind Hr as x w1 Hx. injection Hx as <- <-. inv_bind Hr as js' w2 Hjs. injection Hr as <- <-.
  apply IH in Hjs as [E ->]; [|done]. simpl. by rewrite E, Hs.
Qed.

Lemma unblockJIDs_ok iq unblock bli w w' : canonical w → unblockJIDs iq unblock bli w = (Ok tt, w') →
  (∀ j, j ∈ map bl_Jid bli ↔ (Node (FromJID iq), j) ∈ blocks w) →
  ∃ js, getItemJIDs unblock = Some js ∧
    blocks w' = match js with
      | [] => filter (fun p => p.1 ≠ Node (FromJID iq)) (blocks w)
      | _ :: _ => blocks w ∖ entries_of (Node (FromJID iq)) js
      end.
Proof.
  intros Hcan Hr Hb. unfold unblockJIDs in Hr. destruct (getItemJIDs unblock) as [js|].
  2:{ inv_bind Hr as x w1 Hx. done. }
  exists js. split; [done|]. inv_bind Hr as ujs w1 Hujs. inv_bind Hr as x w2 Hx. destruct x.
  apply or_internal_inv, transaction_ok in Hx as (w3 & Hx & Hs). apply deletes_ok in Hx.
  inv_bind Hr as rss w4 Hrss. apply or_internal_inv in Hrss.
  apply (keeps_run same_blocks) in Hrss; [|apply ek_Resources].
  apply (keeps_run same_blocks) in Hr; [|apply block_tail_keeps, keeps_available].
  unfold same_blocks in *. rewrite Hr, Hrss, Hs, Hx. destruct js as [|j0 js'].
  - apply parseAll_ok in Hujs as [E ->].
    + apply set_eq. intros [v j]. rewrite elem_of_difference, elem_of_filter. setoid_rewrite elem_of_block_entries.
      split; [intros [Hp Hn]; split; [|done]|intros [Hn Hp]; split; [done|]; naive_solver].
      simpl. intros ->. apply Hn. apply Hb in Hp. rewrite <-E in Hp.
      apply list_elem_of_In, in_map_iff in Hp as (x & <- & Hx'). exists x. split; [done|]. by apply list_elem_of_In.
    + apply Forall_forall. intros i Hi. apply (Hcan (Node (FromJID iq))), Hb.
      by apply list_elem_of_In, in_map, list_elem_of_In.
  - set (js := j0 :: js') in *. set (fl := List.filter (listed bli) js) in Hujs. injection Hujs as <- <-.
    apply set_eq. intros [v j]. rewrite !elem_of_difference.
    split; intros [Hp Hn]; split; try done; intros Hin; apply Hn; apply elem_of_block_entries in Hin as (x & E & Hx').
    + injection E as -> ->. apply elem_of_block_entries. exists x. split; [done|].
      apply list_elem_of_In, List.filter_In. split; [by apply list_elem_of_In|]. apply listed_spec. by apply Hb.
    + apply elem_of_block_entries. exists x. split; [done|]. apply list_elem_of_In, List.filter_In in Hx' as [? _]. by apply list_elem_of_In.
Qed.

(** What a request asks for. *)
Inductive block_request := BlockReq (js : list JID) | UnblockReq (js : list JID) | UnblockAll.
Definition request_of (iq : Element) : option block_request :=
  match ChildNamespace iq "block" blockListNamespace with
  | Some e => js ← getItemJIDs e; Some (BlockReq js)
  | None =>
    e ← ChildNamespace iq "unblock" blockListNamespace;
    js ← getItemJIDs e;
    Some (match js with [] => UnblockAll | _ => UnblockReq js end)
  end.
Definition apply_request (u : string) (r : block_request) (b : gset (string * string)) : gset (string * string) :=
  match r with
  | BlockReq js => entries_of u js ∪ b
  | UnblockReq js => b ∖ entries_of u js
  | UnblockAll => filter (fun p => p.1 ≠ u) b
  end.

Lemma request_printed iq u r w : request_of iq = Some r → canonical w →
  ∀ w', blocks w' = apply_request u r (blocks w) → canonical w'.
Proof.
  intros Hr Hc w' E v s. rewrite E. destruct r as [js|js|]; simpl.
  - intros [Hin|Hin]%elem_of_union; [|by apply (Hc v)]. apply elem_of_block_entries in Hin as (j & [= -> ->] & Hj).
    unfold request_of in Hr. destruct (ChildNamespace iq "block" _) as [e|]; simpl in Hr.
    + destruct (getItemJIDs e) eqn:Ej; simplify_eq/=. apply itemJIDs_printed in Ej.
      rewrite Forall_forall in Ej. by apply Ej.
    + destruct (ChildNamespace iq "unblock" _) as [e|]; [|done]. simpl in Hr.
      destruct (getItemJIDs e) as [[]|]; done.
  - intros [Hin _]%elem_of_difference. by apply (Hc v).
  - intros [_ Hin]%elem_of_filter. by apply (Hc v).
Qed.

(** C17: A request of a user to block or unblock that is answered without an error
    changes the list of that user and no other by exactly what it asks for: the
    JIDs of a block request are in it, those of an unblock request are not, an
    unblock request without JIDs empties it; and every stored JID can be read. *)
Theorem block_request_applied (iq : Element) (w w' : W) (Hcan : canonical w)
    (Hown : MatchesBare (FromJID iq) (ToJID iq) = true) (Hset : IsSet iq = true) (Hget : IsGet iq = false)
    (r : block_request) (Hreq : request_of iq = Some r) (Hok : ProcessIQ iq w = (Ok tt, w')) :
  blocks w' = apply_request (Node (FromJID iq)) r (blocks w) ∧ canonical w'.
Proof.
  unfold ProcessIQ in Hok. rewrite Hown, Hset, Hget in Hok. simpl in Hok. unfold alterBlockList in Hok.
  inv_bind Hok as bli w1 Hf. apply or_internal_inv in Hf.
  pose proof (bk_fetch _ _ _ _ Hf) as Hb.
  apply (keeps_run same_blocks) in Hf; [|apply bk_fetch_keeps]. unfold same_blocks in Hf. rewrite <-Hf in Hb.
  assert (canonical w1) as Hcan1 by (intros v s; rewrite Hf; apply Hcan).
  assert (blocks w' = apply_request (Node (FromJID iq)) r (blocks w)) as E; [|split; [done|by apply (request_printed iq (Node (FromJID iq)) r w Hreq Hcan)]].
  rewrite <-Hf. clear Hf. unfold request_of in Hreq.
  destruct (ChildNamespace iq "block" _) as [e|]; simpl in Hreq.
  - apply blockJIDs_ok in Hok as (js & Hjs & E); [|done]. rewrite Hjs in Hreq. by injection Hreq as <-.
  - destruct (ChildNamespace iq "unblock" _) as [e|]; [|done]. simpl in Hreq.
    apply unblockJIDs_ok in Hok as (js & Hjs & E); [|done..]. rewrite Hjs in Hreq. simpl in Hreq.
    destruct js; by injection Hreq as <-.
Qed.

(** *** Filtering *)
Lemma anyMatches_ok (l : list BlockItem) j (w : W) : Forall (fun i => printed (bl_Jid i)) l →
  ∃ b, anyMatches l j w = (Ok b, w) ∧
    (b = true ↔ ∃ s jd, s ∈ map bl_Jid l ∧ NewWithString s true = Some jd ∧ Matches jd j = true).
Proof.
  induction 1 as [|i l (jd & Hj & Hs) Hp IH]; [exists false; split; [done|]; set_solver|].
  cbn [anyMatches map]. rewrite Hj. destruct (Matches jd j) eqn:Em.
  - exists true. split; [by unfold mbind, M_bind; simpl; rewrite Em|]. split; [|done]. intros _. exists (bl_Jid i), jd. set_solver.
  - destruct IH as (b & Hb & Hiff). exists b. split; [by unfold mbind, M_bind; simpl; rewrite Em|].
    rewrite Hiff. split; intros (s & x & Hin & Hx & Hm); exists s, x; split; try done; [by apply list_elem_of_further|].
    apply elem_of_cons in Hin as [->|Hin]; [|done]. congruence.
Qed.

(** The filter is exact: when the list can be read, a stanza to another local
    user is let through, and nothing is sent, when no item of that user's list
    matches the sender; otherwise its processing ends here. *)
Theorem blocked_exactly (e : Element) (w : W) (l : list BlockItem) (w1 : W) (Hcan : canonical w)
    (Hnode : Node (ToJID e) ≠ "") (Hlocal : me_IsLocalHost (Domain (ToJID e)) = true)
    (Hother : MatchesBare (ToJID e) (FromJID e) = false)
    (Hread : rep_FetchBlockListItems (Node (ToJID e)) w = (Ok l, w1)) :
  let blocked := ∃ s jd, (Node (ToJID e), s) ∈ blocks w ∧ NewWithString s true = Some jd ∧ Matches jd (FromJID e) = true in
  (blocked → is_ok (processIncomingStanza e w).1 = false) ∧ (¬ blocked → processIncomingStanza e w = (Ok tt, w1)).
Proof.
  cbv zeta. unfold processIncomingStanza. rewrite Hlocal, Hother, (proj2 (String.eqb_neq _ _) Hnode). simpl.
  rewrite (bind_Ok _ _ _ l w1 Hread). pose proof (bk_fetch _ _ _ _ Hread) as Hb.
  destruct (anyMatches_ok l (FromJID e) w1) as (b & Hm & Hiff).
  { apply Forall_forall. intros i Hi. apply (Hcan (Node (ToJID e))), Hb. by apply list_elem_of_In, in_map, list_elem_of_In. }
  rewrite (bind_Ok _ _ _ b w1 Hm). setoid_rewrite Hb in Hiff. destruct b.
  - split; [|intros Hn; exfalso; apply Hn; by apply Hiff]. intros _. unfold mbind, M_bind.
    match goal with |- context [match ?x with _ => _ end] => destruct x as [[]] end; done.
  - split; [|done]. intros Hbl. apply Hiff in Hbl. done.
Qed.

End proofs.

(** ** On the server in memory *)
Module BlockDemo.
Import TreeLib TreeMore.

Definition mem_blocks (w : server) : gset (string * string) :=
  list_to_set (p ← map_to_list (m_block (sv_mem w)); (fun i => (p.1, bl_Jid i)) <$> p.2).
#[export] Instance demo_views : @BlockViews server := mem_blocks.

Lemma elem_of_mem_blocks w u j : (u, j) ∈ mem_blocks w ↔ j ∈ map bl_Jid (default [] (m_block (sv_mem w) !! u)).
Proof.
  unfold mem_blocks. rewrite elem_of_list_to_set, list_elem_of_bind. split.
  - intros ([v l] & Hin & Hl). apply elem_of_map_to_list in Hl. simpl in Hin.
    apply list_elem_of_fmap in Hin as (i & [= -> ->] & Hi). rewrite Hl. by apply list_elem_of_fmap_2.
  - destruct (m_block (sv_mem w) !! u) as [l|] eqn:El; simpl; [|set_solver].
    intros Hj. apply list_elem_of_fmap in Hj as (i & -> & Hi). exists (u, l). split.
    + simpl. by apply (list_elem_of_fmap_2 (fun i => (u, bl_Jid i))).
    + by apply elem_of_map_to_list.
Qed.

Lemma mem_blocks_upd w (m : gmap string (list BlockItem)) u l v j :
  m_block (sv_mem w) = <[u := l]> m →
  (v, j) ∈ mem_blocks w ↔ (if decide (u = v) then j ∈ map bl_Jid l else j ∈ map bl_Jid (default [] (m !! v))).
Proof.
  intros E. rewrite elem_of_mem_blocks, E. destruct (decide (u = v)) as [->|Hne].
  - by rewrite lookup_insert_eq.
  - by rewrite lookup_insert_ne.
Qed.

#[export] Instance demo_repo : @BlockRepo tree_jid tree_xml server server_env map_rep demo_views.
Proof.
  split.
  - split; intros; intros []; simpl; try done. by case_match; [case_match|].
  - by intros u w.
  - by intros u w.
  - intros u w l w' [= <- _] j. symmetry. apply elem_of_mem_blocks.
  - intros i w. destruct w as [[]]. simpl. apply set_eq. intros [v j].
    unfold blocks, demo_views. rewrite elem_of_union, elem_of_singleton.
    erewrite mem_blocks_upd by reflexivity. rewrite elem_of_mem_blocks. simpl. case_decide as Hd; [subst v|naive_solver].
    rewrite elem_of_cons, !(list_elem_of_fmap bl_Jid). setoid_rewrite list_elem_of_filter.
    split; [intros [->|(x & -> & _ & Hx)]; [by left|right; by exists x]|].
    intros [[= ->]|(x & -> & Hx)]; [by left|]. destruct (decide (bl_Jid x = bl_Jid i)) as [E|Hne]; [by left|right; by exists x].
  - intros i w. destruct w as [[]]. simpl. apply set_eq. intros [v j].
    unfold blocks, demo_views. rewrite elem_of_difference, not_elem_of_singleton.
    erewrite mem_blocks_upd by reflexivity. rewrite elem_of_mem_blocks. simpl. case_decide as Hd; [subst v|naive_solver].
    rewrite !(list_elem_of_fmap bl_Jid). setoid_rewrite list_elem_of_filter. split.
    + intros (x & -> & Hne & Hx). split; [by exists x|congruence].
    + intros ((x & -> & Hx) & Hne). exists x. split; [done|]. split; [congruence|done].
  - intros m w. simpl. destruct (m w) as [[[]|e|c] w'] eqn:E; [by exists w'|by destruct w', w..].
Qed.

Definition iq_attrs : list (string * string) :=
  [("type", "set"); ("id", "1"); ("from", "romeo@jackal.im/garden"); ("to", "romeo@jackal.im")].
Definition block_iq : XElement :=
  TNode "iq" iq_attrs [TNode "block" [("xmlns", blockListNamespace)]
    [TNode "item" [("jid", "tybalt@capulet.lit")] [] "" None] "" None] "" (Some KIQ).
Definition romeo_server : server := MkServer no_mem no_mail [] [] ∅ [("romeo", "garden")] ∅ 0.
Definition after_block : server := (ProcessIQ block_iq romeo_server).2.

Lemma after_block_blocks : @blocks server demo_views after_block = {[("romeo", "tybalt@capulet.lit")]}.
Proof. vm_compute. reflexivity. Qed.
Lemma after_block_canonical : @canonical tree_jid server demo_views after_block.
Proof.
  intros u s. rewrite after_block_blocks. intros [= -> ->]%elem_of_singleton.
  exists (MkJid "tybalt" "capulet.lit" ""). by split.
Qed.

Lemma block_request_applied_witness :
  @blocks server demo_views after_block = {[("romeo", "tybalt@capulet.lit")]} ∪ ∅ ∧
  @canonical tree_jid server demo_views after_block.
Proof.
  apply (@block_request_applied tree_jid tree_xml tree_jid_more server server_env map_rep demo_views demo_repo
    block_iq romeo_server after_block) with (r := @BlockReq tree_jid [MkJid "tybalt" "capulet.lit" ""]);
    [intros u s Hin; vm_compute in Hin; set_solver|vm_compute; reflexivity..].
Defined.

Definition tybalt_message : XElement :=
  TNode "message" [("from", "tybalt@capulet.lit/street"); ("to", "romeo@jackal.im")] [] "" (Some KMessage).

Lemma blocked_exactly_witness : is_ok (processIncomingStanza tybalt_message after_block).1 = false.
Proof.
  apply (proj1 (@blocked_exactly tree_jid tree_xml tree_jid_more server server_env map_rep demo_views demo_repo
    tybalt_message after_block [MkBlockItem "romeo" "tybalt@capulet.lit"] after_block
    after_block_canonical ltac:(done) eq_refl eq_refl ltac:(vm_compute; reflexivity))).
  exists "tybalt@capulet.lit", (MkJid "tybalt" "capulet.lit" ""). split; [|by split].
  rewrite after_block_blocks. set_solver.
Defined.

(** A resource that has not sent presence yet has none to send again: an unblock
    request for a subscribed contact panics. *)
Definition unblock_iq : XElement :=
  TNode "iq" iq_attrs [TNode "unblock" [("xmlns", blockListNamespace)] [] "" None] "" (Some KIQ).
Definition silent_resource : @ResourceDesc tree_jid tree_xml :=
  NewResourceDesc "i1" (MkJid "romeo" "jackal.im" "garden" : @JID tree_jid) None ∅.
Definition subscribed_server : server :=
  MkServer (set_items (insert "romeo" [MkItem "romeo" "tybalt@capulet.lit" "" SubBoth [] false]) (sv_mem after_block))
    no_mail [] [] {["romeo" := [silent_resource]]} [("romeo", "garden")] ∅ 0.
Theorem unblock_without_presence_panics :
  (ProcessIQ unblock_iq subscribed_server).1 = Crash NilDeref.
Proof. vm_compute. reflexivity. Qed.

End BlockDemo.
