(* ===== verification/Offline.v ===== *)
(** * The offline module

    src/pkg/module/offline/offline.go: messages that reached no resource are kept,
    up to a number, and delivered when a resource becomes available. *)

From stdpp Require Import base list strings gmap.
From Stdlib Require Import ZArith Lia.
From S2P Require Import Prelude GoLib Stravaganza C2SModel GoHoare Roster Storage Repository ModLib MemRep ModDemo.

Definition hintsNamespace : string := "urn:xmpp:hints".
Definition archiveRequestedCtxKey : string := "mam:requested".

Section module.
Context `{XmlMore} {W : Type} `{!ModEnv W} `{!RepMessages W}.

(** [Config.QueueSize] *)
Context (QueueSize : Z).

(** [isMessageArchievable] *)
Definition isMessageArchievable (msg : Element) : bool :=
  if has_child msg "no-store" hintsNamespace then false
  else if has_child msg "store" hintsNamespace then true
  else IsNormal msg || (IsChat msg && IsMessageWithBody msg).

(** [offlineQueueLockID] *)
Definition offlineQueueLockID (username : string) : string := "offline:lock:" +:+ username.

(** [releaseLock], and a function that runs it on its way out, panics included:
    [m.rep.Lock(ctx, lockID)], [defer m.releaseLock(ctx, lockID)]. *)
Definition releaseLock (lockID : string) : M W unit := ignore (rep_Unlock lockID).
Definition deferred {A} (cleanup : M W unit) (body : M W A) : M W A := fun w =>
  let '(r, w1) := body w in
  match cleanup w1 with
  | (Crash c, w2) => (Crash c, w2)
  | (_, w2) => (r, w2)
  end.
Definition withLock {A} (lockID : string) (body : M W A) : M W A :=
  rep_Lock lockID;; deferred (releaseLock lockID) body.

(** [archiveMessage] *)
Definition archiveMessage (msg : Element) : M W unit :=
  let toJID := ToJID msg in
  let username := Node toJID in
  withLock (offlineQueueLockID username) (
    qSize ← rep_CountOfflineMessages username;
    if Z.eqb qSize QueueSize then
      refuse msg SEServiceUnavailable;;
      fail ErrStopped
    else
      now ← me_Now;
      dMsg ← deref (MakeDelayMessage me_FormatDelay msg now (Domain toJID) "Offline Storage");
      rep_InsertOfflineMessage dMsg username;;
      me_runHook (EvOffline username (Some dMsg));;
      fail ErrStopped).

(** [deliverOfflineMessages] *)
Definition deliverOfflineMessages (stm : Z) : M W unit :=
  username ← gets (me_StreamUsername stm);
  withLock (offlineQueueLockID username) (
    ms ← rep_FetchOfflineMessages username;
    match ms with
    | [] => mret tt
    | _ :: _ =>
      rep_DeleteOfflineMessages username;;
      for_each ms (fun msg => ignore (me_SendElement stm msg))
    end).

(** [onMessageRouted] *)
Definition onMessageRouted : M (ExecCtx * W) unit :=
  targets ← fld ex_Targets;
  elem ← fld ex_Element;
  match targets with
  | _ :: _ => mret tt
  | [] =>
    match stanza_as KMessage elem with
    | None => mret tt
    | Some msg =>
      if negb (isMessageArchievable msg) then mret tt
      else if negb (me_IsLocalHost (Domain (ToJID msg))) then mret tt
      else onW (archiveMessage msg)
    end
  end.

(** [onC2SPresenceRecv]; the sender of the hook is the stream *)
Definition onC2SPresenceRecv (stm : Z) (pr : Element) : M W unit :=
  inf ← gets (me_StreamInfo stm);
  if Info.Bool archiveRequestedCtxKey inf then mret tt
  else
    let toJID := ToJID pr in
    if IsFull toJID || negb (me_IsLocalHost (Domain toJID)) then mret tt
    else if negb (IsAvailable pr) || (Priority pr <? 0)%Z then mret tt
    else deliverOfflineMessages stm.

(** [onUserDeleted] *)
Definition onUserDeleted (username : string) : M W unit :=
  withLock (offlineQueueLockID username) (rep_DeleteOfflineMessages username).

End module.

(** ** The queue of a user *)
Section proofs.
Context `{XmlMore} {W : Type} `{!ModEnv W} `{!RepMessages W} (QueueSize : Z).

(** What is stored for a user, and what was handed to streams. *)
Class OfflineViews := {
  queue : W → string → list Element;
  handed : W → list (Z * Element);
}.
Context `{!OfflineViews}.
Definition same_mail (w w' : W) : Prop := (∀ u, queue w' u = queue w u) ∧ handed w' = handed w.
#[global] Instance same_mail_preorder : PreOrder same_mail.
Proof.
  split; [by intros w|]. intros w1 w2 w3 [E1 E2] [E3 E4]. split; [|congruence]. intros u. by rewrite E3.
Qed.

(** The queue of [u] is [l], the others are as before. *)
Definition upd (u : string) (l : list Element) (q q' : string → list Element) : Prop :=
  ∀ v, q' v = if decide (v = u) then l else q v.

Class OfflineRepo : Prop := {
  of_Route : ∀ e, keeps same_mail (me_Route e);
  of_runHook : ∀ ev, keeps same_mail (me_runHook ev);
  of_Now : keeps same_mail me_Now;
  of_Lock : ∀ k, keeps same_mail (rep_Lock k);
  of_Unlock : ∀ k, keeps same_mail (rep_Unlock k);
  of_Send : ∀ s e w, let '(r, w') := me_SendElement s e w in
    (∀ c, r ≠ Crash c) ∧ (∀ u, queue w' u = queue w u) ∧ handed w' = handed w ++ [(s, e)];
  of_Count : ∀ u w, let '(r, w') := rep_CountOfflineMessages u w in
    same_mail w w' ∧ ∀ n, r = Ok n → n = Z.of_nat (length (queue w u));
  of_Fetch : ∀ u w, let '(r, w') := rep_FetchOfflineMessages u w in
    same_mail w w' ∧ ∀ ms, r = Ok ms → ms = queue w u;
  of_Insert : ∀ m u w, let '(r, w') := rep_InsertOfflineMessage m u w in
    if is_ok r then handed w' = handed w ∧ upd u (queue w u ++ [m]) (queue w) (queue w') else same_mail w w';
  of_Delete : ∀ u w, let '(r, w') := rep_DeleteOfflineMessages u w in
    if is_ok r then handed w' = handed w ∧ upd u [] (queue w) (queue w') else same_mail w w';
}.
Context `{!OfflineRepo}.
#[local] Hint Resolve of_Route of_runHook of_Now of_Lock of_Unlock : gomonad.

(** What the module promises: a bounded queue for every user that is handed to one
    stream as a whole. *)
Inductive qstep (w w' : W) : Prop :=
  | q_skip : same_mail w w' → qstep w w'
  | q_store msg t d : let u := Node (ToJID msg) in
      MakeDelayMessage me_FormatDelay msg t (Domain (ToJID msg)) "Offline Storage" = Some d →
      Z.of_nat (length (queue w u)) ≠ QueueSize → handed w' = handed w →
      upd u (queue w u ++ [d]) (queue w) (queue w') → qstep w w'
  | q_deliver u stm : handed w' = handed w ++ map (pair stm) (queue w u) →
      upd u [] (queue w) (queue w') → qstep w w'
  | q_clear u : handed w' = handed w → upd u [] (queue w) (queue w') → qstep w w'.

(** Steps that leave the mail alone can come before and after. *)
Lemma qstep_same w1 w2 w3 w4 : same_mail w1 w2 → qstep w2 w3 → same_mail w3 w4 → qstep w1 w4.
Proof.
  intros [Hq Hh] Hs [Hq' Hh']. assert (∀ u l, upd u l (queue w2) (queue w3) → upd u l (queue w1) (queue w4)) as Hu.
  { intros u l Hu v. by rewrite Hq', Hu, Hq. }
  destruct Hs as [[Hq2 Hh2]|msg t d u Hd Hn Hh2 Hq2|u stm Hh2 Hq2|u Hh2 Hq2].
  - apply q_skip. split; [intros u; by rewrite Hq', Hq2|congruence].
  - apply (q_store _ _ msg t d); [done|by rewrite <-Hq|congruence|]. rewrite <-Hq. by apply Hu.
  - apply (q_deliver _ _ u stm); [congruence|by apply Hu].
  - apply (q_clear _ _ u); [congruence|by apply Hu].
Qed.

Lemma keeps_release k : keeps same_mail (releaseLock k).
Proof. unfold releaseLock. keeps_auto. Qed.

(** The lock changes neither queues nor streams. *)
Lemma withLock_run {A} k (body : M W A) w :
  let '(r, w') := withLock k body w in
  (same_mail w w' ∧ ∀ a, r ≠ Ok a) ∨
  ∃ w1, same_mail w w1 ∧ same_mail (body w1).2 w' ∧ (r = (body w1).1 ∨ ∃ c, r = Crash c).
Proof.
  unfold withLock, mbind, M_bind. pose proof (of_Lock k w) as Hl.
  destruct (rep_Lock k w) as [[[]|e|c] w1]; simpl in Hl; [|by left..].
  unfold deferred. destruct (body w1) as [r w2] eqn:Eb.
  pose proof (keeps_release k w2) as Hr. destruct (releaseLock k w2) as [[[]|e|c] w3]; simpl in *;
    right; exists w1; rewrite Eb; simpl; eauto.
Qed.

Lemma withLock_step {A} k (body : M W A) w :
  (∀ w1, qstep w1 (body w1).2) → qstep w (withLock k body w).2.
Proof.
  intros Hb. pose proof (withLock_run k body w) as Hw. destruct (withLock k body w) as [r w'].
  destruct Hw as [[Hs _]|(w1 & Hs1 & Hs2 & _)]; [by apply q_skip|]. by apply (qstep_same w w1 (body w1).2 w').
Qed.

(** *** The three handlers *)
Lemma archive_step msg w : qstep w (archiveMessage QueueSize msg w).2.
Proof.
  apply withLock_step. clear w. intros w. unfold mbind at 1, M_bind at 1. set (u := Node (ToJID msg)).
  pose proof (of_Count u w) as Hc.
  destruct (rep_CountOfflineMessages u w) as [[n|e|c] w2]; destruct Hc as [Hs Hn]; [|by apply q_skip..].
  specialize (Hn n eq_refl). destruct (Z.eqb_spec n QueueSize) as [->|Hne].
  { apply q_skip. etrans; [exact Hs|].
    match goal with |- same_mail w2 (?m w2).2 => assert (keeps same_mail m) as Hk by (unfold refuse, route; keeps_auto); apply Hk end. }
  unfold mbind at 1, M_bind at 1. pose proof (of_Now w2) as Ht.
  destruct (me_Now w2) as [[t|e|c] w3]; simpl in Ht; [|apply q_skip; by etrans..].
  assert (same_mail w w3) as Hs3 by (by etrans). clear Hs Ht w2.
  destruct (MakeDelayMessage _ _ _ _ _) as [d|] eqn:Ed; [|by apply q_skip].
  unfold mbind, M_bind, deref. simpl. pose proof (of_Insert d u w3) as Hi.
  destruct (rep_InsertOfflineMessage d u w3) as [[[]|e|c] w4]; simpl in Hi |- *; [|apply q_skip; by etrans..].
  destruct Hi as [Hh Hq]. assert (qstep w3 w4) as Hstep.
  { apply (q_store _ _ msg t d); [done| |done..]. cbv zeta; fold u; by rewrite (proj1 Hs3), <-Hn. }
  pose proof (of_runHook (EvOffline u (Some d)) w4) as Hr.
  destruct (me_runHook _ w4) as [[[]|e|c] w5]; simpl in *; by apply (qstep_same w w3 w4 w5).
Qed.

(** How a message that stops the hook was dealt with: the queue was full, or it is
    stored; the collaborators do not stop hooks themselves. *)
Lemma archive_stopped msg w w' :
  (∀ k w, (rep_Lock k w).1 ≠ Err ErrStopped) → (∀ u w, (rep_CountOfflineMessages u w).1 ≠ Err ErrStopped) →
  (∀ w, (me_Now w).1 ≠ Err ErrStopped) → (∀ m u w, (rep_InsertOfflineMessage m u w).1 ≠ Err ErrStopped) →
  (∀ ev w, (me_runHook ev w).1 ≠ Err ErrStopped) →
  archiveMessage QueueSize msg w = (Err ErrStopped, w') →
  let u := Node (ToJID msg) in
  (Z.of_nat (length (queue w u)) = QueueSize ∧ same_mail w w') ∨
  ∃ t d, MakeDelayMessage me_FormatDelay msg t (Domain (ToJID msg)) "Offline Storage" = Some d ∧
    upd u (queue w u ++ [d]) (queue w) (queue w').
Proof.
  intros Nl Nc Nn Ni Nr E u. unfold archiveMessage, withLock in E. fold u in E.
  unfold mbind at 1, M_bind at 1 in E. pose proof (of_Lock (offlineQueueLockID u) w) as Hl.
  specialize (Nl (offlineQueueLockID u) w). destruct (rep_Lock _ w) as [[[]|e|c] w1]; simpl in Hl, Nl; [|congruence..].
  unfold deferred in E. set (body := mbind _ _) in E.
  assert ((body w1).1 = Err ErrStopped ∧ same_mail (body w1).2 w') as [Hb Hs].
  { pose proof (keeps_release (offlineQueueLockID u) (body w1).2) as Hr. destruct (body w1) as [r w2]. simpl in *.
    destruct (releaseLock _ w2) as [[[]|e|c] w3]; simplify_eq/=; done. }
  clear E. unfold body in Hb, Hs. clear body. unfold mbind at 1, M_bind at 1 in Hb. unfold mbind at 1, M_bind at 1 in Hs.
  pose proof (of_Count u w1) as Hc. specialize (Nc u w1).
  destruct (rep_CountOfflineMessages u w1) as [[n|e|c] w2]; destruct Hc as [Hs2 Hn]; simpl in Nc, Hb; [|congruence..].
  specialize (Hn n eq_refl). assert (same_mail w w2) as Hw2 by (by etrans).
  destruct (Z.eqb_spec n QueueSize) as [->|Hne].
  { left. split; [by rewrite <-(proj1 Hl)|]. etrans; [exact Hw2|]. etrans; [|exact Hs].
    match goal with |- same_mail w2 (?m w2).2 => assert (keeps same_mail m) as Hk by (unfold refuse, route; keeps_auto); apply Hk end. }
  right. unfold mbind at 1, M_bind at 1 in Hb. unfold mbind at 1, M_bind at 1 in Hs. pose proof (of_Now w2) as Ht. specialize (Nn w2).
  destruct (me_Now w2) as [[t|e|c] w3]; simpl in Ht, Nn, Hb; [|congruence..].
  destruct (MakeDelayMessage _ _ _ _ _) as [d|] eqn:Ed in Hb, Hs; [|done].
  exists t, d. split; [done|]. unfold mbind, M_bind, deref in Hb, Hs. simpl in Hb, Hs.
  pose proof (of_Insert d u w3) as Hi. specialize (Ni d u w3).
  destruct (rep_InsertOfflineMessage d u w3) as [[[]|e|c] w4]; simpl in Hi, Ni, Hb; [|congruence..].
  pose proof (of_runHook (EvOffline u (Some d)) w4) as Hr.
  destruct (me_runHook _ w4) as [[[]|e|c] w5]; simpl in Hr, Hs.
  all: intros v; rewrite (proj1 Hs v), (proj1 Hr v), (proj2 Hi v); rewrite !(proj1 Ht), !(proj1 Hw2); done.
Qed.

Lemma sends_handed stm ms w : let '(r, w') := for_each ms (fun m => ignore (me_SendElement stm m)) w in
  r = Ok tt ∧ (∀ u, queue w' u = queue w u) ∧ handed w' = handed w ++ map (pair stm) ms.
Proof.
  revert w. induction ms as [|m ms IH]; intros w; simpl; [by rewrite app_nil_r|].
  unfold ignore, try, mbind, M_bind. pose proof (of_Send stm m w) as Hs.
  destruct (me_SendElement stm m w) as [[a|e|c] w1]; destruct Hs as (Hc & Hq & Hh); [| |by destruct (Hc c)];
    specialize (IH w1); simpl; destruct (for_each _ _ w1) as [r w2]; destruct IH as (-> & Hq2 & Hh2);
    (split; [done|]; split; [intros u; by rewrite Hq2|]; by rewrite Hh2, Hh, <-app_assoc).
Qed.

(** What a delivery hands over. *)
Definition delivered (u : string) (stm : Z) (w w' : W) : Prop :=
  handed w' = handed w ++ map (pair stm) (queue w u) ∧ upd u [] (queue w) (queue w').

Lemma deliver_step stm w : let '(r, w') := deliverOfflineMessages stm w in
  qstep w w' ∧ (r = Ok tt → delivered (me_StreamUsername stm w) stm w w').
Proof.
  unfold deliverOfflineMessages. unfold mbind at 1, M_bind at 1, gets. set (u := me_StreamUsername stm w).
  match goal with |- context [withLock ?k ?b] => pose proof (withLock_run k b w) as Hw; set (body := b) in * end.
  assert (∀ w1, qstep w1 (body w1).2 ∧ ((body w1).1 = Ok tt → delivered u stm w1 (body w1).2)) as Hbody.
  { clear Hw. intros w1. unfold body, mbind, M_bind. pose proof (of_Fetch u w1) as Hf.
    destruct (rep_FetchOfflineMessages u w1) as [[ms|e|c] w2]; destruct Hf as [Hs Hms];
      [|split; [by apply q_skip|done]..].
    specialize (Hms ms eq_refl). destruct ms as [|m0 ms0] eqn:Ems.
    { split; [by apply q_skip|]. intros _. destruct Hs as [Hq Hh]. simpl. split; [by rewrite <-Hms, app_nil_r|].
      intros v. rewrite Hq. case_decide; congruence. }
    rewrite <-Ems in *. clear Ems m0 ms0. pose proof (of_Delete u w2) as Hd.
    destruct (rep_DeleteOfflineMessages u w2) as [[[]|e|c] w3]; simpl in Hd; [|split; [apply q_skip; by etrans|done]..].
    pose proof (sends_handed stm ms w3) as Hsend. destruct (for_each ms _ w3) as [r w4].
    destruct Hsend as (-> & Hq4 & Hh4). destruct Hd as [Hh3 Hq3], Hs as [Hq2 Hh2]. simpl.
    assert (delivered u stm w1 w4) as Hdel.
    { split; [congruence|]. intros v. by rewrite Hq4, Hq3, Hq2. }
    split; [|done]. destruct Hdel. by apply (q_deliver _ _ u stm). }
  destruct (withLock _ body w) as [r w']. destruct Hw as [[Hs Hr]|(w1 & Hs1 & Hs2 & Hr)].
  - split; [by apply q_skip|]. intros ->. by destruct (Hr tt).
  - destruct (Hbody w1) as [Hb1 Hb2]. split; [by apply (qstep_same w w1 (body w1).2 w')|].
    intros ->. destruct Hr as [Hr|[c Hr]]; [|done]. specialize (Hb2 (eq_sym Hr)) as [Hh Hq].
    destruct Hs1 as [Hq1 Hh1], Hs2 as [Hq2 Hh2]. split; [rewrite <-Hq1; congruence|].
    intros v. by rewrite Hq2, Hq, Hq1.
Qed.

Lemma clear_step u w : qstep w (onUserDeleted u w).2.
Proof.
  apply withLock_step. clear w. intros w. pose proof (of_Delete u w) as Hd.
  destruct (rep_DeleteOfflineMessages u w) as [[[]|e|c] w']; simpl in *; [|by apply q_skip..].
  destruct Hd. by apply (q_clear _ _ u).
Qed.

(** *** Histories *)
Inductive offline_event :=
  | OnMessageRouted (x : ExecCtx)
  | OnPresence (stm : Z) (pr : Element)
  | OnUserDeleted (u : string).

Definition handle (ev : offline_event) (w : W) : W :=
  match ev with
  | OnMessageRouted x => (onMessageRouted QueueSize (x, w)).2.2
  | OnPresence stm pr => (onC2SPresenceRecv stm pr w).2
  | OnUserDeleted u => (onUserDeleted u w).2
  end.

Lemma handle_step ev w : qstep w (handle ev w).
Proof.
  assert (same_mail w w) as Hr by done.
  destruct ev as [x|stm pr|u]; simpl; [| |apply clear_step].
  - unfold onMessageRouted, mbind, M_bind, fld, gets. simpl.
    destruct (ex_Targets x); [|by apply q_skip]. destruct (stanza_as KMessage (ex_Element x)) as [msg|]; [|by apply q_skip].
    destruct (negb (isMessageArchievable msg)); [by apply q_skip|].
    destruct (negb (me_IsLocalHost _)); [by apply q_skip|].
    pose proof (archive_step msg w) as Ha. unfold onW. by destruct (archiveMessage QueueSize msg w) as [r w'].
  - unfold onC2SPresenceRecv, mbind, M_bind, gets. destruct (Info.Bool _ _); [by apply q_skip|].
    destruct (IsFull _ || _); [by apply q_skip|]. destruct (negb (IsAvailable pr) || _); [by apply q_skip|].
    pose proof (deliver_step stm w) as Hd. by destruct (deliverOfflineMessages stm w) as [r w'], Hd.
Qed.


(** A presence that makes a resource available hands the stream all messages
    kept for its user, in the order in which they were stored, and nothing stays
    behind; a client that has already asked for its archive gets none. *)
Theorem offline_delivered (stm : Z) (pr : Element) (w w' : W)
    (Hlocal : IsFull (ToJID pr) = false ∧ me_IsLocalHost (Domain (ToJID pr)) = true)
    (Havail : IsAvailable pr = true ∧ (0 <= Priority pr)%Z)
    (Hok : onC2SPresenceRecv stm pr w = (Ok tt, w')) :
  if Info.Bool archiveRequestedCtxKey (me_StreamInfo stm w) then w' = w
  else
    handed w' = handed w ++ map (pair stm) (queue w (me_StreamUsername stm w)) ∧
    queue w' (me_StreamUsername stm w) = [].
Proof.
  destruct Hlocal as [Hf Hl], Havail as [Ha Hp].
  unfold onC2SPresenceRecv, mbind, M_bind, gets in Hok. destruct (Info.Bool _ _); [by injection Hok as <-|].
  rewrite Hf, Hl, Ha in Hok. simpl in Hok. rewrite (proj2 (Z.ltb_ge _ _) Hp) in Hok. simpl in Hok.
  pose proof (deliver_step stm w) as Hd. rewrite Hok in Hd. destruct Hd as [_ Hd]. destruct (Hd eq_refl) as [Hh Hq].
  split; [done|]. by rewrite Hq, decide_True.
Qed.

End proofs.

(** ** On the server in memory *)
Module OfflineDemo.
Import TreeLib TreeMore.

#[export] Instance demo_views : @OfflineViews tree_jid tree_xml server := {|
  queue := fun w u => default [] (ml_offline (sv_mail w) !! u); handed := sv_sent |}.

#[export] Instance demo_repo : @OfflineRepo tree_jid tree_xml server server_env map_messages demo_views.
Proof.
  split.
  - by intros e [].
  - by intros ev w.
  - by intros [].
  - by intros k [? []].
  - by intros k [? []].
  - by intros s e [].
  - intros u w. split; [done|]. by intros n [= <-].
  - intros u w. split; [done|]. by intros ms [= <-].
  - intros m u [? []]. split; [done|]. intros v. apply (lookup_on_list (A := XElement) _ u (fun l => l ++ [m])).
  - intros u [? [off ar lk]]. split; [done|]. intros v. simpl.
    case_decide as Hd; [subst v; by rewrite lookup_delete_eq|by rewrite lookup_delete_ne].
Qed.

Definition chat (n : string) : XElement :=
  TNode "message" [("type", "chat"); ("from", "juliet@jackal.im/b"); ("to", "romeo@jackal.im")]
    [TNode "body" [] [] n None] "" (Some KMessage).
Definition lost (m : XElement) : @ExecCtx tree_jid tree_xml := MkExec (Some m) [] "" "".
Definition romeo_server : server := MkServer no_mem no_mail [] [] ∅ [("romeo", "garden")] ∅ 0.
Definition three : list offline_event := map (fun n => OnMessageRouted (lost (chat n))) ["a"; "b"; "c"].


Definition available : XElement :=
  TNode "presence" [("from", "romeo@jackal.im/garden"); ("to", "romeo@jackal.im")] [] "" (Some KPresence).
Definition filled : server := foldl (fun w ev => handle 2 ev w) romeo_server three.

Lemma offline_delivered_witness :
  sv_sent (onC2SPresenceRecv 0 available filled).2 = [] ++ map (pair 0%Z) (queue filled "romeo") ∧
  queue (onC2SPresenceRecv 0 available filled).2 "romeo" = [].
Proof.
  apply (@offline_delivered tree_jid tree_xml server server_env map_messages 2 demo_views demo_repo
    0 available filled (onC2SPresenceRecv 0 available filled).2);
    [by split|split; [done|vm_compute; done]|vm_compute; reflexivity].
Defined.

(** A queue that is longer than the size, because the size was lowered since,
    grows without bound. *)
Theorem lowered_size_is_no_bound :
  (length (queue (handle 1 (OnMessageRouted (lost (chat "d"))) filled) "romeo") = 3)%nat.
Proof. vm_compute. reflexivity. Qed.

End OfflineDemo.
