(* ===== verification/Forms.v ===== *)
(** * Data forms (XEP-0004)

    src/pkg/module/xep0004: forms and their fields as records, reading them from
    XML and writing them. *)

From stdpp Require Import base list strings gmap.
From Stdlib Require Import ZArith Lia.
From S2P Require Import Prelude GoLib Stravaganza Roster ModLib.

(** ** Data (field.go, validate.go, form.go) *)
Definition FormType : string := "FORM_TYPE".
Definition Boolean : string := "boolean".
Definition Fixed : string := "fixed".
Definition Hidden : string := "hidden".
Definition JidMulti : string := "jid-multi".
Definition JidSingle : string := "jid-single".
Definition ListMulti : string := "list-multi".
Definition ListSingle : string := "list-single".
Definition TextMulti : string := "text-multi".
Definition TextPrivate : string := "text-private".
Definition TextSingle : string := "text-single".
Definition StringDataType : string := "xs:string".
Definition validateNamespace : string := "http://jabber.org/protocol/xdata-validate".
Definition FormNamespace : string := "jabber:x:data".
Definition Form : string := "form".
Definition Submit : string := "submit".
Definition Cancel : string := "cancel".
Definition Result : string := "result".

Record Option_ := MkOption { op_Label : string; op_Value : string }.

(** The implementations of [Validator]. *)
Inductive Validator :=
  | OpenValidator
  | BasicValidator
  | RangeValidator (min max : string)
  | RegExValidator (regex : string).
Record Validate := MkValidate { DataType : string; ValidatorOf : option Validator }.

Record Field := MkField {
  Var : string; Required : bool; FieldType : string; Label : string; Description : string;
  Values : list string; Options : list Option_; ValidateOf : option Validate }.

Record DataForm := MkForm {
  FormTypeOf : string; Title : string; Instructions : string;
  Fields : list Field; Reported : list Field; Items : list (list Field) }.

(** [isValidFieldType], [isValidFormType] *)
Definition isValidFieldType (typ : string) : bool :=
  existsb (String.eqb typ) [Boolean; Fixed; Hidden; JidMulti; JidSingle; ListMulti; ListSingle; TextMulti; TextPrivate; TextSingle].
Definition isValidFormType (typ : string) : bool := existsb (String.eqb typ) [Form; Submit; Cancel; Result].

(** *** Values of fields (fields.go) *)

(** [ValueForFieldOfType] and [ValueForField], [ValuesForFieldOfType] and [ValuesForField] *)
Fixpoint ValueForFieldOfType (f : list Field) (fieldName typ : string) : string :=
  match f with
  | [] => ""
  | field :: f' =>
    if String.eqb (Var field) fieldName && String.eqb (FieldType field) typ then
      match Values field with v :: _ => v | [] => ValueForFieldOfType f' fieldName typ end
    else ValueForFieldOfType f' fieldName typ
  end.
Definition ValueForField (f : list Field) (fieldName : string) : string := ValueForFieldOfType f fieldName "".
Definition ValuesForFieldOfType (f : list Field) (fieldName typ : string) : list string :=
  f ≫= (fun field => if String.eqb (Var field) fieldName && String.eqb (FieldType field) typ then Values field else []).
Definition ValuesForField (f : list Field) (fieldName : string) : list string := ValuesForFieldOfType f fieldName "".

Section forms.
Context `{XmlLib}.

(** ** Reading *)
Definition child_text (e : Element) (n : string) : string :=
  match Child e n with Some c => Text c | None => "" end.
Definition has_named (e : Element) (n : string) : bool := match Child e n with Some _ => true | None => false end.

(** The part of [NewFieldFromElement] that reads the validation. *)
Definition readValidate (validateElem : Element) : Validate :=
  MkValidate (Attribute validateElem "datatype")
    (if has_named validateElem "open" then Some OpenValidator
     else if has_named validateElem "basic" then Some BasicValidator
     else match Child validateElem "range" with
          | Some rng => Some (RangeValidator (Attribute rng "min") (Attribute rng "max"))
          | None =>
            match Child validateElem "regex" with
            | Some rgx => Some (RegExValidator (Text rgx))
            | None => None
            end
          end).

(** [NewFieldFromElement] *)
Definition NewFieldFromElement (elem : Element) : outcome Field :=
  if negb (String.eqb (Name elem) "field") then Err (ErrText ("xep0004: invalid field name: " +:+ Name elem))
  else
    let typ := Attribute elem "type" in
    if negb (String.eqb typ "") && negb (isValidFieldType typ) then
      Err (ErrText ("xep0004: invalid field type: " +:+ typ))
    else
      Ok (MkField (Attribute elem "var") (has_named elem "required") typ (Attribute elem "label")
            (child_text elem "desc") (map Text (Children elem "value"))
            (map (fun opt => MkOption (Attribute opt "label") (child_text opt "value")) (Children elem "option"))
            (readValidate <$> ChildNamespace elem "validate" validateNamespace)).

(** [fieldsFromElement] *)
Fixpoint readFields (elems : list Element) : outcome (list Field) :=
  match elems with
  | [] => Ok []
  | e :: es => f ← NewFieldFromElement e; fs ← readFields es; Ok (f :: fs)
  end.
Definition fieldsFromElement (elem : Element) : outcome (list Field) := readFields (Children elem "field").
Fixpoint readItems (items : list Element) : outcome (list (list Field)) :=
  match items with
  | [] => Ok []
  | i :: is_ => fs ← fieldsFromElement i; rest ← readItems is_; Ok (fs :: rest)
  end.

(** [NewFormFromElement] *)
Definition NewFormFromElement (elem : Element) : outcome DataForm :=
  if negb (String.eqb (Name elem) "x") then Err (ErrText ("xep0004: invalid form name: " +:+ Name elem))
  else if negb (String.eqb (Attribute elem Namespace) FormNamespace) then
    Err (ErrText ("xep0004: invalid form namespace: " +:+ Attribute elem Namespace))
  else if negb (isValidFormType (Attribute elem "type")) then
    Err (ErrText ("xep0004: invalid form type: " +:+ Attribute elem "type"))
  else
    reported ← (match Child elem "reported" with Some r => fieldsFromElement r | None => Ok [] end);
    items ← readItems (Children elem "item");
    fields ← fieldsFromElement elem;
    Ok (MkForm (Attribute elem "type") (child_text elem "title") (child_text elem "instructions") fields reported items).

(** ** Writing *)
Definition attr (k v : string) : list (string * string) := if String.eqb v "" then [] else [(k, v)].
Definition textElement (n t : string) : Element := Build n [] [] t.

Definition ValidatorElement (v : Validator) : Element :=
  match v with
  | OpenValidator => Build "open" [] [] ""
  | BasicValidator => Build "basic" [] [] ""
  | RangeValidator mn mx => Build "range" (attr "min" mn ++ attr "max" mx) [] ""
  | RegExValidator r => textElement "regex" r
  end.
Definition ValidateElement (v : Validate) : Element :=
  Build "validate" [(Namespace, validateNamespace); ("datatype", DataType v)]
    (option_list (ValidatorElement <$> ValidatorOf v)) "".

(** [Field.Element] *)
Definition OptionElement (o : Option_) : Element :=
  Build "option" (attr "label" (op_Label o)) [textElement "value" (op_Value o)] "".
Definition FieldElement (f : Field) : Element :=
  Build "field" (attr "type" (FieldType f) ++ attr "label" (Label f) ++ attr "var" (Var f))
    ((if Required f then [Build "required" [] [] ""] else []) ++
     (if String.eqb (Description f) "" then [] else [textElement "desc" (Description f)]) ++
     map (textElement "value") (Values f) ++ map OptionElement (Options f) ++
     option_list (ValidateElement <$> ValidateOf f)) "".

(** [DataForm.Element]; the element with the reported fields is left out when there
    are none *)
Definition reportedElements (fs : list Field) : list Element :=
  match fs with [] => [] | _ :: _ => [Build "reported" [] (map FieldElement fs) ""] end.
Definition FormElement (d : DataForm) : Element :=
  Build "x" ([(Namespace, FormNamespace)] ++ attr "type" (FormTypeOf d))
    ((if String.eqb (Title d) "" then [] else [textElement "title" (Title d)]) ++
     (if String.eqb (Instructions d) "" then [] else [textElement "instructions" (Instructions d)]) ++
     reportedElements (Reported d) ++
     map (fun fs => Build "item" [] (map FieldElement fs) "") (Items d) ++
     map FieldElement (Fields d)) "".

End forms.

(** ** What is written is read back *)
Section roundtrip.
Context `{XmlMore}.

Definition named (n : string) (l : list Element) : list Element := List.filter (fun c => String.eqb (Name c) n) l.

Lemma Children_named e n : Children e n = named n (AllChildren e).
Proof. apply Children_spec. Qed.
Lemma named_app n l1 l2 : named n (l1 ++ l2) = named n l1 ++ named n l2.
Proof. apply List.filter_app. Qed.
Lemma named_map {A} n m (f : A → Element) l : (∀ a, Name (f a) = m) →
  named n (map f l) = if String.eqb m n then map f l else [].
Proof.
  intros Hf. induction l as [|a l IH]; simpl; [by destruct (String.eqb m n)|].
  rewrite Hf, IH. by destruct (String.eqb m n).
Qed.
Lemma named_if n m (b : bool) (e : Element) : Name e = m →
  named n (if b then [] else [e]) = if String.eqb m n then (if b then [] else [e]) else [].
Proof. intros Hm. destruct b; simpl; rewrite ?Hm; by destruct (String.eqb m n). Qed.
Lemma named_if' n m (b : bool) (e : Element) : Name e = m →
  named n (if b then [e] else []) = if String.eqb m n then (if b then [e] else []) else [].
Proof. intros Hm. destruct b; simpl; rewrite ?Hm; by destruct (String.eqb m n). Qed.
Lemma named_option {A} n m (f : A → Element) (o : option A) : (∀ a, Name (f a) = m) →
  named n (option_list (f <$> o)) = if String.eqb m n then option_list (f <$> o) else [].
Proof. intros Hf. destruct o; simpl; rewrite ?Hf; by destruct (String.eqb m n). Qed.

(** Attributes that are left out when they are empty read as empty. *)
Fixpoint attrs_of (l : list (string * string)) : list (string * string) :=
  match l with [] => [] | (k, v) :: l' => attr k v ++ attrs_of l' end.

Lemma attrs_of_keys l : (attrs_of l).*1 ⊆ l.*1.
Proof.
  induction l as [|[k v] l IH]; simpl; [done|]. unfold attr. destruct (String.eqb v ""); simpl; set_solver.
Qed.
Lemma attrs_of_NoDup l : NoDup l.*1 → NoDup (attrs_of l).*1.
Proof.
  induction l as [|[k v] l IH]; simpl; [constructor|]. intros [Hk Hd]%NoDup_cons.
  unfold attr. destruct (String.eqb v ""); simpl; [by apply IH|]. constructor; [|by apply IH].
  intros Hin. apply Hk. by apply attrs_of_keys.
Qed.
Lemma read_attrs n l c t k : NoDup l.*1 →
  Attribute (Build n (attrs_of l) c t) k = default "" ((list_to_map l : gmap string string) !! k).
Proof.
  intros Hd. rewrite Attribute_Build by (by apply attrs_of_NoDup).
  induction l as [|[k' v'] l IH]; simpl; [done|].
  apply NoDup_cons in Hd as [Hk Hd]. specialize (IH Hd). unfold attr.
  destruct (String.eqb_spec v' "") as [->|Hv]; simpl.
  - rewrite IH. destruct (decide (k' = k)) as [->|Hne]; [|by rewrite lookup_insert_ne].
    rewrite lookup_insert_eq. simpl.
    assert ((list_to_map l : gmap string string) !! k = None) as -> by (by apply not_elem_of_list_to_map_1). done.
  - destruct (decide (k' = k)) as [->|Hne]; [by rewrite !lookup_insert_eq|by rewrite !lookup_insert_ne].
Qed.

(** Reads an attribute of a built element. *)
Lemma read_attr n a l c t k : a = attrs_of l → NoDup l.*1 →
  Attribute (Build n a c t) k = default "" ((list_to_map l : gmap string string) !! k).
Proof. intros ->. apply read_attrs. Qed.

Ltac attrs l := rewrite (read_attr _ _ l) by (first [simpl; by rewrite ?app_nil_r|repeat constructor; set_solver]); vm_compute.

Lemma option_roundtrip o :
  MkOption (Attribute (OptionElement o) "label") (child_text (OptionElement o) "value") = o.
Proof.
  destruct o as [lb v]. unfold OptionElement, child_text, textElement. simpl.
  rewrite Child_spec, Children_named, AllChildren_Build. simpl. rewrite Name_Build. simpl. rewrite Text_Build.
  f_equal. attrs [("label", lb)]. done.
Qed.

Lemma validate_roundtrip v : readValidate (ValidateElement v) = v.
Proof.
  destruct v as [dt o]. unfold readValidate, ValidateElement, has_named, ValidatorElement, textElement. simpl.
  rewrite !Child_spec, !Children_named, AllChildren_Build. f_equal.
  - rewrite Attribute_Build by (repeat constructor; set_solver). done.
  - destruct o as [[| |mn mx|r]|]; simpl; rewrite ?Name_Build; simpl; try done.
    + do 2 f_equal; [attrs [("min", mn); ("max", mx)]|attrs [("min", mn); ("max", mx)]]; done.
    + by rewrite Text_Build.
Qed.

(** The children of a written field, by name. *)
Lemma field_children f n : Children (FieldElement f) n =
  (if String.eqb "required" n then (if Required f then [Build "required" [] [] ""] else []) else []) ++
  (if String.eqb "desc" n then (if String.eqb (Description f) "" then [] else [textElement "desc" (Description f)]) else []) ++
  (if String.eqb "value" n then map (textElement "value") (Values f) else []) ++
  (if String.eqb "option" n then map OptionElement (Options f) else []) ++
  (if String.eqb "validate" n then option_list (ValidateElement <$> ValidateOf f) else []).
Proof.
  unfold FieldElement. rewrite Children_named, AllChildren_Build, !named_app.
  rewrite (named_if' n "required"), (named_if n "desc") by apply Name_Build.
  rewrite (named_map n "value"), (named_map n "option") by (intros; apply Name_Build).
  rewrite (named_option n "validate") by (intros; apply Name_Build). done.
Qed.

Definition field_ok (f : Field) : bool := String.eqb (FieldType f) "" || isValidFieldType (FieldType f).

Lemma field_roundtrip f : field_ok f = true → NewFieldFromElement (FieldElement f) = Ok f.
Proof.
  intros Hok. unfold NewFieldFromElement. unfold FieldElement at 1. rewrite Name_Build. simpl.
  set (l := [("type", FieldType f); ("label", Label f); ("var", Var f)]).
  assert (∀ k, Attribute (FieldElement f) k = default "" ((list_to_map l : gmap string string) !! k)) as Ha.
  { intros k. unfold FieldElement. apply read_attr; [simpl; by rewrite app_nil_r|repeat constructor; set_solver]. }
  rewrite !Ha. change (default "" ((list_to_map l : gmap string string) !! "type")) with (FieldType f).
  change (default "" ((list_to_map l : gmap string string) !! "label")) with (Label f).
  change (default "" ((list_to_map l : gmap string string) !! "var")) with (Var f).
  unfold field_ok in Hok. rewrite <-negb_orb, Hok. simpl. clear Ha l Hok.
  unfold has_named, child_text. rewrite ChildNamespace_spec, !Child_spec, !field_children. simpl.
  destruct f as [v rq ty lb ds vs os vd]. simpl. f_equal. f_equal.
  - by destruct rq.
  - destruct (String.eqb_spec ds "") as [->|Hne]; simpl; [done|]. apply Text_Build.
  - rewrite app_nil_r, map_map. rewrite <-(map_id vs) at 2. apply map_ext. intros x. apply Text_Build.
  - rewrite app_nil_r, map_map. rewrite <-(map_id os) at 2. apply map_ext. intros x. apply option_roundtrip.
  - destruct vd as [vd|]; simpl; [|done]. unfold ValidateElement at 1.
    rewrite Attribute_Build by (repeat constructor; set_solver). simpl.
    rewrite lookup_insert_eq. simpl. by rewrite validate_roundtrip.
Qed.

Lemma fields_roundtrip fs : forallb field_ok fs = true → readFields (map FieldElement fs) = Ok fs.
Proof.
  induction fs as [|f fs IH]; simpl; [done|]. intros [Hf Hfs]%andb_true_iff. by rewrite field_roundtrip, IH.
Qed.

Lemma named_fields fs : named "field" (map FieldElement fs) = map FieldElement fs.
Proof. rewrite (named_map _ "field"); [done|]. intros f. apply Name_Build. Qed.

Lemma named_reported n fs : named n (reportedElements fs) = if String.eqb "reported" n then reportedElements fs else [].
Proof.
  destruct fs; cbn [reportedElements named List.filter]; rewrite ?Name_Build; by destruct (String.eqb "reported" n).
Qed.
Lemma reported_roundtrip fs : forallb field_ok fs = true →
  match head (reportedElements fs) with Some r => fieldsFromElement r | None => Ok [] end = Ok fs.
Proof.
  destruct fs as [|f fs]; [done|]. intros Hf. cbn [reportedElements head]. unfold fieldsFromElement.
  rewrite Children_named, AllChildren_Build, named_fields. by apply fields_roundtrip.
Qed.

Lemma items_roundtrip its : forallb (forallb field_ok) its = true →
  readItems (map (fun fs => Build "item" [] (map FieldElement fs) "") its) = Ok its.
Proof.
  induction its as [|fs its IH]; simpl; [done|]. intros [Hf Hfs]%andb_true_iff.
  unfold fieldsFromElement. rewrite Children_named, AllChildren_Build, named_fields, fields_roundtrip by done.
  simpl. by rewrite IH.
Qed.

Definition form_ok (d : DataForm) : bool :=
  isValidFormType (FormTypeOf d) && forallb field_ok (Fields d) && forallb field_ok (Reported d) &&
  forallb (forallb field_ok) (Items d).

Lemma form_read_back (d : DataForm) (Hok : form_ok d = true) : NewFormFromElement (FormElement d) = Ok d.
Proof.
  unfold form_ok in Hok. rewrite !andb_true_iff in Hok. destruct Hok as [[[Ht Hf] Hr] Hi].
  unfold NewFormFromElement. unfold FormElement at 1. rewrite Name_Build. simpl.
  set (l := [(Namespace, FormNamespace); ("type", FormTypeOf d)]).
  assert (∀ k, Attribute (FormElement d) k = default "" ((list_to_map l : gmap string string) !! k)) as Ha.
  { intros k. unfold FormElement. apply read_attr; [simpl; by rewrite app_nil_r|repeat constructor; set_solver]. }
  rewrite !Ha. change (default "" ((list_to_map l : gmap string string) !! "type")) with (FormTypeOf d).
  change (default "" ((list_to_map l : gmap string string) !! Namespace)) with FormNamespace.
  rewrite String.eqb_refl, Ht. simpl. clear Ha l.
  assert (∀ n, Children (FormElement d) n =
    (if String.eqb "title" n then (if String.eqb (Title d) "" then [] else [textElement "title" (Title d)]) else []) ++
    (if String.eqb "instructions" n then
       (if String.eqb (Instructions d) "" then [] else [textElement "instructions" (Instructions d)]) else []) ++
    (if String.eqb "reported" n then reportedElements (Reported d) else []) ++
    (if String.eqb "item" n then map (fun fs => Build "item" [] (map FieldElement fs) "") (Items d) else []) ++
    (if String.eqb "field" n then map FieldElement (Fields d) else [])) as Hc.
  { intros n. unfold FormElement. rewrite Children_named, AllChildren_Build, !named_app.
    rewrite (named_if n "title"), (named_if n "instructions") by apply Name_Build.
    rewrite (named_map n "item"), (named_map n "field") by (intros; apply Name_Build).
    by rewrite named_reported. }
  assert (match Child (FormElement d) "reported" with Some r => fieldsFromElement r | None => Ok [] end
    = Ok (Reported d)) as ->.
  { rewrite Child_spec, Hc. simpl. rewrite app_nil_r. by apply reported_roundtrip. }
  assert (fieldsFromElement (FormElement d) = Ok (Fields d)) as ->.
  { unfold fieldsFromElement. rewrite Hc. by apply fields_roundtrip. }
  rewrite (Hc "item"). simpl. rewrite app_nil_r, items_roundtrip by done. simpl.
  unfold child_text. rewrite !Child_spec, !Hc. simpl. destruct d as [ty ti ins fs rp its]. simpl. f_equal. f_equal.
  - destruct (String.eqb_spec ti "") as [->|Hne]; simpl; [done|apply Text_Build].
  - destruct (String.eqb_spec ins "") as [->|Hne]; simpl; [done|apply Text_Build].
Qed.

(** C28: A data form with a valid type, whose fields have valid types, is read back
    exactly as it was written: fields with their values, options and validation,
    reported fields and items included. *)
Theorem form_roundtrip (d : DataForm) (Hok : form_ok d = true) : NewFormFromElement (FormElement d) = Ok d.
Proof. by apply form_read_back. Qed.

(** Reading a form does not panic. *)
Lemma readFields_safe es c : readFields es ≠ Crash c.
Proof.
  induction es as [|e es IH]; simpl; [done|]. unfold NewFieldFromElement.
  repeat case_match; simpl; try done. destruct (readFields es); simpl; congruence.
Qed.
Lemma readItems_safe is_ c : readItems is_ ≠ Crash c.
Proof.
  induction is_ as [|i is_ IH]; simpl; [done|]. unfold fieldsFromElement.
  pose proof (readFields_safe (Children i "field") c). destruct (readFields _); simpl; [|congruence..].
  destruct (readItems is_); simpl; congruence.
Qed.
Lemma form_safe e c : NewFormFromElement e ≠ Crash c.
Proof.
  unfold NewFormFromElement, fieldsFromElement. repeat case_match; try done;
  repeat match goal with
  | |- context [readFields ?es] => pose proof (readFields_safe es c); destruct (readFields es); simpl; try congruence
  | |- context [readItems ?es] => pose proof (readItems_safe es c); destruct (readItems es); simpl; try congruence
  end.
Qed.

End roundtrip.

Module FormDemo.
Import TreeLib TreeMore.

Definition query_form : DataForm :=
  MkForm Submit "" "" [MkField FormType false Hidden "" "" ["urn:xmpp:mam:2"] [] None;
                       MkField "ids" false ListMulti "" "the ids" ["a"; "b"] [MkOption "first" "a"]
                         (Some (MkValidate StringDataType (Some (RangeValidator "a" ""))))]
    [] [[MkField "with" true "" "" "" [] [] None]].
Lemma form_roundtrip_witness :
  NewFormFromElement (FormElement query_form : @Element tree_jid tree_xml) = Ok query_form.
Proof. apply (@form_roundtrip tree_jid tree_xml tree_more). reflexivity. Defined.

End FormDemo.
