(* ===== verification/Mam.v ===== *)
(** * The message archive (XEP-0313)

    src/pkg/module/xep0313/mam.go: messages that are routed are kept in the archives
    of sender and recipient, which clients query with forms ([Forms]) and pages
    ([Rsm]). *)

From stdpp Require Import base list strings gmap.
From Stdlib Require Import ZArith Lia.
From S2P Require Import Prelude GoLib Stravaganza C2SModel GoHoare Roster Storage Repository ModLib MemRep ModDemo Forms.
From S2P Require Rsm.

Definition mamNamespace : string := "urn:xmpp:mam:2".
Definition archiveRequestedCtxKey : string := "mam:requested".
Definition defaultPageSize : Z := 50.
Definition maxPageSize : Z := 250.
Definition ArchiveMessageQueried : string := "mam.message.queried".
Definition ArchiveMessageArchived : string := "mam.message.archieved".

(** [MatchesNamespace] *)
Definition MatchesNamespace (namespace : string) (serverTarget : bool) : bool :=
  if serverTarget then false else String.eqb namespace mamNamespace.

(** [IsArchiveRequested] *)
Definition IsArchiveRequested (inf : Info.t) : bool := Info.Bool archiveRequestedCtxKey inf.

(** [formToFilters]; [parse] is [time.Parse] in the format of the module *)
Definition optional_time (parse : string → option Z) (s : string) : outcome (option Z) :=
  if String.eqb s "" then Ok None
  else match parse s with Some t => Ok (Some t) | None => Err (ErrText "time") end.
Definition formToFilters (parse : string → option Z) (fm : DataForm) : outcome Filters :=
  let fs := Fields fm in
  if negb (String.eqb (FormTypeOf fm) Submit) || negb (String.eqb (ValueForFieldOfType fs FormType Hidden) mamNamespace) then
    Err (ErrText "unexpected form type value")
  else
    start ← optional_time parse (ValueForField fs "start");
    end_ ← optional_time parse (ValueForField fs "end");
    Ok (MkFilters start end_ (ValueForField fs "with") (ValueForField fs "before-id") (ValueForField fs "after-id")
          (ValuesForField fs "ids")).

(** The form that lists the fields of a query ([sendFormFields]). *)
Definition queryForm : DataForm :=
  let fld_ ty v vs vd := MkField v false ty "" "" vs [] vd in
  MkForm Form "" ""
    [fld_ Hidden FormType [mamNamespace] None; fld_ JidSingle "with" [] None; fld_ TextSingle "start" [] None;
     fld_ TextSingle "end" [] None; fld_ TextSingle "before-id" [] None; fld_ TextSingle "after-id" [] None;
     fld_ ListMulti "ids" [] (Some (MkValidate StringDataType (Some OpenValidator)))] [] [].

Section module.
Context `{XmlMore} {W : Type} `{!ModEnv W} `{!Rep W} `{!RepMessages W}.

(** [Config.QueueSize], [time.Parse], and the stanza of a stored message
    ([NewBuilderFromProto(..).BuildStanza()]) *)
Context (QueueSize : Z) (parse_time : string → option Z) (stanza_of : Element → option Element).

Definition of_outcome {A} (r : outcome A) : M W A := fun w => (r, w).

(** [isMessageArchievable] *)
Definition isMessageArchievable (msg : Element) : bool := (IsNormal msg || IsChat msg) && IsMessageWithBody msg.

(** *** Queries *)

(** [sendArchiveMetadata] *)
Definition sendArchiveMetadata (iq : Element) : M W unit :=
  metadata ← or_internal iq (rep_FetchArchiveMetadata (Node (FromJID iq)));
  let bound n i t := Build n (match metadata with Some m => [("id", i m); ("timestamp", t m)] | None => [] end) [] "" in
  route (MakeResultIQ iq (Some (Build "metadata" [(Namespace, mamNamespace)]
    [bound "start" md_StartId md_StartTimestamp; bound "end" md_EndId md_EndTimestamp] ""))).

(** [sendFormFields] *)
Definition sendFormFields (iq : Element) : M W unit :=
  route (MakeResultIQ iq (Some (Build "query" [(Namespace, mamNamespace)] [FormElement queryForm] ""))).

(** The filters of a query. *)
Definition queryFilters (qChild : Element) : outcome Filters :=
  match ChildNamespace qChild "x" FormNamespace with
  | Some x => form ← NewFormFromElement x; formToFilters parse_time form
  | None => Ok (MkFilters None None "" "" "" [])
  end.

(** The page that is asked for: without a request the first one, at most
    [maxPageSize] messages; an unreadable request is answered. *)
Definition readRequest (qChild : Element) : outcome Rsm.Request :=
  match ChildNamespace qChild "set" Rsm.RSMNamespace with
  | Some set =>
    req ← Rsm.NewRequestFromElement set;
    Ok (if (maxPageSize <? Rsm.Max req)%Z
        then Rsm.MkRequest (Rsm.After req) (Rsm.Before req) (Rsm.Index req) maxPageSize (Rsm.LastPage req)
        else req)
  | None => Ok (Rsm.MkRequest "" "" 0 defaultPageSize false)
  end.
Definition pageRequest (iq qChild : Element) : M W Rsm.Request :=
  r ← try (of_outcome (readRequest qChild));
  match r with
  | inl err => refuse iq SEBadRequest;; fail err
  | inr req => mret req
  end.

(** Routes one message of the page. *)
Definition routeArchived (iq qChild : Element) (msg : ArchiveMessage) : M W unit :=
  st ← deref (stanza_of (ar_Message msg));
  uid1 ← me_uuid;
  uid2 ← me_uuid;
  route (BuildStanza KMessage
    [(AttrFrom, JIDString (ToJID iq)); (AttrTo, JIDString (FromJID iq)); (AttrID, uid2)]
    [Build "result" [(Namespace, mamNamespace); ("queryid", Attribute qChild "queryid"); (AttrID, uid1)]
       [MakeForwardedStanza me_FormatDelay st (Some (ar_Stamp msg))] ""]).

(** [flip-page]: the page the other way round *)
Definition flipPage (page : list ArchiveMessage) (res : Rsm.Result) : list ArchiveMessage * Rsm.Result :=
  (reverse page, Rsm.MkResult (Rsm.ResIndex res) (Rsm.Last res) (Rsm.First res) (Rsm.Count res) (Rsm.Complete res)).

(** A requested id was not found. *)
Definition idMissing (f : Filters) (messages : list ArchiveMessage) : bool :=
  (negb (length (fi_Ids f) =? 0)%nat && negb (length messages =? length (fi_Ids f))%nat) ||
  ((negb (String.eqb (fi_AfterId f) "") || negb (String.eqb (fi_BeforeId f) "")) && (length messages =? 0)%nat).

(** [sendArchiveMessages] *)
Definition sendArchiveMessages (iq : Element) : M W unit :=
  let fromJID := FromJID iq in
  stm ← me_LocalStream (Node fromJID) (Resource fromJID);
  qChild ← deref (ChildNamespace iq "query" mamNamespace);
  filters ← of_outcome (queryFilters qChild);
  let archiveID := Node fromJID in
  messages ← or_internal iq (rep_FetchArchiveMessages filters archiveID);
  me_runHook (EvMam ArchiveMessageQueried archiveID None (Some filters));;
  if idMissing filters messages then refuse iq SEItemNotFound
  else
    req ← pageRequest iq qChild;
    r ← try (of_outcome (Rsm.GetResultSetPage messages req ar_Id));
    match r with
    | inl err =>
      if decide (err = ErrPageNotFound) then refuse iq SEItemNotFound
      else refuse iq SEInternalServerError;; fail err
    | inr (page, res) =>
      let '(page, res) := match Child qChild "flip-page" with Some _ => flipPage page res | None => (page, res) end in
      for_each page (routeArchived iq qChild);;
      route (MakeResultIQ iq (Some (Build "fin"
        ([(Namespace, mamNamespace)] ++ (if Rsm.Complete res then [("complete", "true")] else []))
        [Rsm.ResultElement res] "")));;
      me_SetInfoBool stm archiveRequestedCtxKey true
    end.

(** [ProcessIQ] *)
Definition ProcessIQ (iq : Element) : M W unit :=
  if negb (MatchesBare (FromJID iq) (ToJID iq)) then refuse iq SEForbidden
  else if IsGet iq && has_child iq "metadata" mamNamespace then sendArchiveMetadata iq
  else if IsGet iq && has_child iq "query" mamNamespace then sendFormFields iq
  else if IsSet iq && has_child iq "query" mamNamespace then sendArchiveMessages iq
  else mret tt.

(** *** Archiving *)

(** [archiveMessage] *)
Definition archiveMessage (message : Element) (archiveID id : string) : M W unit :=
  now ← me_Now;
  let archiveMsg := MkArchive archiveID id (JIDString (FromJID message)) (JIDString (ToJID message)) message now in
  rep_InTransaction (rep_InsertArchiveMessage archiveMsg;; rep_DeleteArchiveOldestMessages archiveID QueueSize);;
  me_runHook (EvMam ArchiveMessageArchived archiveID (Some archiveMsg) None).

(** [addRecipientStanzaID] *)
Definition addRecipientStanzaID (originalMsg : Element) : M W (option Element) :=
  let toJID := ToJID originalMsg in
  if negb (me_IsLocalHost (Domain toJID)) then mret (Some originalMsg)
  else
    archiveID ← me_uuid;
    mret (MakeStanzaIDMessage originalMsg archiveID (JIDString (ToBareJID toJID))).

(** [onMessageReceived] *)
Definition onMessageReceived : M (ExecCtx * W) unit :=
  e ← fld ex_Element;
  match stanza_as KMessage e with
  | None => crash_with BadTypeAssertion
  | Some msg => msg' ← onW (addRecipientStanzaID msg); setf (set_element msg')
  end.

(** [handleRoutedMessage] and [onMessageRouted] *)
Definition archiveSent (msg : Element) : M (ExecCtx * W) unit :=
  let fromJID := FromJID msg in
  if me_IsLocalHost (Domain fromJID) then
    sentArchiveID ← onW me_uuid;
    archiveMsg ← deref (MakeStanzaIDMessage msg sentArchiveID (JIDString (ToBareJID fromJID)));
    onW (archiveMessage archiveMsg (Node fromJID) sentArchiveID);;
    setf (set_sent_id sentArchiveID)
  else mret tt.
Definition archiveReceived (msg : Element) : M (ExecCtx * W) unit :=
  let toJID := ToJID msg in
  if negb (me_IsLocalHost (Domain toJID)) then mret tt
  else
    let receivedArchiveID := MessageStanzaID msg in
    onW (archiveMessage msg (Node toJID) receivedArchiveID);;
    setf (set_received_id receivedArchiveID).
Definition handleRoutedMessage (elem : option Element) : M (ExecCtx * W) unit :=
  match stanza_as KMessage elem with
  | None => mret tt
  | Some msg => if negb (isMessageArchievable msg) then mret tt else archiveSent msg;; archiveReceived msg
  end.
Definition onMessageRouted : M (ExecCtx * W) unit := elem ← fld ex_Element; handleRoutedMessage elem.

(** [onUserDeleted] *)
Definition onUserDeleted (username : string) : M W unit := rep_DeleteArchive username.

End module.

(** ** What the archives hold *)
Section proofs.
Context `{XmlMore} {W : Type} `{!ModEnv W} `{!Rep W} `{!RepMessages W} (QueueSize : Z).

Class MamViews := archive : W → string → list ArchiveMessage.
Context `{!MamViews}.

Definition same_arch (w w' : W) : Prop := ∀ a, archive w' a = archive w a.
#[global] Instance same_arch_preorder : PreOrder same_arch.
Proof. split; [by intros w a|]. intros w1 w2 w3 E1 E2 a. by rewrite E2. Qed.

(** The last [n] elements. *)
Definition lastn {A} (n : nat) (l : list A) : list A := drop (length l - n) l.
Definition upd_arch (a : string) (l : list ArchiveMessage) (w w' : W) : Prop :=
  ∀ b, archive w' b = if decide (b = a) then l else archive w b.

Class MamRepo : Prop := {
  mr_env :: EnvKeeps same_arch;
  mr_fetch : ∀ f a, keeps same_arch (rep_FetchArchiveMessages f a);
  mr_metadata : ∀ a, keeps same_arch (rep_FetchArchiveMetadata a);
  mr_insert : ∀ m w, let '(r, w') := rep_InsertArchiveMessage m w in
    if is_ok r then upd_arch (ar_ArchiveId m) (archive w (ar_ArchiveId m) ++ [m]) w w' else same_arch w w';
  mr_oldest : ∀ a n w, let '(r, w') := rep_DeleteArchiveOldestMessages a n w in
    if is_ok r then upd_arch a (lastn (Z.to_nat n) (archive w a)) w w' else same_arch w w';
  mr_delete : ∀ a w, let '(r, w') := rep_DeleteArchive a w in
    if is_ok r then upd_arch a [] w w' else same_arch w w';
  mr_transaction : ∀ m w,
    match rep_InTransaction m w with
    | (Ok _, w') => ∃ w1, m w = (Ok tt, w1) ∧ same_arch w1 w'
    | (_, w') => same_arch w w'
    end;
}.
Context `{!MamRepo}.
#[local] Hint Resolve mr_fetch mr_metadata : gomonad.

Lemma length_lastn {A} n (l : list A) : (length (lastn n l) ≤ n)%nat.
Proof. unfold lastn. rewrite length_drop. lia. Qed.

(** A message at the end of an archive of limited size. *)
Definition pushed (a : string) (m : ArchiveMessage) (w w' : W) : Prop :=
  upd_arch a (lastn (Z.to_nat QueueSize) (archive w a ++ [m])) w w'.

Lemma pushed_same w1 w2 w3 w4 a m : same_arch w1 w2 → pushed a m w2 w3 → same_arch w3 w4 → pushed a m w1 w4.
Proof. intros E1 Hp E2 b. by rewrite E2, Hp, !E1. Qed.

Lemma archiveMessage_run msg a i w : let '(r, w') := archiveMessage QueueSize msg a i w in
  ∃ t, let m := MkArchive a i (JIDString (FromJID msg)) (JIDString (ToJID msg)) msg t in
    (same_arch w w' ∧ r ≠ Ok tt) ∨ pushed a m w w'.
Proof.
  unfold archiveMessage, mbind at 1, M_bind at 1. pose proof (ek_Now w) as Ht.
  destruct (me_Now w) as [[t|e|c] w1]; simpl in Ht; cbv beta iota; [|by exists 0%Z; left..].
  unfold mbind at 1, M_bind at 1. set (m := MkArchive a i _ _ msg t).
  match goal with |- context [rep_InTransaction ?b w1] => pose proof (mr_transaction b w1) as Hx;
    destruct (rep_InTransaction b w1) as [[[]|e|c] w2] end; cbv beta iota;
    [|exists t; left; split; [by etrans|done]..].
  destruct Hx as (w3 & Hb & Hs). inv_bind Hb as x w4 Hi. destruct x.
  pose proof (mr_insert m w1) as Hins. rewrite Hi in Hins. simpl in Hins.
  pose proof (mr_oldest a QueueSize w4) as Hold. rewrite Hb in Hold. simpl in Hold.
  assert (pushed a m w w2) as Hp.
  { apply (pushed_same w w1 w3 w2); [done| |done]. intros b. rewrite Hold. case_decide as Hd.
    - subst b. by rewrite Hins, decide_True.
    - by rewrite Hins, decide_False. }
  pose proof (ek_runHook (EvMam ArchiveMessageArchived a (Some m) None) w2) as Hr.
  destruct (me_runHook _ w2) as [r w5]. exists t. right. apply (pushed_same w w w2 w5); [done|done|exact Hr].
Qed.

Lemma archiveMessage_ok msg a i w w' : archiveMessage QueueSize msg a i w = (Ok tt, w') →
  ∃ t, pushed a (MkArchive a i (JIDString (FromJID msg)) (JIDString (ToJID msg)) msg t) w w'.
Proof.
  intros E. pose proof (archiveMessage_run msg a i w) as Hr. rewrite E in Hr.
  destruct Hr as (t & [[_ Hr]|Hp]); [done|by exists t].
Qed.

Lemma archiveSent_ok msg x x' w w' : archiveSent QueueSize msg (x, w) = (Ok tt, (x', w')) →
  ex_ReceivedArchiveID x' = ex_ReceivedArchiveID x ∧
  if me_IsLocalHost (Domain (FromJID msg)) then
    ∃ m, pushed (Node (FromJID msg)) m w w' ∧ ar_Id m = ex_SentArchiveID x' ∧
      AllChildren (ar_Message m) = AllChildren msg ++
        [stanza_id (ex_SentArchiveID x') (JIDString (ToBareJID (FromJID msg)))]
  else same_arch w w'.
Proof.
  unfold archiveSent. destruct (me_IsLocalHost _); [|by intros [= <- <-]]. intros Hs.
  inv_bind Hs as i s1 Hi. destruct s1 as [x1 w1]. apply onW_inv in Hi as [-> Hi].
  pose proof (keeps_run same_arch _ _ _ _ ek_uuid Hi) as Hs1.
  inv_bind Hs as am s2 Hd. destruct (MakeStanzaIDMessage msg i _) as [am'|] eqn:Em; [|done].
  injection Hd as -> <-. inv_bind Hs as u s3 Ha. destruct u, s3 as [x3 w3]. apply onW_inv in Ha as [-> Ha].
  injection Hs as <- <-. apply archiveMessage_ok in Ha as (t & Hp). split; [done|]. simpl.
  eexists. split; [by apply (pushed_same w w1 w3 w3); [| |]|]. split; [done|].
  by apply BuildFrom_children in Em.
Qed.

Lemma archiveReceived_ok msg x x' w w' : archiveReceived QueueSize msg (x, w) = (Ok tt, (x', w')) →
  ex_SentArchiveID x' = ex_SentArchiveID x ∧
  if me_IsLocalHost (Domain (ToJID msg)) then
    ∃ m, pushed (Node (ToJID msg)) m w w' ∧ ar_Message m = msg ∧ ar_Id m = MessageStanzaID msg ∧
      ex_ReceivedArchiveID x' = MessageStanzaID msg
  else same_arch w w'.
Proof.
  unfold archiveReceived. destruct (me_IsLocalHost _); simpl; [|by intros [= <- <-]]. intros Hs.
  inv_bind Hs as u s3 Ha. destruct u, s3 as [x3 w3]. apply onW_inv in Ha as [-> Ha]. injection Hs as <- <-.
  apply archiveMessage_ok in Ha as (t & Hp). split; [done|]. eexists. split; [exact Hp|done].
Qed.

(** Both archives after a routed message. *)
Lemma routed_archived (x x' : ExecCtx) (w w' : W) (msg : Element)
    (Hmsg : stanza_as KMessage (ex_Element x) = Some msg) (Harch : isMessageArchievable msg = true)
    (Hok : onMessageRouted QueueSize (x, w) = (Ok tt, (x', w'))) :
  ∃ w1,
    (if me_IsLocalHost (Domain (FromJID msg)) then
       ∃ m, pushed (Node (FromJID msg)) m w w1 ∧ ar_Id m = ex_SentArchiveID x' ∧
         AllChildren (ar_Message m) = AllChildren msg ++
           [stanza_id (ex_SentArchiveID x') (JIDString (ToBareJID (FromJID msg)))]
     else same_arch w w1) ∧
    (if me_IsLocalHost (Domain (ToJID msg)) then
       ∃ m, pushed (Node (ToJID msg)) m w1 w' ∧ ar_Message m = msg ∧ ar_Id m = MessageStanzaID msg ∧
         ex_ReceivedArchiveID x' = MessageStanzaID msg
     else same_arch w1 w').
Proof.
  unfold onMessageRouted in Hok. inv_bind Hok as e s1 He. injection He as <- <-. unfold handleRoutedMessage in Hok.
  simpl in Hok. rewrite Hmsg, Harch in Hok. simpl in Hok. inv_bind Hok as u s2 Hs. destruct u, s2 as [x1 w1].
  exists w1. apply archiveSent_ok in Hs as [_ Hs]. apply archiveReceived_ok in Hok as [Hid Hr]. by rewrite Hid.
Qed.


End proofs.

(** ** What a query is answered with *)
Section queries.
Context `{XmlMore} {W : Type} `{!ModEnv W} `{!Rep W} `{!RepMessages W}.
Context (parse_time : string → option Z) (stanza_of : Element → option Element).

Context `{!RouteLog W} `{!RouteLaws W}.

(** Reading the archive routes nothing. *)
Class FetchQuiet : Prop := rl_fetch : ∀ f a, keeps same_routed (rep_FetchArchiveMessages f a).
Context `{!FetchQuiet}.

(** A stanza of the answer: it forwards the archived message to the requester. *)
Definition forwards (iq qChild : Element) (msg : ArchiveMessage) (e : Element) : Prop :=
  ∃ st uid1 uid2, stanza_of (ar_Message msg) = Some st ∧
    BuildStanza KMessage
      [(AttrFrom, JIDString (ToJID iq)); (AttrTo, JIDString (FromJID iq)); (AttrID, uid2)]
      [Build "result" [(Namespace, mamNamespace); ("queryid", Attribute qChild "queryid"); (AttrID, uid1)]
         [MakeForwardedStanza me_FormatDelay st (Some (ar_Stamp msg))] ""] = Some e.

Lemma routeArchived_ok iq q msg w w' : routeArchived stanza_of iq q msg w = (Ok tt, w') →
  ∃ e, forwards iq q msg e ∧ routed w' = routed w ++ [e].
Proof.
  unfold routeArchived. intros Hr. inv_bind Hr as st w1 Hst.
  destruct (stanza_of (ar_Message msg)) as [st'|] eqn:Es; [|done]. injection Hst as -> ->.
  inv_bind Hr as u1 w2 H2'. inv_bind Hr as u2 w3 H3'.
  apply (keeps_run same_routed) in H2', H3'; [|apply rl_uuid..]. unfold same_routed in *.
  apply route_ok in Hr as (e & He & Hl). exists e. split; [by exists st, u1, u2|congruence].
Qed.

Lemma routeAll_ok iq q page w w' : for_each page (routeArchived stanza_of iq q) w = (Ok tt, w') →
  ∃ es, Forall2 (forwards iq q) page es ∧ routed w' = routed w ++ es.
Proof. intros Hr. eapply route_each, Hr. intros m w1 w2. apply routeArchived_ok. Qed.

(** A query that succeeds is answered with its page of the archive: the
    requester gets one message for every archived message of the page, in the order
    of the page or, when it asks for it, the other way round, and then the result
    that describes the page; nothing else is sent. *)
Theorem mam_query_answered (iq q : Element) (w w' : W) (f : Filters) (messages : list ArchiveMessage) (w1 : W)
    (stm : Z) (w0 : W) (req : Rsm.Request) (page : list ArchiveMessage) (res : Rsm.Result)
    (Hq : ChildNamespace iq "query" mamNamespace = Some q) (Hset : IsSet iq = true) (Hget : IsGet iq = false)
    (Hown : MatchesBare (FromJID iq) (ToJID iq) = true)
    (Hstm : me_LocalStream (Node (FromJID iq)) (Resource (FromJID iq)) w = (Ok stm, w0))
    (Hf : queryFilters parse_time q = Ok f)
    (Hread : rep_FetchArchiveMessages f (Node (FromJID iq)) w0 = (Ok messages, w1))
    (Hids : idMissing f messages = false) (Hreq : readRequest q = Ok req)
    (Hpage : Rsm.GetResultSetPage messages req ar_Id = Ok (page, res))
    (Hok : ProcessIQ parse_time stanza_of iq w = (Ok tt, w')) :
  let flip := match Child q "flip-page" with Some _ => true | None => false end in
  ∃ es fin, routed w' = routed w ++ es ++ [fin] ∧
    Forall2 (forwards iq q) (if flip then reverse page else page) es ∧
    ∃ e, ResultIQ iq [e] = Some fin ∧ Name e = "fin" ∧
      AllChildren e = [Rsm.ResultElement (if flip then (flipPage page res).2 else res)].
Proof.
  unfold ProcessIQ in Hok. rewrite Hown, Hset, Hget in Hok. unfold has_child in Hok. rewrite Hq in Hok. simpl in Hok.
  unfold sendArchiveMessages in Hok. rewrite (bind_Ok _ _ _ stm w0 Hstm), Hq in Hok.
  apply (keeps_run same_routed) in Hstm; [|apply rl_LocalStream].
  inv_bind Hok as q' w2 Hq'. injection Hq' as <- <-. rewrite Hf in Hok.
  inv_bind Hok as f' w2 Hf'. injection Hf' as <- <-.
  inv_bind Hok as ms w2 Hms. apply or_internal_inv in Hms. rewrite Hread in Hms. injection Hms as <- <-.
  apply (keeps_run same_routed) in Hread; [|apply rl_fetch].
  inv_bind Hok as u w2 Hh. apply (keeps_run same_routed) in Hh; [|apply rl_runHook]. clear u.
  rewrite Hids in Hok. inv_bind Hok as req' w3 Hr. unfold pageRequest in Hr. rewrite Hreq in Hr.
  injection Hr as <- <-. inv_bind Hok as r w3 Hr. unfold try, of_outcome in Hr. rewrite Hpage in Hr.
  injection Hr as <- <-. simpl in Hok.
  assert (∀ pg rs, (let '(pg, rs) := (pg, rs) in
      for_each pg (routeArchived stanza_of iq q);;
      route (MakeResultIQ iq (Some (Build "fin"
        ([(Namespace, mamNamespace)] ++ (if Rsm.Complete rs then [("complete", "true")] else []))
        [Rsm.ResultElement rs] "")));;
      me_SetInfoBool stm archiveRequestedCtxKey true) w2 = (Ok tt, w') →
    ∃ es fin, routed w' = routed w ++ es ++ [fin] ∧ Forall2 (forwards iq q) pg es ∧
      ∃ e, ResultIQ iq [e] = Some fin ∧ Name e = "fin" ∧ AllChildren e = [Rsm.ResultElement rs]) as Hend.
  { intros pg rs Hrun. inv_bind Hrun as u w3 Hall. destruct u. apply routeAll_ok in Hall as (es & Hes & Hl).
    inv_bind Hrun as u w4 Hfin. destruct u. apply route_ok in Hfin as (fin & Hfin & Hl').
    apply (keeps_run same_routed) in Hrun; [|apply rl_SetInfo]. unfold same_routed in *.
    exists es, fin. split; [rewrite Hrun, Hl', Hl, app_assoc; congruence|]. split; [done|].
    eexists. split; [exact Hfin|]. by rewrite Name_Build, AllChildren_Build. }
  cbv zeta. destruct (Child q "flip-page"); by apply Hend in Hok.
Qed.

End queries.

(** ** Identifiers that the client chooses *)
Section forged.
Context `{XmlMore} {W : Type} `{!ModEnv W}.

Lemma first_stanza_id msg i by_ msg' : MakeStanzaIDMessage msg i by_ = Some msg' →
  has_child msg "stanza-id" "urn:xmpp:sid:0" = true → MessageStanzaID msg' = MessageStanzaID msg.
Proof.
  unfold has_child. intros E Hc. apply BuildFrom_children in E. unfold MessageStanzaID.
  rewrite !ChildNamespace_spec, !Children_spec in *. rewrite E, !List.filter_app. clear E.
  destruct (List.filter _ (List.filter _ (AllChildren msg))) as [|c l] eqn:Ef; [done|]. by simpl.
Qed.

(** The identifier the server adds for the recipient is looked up as the first of
    the message: a client that sends its own decides under which identifier the
    message is archived. *)
Theorem client_chooses_archive_id (msg msg' : Element) (w w' : W)
    (Hclient : has_child msg "stanza-id" "urn:xmpp:sid:0" = true)
    (Hadd : addRecipientStanzaID msg w = (Ok (Some msg'), w')) :
  MessageStanzaID msg' = MessageStanzaID msg.
Proof.
  unfold addRecipientStanzaID in Hadd. destruct (negb (me_IsLocalHost _)); [by injection Hadd as <-|].
  inv_bind Hadd as i w1 Hi. injection Hadd as E _. by apply first_stanza_id in E.
Qed.

End forged.

(** ** On the server in memory *)
Module MamDemo.
Import TreeLib TreeMore.

#[export] Instance demo_views : @MamViews tree_jid tree_xml server := fun w a => default [] (ml_archive (sv_mail w) !! a).

#[export] Instance demo_repo : @MamRepo tree_jid tree_xml server server_env map_rep map_messages demo_views.
Proof.
  split.
  - split; intros; intros []; simpl; try done. by case_match; [case_match|].
  - by intros f a [].
  - by intros a [].
  - intros m [? []] b. simpl. apply (lookup_on_list (A := XArchiveMessage)).
  - intros a n [? []] b. simpl. apply (lookup_on_list (A := XArchiveMessage)).
  - intros a [? [off ar lk]] b. simpl. unfold archive, demo_views. simpl.
    case_decide as Hd; [subst b; by rewrite lookup_delete_eq|by rewrite lookup_delete_ne].
  - intros m w. simpl. destruct (m w) as [[[]|e|c] w'] eqn:E; [by exists w'|by destruct w', w..].
Qed.

#[export] Instance demo_quiet : @FetchQuiet tree_jid tree_xml server map_messages server_log.
Proof. by intros f a []. Qed.

Definition chat (n : string) : XElement :=
  TNode "message" [("type", "chat"); ("from", "juliet@jackal.im/b"); ("to", "romeo@jackal.im")]
    [TNode "body" [] [] n None] "" (Some KMessage).
Definition romeo_server : server := MkServer no_mem no_mail [] [] ∅ [("romeo", "garden")] ∅ 0.
Definition ctx (m : XElement) : @ExecCtx tree_jid tree_xml := MkExec (Some m) [] "" "".


(** Three messages are archived and the first two are asked for. *)
Definition three : server :=
  foldl (fun w n => (onMessageRouted 9 (ctx (chat n), w)).2.2) romeo_server ["a"; "b"; "c"].
Definition query : XElement :=
  TNode "query" [("xmlns", mamNamespace); ("queryid", "q")]
    [TNode "set" [("xmlns", Rsm.RSMNamespace)] [TNode "max" [] [] "2" None] "" None] "" None.
Definition query_iq : XElement :=
  TNode "iq" [("type", "set"); ("from", "romeo@jackal.im/garden"); ("to", "romeo@jackal.im")] [query] "" (Some KIQ).
Definition no_filters : Filters := MkFilters None None "" "" "" [].
Definition archived : list XArchiveMessage := default [] (ml_archive (sv_mail three) !! "romeo").
Definition no_time (_ : string) : option Z := None.
Definition answered : outcome unit * server := ProcessIQ no_time Some query_iq three.

Definition asked : Rsm.Request := Rsm.MkRequest "" "" 0 2 false.
Definition found : list XArchiveMessage * Rsm.Result :=
  match Rsm.GetResultSetPage archived asked ar_Id with Ok p => p | _ => ([], Rsm.MkResult 0 "" "" 0 false) end.

Lemma mam_query_answered_witness : (length found.1 = 2)%nat ∧ ∃ es fin,
  sv_routed answered.2 = sv_routed three ++ es ++ [fin] ∧
  Forall2 (@forwards tree_jid tree_xml tree_more server server_env Some query_iq query) found.1 es.
Proof.
  split; [vm_cast_no_check (eq_refl 2%nat)|].
  destruct (@mam_query_answered tree_jid tree_xml tree_more server server_env map_messages no_time Some server_log server_routes demo_quiet
    query_iq query three answered.2 no_filters archived three 0 three asked found.1 found.2) as (es & fin & Hl & Hf & _).
  - vm_cast_no_check (eq_refl (Some query)).
  - vm_cast_no_check (eq_refl true).
  - vm_cast_no_check (eq_refl false).
  - vm_cast_no_check (eq_refl true).
  - vm_cast_no_check (eq_refl (@Ok Z 0%Z, three)).
  - vm_cast_no_check (eq_refl (Ok no_filters)).
  - vm_cast_no_check (eq_refl (Ok archived, three)).
  - vm_cast_no_check (eq_refl false).
  - vm_cast_no_check (eq_refl (Ok asked)).
  - vm_cast_no_check (eq_refl (Ok found)).
  - vm_cast_no_check (eq_refl answered).
  - exists es, fin. by split.
Defined.

(** A client that asks for the last page without saying how large it is makes the
    server panic. *)
Definition last_page_iq : XElement :=
  TNode "iq" [("type", "set"); ("from", "romeo@jackal.im/garden"); ("to", "romeo@jackal.im")]
    [TNode "query" [("xmlns", mamNamespace)]
       [TNode "set" [("xmlns", Rsm.RSMNamespace)] [TNode "before" [] [] "" None] "" None] "" None] "" (Some KIQ).
Theorem last_page_query_panics : (ProcessIQ no_time Some last_page_iq three).1 = Crash DivideByZero.
Proof. vm_compute. reflexivity. Qed.

End MamDemo.
