(* ===== verification/Carbons.v ===== *)
(** * Message carbons (src/pkg/module/xep0280/carbons.go)

    Copies of the messages of an account for its other resources.  The element is
    first handed to [onElementWillRoute], which takes the mark of a private message
    off, then routed, and then handed to [onMessageRouted] with the JIDs it was
    routed to. *)

From stdpp Require Import base list strings gmap.
From Stdlib Require Import ZArith Lia.
From S2P Require Import Prelude GoLib GoHoare Stravaganza C2SModel Roster Storage Repository MemRep ModLib ModDemo.

Definition carbonsEnabledCtxKey : string := "carbons:enabled".
Definition carbonsNamespace : string := "urn:xmpp:carbons:2".
Definition deliveryReceiptsNamespace : string := "urn:xmpp:receipts".
Definition chatStatesNamespace : string := "http://jabber.org/protocol/chatstates".
Definition hintsNamespace : string := "urn:xmpp:hints".

(** [MatchesNamespace] *)
Definition MatchesNamespace (namespace : string) (serverTarget : bool) : bool :=
  if serverTarget then false else String.eqb namespace carbonsNamespace.

Section module.
Context `{XmlMore} {W : Type} `{!ModEnv W}.

(** ** Which messages are copied *)

Definition isEligibleMessage (msg : Element) : bool :=
  if String.eqb (Attribute msg AttrType) ChatType then true
  else if String.eqb (Attribute msg AttrType) NormalType && IsMessageWithBody msg then true
  else existsb (fun ch =>
    let cns := Attribute ch Namespace in
    String.eqb cns deliveryReceiptsNamespace || String.eqb cns chatStatesNamespace) (AllChildren msg).

Definition isPrivateMessage (msg : Element) : bool :=
  has_child msg "private" carbonsNamespace && has_child msg "no-copy" hintsNamespace.

Definition isCCMessage (msg : Element) : bool :=
  has_child msg "sent" carbonsNamespace || has_child msg "received" carbonsNamespace.

(** nil when the builder fails, which it does for addresses that are not those of a
    message *)
Definition stripMessagePrivate (msg : Element) : option Element :=
  if has_child msg "private" carbonsNamespace
  then WithoutChildrenNamespace msg "private" carbonsNamespace
  else Some msg.

(** ** The copies *)

(** [sentMsgCC] and [receivedMsgCC], which differ in the name of the element and
    in the archive id that they look for. *)
Definition msgCC (name archiveID : string) (originalMsg : Element) (dest : JID) : M W (option Element) :=
  msg ← (if String.eqb archiveID "" then mret originalMsg
         else deref (MakeStanzaIDMessage originalMsg archiveID (JIDString (ToBareJID dest))));
  mret (BuildStanza KMessage
    [(AttrFrom, JIDString (ToBareJID dest)); (AttrTo, JIDString dest); (AttrType, StanzaType msg)]
    [Build name [(Namespace, carbonsNamespace)] [MakeForwardedStanza me_FormatDelay msg None] ""]).
Definition sentMsgCC (x : ExecCtx) : Element → JID → M W (option Element) := msgCC "sent" (ex_SentArchiveID x).
Definition receivedMsgCC (x : ExecCtx) : Element → JID → M W (option Element) := msgCC "received" (ex_ReceivedArchiveID x).

Definition carbonsEnabled (res : ResourceDesc) : bool := Info.Bool carbonsEnabledCtxKey (ResInfo res).

Definition getFilteredResources (username : string) (ignoringJIDs : list JID) : M W (list ResourceDesc) :=
  rs ← me_GetResources username;
  mret (List.filter (fun res =>
    negb (existsb (fun j => String.eqb (JIDString j) (JIDString (ResJID res))) ignoringJIDs)) rs).

(** The loop of [routeSentCC] and [routeReceivedCC] *)
Definition routeCC (cc : JID → M W (option Element)) (res : ResourceDesc) : M W unit :=
  if carbonsEnabled res then m ← cc (ResJID res); route m else mret tt.

Definition routeSentCC (x : ExecCtx) (msg : Element) (username : string) : M W unit :=
  rss ← getFilteredResources username [FromJID msg];
  for_each rss (routeCC (sentMsgCC x msg)).

Definition routeReceivedCC (x : ExecCtx) (msg : Element) (username : string) (ignoringTargets : list JID) : M W unit :=
  rss ← getFilteredResources username ignoringTargets;
  for_each rss (routeCC (receivedMsgCC x msg)).

Definition copiesSent (msg : Element) : bool := IsFullWithUser (FromJID msg) && me_IsLocalHost (Domain (FromJID msg)).
Definition copiesReceived (msg : Element) : bool := negb (IsServer (ToJID msg)) && me_IsLocalHost (Domain (ToJID msg)).

Definition processMessage (x : ExecCtx) (msg : Element) (ignoringTargets : list JID) : M W unit :=
  if negb (isEligibleMessage msg) || isPrivateMessage msg || isCCMessage msg then mret tt
  else
    (if copiesSent msg then routeSentCC x msg (Node (FromJID msg)) else mret tt);;
    (if copiesReceived msg then routeReceivedCC x msg (Node (ToJID msg)) ignoringTargets else mret tt).

(** ** Hooks *)

(** [onC2SElementWillRoute] and [onS2SElementWillRoute] *)
Definition onElementWillRoute : M (ExecCtx * W) unit :=
  elem ← fld ex_Element;
  match stanza_as KMessage elem with
  | Some msg => setf (set_element (stripMessagePrivate msg))
  | None => mret tt
  end.

(** [onC2SMessageRouted] and [onS2SMessageRouted] *)
Definition onMessageRouted : M (ExecCtx * W) unit :=
  x ← fld (fun x => x);
  match stanza_as KMessage (ex_Element x) with
  | Some msg => onW (processMessage x msg (ex_Targets x))
  | None => mret tt
  end.

(** ** Requests *)

Definition setCarbonsEnabled (username resource : string) (enabled : bool) : M W unit :=
  stm ← me_LocalStream username resource;
  me_SetInfoBool stm carbonsEnabledCtxKey enabled.

Definition processIQ (iq : Element) : M W unit :=
  let fromJID := FromJID iq in
  if negb (me_IsLocalHost (Domain fromJID)) then refuse iq SENotAllowed
  else if has_child iq "enable" carbonsNamespace then
    setCarbonsEnabled (Node fromJID) (Resource fromJID) true;; route (MakeResultIQ iq None)
  else if has_child iq "disable" carbonsNamespace then
    setCarbonsEnabled (Node fromJID) (Resource fromJID) false;; route (MakeResultIQ iq None)
  else refuse iq SEBadRequest.

Definition ProcessIQ (iq : Element) : M W unit :=
  if IsSet iq then processIQ iq else refuse iq SEBadRequest.

End module.

(** ** Who gets a copy *)
Section proofs.
Context `{XmlMore} {W : Type} `{!ModEnv W} `{!RouteLog W} `{!RouteLaws W}.

(** What the resource manager knows, which routing does not change. *)
Class ResourceView := resources : W → string → list ResourceDesc.
Context `{!ResourceView}.
Definition same_resources (w w' : W) : Prop := ∀ u, resources w' u = resources w u.
#[local] Instance same_resources_preorder : PreOrder same_resources.
Proof. split; [done|]. intros w1 w2 w3 E1 E2 u. by rewrite E2, E1. Qed.
Class ResourceLaws : Prop := {
  rv_get : ∀ u w rs w', me_GetResources u w = (Ok rs, w') → rs = resources w u;
  rv_get_keeps : ∀ u, keeps same_resources (me_GetResources u);
  rv_route : ∀ e, keeps same_resources (me_Route e);
}.
Context `{!ResourceLaws}.
#[local] Hint Resolve rv_get_keeps rv_route : gomonad.

(** A resource that a copy is for: it asked for copies and is not one of those that
    have the message already. *)
Definition wants_copy (have : list JID) (res : ResourceDesc) : bool :=
  negb (existsb (fun j => String.eqb (JIDString j) (JIDString (ResJID res))) have) && carbonsEnabled res.

(** A copy: addressed to the resource from its own account, it forwards the message,
    with the archive id of the account when there is one. *)
Definition copy_of (name archiveID : string) (msg : Element) (res : ResourceDesc) (e : Element) : Prop :=
  ∃ m, (if String.eqb archiveID "" then m = msg
        else MakeStanzaIDMessage msg archiveID (JIDString (ToBareJID (ResJID res))) = Some m) ∧
    BuildStanza KMessage
      [(AttrFrom, JIDString (ToBareJID (ResJID res))); (AttrTo, JIDString (ResJID res)); (AttrType, StanzaType m)]
      [Build name [(Namespace, carbonsNamespace)] [MakeForwardedStanza me_FormatDelay m None] ""] = Some e.

Lemma msgCC_inv name aid msg dest w p w' : msgCC name aid msg dest w = (Ok p, w') →
  w' = w ∧ ∃ m, (if String.eqb aid "" then m = msg
                 else MakeStanzaIDMessage msg aid (JIDString (ToBareJID dest)) = Some m) ∧
    p = BuildStanza KMessage
      [(AttrFrom, JIDString (ToBareJID dest)); (AttrTo, JIDString dest); (AttrType, StanzaType m)]
      [Build name [(Namespace, carbonsNamespace)] [MakeForwardedStanza me_FormatDelay m None] ""].
Proof.
  unfold msgCC. intros Hr. inv_bind Hr as m w1 Hm. injection Hr as <- <-.
  destruct (String.eqb aid ""); [injection Hm as <- <-; by eauto|].
  destruct (MakeStanzaIDMessage _ _ _) as [m'|]; [|done]. injection Hm as <- <-. by eauto.
Qed.

Lemma keeps_routeCC (R : W → W → Prop) `{!PreOrder R} name aid msg res :
  (∀ e, keeps R (me_Route e)) → keeps R (routeCC (msgCC name aid msg) res).
Proof. intros Hr. unfold routeCC, msgCC, route. keeps_auto. Qed.

(** The loop routes one copy for every resource with carbons, and nothing else. *)
Lemma routeCC_all name aid msg rs w w' : for_each rs (routeCC (msgCC name aid msg)) w = (Ok tt, w') →
  ∃ es, Forall2 (copy_of name aid msg) (List.filter carbonsEnabled rs) es ∧ routed w' = routed w ++ es.
Proof.
  revert w. induction rs as [|r rs IH]; intros w Hr.
  - injection Hr as <-. exists []. split; [constructor|by rewrite app_nil_r].
  - cbn [for_each List.filter] in *. inv_bind Hr as u w1 Hm. destruct u. unfold routeCC at 1 in Hm.
    destruct (carbonsEnabled r); [|injection Hm as <-; by apply IH].
    inv_bind Hm as p w2 Hp. apply msgCC_inv in Hp as (-> & m & Hid & ->).
    apply route_ok in Hm as (e & He & Hl). apply IH in Hr as (es & Hes & Hl').
    exists (e :: es). split; [|by rewrite Hl', Hl, <-app_assoc].
    constructor; [by exists m|done].
Qed.

(** One side: the copies of the resources of an account. *)
Lemma routeSide name aid msg u have w w' :
  (rss ← getFilteredResources u have; for_each rss (routeCC (msgCC name aid msg))) w = (Ok tt, w') →
  same_resources w w' ∧
  ∃ es, Forall2 (copy_of name aid msg) (List.filter (wants_copy have) (resources w u)) es ∧ routed w' = routed w ++ es.
Proof.
  intros Hr. inv_bind Hr as rss w1 Hg. unfold getFilteredResources in Hg. inv_bind Hg as rs w2 Hrs.
  injection Hg as <- <-. pose proof (keeps_run same_resources _ _ _ _ (rv_get_keeps u) Hrs) as Hk.
  pose proof (keeps_run same_routed _ _ _ _ (rl_Resources u) Hrs) as Hl. apply rv_get in Hrs as ->. split.
  - transitivity w2; [done|]. eapply keeps_run, Hr. apply keeps_for_each; [typeclasses eauto|].
    intros res _. apply keeps_routeCC; [typeclasses eauto|apply rv_route].
  - apply routeCC_all in Hr as (es & Hes & Hl'). exists es. split; [|unfold same_routed in Hl; congruence].
    rewrite filter_filter in Hes. exact Hes.
Qed.

(** The copies that a message leads to. *)
Definition copies (x : ExecCtx) (msg : Element) (copied : bool) (w w' : W) : Prop :=
  ∃ sent received, routed w' = routed w ++ sent ++ received ∧
    Forall2 (copy_of "sent" (ex_SentArchiveID x) msg)
      (if copied && copiesSent msg
       then List.filter (wants_copy [FromJID msg]) (resources w (Node (FromJID msg))) else []) sent ∧
    Forall2 (copy_of "received" (ex_ReceivedArchiveID x) msg)
      (if copied && copiesReceived msg
       then List.filter (wants_copy (ex_Targets x)) (resources w (Node (ToJID msg))) else []) received.

Lemma processMessage_copies x msg w w' : processMessage x msg (ex_Targets x) w = (Ok tt, w') →
  copies x msg (isEligibleMessage msg && negb (isPrivateMessage msg) && negb (isCCMessage msg)) w w'.
Proof.
  unfold processMessage, copies. intros Hr.
  replace (isEligibleMessage msg && _ && _) with
    (negb (negb (isEligibleMessage msg) || isPrivateMessage msg || isCCMessage msg))
    by (by rewrite !negb_orb, negb_involutive).
  destruct (negb (isEligibleMessage msg) || _ || _); simpl.
  { injection Hr as <-. exists [], []. by rewrite app_nil_r. }
  inv_bind Hr as u w1 Hs. destruct u.
  assert (same_resources w w1 ∧ ∃ sent, routed w1 = routed w ++ sent ∧
    Forall2 (copy_of "sent" (ex_SentArchiveID x) msg)
      (if copiesSent msg then List.filter (wants_copy [FromJID msg]) (resources w (Node (FromJID msg))) else []) sent)
    as (Hk & sent & Hl & Hsent).
  { destruct (copiesSent msg); [|injection Hs as <-; split; [done|]; exists []; by rewrite app_nil_r].
    apply routeSide in Hs as (Hk & es & Hes & Hl). split; [done|]. by exists es. }
  exists sent. destruct (copiesReceived msg).
  - apply routeSide in Hr as (_ & es & Hes & Hl'). rewrite Hk in Hes. exists es.
    by rewrite Hl', Hl, <-app_assoc.
  - injection Hr as <-. exists []. by rewrite app_nil_r.
Qed.

(** The hook leaves its context alone and makes the copies. *)
Lemma routed_copies (x x' : ExecCtx) (w w' : W) (msg : Element) : stanza_as KMessage (ex_Element x) = Some msg →
  onMessageRouted (x, w) = (Ok tt, (x', w')) →
  x' = x ∧ copies x msg (isEligibleMessage msg && negb (isPrivateMessage msg) && negb (isCCMessage msg)) w w'.
Proof.
  intros Hmsg Hok. unfold onMessageRouted in Hok. inv_bind Hok as y s Hy. injection Hy as <- <-.
  simpl in Hok. rewrite Hmsg in Hok.
  unfold onW in Hok. destruct (processMessage _ _ _ w) as [r w1] eqn:Hp. injection Hok as -> -> <-. split; [done|].
  by apply processMessage_copies.
Qed.


(** What is left of a message after [onElementWillRoute] is never private. *)
Lemma strip_not_private msg m : stripMessagePrivate msg = Some m → isPrivateMessage m = false.
Proof.
  unfold stripMessagePrivate, isPrivateMessage.
  destruct (has_child msg "private" carbonsNamespace) eqn:E; intros Hm.
  - rewrite (stripped_child _ _ _ _ "private" carbonsNamespace Hm). by rewrite !String.eqb_refl.
  - injection Hm as <-. by rewrite E.
Qed.

Lemma strip_message e msg m : stanza_as KMessage e = Some msg → stripMessagePrivate msg = Some m →
  stanza_as KMessage (Some m) = Some m.
Proof.
  unfold stripMessagePrivate, stanza_as. destruct e as [e|]; [|done].
  intros Hk Hm. destruct (has_child msg "private" carbonsNamespace).
  - apply WithoutChildren_spec in Hm as (_ & Hk' & _). by rewrite decide_True.
  - injection Hm as <-. case_decide as Hd; [|done]. injection Hk as <-. by rewrite decide_True.
Qed.

(** The mark of a private message is gone before it is looked at: a message that
    passes both hooks is copied whether it was private or not. *)
Theorem private_is_copied (x x' : ExecCtx) (w w' : W) (msg m : Element)
    (Hmsg : stanza_as KMessage (ex_Element x) = Some msg) (Hm : stripMessagePrivate msg = Some m)
    (Hok : (onElementWillRoute;; onMessageRouted) (x, w) = (Ok tt, (x', w'))) :
  copies x m (isEligibleMessage m && negb (isCCMessage m)) w w'.
Proof.
  inv_bind Hok as u s Hw. unfold onElementWillRoute in Hw. inv_bind Hw as e s1 He. injection He as <- <-.
  simpl in Hw. rewrite Hmsg, Hm in Hw. injection Hw as _ <-.
  unfold onMessageRouted in Hok. inv_bind Hok as y s Hy. injection Hy as <- <-.
  cbn [fst ex_Element set_element] in Hok. rewrite (strip_message _ _ _ Hmsg Hm) in Hok.
  unfold onW in Hok. destruct (processMessage _ m _ w) as [r w1] eqn:Hp. injection Hok as -> _ <-.
  apply processMessage_copies in Hp. by rewrite (strip_not_private _ _ Hm), andb_true_r in Hp.
Qed.

End proofs.

(** ** Two resources *)
Module CarbonsDemo.
Import TreeLib TreeMore.

#[export] Instance demo_resources : @ResourceView tree_jid tree_xml server :=
  fun w u => default [] (sv_resources w !! u).
#[export] Instance demo_laws : @ResourceLaws tree_jid tree_xml server server_env demo_resources.
Proof. split; [by intros u w rs w' [= <- <-]|by intros u w|by intros e []]. Qed.

Definition resource (j : string) : @ResourceDesc tree_jid tree_xml :=
  NewResourceDesc "i1" (default (MkJid "" "" "") (tjid_parse j true) : @JID tree_jid) None
    (Info.SetBool carbonsEnabledCtxKey true ∅).
Definition home : server :=
  MkServer no_mem no_mail [] []
    {["romeo" := [resource "romeo@jackal.im/garden"; resource "romeo@jackal.im/street"]]} [] ∅ 0.
Definition private : XElement := TNode "private" [("xmlns", carbonsNamespace)] [] "" None.
Definition no_copy : XElement := TNode "no-copy" [("xmlns", hintsNamespace)] [] "" None.
Definition to_romeo (marks : list XElement) : XElement :=
  TNode "message" [("type", "chat"); ("from", "juliet@verona.it/balcony"); ("to", "romeo@jackal.im/garden")]
    (TNode "body" [] [] "hi" None :: marks) "" (Some KMessage).
Definition ctx (m : XElement) : @ExecCtx tree_jid tree_xml :=
  MkExec (Some m) [MkJid "romeo" "jackal.im" "garden" : @JID tree_jid] "" "".


(** The same with both marks of a private message: it is copied as well once it has
    passed the first hook. *)
Theorem private_message_is_copied :
  isPrivateMessage (to_romeo [private; no_copy]) = true ∧
  (let m := to_romeo [private; no_copy] in
   length (sv_routed ((onElementWillRoute;; onMessageRouted) (ctx m, home)).2.2) = 1%nat).
Proof. split; [vm_cast_no_check (eq_refl true)|vm_cast_no_check (eq_refl 1%nat)]. Qed.

End CarbonsDemo.
