(* ===== verification/Modules.v ===== *)
(** * The module registry (src/pkg/module/module.go)

    The list of the modules in the order of the configuration; an IQ for the server
    or an account is given to the first module that recognises its name space. *)

From stdpp Require Import base list strings sets.
From Stdlib Require Import ZArith Lia.
From S2P Require Import Prelude GoLib Stravaganza C2SModel Roster Storage ModLib.

Definition ModulesStarted : string := "modules.started".
Definition ModulesStopped : string := "modules.stopped".

Section modules.
Context `{XmlMore} `{!JidMore} {W : Type} `{!ModEnv W}.

(** [IQProcessor] and [Module]; a module that is an IQ processor carries it. *)
Record IQProcessor := MkProcessor {
  iq_MatchesNamespace : string → bool → bool;
  iq_ProcessIQ : Element → M W unit;
}.
Record Module_ := MkModule {
  mod_Name : string;
  mod_StreamFeature : string → M W (option Element);
  mod_ServerFeatures : M W (list string);
  mod_AccountFeatures : M W (list string);
  mod_Start : M W unit;
  mod_Stop : M W unit;
  mod_Processor : option IQProcessor;
}.
Record Modules := MkModules { mods : list Module_; iqProcessors : list IQProcessor }.

Definition setupModules (ms : list Module_) : list IQProcessor := omap mod_Processor ms.
Definition NewModules (ms : list Module_) : Modules := MkModules ms (setupModules ms).

(** The loop of [Start] and [Stop]: the names of the modules, up to the first error. *)
Fixpoint runAll (op : Module_ → M W unit) (ms : list Module_) : M W (list string) :=
  match ms with
  | [] => mret []
  | m :: ms' => op m;; names ← runAll op ms'; mret (mod_Name m :: names)
  end.
Definition Start (m : Modules) : M W unit :=
  modNames ← runAll mod_Start (mods m);
  me_runHook (EvModules ModulesStarted modNames).
Definition Stop (m : Modules) : M W unit :=
  modNames ← runAll mod_Stop (mods m);
  me_runHook (EvModules ModulesStopped modNames).

Definition IsModuleIQ (iq : Element) : bool :=
  let replyOnBehalf := IsServer (ToJID iq) || IsBare (ToJID iq) in
  me_IsLocalHost (Domain (ToJID iq)) && replyOnBehalf && (IsGet iq || IsSet iq).

(** The processor of an IQ. *)
Fixpoint findProcessor (ps : list IQProcessor) (ns : string) (server : bool) : option IQProcessor :=
  match ps with
  | [] => None
  | p :: ps' => if negb (iq_MatchesNamespace p ns server) then findProcessor ps' ns server else Some p
  end.

Definition ProcessIQ (m : Modules) (iq : Element) : M W unit :=
  match AllChildren iq with
  | [] => crash_with IndexOutOfRange
  | c :: _ =>
    match findProcessor (iqProcessors m) (Attribute c Namespace) (IsServer (ToJID iq)) with
    | Some p => iq_ProcessIQ p iq
    | None => refuse iq SEServiceUnavailable
    end
  end.

Fixpoint features (domain : string) (ms : list Module_) : M W (list Element) :=
  match ms with
  | [] => mret []
  | m :: ms' =>
    sf ← mod_StreamFeature m domain;
    sfs ← features domain ms';
    mret (option_list sf ++ sfs)
  end.
Definition StreamFeatures (m : Modules) (domain : string) : M W (list Element) := features domain (mods m).

Definition IsEnabled (m : Modules) (moduleName : string) : bool :=
  existsb (fun md => String.eqb (mod_Name md) moduleName) (mods m).
Definition AllModules (m : Modules) : list Module_ := mods m.

(** ** Dispatch *)

(** No name space belongs to two of the processors. *)
Definition disjoint (ps : list IQProcessor) : Prop := ∀ ns server p q, p ∈ ps → q ∈ ps →
  iq_MatchesNamespace p ns server = true → iq_MatchesNamespace q ns server = true → p = q.

Lemma findProcessor_some ps ns server p : findProcessor ps ns server = Some p →
  p ∈ ps ∧ iq_MatchesNamespace p ns server = true.
Proof.
  induction ps as [|q ps IH]; simpl; [done|].
  destruct (iq_MatchesNamespace q ns server) eqn:E; simpl; [intros [= <-]; split; [set_solver|done]|].
  intros Hf. destruct (IH Hf). split; [set_solver|done].
Qed.
Lemma findProcessor_none ps ns server : findProcessor ps ns server = None →
  ∀ p, p ∈ ps → iq_MatchesNamespace p ns server = false.
Proof.
  induction ps as [|q ps IH]; simpl; [set_solver|].
  destruct (iq_MatchesNamespace q ns server) eqn:E; simpl; [done|]. intros Hf p [->|Hp]%elem_of_cons; [done|eauto].
Qed.

Lemma findProcessor_perm ps ps' ns server : disjoint ps → ps ≡ₚ ps' →
  findProcessor ps ns server = findProcessor ps' ns server.
Proof.
  intros Hd Hp. destruct (findProcessor ps ns server) as [p|] eqn:E, (findProcessor ps' ns server) as [q|] eqn:E'; [|..|done].
  - apply findProcessor_some in E as [Hin Hm], E' as [Hin' Hm']. rewrite <-Hp in Hin'. f_equal. by eapply Hd.
  - apply findProcessor_some in E as [Hin Hm]. rewrite Hp in Hin.
    by rewrite (findProcessor_none _ _ _ E' _ Hin) in Hm.
  - apply findProcessor_some in E' as [Hin Hm]. rewrite <-Hp in Hin.
    by rewrite (findProcessor_none _ _ _ E _ Hin) in Hm.
Qed.

(** When no name space belongs to two modules, the order in which they are
    configured does not matter to the IQs. *)
Lemma ProcessIQ_perm ms ms' iq : disjoint (setupModules ms) → ms ≡ₚ ms' →
  ProcessIQ (NewModules ms) iq = ProcessIQ (NewModules ms') iq.
Proof.
  intros Hd Hp. unfold ProcessIQ. destruct (AllChildren iq); [done|]. simpl.
  rewrite (findProcessor_perm _ (setupModules ms')); [done|done|]. unfold setupModules. by rewrite Hp.
Qed.

End modules.
Arguments IQProcessor {_ _} _.
Arguments Module_ {_ _} _.
Arguments Modules {_ _} _.
