(* ===== verification/Disco.v ===== *)
(** * Service discovery (src/pkg/module/xep0030)

    What the server and the accounts tell about themselves.  The two providers are
    made when the modules have started; the one of the accounts answers only those
    who are subscribed to the account. *)

From stdpp Require Import base list strings gmap.
From Stdlib Require Import ZArith Lia.
From S2P Require Import Prelude GoLib GoHoare Stravaganza C2SModel Roster Storage Repository MemRep ModLib ModDemo Modules Forms.

Definition discoInfoNamespace : string := "http://jabber.org/protocol/disco#info".
Definition discoItemsNamespace : string := "http://jabber.org/protocol/disco#items".
Definition errSubscriptionRequired : goerror := ErrText "xep0030: subscription required".
(** [stravaganza.Language] *)
Definition Language : string := "xml:lang".

(** [discomodel.Identity] and [discomodel.Item] (src/pkg/model/disco/disco.go) *)
Record Identity := MkIdentity { id_Category : string; id_Name : string; id_Type : string; id_Lang : string }.
Record DiscoItem := MkDiscoItem { di_Jid : string; di_Name : string; di_Node : string }.
#[global] Instance Identity_eq_dec : EqDecision Identity.
Proof. solve_decision. Defined.

(** [MatchesNamespace] *)
Definition MatchesNamespace (namespace : string) (_ : bool) : bool :=
  String.eqb namespace discoInfoNamespace || String.eqb namespace discoItemsNamespace.

Section module.
Context `{XmlMore} {W : Type} `{!ModEnv W} `{!Rep W} `{!SortSlice}.
(** The registered components with their hosts and names, in the order in which the
    map is ranged over. *)
Context (AllComponents : W → list (string * string)).

(** [InfoProvider] *)
Record InfoProvider := MkProvider {
  ip_Identities : JID → JID → string → list Identity;
  ip_Items : JID → JID → string → M W (list DiscoItem);
  ip_Features : JID → JID → string → M W (list string);
  ip_Forms : JID → JID → string → M W (list DataForm);
}.

(** The features of all modules. *)
Fixpoint allFeatures (op : Module_ W → M W (list string)) (ms : list (Module_ W)) : M W (list string) :=
  match ms with
  | [] => mret []
  | m :: ms' => fs ← op m; r ← allFeatures op ms'; mret (fs ++ r)
  end.

(** ** The server *)
Definition serverIdentities (_ _ : JID) (_ : string) : list Identity := [MkIdentity "server" "jackal" "im" ""].
Definition serverItems (_ _ : JID) (_ : string) : M W (list DiscoItem) :=
  comps ← gets AllComponents;
  mret (sort_slice (asc_by di_Jid) (map (fun c => MkDiscoItem c.1 c.2 "") comps)).
Definition serverFeatures (ms : list (Module_ W)) (_ _ : JID) (_ : string) : M W (list string) :=
  features ← allFeatures mod_ServerFeatures ms;
  mret (sort_slice String.ltb features).
Definition noForms (_ _ : JID) (_ : string) : M W (list DataForm) := mret [].
Definition newServerProvider (ms : list (Module_ W)) : InfoProvider :=
  MkProvider serverIdentities serverItems (serverFeatures ms) noForms.

(** ** Accounts *)
Definition isSubscribedTo (contact userJID : JID) : M W bool :=
  if MatchesBare contact userJID then mret true
  else
    ri ← rep_FetchRosterItem (Node userJID) (JIDString (ToBareJID contact));
    match ri with
    | None => mret false
    | Some ri => mret (String.eqb (Subscription ri) SubTo || String.eqb (Subscription ri) SubBoth)
    end.
Definition checkIfSubscribedTo (toJID fromJID : JID) : M W unit :=
  isSubscribed ← isSubscribedTo toJID fromJID;
  if negb isSubscribed then fail errSubscriptionRequired else mret tt.

Definition accountIdentities (_ _ : JID) (_ : string) : list Identity := [MkIdentity "account" "" "registered" ""].
Definition accountItems (toJID fromJID : JID) (_ : string) : M W (list DiscoItem) :=
  checkIfSubscribedTo toJID fromJID;;
  rss ← me_GetResources (Node toJID);
  mret (sort_slice (asc_by di_Jid) (map (fun res => MkDiscoItem (JIDString (ResJID res)) (Node (ResJID res)) "") rss)).
Definition accountFeatures (ms : list (Module_ W)) (toJID fromJID : JID) (_ : string) : M W (list string) :=
  checkIfSubscribedTo toJID fromJID;;
  features ← allFeatures mod_AccountFeatures ms;
  mret (sort_slice String.ltb features).
Definition newAccountProvider (ms : list (Module_ W)) : InfoProvider :=
  MkProvider accountIdentities accountItems (accountFeatures ms) noForms.

(** ** The module *)
Record Disco := MkDisco { srvProv : option InfoProvider; accProv : option InfoProvider }.
Abbreviation MS := (M (Disco * W)).

Definition onModulesStarted (ms : Modules W) : MS unit :=
  setf (fun _ => MkDisco (Some (newServerProvider (AllModules ms))) (Some (newAccountProvider (AllModules ms))));;
  onW (me_runHook EvDiscoProvidersStarted).

Definition identityElement (i : Identity) : Element :=
  Build "identity" ([("category", id_Category i)] ++ attr "type" (id_Type i) ++ attr "name" (id_Name i) ++
    attr Language (id_Lang i)) [] "".
Definition featureElement (f : string) : Element := Build "feature" [("var", f)] [] "".
Definition infoElement (identities : list Identity) (features : list string) (forms : list DataForm) : Element :=
  Build "query" [(Namespace, discoInfoNamespace)]
    (map identityElement identities ++ map featureElement features ++ map FormElement forms) "".
Definition itemElement (i : DiscoItem) : Element :=
  Build "item" ([("jid", di_Jid i)] ++ attr "name" (di_Name i) ++ attr "node" (di_Node i)) [] "".
Definition itemsElement (items : list DiscoItem) : Element :=
  Build "query" [(Namespace, discoItemsNamespace)] (map itemElement items) "".

(** What the two answers do with the error of the provider. *)
Definition answerErr (iq : Element) (err : goerror) : M W unit :=
  if decide (err = errSubscriptionRequired) then refuse iq SESubscriptionRequired
  else refuse iq SEInternalServerError;; fail err.

Definition sendDiscoInfo (prov : InfoProvider) (toJID fromJID : JID) (node : string) (iq : Element) : M W unit :=
  r ← try (ip_Features prov toJID fromJID node);
  match r with
  | inl err => answerErr iq err
  | inr features =>
    forms ← ip_Forms prov toJID fromJID node;
    route (MakeResultIQ iq (Some (infoElement (ip_Identities prov toJID fromJID node) features forms)))
  end.

Definition sendDiscoItems (prov : InfoProvider) (toJID fromJID : JID) (node : string) (iq : Element) : M W unit :=
  r ← try (ip_Items prov toJID fromJID node);
  match r with
  | inl err => answerErr iq err
  | inr items => route (MakeResultIQ iq (Some (itemsElement items)))
  end.

Definition getDiscoInfo (iq : Element) : MS unit :=
  match Child iq "query" with
  | None => onW (refuse iq SEBadRequest)
  | Some q =>
    prov ← fld (if IsServer (ToJID iq) then srvProv else accProv);
    match prov with
    | None => mret tt
    | Some prov =>
      let node := Attribute q "node" in
      let ns := Attribute q Namespace in
      onW (if String.eqb ns discoInfoNamespace then sendDiscoInfo prov (ToJID iq) (FromJID iq) node iq
           else if String.eqb ns discoItemsNamespace then sendDiscoItems prov (ToJID iq) (FromJID iq) node iq
           else refuse iq SEBadRequest)
    end
  end.

Definition ProcessIQ (iq : Element) : MS unit :=
  if IsGet iq then getDiscoInfo iq
  else if IsSet iq then onW (refuse iq SEForbidden)
  else mret tt.

End module.
Arguments InfoProvider {_} _.
Arguments Disco {_} _.

(** ** Who is told about an account *)
Section proofs.
Context `{XmlMore} {W : Type} `{!ModEnv W} `{!Rep W} `{!SortSlice} (AllComponents : W → list (string * string)).
Context `{!RouteLog W} `{!RouteLaws W}.

(** Reading the roster and asking the modules for their features routes nothing. *)
Class DiscoQuiet (ms : list (Module_ W)) : Prop := {
  dq_roster : ∀ u j, keeps same_routed (rep_FetchRosterItem u j);
  dq_features : ∀ m, m ∈ ms → keeps same_routed (mod_AccountFeatures m);
}.
Context (ms : list (Module_ W)) `{!DiscoQuiet ms}.
#[local] Hint Resolve dq_roster rl_Resources : gomonad.

Lemma keeps_isSubscribedTo c u : keeps same_routed (isSubscribedTo c u).
Proof. unfold isSubscribedTo. keeps_auto. Qed.
Lemma keeps_allFeatures : keeps same_routed (allFeatures mod_AccountFeatures ms).
Proof.
  assert (∀ l, (∀ m, m ∈ l → m ∈ ms) → keeps same_routed (allFeatures mod_AccountFeatures l)) as Hall.
  { induction l as [|m l IH]; intros Hl; simpl; keeps_auto; [apply dq_features; set_solver|apply IH; set_solver]. }
  by apply Hall.
Qed.

(** A check that the requester passes or not. *)
Lemma checked_run {A} (k : M W A) t f w b w1 : isSubscribedTo t f w = (Ok b, w1) →
  (checkIfSubscribedTo t f;; k) w = if b : bool then k w1 else (Err errSubscriptionRequired, w1).
Proof.
  intros E. unfold checkIfSubscribedTo, mbind, M_bind. rewrite E. by destruct b.
Qed.

Lemma answerErr_sub iq w w' : answerErr iq errSubscriptionRequired w = (Ok tt, w') →
  routed w' = routed w ++ [StanzaError SESubscriptionRequired iq].
Proof. unfold answerErr. rewrite decide_True by done. by intros (e & [= <-] & ->)%route_ok. Qed.

(** The answer to a request for which the provider was asked: a provider that
    checks the subscription first and then keeps the log. *)
Lemma guarded_answer {A} (k : M W A) (mk : A → M W unit) t f iq w w' b w1 :
  isSubscribedTo t f w = (Ok b, w1) → keeps same_routed k →
  (r ← try (checkIfSubscribedTo t f;; k); match r with inl err => answerErr iq err | inr a => mk a end) w = (Ok tt, w') →
  (b = false ∧ routed w' = routed w ++ [StanzaError SESubscriptionRequired iq]) ∨
  (b = true ∧ ∃ a w2, k w1 = (Ok a, w2) ∧ same_routed w w2 ∧ mk a w2 = (Ok tt, w')) ∨
  (b = true ∧ ∃ w2, k w1 = (Err errSubscriptionRequired, w2)).
Proof.
  intros Hs Hk Hr. inv_bind Hr as r w2 Ht. unfold try in Ht. rewrite (checked_run k _ _ _ _ _ Hs) in Ht.
  apply (keeps_run same_routed) in Hs; [|apply keeps_isSubscribedTo]. destruct b.
  - destruct (k w1) as [[a|e|c] w3] eqn:Ek; try done; injection Ht as <- <-.
    + right. left. split; [done|]. exists a, w3. split; [done|]. split; [|done].
      transitivity w1; [done|]. by eapply keeps_run.
    + unfold answerErr in Hr. case_decide as He; [subst e; right; right; by eauto|].
      inv_bind Hr as u w4 Hu. done.
  - left. injection Ht as <- <-. split; [done|]. apply answerErr_sub in Hr. unfold same_routed in Hs. congruence.
Qed.

(** An account tells about itself only to those who are subscribed to it.  A
    request for the items or the information of an account by a requester that is
    neither the account nor subscribed to it, as far as the roster says, is answered
    with one subscription-required error and nothing else; for the others, the items
    are the resources of the account in the order of their JIDs. *)
Theorem disco_account_guarded (d d' : Disco W) (iq q : Element) (w w' w1 : W) (b : bool)
    (Hget : IsGet iq = true) (Hq : Child iq "query" = Some q) (Hto : IsServer (ToJID iq) = false)
    (Hns : MatchesNamespace (Attribute q Namespace) false = true)
    (Hprov : accProv d = Some (newAccountProvider ms))
    (Hsub : isSubscribedTo (ToJID iq) (FromJID iq) w = (Ok b, w1))
    (Hok : ProcessIQ iq (d, w) = (Ok tt, (d', w'))) :
  (b = false → routed w' = routed w ++ [StanzaError SESubscriptionRequired iq]) ∧
  (b = true → Attribute q Namespace = discoItemsNamespace →
   ∀ rs w2, me_GetResources (Node (ToJID iq)) w1 = (Ok rs, w2) →
   ∃ e, routed w' = routed w ++ [e] ∧
     ResultIQ iq [itemsElement (sort_slice (asc_by di_Jid)
       (map (fun res => MkDiscoItem (JIDString (ResJID res)) (Node (ResJID res)) "") rs))] = Some e).
Proof.
  unfold ProcessIQ, getDiscoInfo in Hok. rewrite Hget, Hq, Hto in Hok.
  inv_bind Hok as p s1 Hp. injection Hp as <- <-. simpl in Hok. rewrite Hprov in Hok.
  unfold MatchesNamespace in Hns. unfold onW in Hok.
  destruct (String.eqb_spec (Attribute q Namespace) discoInfoNamespace) as [Ei|Ei].
  - destruct (sendDiscoInfo _ _ _ _ _ w) as [r w2] eqn:Hr. injection Hok as -> _ <-.
    eapply guarded_answer in Hr; [|done|keeps_auto; apply keeps_allFeatures].
    split; [|by rewrite Ei]. intros ->. by destruct Hr as [[_ Hr]|[[? _]|[? _]]].
  - apply String.eqb_eq in Hns. rewrite Hns, String.eqb_refl in Hok.
    destruct (sendDiscoItems _ _ _ _ _ w) as [r w2] eqn:Hr. injection Hok as -> _ <-.
    eapply guarded_answer in Hr; [|done|keeps_auto].
    destruct Hr as [[-> Hr]|[(-> & a & w3 & Ha & Hs & Hr)|(-> & w3 & Ha)]]; (split; [done|]); [done| |].
    + intros _ _ rs w4 Hres. unfold mbind, M_bind in Ha. rewrite Hres in Ha. injection Ha as <- <-.
      apply route_ok in Hr as (e & He & Hl). exists e. unfold same_routed in Hs. split; [congruence|done].
    + intros _ _ rs w4 Hres. unfold mbind, M_bind in Ha. by rewrite Hres in Ha.
Qed.

End proofs.

(** ** Two accounts *)
Module DiscoDemo.
Import TreeLib TreeMore.

Definition garden : @ResourceDesc tree_jid tree_xml :=
  NewResourceDesc "i1" (MkJid "juliet" "jackal.im" "balcony" : @JID tree_jid) None ∅.
(** The local account romeo is subscribed to juliet. *)
Definition home : server :=
  MkServer (set_items (fun _ => {["romeo" :=
      [MkItem "romeo" "juliet@jackal.im" "" SubTo [] false]]}) no_mem) no_mail [] []
    {["juliet" := [garden]]} [] ∅ 0.
Definition started : Disco server := MkDisco None (Some (newAccountProvider [])).
Definition items_iq (from : string) : XElement :=
  TNode "iq" [("type", "get"); ("from", from); ("to", "juliet@jackal.im")]
    [TNode "query" [("xmlns", discoItemsNamespace)] [] "" None] "" (Some KIQ).
Definition answer (from : string) : outcome unit * (Disco server * server) := ProcessIQ (items_iq from) (started, home).

#[export] Instance demo_quiet : @DiscoQuiet tree_jid tree_xml server map_rep server_log [].
Proof. split; [by intros u j []|set_solver]. Qed.

(** Somebody who is not subscribed. *)
Lemma disco_account_guarded_witness :
  sv_routed (answer "paris@jackal.im/hall").2.2 =
    sv_routed home ++ [StanzaError SESubscriptionRequired (items_iq "paris@jackal.im/hall")].
Proof.
  destruct (@disco_account_guarded tree_jid tree_xml server server_env map_rep go_insertion_sort server_log server_routes
    [] demo_quiet started (answer "paris@jackal.im/hall").2.1 (items_iq "paris@jackal.im/hall")
    (TNode "query" [("xmlns", discoItemsNamespace)] [] "" None) home (answer "paris@jackal.im/hall").2.2 home false)
    as [Hno _]; [vm_cast_no_check (eq_refl true)| |vm_cast_no_check (eq_refl false)|vm_cast_no_check (eq_refl true)
      |done|vm_cast_no_check (eq_refl (@Ok bool false, home))|vm_cast_no_check (eq_refl (answer "paris@jackal.im/hall"))|].
  - vm_cast_no_check (eq_refl (Some (TNode "query" [("xmlns", discoItemsNamespace)] [] "" None : XElement))).
  - by apply Hno.
Defined.

(** A user of another server with the name of a local one is taken for the local
    one: its request is answered with the resources of the account. *)
Theorem namesake_is_told :
  isSubscribedTo (MkJid "juliet" "jackal.im" "" : @JID tree_jid) (MkJid "romeo" "evil.org" "x" : @JID tree_jid) home =
    (Ok true, home) ∧
  map (fun e => t_attr e "type") (sv_routed (answer "romeo@evil.org/x").2.2) = ["result"].
Proof. split; [vm_cast_no_check (eq_refl (@Ok bool true, home))|vm_cast_no_check (eq_refl ["result"])]. Qed.

End DiscoDemo.
