(* ===== verification/Caps.v ===== *)
(** * Entity capabilities (src/pkg/module/xep0115/caps.go)

    A client announces a hash of what it can do; the server asks for the
    description behind a hash it does not know, verifies the answer against the hash
    and stores it for all clients that announce the same.  A pending question is kept
    under the id of its IQ, with a timer that gives it up after a minute. *)

From stdpp Require Import base list sorting strings gmap.
From Stdlib Require Import ZArith Lia.
From S2P Require Import Prelude GoLib Base64 Crypto GoHoare Stravaganza C2SModel Roster Storage Repository MemRep ModLib ModDemo Modules Forms Disco.

Definition capabilitiesFeature : string := "http://jabber.org/protocol/caps".
Definition formsNamespace : string := "jabber:x:data".

Definition errIdentityRepeated : goerror := ErrText "xep0115: more than one service discovery identity with the same category/type/lang/name".
Definition errFeatureRepeated : goerror := ErrText "xep0115: more than one service discovery feature with the same XML character data".
Definition errFormTypeNotHidden : goerror := ErrText "xep0115: FORM_TYPE field is not of type hidden".
Definition errFormTypeFieldNotFound : goerror := ErrText "xep0115: FORM_TYPE field not found".
Definition errFormTypeFieldBadValue : goerror := ErrText "xep0115: FORM_TYPE field contains more than one <value/> element".
Definition errFormTypeRepeated : goerror := ErrText "xep0115: more than one extended service discovery information form with the same FORM_TYPE".
Definition errMismatch : goerror := ErrText "xep0115: verification string mismatch".

Definition hashFn (name : string) : option Hash :=
  (list_to_map [("sha-1", sha1); ("sha-224", sha224); ("sha-256", sha256); ("sha-384", sha384); ("sha-512", sha512)]
   : gmap string Hash) !! name.

Record capsInfo := MkCapsInfo { ci_hash : string; ci_node : string; ci_ver : string }.

(** ** Validation *)

(** The map that counts how often a string occurs. *)
Definition counts (l : list string) : gmap string nat :=
  foldl (fun m s => <[s := S (default O (m !! s))]> m) ∅ l.
Definition repeated (m : gmap string nat) : bool := bool_decide (¬ map_Forall (fun _ cnt => cnt ≤ 1)%nat m).

Definition identityString (i : Identity) : string :=
  id_Category i +:+ "/" +:+ id_Type i +:+ "/" +:+ id_Lang i +:+ "/" +:+ id_Name i.

Definition validateIdentities (identities : list Identity) : outcome unit :=
  if repeated (counts (map identityString identities)) then Err errIdentityRepeated else Ok tt.
Definition validateFeatures (fs : list string) : outcome unit :=
  if repeated (counts fs) then Err errFeatureRepeated else Ok tt.

(** The values of the FORM_TYPE fields, up to the first bad one. *)
Fixpoint formTypes (fields : list Field) : outcome (list string) :=
  match fields with
  | [] => Ok []
  | f :: fields' =>
    if String.eqb (Var f) FormType then
      if negb (String.eqb (FieldType f) Hidden) then Err errFormTypeNotHidden
      else
        match Values f with
        | [v] => match formTypes fields' with Ok vs => Ok (v :: vs) | r => r end
        | _ => Err errFormTypeFieldBadValue
        end
    else formTypes fields'
  end.
Definition validateForms (forms : list DataForm) : outcome unit :=
  match formTypes (forms ≫= Fields) with
  | Ok vs =>
    let fts := counts vs in
    if negb (Nat.eqb (size fts) (length forms)) then Err errFormTypeFieldNotFound
    else if repeated fts then Err errFormTypeRepeated
    else Ok tt
  | Err e => Err e
  | Crash c => Crash c
  end.

(** ** The verification string *)
Section ver.
Context `{!SortSlice}.

Definition isFormType (f : Field) : bool := String.eqb (Var f) FormType.

(** [Values[0]] of a field without values panics. *)
Definition getFormTypeValue (form : DataForm) : outcome string :=
  match head (List.filter isFormType (Fields form)) with
  | Some f => match Values f with v :: _ => Ok v | [] => Crash IndexOutOfRange end
  | None => Ok ""
  end.
Definition formKey (form : DataForm) : string := match getFormTypeValue form with Ok v => v | _ => "" end.
Definition badForm (form : DataForm) : bool := match getFormTypeValue form with Ok _ => false | _ => true end.

Definition filterFormTypeField (fields : list Field) : list Field := List.filter (fun f => negb (isFormType f)) fields.

Definition identityLess (i j : Identity) : bool :=
  if negb (String.eqb (id_Category i) (id_Category j)) then String.ltb (id_Category i) (id_Category j)
  else if negb (String.eqb (id_Type i) (id_Type j)) then String.ltb (id_Type i) (id_Type j)
  else String.ltb (id_Lang i) (id_Lang j).

Definition concat (l : list string) : string := foldr (fun s r => s +:+ r) "" l.
Definition closed (s : string) : string := s +:+ "<".

Definition fieldString (f : Field) : string :=
  closed (Var f) +:+ concat (map closed (sort_slice String.ltb (Values f))).
Definition formString (form : DataForm) : string :=
  closed (formKey form) +:+
  concat (map fieldString (sort_slice (asc_by Var) (filterFormTypeField (Fields form)))).

Definition verString (identities : list Identity) (fs : list string) (forms : list DataForm) : string :=
  concat (map (fun i => closed (identityString i)) (sort_slice identityLess identities)) +:+
  concat (map closed (sort_slice String.ltb fs)) +:+
  concat (map formString (sort_slice (asc_by formKey) forms)).

(** The slices are sorted in place, so that the caller sees the features in order
    afterwards: they are returned.  Every form is asked for its FORM_TYPE, in the
    comparisons or at last in the loop, so that one without a value panics. *)
Definition computeVer (identities : list Identity) (fs : list string) (forms : list DataForm) (h : Hash)
    : outcome (string * list string) :=
  if existsb badForm forms then Crash IndexOutOfRange
  else Ok (EncodeToString (hash_sum h (bytes_of_string (verString identities fs forms))), sort_slice String.ltb fs).

End ver.

(** ** The module *)
Section module.
Context `{XmlMore} {W : Type} `{!ModEnv W} `{!Rep W} `{!SortSlice}.

(** [Capabilities]; [timers] are the timers of [time.AfterFunc] that are running, by
    the request they clear, and [clrTms] the requests whose timer is known. *)
Record CapsModule := MkCapsModule {
  reqs : gmap string capsInfo;
  clrTms : gset string;
  timers : list string;
  capsProv : option (InfoProvider W);
}.
Definition New : CapsModule := MkCapsModule ∅ ∅ [] None.
Definition set_reqs (f : gmap string capsInfo → gmap string capsInfo) (m : CapsModule) : CapsModule :=
  MkCapsModule (f (reqs m)) (clrTms m) (timers m) (capsProv m).
Definition set_clrTms (f : gset string → gset string) (m : CapsModule) : CapsModule :=
  MkCapsModule (reqs m) (f (clrTms m)) (timers m) (capsProv m).
Definition set_timers (f : list string → list string) (m : CapsModule) : CapsModule :=
  MkCapsModule (reqs m) (clrTms m) (f (timers m)) (capsProv m).
Definition set_prov (p : option (InfoProvider W)) (m : CapsModule) : CapsModule :=
  MkCapsModule (reqs m) (clrTms m) (timers m) p.
Abbreviation MS := (M (CapsModule * W)).

(** A timer that is stopped or has fired. *)
Fixpoint drop_timer (t : string) (l : list string) : list string :=
  match l with
  | [] => []
  | t' :: l' => if String.eqb t t' then l' else t' :: drop_timer t l'
  end.

Definition onDiscoProvidersStarted (disc : Disco W) : MS unit := setf (set_prov (srvProv disc)).

(** [nilJID] stands for the nil pointer that [jid.NewWithString] gives for a bad
    domain; the provider of the server does not look at it. *)
Definition StreamFeature (nilJID : JID) (domain : string) : MS (option Element) :=
  prov ← fld capsProv;
  match prov with
  | None => mret None
  | Some prov =>
    let jd := default nilJID (NewWithString domain true) in
    r ← onW (try (ip_Features prov jd jd ""));
    let fs := match r with inr fs => fs | inl _ => [] end in
    r ← onW (try (ip_Forms prov jd jd ""));
    let forms := match r with inr fms => fms | inl _ => [] end in
    '(ver, _) ← pureO (computeVer (ip_Identities prov jd jd "") fs forms sha256);
    mret (Some (Build "c" [(Namespace, capabilitiesFeature); ("hash", "sha-256"); ("node", "http://" +:+ domain); ("ver", ver)] [] ""))
  end.

Definition requestDiscoInfo (fromJID toJID : JID) (ci : capsInfo) : MS unit :=
  reqID ← onW me_uuid;
  setf (set_reqs <[reqID := ci]>);;
  setf (set_clrTms ({[reqID]} ∪.));;
  setf (set_timers (cons reqID));;
  onW (route (BuildStanza KIQ
    [(AttrID, reqID); (AttrFrom, JIDString toJID); (AttrTo, JIDString fromJID); (AttrType, GetType)]
    [Build "query" [(Namespace, discoInfoNamespace); ("node", ci_node ci +:+ "#" +:+ ci_ver ci)] [] ""])).

Definition processPresence (pr : Element) : MS unit :=
  if IsFull (ToJID pr) then mret tt
  else
    match ChildNamespace pr "c" capabilitiesFeature with
    | None => mret tt
    | Some caps =>
      let h := Attribute caps "hash" in
      match hashFn h with
      | None => mret tt
      | Some _ =>
        let ci := MkCapsInfo h (Attribute caps "node") (Attribute caps "ver") in
        exist ← onW (rep_CapabilitiesExist (ci_node ci) (ci_ver ci));
        if exist : bool then mret tt else requestDiscoInfo (FromJID pr) (ToJID pr) ci
      end
    end.

(** What an answer says. *)
Definition readIdentities (dq : Element) : list Identity :=
  map (fun e => MkIdentity (Attribute e "category") (Attribute e "name") (Attribute e "type") (Attribute e Language))
    (Children dq "identity").
Definition readFeatures (dq : Element) : list string := map (fun e => Attribute e "var") (Children dq "feature").
Fixpoint readForms (els : list Element) : outcome (list DataForm) :=
  match els with
  | [] => Ok []
  | e :: els' =>
    match NewFormFromElement e with
    | Ok form => match readForms els' with Ok r => Ok (form :: r) | r => r end
    | Err e => Err e
    | Crash c => Crash c
    end
  end.

Definition pureR {A} (r : outcome A) : M W A := fun w => (r, w).

Definition processDiscoInfo (iq : Element) (ci : capsInfo) : M W unit :=
  match ChildNamespace iq "query" discoInfoNamespace with
  | None => mret tt
  | Some dq =>
    if negb (IsResult iq) then mret tt
    else
      let identities := readIdentities dq in
      let fs := readFeatures dq in
      forms ← pureR (readForms (ChildrenNamespace dq "x" formsNamespace));
      pureR (validateIdentities identities);;
      pureR (validateFeatures fs);;
      pureR (validateForms forms);;
      h ← deref (hashFn (ci_hash ci));
      '(ver, fs) ← pureR (computeVer identities fs forms h);
      if negb (String.eqb ver (ci_ver ci)) then fail errMismatch
      else rep_UpsertCapabilities (MkCaps (ci_node ci) (ci_ver ci) fs)
  end.

Definition processIQ (iq : Element) : MS unit :=
  let reqID := Attribute iq AttrID in
  m ← fld (fun m => m);
  (if decide (reqID ∈ clrTms m) then setf (set_timers (drop_timer reqID)) else mret tt);;
  match reqs m !! reqID with
  | None => mret tt
  | Some nv =>
    setf (set_reqs (delete reqID));;
    setf (set_clrTms (.∖ {[reqID]}));;
    ignore (onW (processDiscoInfo iq nv))
  end.

(** The function of the timer. *)
Definition clearPendingReq (reqID : string) : MS unit :=
  setf (set_reqs (delete reqID));;
  setf (set_clrTms (.∖ {[reqID]})).

(** [onC2SPresenceRecv], [onS2SPresenceRecv], [onC2SIQRecv] and [onS2SIQRecv] *)
Definition onPresenceRecv (elem : option Element) : MS unit :=
  match stanza_as KPresence elem with Some pr => processPresence pr | None => crash_with BadTypeAssertion end.
Definition onIQRecv (elem : option Element) : MS unit :=
  match stanza_as KIQ elem with Some iq => processIQ iq | None => crash_with BadTypeAssertion end.

(** What can happen to the module: a stanza arrives, or a timer that runs fires. *)
Inductive caps_event :=
  | EvPresence (pr : Element)
  | EvIQ (iq : Element)
  | EvTimer (reqID : string).
Definition handle (ev : caps_event) : MS unit :=
  match ev with
  | EvPresence pr => processPresence pr
  | EvIQ iq => processIQ iq
  | EvTimer reqID =>
    ts ← fld timers;
    if decide (reqID ∈ ts) then setf (set_timers (drop_timer reqID));; clearPendingReq reqID else mret tt
  end.

End module.
Arguments CapsModule {_} _.

(** ** Sorting *)

(** Two ways to sort two orders of the same elements agree when no two different
    elements are equivalent. *)
Lemma sort_slice_perm_eq `{!SortSlice} {A} (less : A → A → bool) `{!WeakOrder less} (l l' : list A) :
  (∀ x y, x ∈ l → y ∈ l → less x y = false → less y x = false → x = y) → l ≡ₚ l' →
  sort_slice less l = sort_slice less l'.
Proof.
  intros Hanti Hp. apply (StronglySorted_unique_strong (fun x y => less y x = false)).
  - intros x y Hx Hy Hxy Hyx. rewrite sort_slice_perm in Hx, Hy. rewrite <-Hp in Hy. by apply Hanti.
  - by apply sort_slice_sorted.
  - by apply sort_slice_sorted.
  - by rewrite !sort_slice_perm.
Qed.

Lemma sort_strings_perm `{!SortSlice} (l l' : list string) : l ≡ₚ l' →
  sort_slice String.ltb l = sort_slice String.ltb l'.
Proof. apply sort_slice_perm_eq; [apply _|]. intros x y _ _. apply string_lt_total. Qed.

Lemma sort_keys_perm `{!SortSlice} {A} (key : A → string) (l l' : list A) : NoDup (map key l) → l ≡ₚ l' →
  sort_slice (asc_by key) l = sort_slice (asc_by key) l'.
Proof.
  intros Hnd Hp. apply sort_slice_perm_eq; [apply _| |done].
  intros x y Hx Hy E1 E2. eapply NoDup_fmap_inj; [done..|]. by apply string_lt_total.
Qed.

Definition identityKey (i : Identity) : string * string * string := (id_Category i, id_Type i, id_Lang i).
Lemma identityLess_cases i j : identityLess i j = true ↔
  String.ltb (id_Category i) (id_Category j) = true ∨ id_Category i = id_Category j ∧
  (String.ltb (id_Type i) (id_Type j) = true ∨ id_Type i = id_Type j ∧ String.ltb (id_Lang i) (id_Lang j) = true).
Proof.
  unfold identityLess.
  destruct (String.eqb_spec (id_Category i) (id_Category j)) as [E|E]; simpl.
  - rewrite E, string_lt_irrefl. destruct (String.eqb_spec (id_Type i) (id_Type j)) as [E'|E']; simpl;
      [rewrite E', string_lt_irrefl|]; naive_solver.
  - naive_solver.
Qed.
Lemma identityLess_total i j : identityLess i j = false → identityLess j i = false → identityKey i = identityKey j.
Proof.
  unfold identityKey, identityLess. intros Hi Hj.
  assert (id_Category i = id_Category j) as Ec.
  { destruct (String.eqb_spec (id_Category i) (id_Category j)) as [E|E]; [done|].
    destruct (String.eqb_spec (id_Category j) (id_Category i)); [done|]. by apply string_lt_total. }
  rewrite Ec, !String.eqb_refl in *. simpl in *.
  assert (id_Type i = id_Type j) as Et.
  { destruct (String.eqb_spec (id_Type i) (id_Type j)) as [E|E]; [done|].
    destruct (String.eqb_spec (id_Type j) (id_Type i)); [done|]. by apply string_lt_total. }
  rewrite Et, !String.eqb_refl in *. simpl in *. f_equal. by apply string_lt_total.
Qed.
Lemma identityLess_cotrans i j k : identityLess i k = true → identityLess i j = true ∨ identityLess j k = true.
Proof.
  rewrite !identityLess_cases. intros Hik.
  destruct (string_compare_spec (id_Category i) (id_Category j)) as [Ec|Ec|Ec]; [|by auto|].
  - destruct Hik as [Hik|[Ec' Hik]]; [right; left; by rewrite <-Ec|].
    destruct (string_compare_spec (id_Type i) (id_Type j)) as [Et|Et|Et]; [|by auto|].
    + destruct Hik as [Hik|[Et' Hik]]; [right; right; split; [congruence|]; left; by rewrite <-Et|].
      destruct (string_compare_spec (id_Lang i) (id_Lang j)) as [El|El|El]; [|by auto 6|];
        right; right; (split; [congruence|]); right; (split; [congruence|]); [by rewrite <-El|by eapply string_lt_trans].
    + right. right. split; [congruence|]. left. destruct Hik as [Hik|[Et' _]]; [by eapply string_lt_trans|by rewrite <-Et'].
  - right. left. destruct Hik as [Hik|[Ec' _]]; [by eapply string_lt_trans|by rewrite <-Ec'].
Qed.
#[global] Instance identityLess_weak : WeakOrder identityLess.
Proof.
  assert (∀ i, identityLess i i = false) as Hir.
  { intros i. unfold identityLess. rewrite !String.eqb_refl. apply string_lt_irrefl. }
  split; [done|..].
  - intros i j Hij. apply not_true_is_false. intros Hji. apply identityLess_cases in Hij, Hji.
    assert (∀ a b, String.ltb a b = true → String.ltb b a = true → False) as Hlt.
    { intros a b H1' H2'. pose proof (string_lt_trans _ _ _ H1' H2') as Hc. by rewrite string_lt_irrefl in Hc. }
    assert (∀ a b, String.ltb a b = true → a = b → False) as Hne.
    { intros a b Hab ->. by rewrite string_lt_irrefl in Hab. }
    naive_solver.
  - intros i j k Hij Hjk. apply not_true_is_false. intros Hik.
    destruct (identityLess_cotrans i j k Hik); congruence.
Qed.

(** ** The verification string does not depend on the order of the description *)

(** A description in which the order of the verification string is determined. *)
Definition definite (identities : list Identity) (forms : list DataForm) : Prop :=
  NoDup (map identityKey identities) ∧ NoDup (map formKey forms).

(** Whatever algorithm sorts the slices, the order in which a client lists its
    identities, features and forms does not change the verification string, nor the
    features that are stored, as long as no two identities agree in category, type and
    language and no two forms in their type. *)
Theorem computeVer_order_irrelevant `{!SortSlice} (ids ids' : list Identity) (fs fs' : list string)
    (forms forms' : list DataForm) (h : Hash)
    (Hdef : definite ids forms) (Hids : ids ≡ₚ ids') (Hfs : fs ≡ₚ fs') (Hforms : forms ≡ₚ forms') :
  computeVer ids fs forms h = computeVer ids' fs' forms' h.
Proof.
  destruct Hdef as [Hi Hf]. unfold computeVer, verString.
  rewrite (sort_strings_perm _ _ Hfs), (sort_keys_perm _ _ _ Hf Hforms).
  rewrite (sort_slice_perm_eq identityLess ids ids'); [| |done].
  - assert (existsb badForm forms = existsb badForm forms') as ->; [|done].
    apply eq_true_iff_eq. rewrite !existsb_exists. by setoid_rewrite <-list_elem_of_In; setoid_rewrite Hforms.
  - intros x y Hx Hy E1 E2. eapply NoDup_fmap_inj; [exact Hi|done..|]. by apply identityLess_total.
Qed.

(** ** What is validated *)

Lemma counts_snoc l s : counts (l ++ [s]) = <[s := S (default O (counts l !! s))]> (counts l).
Proof. unfold counts. by rewrite foldl_app. Qed.
Lemma counts_in l s : s ∈ l ↔ is_Some (counts l !! s).
Proof.
  induction l as [|x l IH] using rev_ind.
  - unfold counts. simpl. rewrite lookup_empty, is_Some_alt. set_solver.
  - rewrite counts_snoc, elem_of_app, list_elem_of_singleton, IH. destruct (decide (s = x)) as [->|Hne].
    + rewrite lookup_insert_eq. naive_solver.
    + rewrite lookup_insert_ne by done. naive_solver.
Qed.
Lemma counts_pos l s : counts l !! s ≠ Some O.
Proof.
  induction l as [|x l IH] using rev_ind; [done|]. rewrite counts_snoc.
  destruct (decide (s = x)) as [->|Hne]; [by rewrite lookup_insert_eq|by rewrite lookup_insert_ne].
Qed.
(** The counting finds exactly the lists with repetitions. *)
Lemma repeated_spec l : repeated (counts l) = false ↔ NoDup l.
Proof.
  unfold repeated. rewrite bool_decide_eq_false. split.
  - intros Hm%dec_stable. induction l as [|x l IH] using rev_ind; [constructor|].
    rewrite counts_snoc in Hm. apply NoDup_app. split; [|split; [|apply NoDup_singleton]].
    + apply IH. intros s n Hs. destruct (decide (s = x)) as [->|Hne].
      * apply (Hm x). rewrite lookup_insert_eq, Hs. simpl. pose proof (Hm x _ (lookup_insert_eq _ _ _)) as Hx.
        rewrite Hs in Hx. simpl in Hx. pose proof (counts_pos l x). destruct n; [done|lia].
      * apply (Hm s). by rewrite lookup_insert_ne.
    + intros y Hy ->%list_elem_of_singleton. pose proof (Hm x _ (lookup_insert_eq _ _ _)) as Hx.
      apply counts_in in Hy as [n Hn]. rewrite Hn in Hx. simpl in Hx. pose proof (counts_pos l x). destruct n; [done|lia].
  - intros Hnd Hn. apply Hn. clear Hn. induction l as [|x l IH] using rev_ind; [by intros s n|].
    rewrite counts_snoc. apply NoDup_app in Hnd as (Hnd & Hx & _). intros s n.
    destruct (decide (s = x)) as [->|Hne]; [|rewrite lookup_insert_ne by done; by apply IH].
    rewrite lookup_insert_eq. intros [= <-]. destruct (counts l !! x) as [m|] eqn:E; simpl; [|lia].
    destruct (Hx x); [apply counts_in; eauto|set_solver].
Qed.

Lemma formTypes_ok fields vs : formTypes fields = Ok vs → ∀ f, f ∈ fields → isFormType f = true → ∃ v, Values f = [v].
Proof.
  revert vs. induction fields as [|g fields IH]; intros vs; simpl; [set_solver|].
  intros Hg f [->|Hf]%elem_of_cons Hty; unfold isFormType in *.
  - rewrite Hty in Hg. destruct (negb _); [done|]. destruct (Values g) as [|v [|]]; [done|by exists v|done].
  - destruct (String.eqb (Var g) FormType); [|by eapply IH].
    destruct (negb _); [done|]. destruct (Values g) as [|v [|]]; [done| |done].
    destruct (formTypes fields) as [vs'| |] eqn:E; [|done..]. by eapply IH.
Qed.

(** Forms that pass the validation have a type. *)
Lemma validated_forms forms : validateForms forms = Ok tt → existsb badForm forms = false.
Proof.
  unfold validateForms. destruct (formTypes _) as [vs| |] eqn:E; [|done..]. intros _.
  apply not_true_is_false. intros (form & Hin & Hbad)%existsb_exists. apply list_elem_of_In in Hin.
  unfold badForm, getFormTypeValue in Hbad.
  destruct (List.filter isFormType (Fields form)) as [|f l] eqn:Ef; [done|]. simpl in Hbad.
  assert (f ∈ List.filter isFormType (Fields form)) as Hf by (rewrite Ef; set_solver).
  apply list_elem_of_In, filter_In in Hf as [Hf Hty]. apply list_elem_of_In in Hf.
  destruct (formTypes_ok _ _ E f) as [v Hv]; [|done|by rewrite Hv in Hbad].
  apply list_elem_of_bind. by exists form.
Qed.

(** ** The cache holds what was verified *)
Section proofs.
Context `{XmlMore} {W : Type} `{!ModEnv W} `{!Rep W} `{!SortSlice}.

(** The stored features, by node and version. *)
Class CapsView := stored : W → gmap (string * string) (list string).
Context `{!CapsView}.
Definition same_caps (w w' : W) : Prop := stored w' = stored w.
#[local] Instance same_caps_preorder : PreOrder same_caps.
Proof. split; [done|]. intros w1 w2 w3 E1 E2. unfold same_caps in *. congruence. Qed.

(** What the module relies on: reading and routing leave the cache alone, a write
    that succeeds stores the entry and one that fails stores nothing, and none of them
    panics. *)
Definition safe {A} (m : M W A) : Prop := ∀ w c, (m w).1 ≠ Crash c.
Class CapsRepo : Prop := {
  cr_route : ∀ e, keeps same_caps (me_Route e) ∧ safe (me_Route e);
  cr_uuid : keeps same_caps me_uuid ∧ safe me_uuid;
  cr_exist : ∀ n v, keeps same_caps (rep_CapabilitiesExist n v) ∧ safe (rep_CapabilitiesExist n v);
  cr_upsert : ∀ c w, match rep_UpsertCapabilities c w with
    | (Ok _, w') => stored w' = <[(ca_Node c, ca_Ver c) := ca_Features c]> (stored w)
    | (Err _, w') => stored w' = stored w
    | (Crash _, _) => False
    end;
}.
Context `{!CapsRepo}.

(** An entry that was verified: its version is the hash of a description without
    repetitions that has these features. *)
Definition authentic (ver : string) (fs : list string) : Prop :=
  ∃ alg h ids fs0 forms, hashFn alg = Some h ∧ NoDup fs0 ∧ NoDup (map identityString ids) ∧
    validateForms forms = Ok tt ∧ computeVer ids fs0 forms h = Ok (ver, fs).

(** The pending requests are those with a timer, their timers run, and their hash
    function is known; the cache is authentic. *)
Record caps_inv (mw : CapsModule W * W) : Prop := {
  ci_dom : dom (reqs mw.1) = clrTms mw.1;
  ci_running : ∀ r, r ∈ clrTms mw.1 → r ∈ timers mw.1;
  ci_known : ∀ r ci, reqs mw.1 !! r = Some ci → is_Some (hashFn (ci_hash ci));
  ci_cache : ∀ n v fs, stored mw.2 !! (n, v) = Some fs → authentic v fs;
}.

Lemma drop_timer_other t t' l : t' ≠ t → t' ∈ l → t' ∈ drop_timer t l.
Proof.
  intros Hne. induction l as [|x l IH]; simpl; [done|]. intros [->|Hin]%elem_of_cons.
  - destruct (String.eqb_spec t x); [congruence|set_solver].
  - destruct (String.eqb_spec t x); [done|]. apply elem_of_cons. auto.
Qed.

Lemma readForms_safe els c : readForms els ≠ Crash c.
Proof.
  induction els as [|e els IH]; simpl; [done|]. pose proof (form_safe e c).
  destruct (NewFormFromElement e); [|done|congruence]. destruct (readForms els); congruence.
Qed.

(** An answer is stored only when it is authentic, and handling it does not panic. *)
Lemma processDiscoInfo_stored iq ci w : is_Some (hashFn (ci_hash ci)) →
  match processDiscoInfo iq ci w with
  | (Crash _, _) => False
  | (_, w') => stored w' = stored w ∨
      ∃ fs, authentic (ci_ver ci) fs ∧ stored w' = <[(ci_node ci, ci_ver ci) := fs]> (stored w)
  end.
Proof.
  intros [h Hh]. unfold processDiscoInfo. destruct (ChildNamespace _ _ _) as [dq|]; [|by left].
  destruct (negb (IsResult iq)); [by left|]. unfold mbind, M_bind, pureR.
  set (els := ChildrenNamespace _ _ _). pose proof (readForms_safe els) as Hs.
  destruct (readForms els) as [forms|e|c]; [|by left|by destruct (Hs c)].
  unfold validateIdentities. destruct (repeated _) eqn:Ei; [by left|].
  unfold validateFeatures. destruct (repeated (counts (readFeatures dq))) eqn:Ef; [by left|].
  destruct (validateForms forms) as [[]|e|c] eqn:Ev; [|by left|].
  2:{ unfold validateForms in Ev. destruct (formTypes _) eqn:Et; [|done|].
      - by repeat case_match.
      - exfalso. clear -Et. induction (forms ≫= Fields) as [|f l IH]; simpl in Et; [done|].
        repeat case_match; simplify_eq; auto. }
  rewrite Hh. simpl. pose proof (validated_forms _ Ev) as Hb.
  destruct (computeVer _ _ _ h) as [[ver fs]|e|c] eqn:Ec;
    [|unfold computeVer in Ec; by rewrite Hb in Ec..].
  destruct (String.eqb_spec ver (ci_ver ci)) as [->|Hne]; simpl; [|by left].
  pose proof (cr_upsert (MkCaps (ci_node ci) (ci_ver ci) fs) w) as Hu.
  destruct (rep_UpsertCapabilities _ w) as [[]w']; [|by left|done].
  right. exists fs. split; [|done].
  exists (ci_hash ci), h, (readIdentities dq), (readFeatures dq), forms.
  by rewrite <-!repeated_spec.
Qed.

Lemma cache_step (w w' : W) n v : (∀ n v fs, stored w !! (n, v) = Some fs → authentic v fs) →
  (stored w' = stored w ∨ ∃ fs, authentic v fs ∧ stored w' = <[(n, v) := fs]> (stored w)) →
  ∀ n v fs, stored w' !! (n, v) = Some fs → authentic v fs.
Proof.
  intros Hw [->|(fs0 & Ha & ->)] n' v' fs; [apply Hw|].
  destruct (decide ((n, v) = (n', v'))) as [[= <- <-]|Hne];
    [rewrite lookup_insert_eq; by intros [= <-]|rewrite lookup_insert_ne by done; apply Hw].
Qed.

(** Only a builder that fails can make a handler panic. *)
Definition nil_only (c : crash) : Prop := c = NilDeref.

Lemma inv_clear r : inv nil_only caps_inv (setf (set_timers (drop_timer r));; clearPendingReq r).
Proof.
  intros [m w] [Hd Hr Hk Hc]. simpl in *. split; simpl; [rewrite dom_delete_L; set_solver|..|done].
  - intros r' [Hr' Hne]%elem_of_difference. apply drop_timer_other; [set_solver|by apply Hr].
  - intros r' ci [_ Hl]%lookup_delete_Some. eauto.
Qed.

Lemma inv_processIQ iq : inv nil_only caps_inv (processIQ iq).
Proof.
  intros [m w] Hinv. pose proof Hinv as [Hd Hr Hk Hc]. simpl in *. unfold processIQ. set (r := Attribute iq AttrID).
  unfold mbind, M_bind, fld, gets. simpl. destruct (reqs m !! r) as [ci|] eqn:El.
  - assert (r ∈ clrTms m) as Hin by (rewrite <-Hd; apply elem_of_dom; eauto).
    rewrite decide_True by done. simpl. unfold ignore, try, onW, mbind, M_bind.
    pose proof (processDiscoInfo_stored iq ci w (Hk _ _ El)) as Hp.
    assert (∀ w', (∀ n v fs, stored w' !! (n, v) = Some fs → authentic v fs) → caps_inv
      (set_clrTms (.∖ {[r]}) (set_reqs (delete r) (set_timers (drop_timer r) m)), w')) as Hend.
    { intros w' Hc'. split; simpl; [rewrite dom_delete_L; set_solver|..|done].
      - intros r' [Hr' Hne]%elem_of_difference. apply drop_timer_other; [set_solver|by apply Hr].
      - intros r' ci' [_ Hl]%lookup_delete_Some. eauto. }
    destruct (processDiscoInfo iq ci w) as [[[]|e|c] w']; simpl; [..|done]; apply Hend; by eapply cache_step.
  - rewrite decide_False by (rewrite <-Hd, not_elem_of_dom; done). simpl. done.
Qed.

Lemma inv_processPresence pr : inv nil_only caps_inv (processPresence pr).
Proof.
  intros [m w] Hinv. pose proof Hinv as [Hd Hr Hk Hc]. simpl in *. unfold processPresence.
  destruct (IsFull (ToJID pr)); [done|]. destruct (ChildNamespace _ _ _) as [caps|]; [|done].
  destruct (hashFn (Attribute caps "hash")) as [h|] eqn:Eh; [|done].
  set (ci := MkCapsInfo _ _ _). destruct (cr_exist (ci_node ci) (ci_ver ci)) as [Hke Hse].
  unfold mbind, M_bind, onW. specialize (Hke w). specialize (Hse w).
  destruct (rep_CapabilitiesExist _ _ w) as [[ex|e|c] w1]; simpl in *; [|by split; simpl; rewrite ?Hke|by destruct (Hse c)].
  destruct ex; [by split; simpl; rewrite ?Hke|].
  unfold requestDiscoInfo, mbind, M_bind, onW. destruct cr_uuid as [Hku Hsu]. specialize (Hku w1). specialize (Hsu w1).
  destruct (me_uuid w1) as [[u|e|c] w2]; simpl in *; [|split; simpl; rewrite ?Hku, ?Hke; done|by destruct (Hsu c)].
  unfold route. destruct (BuildStanza _ _ _) as [e|]; simpl; [|done].
  unfold ignore, try, mbind, M_bind, mret, M_ret. cbv beta iota. destruct (cr_route e) as [Hkr Hsr]. specialize (Hkr w2). specialize (Hsr w2).
  destruct (me_Route e w2) as [[a|er|c] w3]; simpl in *; [..|by destruct (Hsr c)];
    (split; simpl; [rewrite dom_insert_L; set_solver|set_solver|
      intros r' ci' [[_ <-]|[_ Hl]]%lookup_insert_Some; simpl; [by rewrite Eh|by eapply Hk]|
      rewrite Hkr, Hku, Hke; done]).
Qed.

Lemma inv_handle ev : inv nil_only caps_inv (handle ev).
Proof.
  destruct ev as [pr|iq|r]; [apply inv_processPresence|apply inv_processIQ|].
  apply inv_bind; [apply inv_fld|]. intros ts. case_decide; [apply inv_clear|apply inv_ret].
Qed.

(** C12: Whatever presences and IQs arrive and timers fire, in whatever order, every
    entry of the capabilities cache is authentic: its version is the hash, in one of
    the supported hash functions, of a valid description with these features.  The
    pending questions are exactly those whose timer is known, and their timers run; no
    handler panics unless a stanza cannot be built. *)
Theorem caps_cache_authentic (evs : list caps_event) (m : CapsModule W) (w : W) (Hinv : caps_inv (m, w)) :
  match for_each evs (fun ev => ignore (handle ev)) (m, w) with
  | (Ok _, mw') => caps_inv mw'
  | (Err _, mw') => caps_inv mw'
  | (Crash c, _) => c = NilDeref
  end.
Proof.
  apply (inv_for_each nil_only caps_inv evs (fun ev => ignore (handle ev))); [|done].
  intros ev _. apply inv_ignore, inv_handle.
Qed.

End proofs.

(** ** The description of the server itself *)
Section self.
Context `{XmlMore} {W : Type} `{!ModEnv W} `{!Rep W} `{!SortSlice}.

Lemma read_attr_first n k v l c t k' : NoDup (k :: l.*1) →
  Attribute (Build n ((k, v) :: attrs_of l) c t) k' = default "" ((list_to_map ((k, v) :: l) : gmap string string) !! k').
Proof.
  intros [Hk Hd]%NoDup_cons. rewrite Attribute_Build.
  - simpl. destruct (decide (k = k')) as [->|Hne]; [by rewrite !lookup_insert_eq|].
    rewrite !lookup_insert_ne by done. rewrite <-(read_attrs n l c t) by done.
    by rewrite Attribute_Build by (by apply attrs_of_NoDup).
  - simpl. constructor; [|by apply attrs_of_NoDup]. intros Hin. apply Hk. by apply attrs_of_keys.
Qed.

Lemma identity_read_back i :
  MkIdentity (Attribute (identityElement i) "category") (Attribute (identityElement i) "name")
    (Attribute (identityElement i) "type") (Attribute (identityElement i) Language) = i.
Proof.
  destruct i as [c n t l]. set (rest := [("type", t); ("name", n); (Language, l)]).
  assert (∀ k, Attribute (identityElement (MkIdentity c n t l)) k =
    default "" ((list_to_map (("category", c) :: rest) : gmap string string) !! k)) as Ha.
  { intros k. unfold identityElement. simpl.
    replace (attr "type" t ++ attr "name" n ++ attr Language l) with (attrs_of rest) by (simpl; by rewrite app_nil_r).
    apply read_attr_first. repeat constructor; set_solver. }
  rewrite !Ha. done.
Qed.

Lemma info_children ids fs forms n : Children (infoElement ids fs forms) n =
  (if String.eqb "identity" n then map identityElement ids else []) ++
  (if String.eqb "feature" n then map featureElement fs else []) ++
  (if String.eqb "x" n then map FormElement forms else []).
Proof.
  unfold infoElement. rewrite Children_named, AllChildren_Build, !named_app.
  rewrite (named_map n "identity"), (named_map n "feature"), (named_map n "x") by (intros; apply Name_Build). done.
Qed.

Lemma read_identities ids fs forms : readIdentities (infoElement ids fs forms) = ids.
Proof.
  unfold readIdentities. rewrite info_children. simpl. rewrite app_nil_r, map_map.
  rewrite <-(map_id ids) at 2. apply map_ext. intros i. apply identity_read_back.
Qed.
Lemma read_features ids fs forms : readFeatures (infoElement ids fs forms) = fs.
Proof.
  unfold readFeatures. rewrite info_children. simpl. rewrite app_nil_r, map_map.
  rewrite <-(map_id fs) at 2. apply map_ext. intros f. unfold featureElement.
  rewrite Attribute_Build by (repeat constructor; set_solver). done.
Qed.
Lemma form_namespace d : Attribute (FormElement d) Namespace = formsNamespace.
Proof.
  unfold FormElement. rewrite (read_attr _ _ [(Namespace, FormNamespace); ("type", FormTypeOf d)]);
    [done|simpl; by rewrite app_nil_r|repeat constructor; set_solver].
Qed.
Lemma read_forms ids fs forms : Forall (fun d => form_ok d = true) forms →
  readForms (ChildrenNamespace (infoElement ids fs forms) "x" formsNamespace) = Ok forms.
Proof.
  unfold ChildrenNamespace. rewrite info_children. simpl.
  induction 1 as [|d forms Hd Hfs IH]; [done|]. simpl. rewrite form_namespace. simpl. by rewrite form_read_back, IH.
Qed.

(** The server passes its own verification.  When another server asks what the
    capabilities in the stream features of this one stand for, and its service
    discovery answers, the answer is verified by the same code: it is stored with the
    announced node and version, provided that no identity and no feature is listed
    twice and the forms are valid. *)
Theorem caps_self_verifies (nilJID : JID) (domain : string) (m m' : CapsModule W) (prov : InfoProvider W)
    (w w1 w2 w3 w0 : W) (c iq : Element) (fs : list string) (forms : list DataForm)
    (Hprov : capsProv m = Some prov)
    (Hfs : ip_Features prov (default nilJID (NewWithString domain true)) (default nilJID (NewWithString domain true)) "" w = (Ok fs, w1))
    (Hforms : ip_Forms prov (default nilJID (NewWithString domain true)) (default nilJID (NewWithString domain true)) "" w1 = (Ok forms, w2))
    (Hsf : StreamFeature nilJID domain (m, w) = (Ok (Some c), (m', w3))) :
  let jd := default nilJID (NewWithString domain true) in
  let ids := ip_Identities prov jd jd "" in
  ∀ (Hids : NoDup (map identityString ids)) (Hnd : NoDup fs) (Hv : validateForms forms = Ok tt)
    (Hok : Forall (fun d => form_ok d = true) forms)
    (Hiq : ChildNamespace iq "query" discoInfoNamespace = Some (infoElement ids fs forms)) (Hres : IsResult iq = true),
  processDiscoInfo iq (MkCapsInfo (Attribute c "hash") (Attribute c "node") (Attribute c "ver")) w0 =
    rep_UpsertCapabilities (MkCaps ("http://" +:+ domain) (Attribute c "ver") (sort_slice String.ltb fs)) w0.
Proof.
  intros jd ids ? ? ? ? ? ?. unfold StreamFeature in Hsf. unfold mbind at 1, M_bind at 1 in Hsf. simpl in Hsf.
  rewrite Hprov in Hsf. unfold mbind, M_bind, onW, try in Hsf. fold jd in Hsf, Hfs, Hforms.
  rewrite Hfs, Hforms in Hsf. unfold pureO in Hsf. fold ids in Hsf.
  assert (computeVer ids fs forms sha256 =
    Ok (EncodeToString (hash_sum sha256 (bytes_of_string (verString ids fs forms))), sort_slice String.ltb fs)) as Hc.
  { unfold computeVer. by rewrite validated_forms. }
  rewrite Hc in Hsf. simpl in Hsf. injection Hsf as <- _ _.
  set (ver := EncodeToString _). set (c := Build _ _ _ _).
  assert (∀ k, Attribute c k = default "" ((list_to_map [(Namespace, capabilitiesFeature); ("hash", "sha-256");
    ("node", "http://" +:+ domain); ("ver", ver)] : gmap string string) !! k)) as Ha.
  { intros k. apply Attribute_Build. repeat constructor; set_solver. }
  assert (Attribute c "hash" = "sha-256" ∧ Attribute c "node" = "http://" +:+ domain ∧ Attribute c "ver" = ver)
    as (-> & -> & ->) by (by rewrite !Ha).
  unfold processDiscoInfo. rewrite Hiq, Hres. unfold mbind, M_bind, pureR. cbn [negb].
  rewrite read_forms, read_identities, read_features by done.
  unfold validateIdentities, validateFeatures. rewrite (proj2 (repeated_spec _)) by done.
  rewrite (proj2 (repeated_spec fs)) by done. rewrite Hv. cbn [ci_hash].
  change (deref (hashFn "sha-256") w0) with (@Ok Hash sha256, w0). cbv beta iota. rewrite Hc. cbv beta iota.
  cbn [ci_ver ci_node]. fold ver. by rewrite String.eqb_refl.
Qed.

End self.

(** ** The example of XEP-0115 *)
Module CapsDemo.
Import TreeLib TreeMore.

Definition exodus : Identity := MkIdentity "client" "Exodus 0.9.1" "pc" "".
Definition exodus_features : list string :=
  ["http://jabber.org/protocol/disco#info"; "http://jabber.org/protocol/muc";
   "http://jabber.org/protocol/caps"; "http://jabber.org/protocol/disco#items"].
Definition exodus_ver : string := "QgayPKawpkPSDYmwT/WM94uAlu0=".
Example exodus_ver_ok : computeVer [exodus] exodus_features [] sha1 =
  Ok (exodus_ver, sort_slice String.ltb exodus_features).
Proof. vm_compute. reflexivity. Qed.

Lemma computeVer_order_irrelevant_witness :
  computeVer [exodus] exodus_features [] sha1 = computeVer [exodus] (reverse exodus_features) [] sha1.
Proof.
  apply (computeVer_order_irrelevant [exodus] [exodus] exodus_features (reverse exodus_features) [] [] sha1);
    [split; [apply NoDup_singleton|constructor]|done|by rewrite reverse_Permutation|done].
Defined.

(** A client announces the hash and answers the question of the server. *)
#[export] Instance demo_view : CapsView := fun w : server => ca_Features <$> m_caps (sv_mem w).
#[export] Instance demo_repo : @CapsRepo tree_jid tree_xml server server_env map_rep demo_view.
Proof.
  split.
  - intros e. split; [by intros []|by intros [] c].
  - split; [by intros []|by intros [] c].
  - intros n v. split; [by intros []|by intros [] c].
  - intros [n v fs] [[]]. simpl. unfold stored, demo_view. simpl. by rewrite fmap_insert.
Qed.

Definition presence : XElement :=
  TNode "presence" [("from", "romeo@jackal.im/garden"); ("to", "romeo@jackal.im")]
    [TNode "c" [("xmlns", capabilitiesFeature); ("hash", "sha-1"); ("node", "http://exodus"); ("ver", exodus_ver)] [] "" None]
    "" (Some KPresence).
Definition reply : XElement :=
  TNode "iq" [("type", "result"); ("id", "id0"); ("from", "romeo@jackal.im/garden"); ("to", "jackal.im")]
    [infoElement [exodus] exodus_features []] "" (Some KIQ).
Definition after : outcome unit * (CapsModule server * server) :=
  for_each [EvPresence presence; EvIQ reply; EvTimer "id0"] (fun ev => ignore (handle ev)) (New, empty_server).

Lemma caps_cache_authentic_witness : caps_inv after.2 ∧
  stored after.2.2 !! ("http://exodus", exodus_ver) = Some (sort_slice String.ltb exodus_features).
Proof.
  split; [|vm_cast_no_check (eq_refl (Some (sort_slice String.ltb exodus_features)))].
  assert (caps_inv (New, empty_server)) as Hinv.
  { split; [apply dom_empty_L|by intros r Hr%not_elem_of_empty|by intros r ci|by intros n v fs]. }
  pose proof (@caps_cache_authentic tree_jid tree_xml server server_env map_rep go_insertion_sort
    demo_view demo_repo [EvPresence presence; EvIQ reply; EvTimer "id0"] New empty_server Hinv) as Hall.
  replace (for_each _ _ _) with after in Hall by done.
  replace after with (@Ok unit tt, after.2) in Hall by (vm_cast_no_check (eq_refl after)).
  exact Hall.
Defined.

(** The capabilities of the server without modules. *)
Definition prov : InfoProvider server := newServerProvider (fun _ => []) [].
Definition module_ : CapsModule server := set_prov (Some prov) New.
Definition nil_jid : @JID tree_jid := MkJid "" "" "".
Definition feature : XElement :=
  match (StreamFeature nil_jid "jackal.im" (module_, empty_server)).1 with Ok (Some c) => c | _ => presence end.
Definition own_reply : XElement :=
  TNode "iq" [("type", "result")] [infoElement (serverIdentities nil_jid nil_jid "") [] []] "" (Some KIQ).
Lemma caps_self_verifies_witness :
  processDiscoInfo own_reply (MkCapsInfo (Attribute feature "hash") (Attribute feature "node") (Attribute feature "ver")) empty_server =
  rep_UpsertCapabilities (MkCaps "http://jackal.im" (Attribute feature "ver") []) empty_server.
Proof.
  apply (@caps_self_verifies tree_jid tree_xml tree_more server map_rep go_insertion_sort nil_jid "jackal.im"
    module_ module_ prov empty_server empty_server empty_server empty_server empty_server feature own_reply [] []).
  - done.
  - done.
  - done.
  - vm_cast_no_check (eq_refl (@Ok (option XElement) (Some feature), (module_, empty_server))).
  - apply NoDup_singleton.
  - constructor.
  - done.
  - constructor.
  - vm_cast_no_check (eq_refl (Some (infoElement (serverIdentities nil_jid nil_jid "") [] [] : XElement))).
  - vm_cast_no_check (eq_refl true).
Defined.

(** The number of different types is compared with the number of forms: two forms
    of one type are reported as forms without a type, and a form with two types makes
    up for one with none. *)
Definition typed (types : list string) : DataForm :=
  MkForm Result "" "" (map (fun t => MkField FormType false Hidden "" "" [t] [] None) types) [] [].
Theorem form_types_miscounted :
  validateForms [typed ["urn:a"]; typed ["urn:a"]] = Err errFormTypeFieldNotFound ∧
  validateForms [typed ["urn:a"; "urn:b"]; typed []] = Ok tt.
Proof. split; vm_compute; reflexivity. Qed.

End CapsDemo.
