(* ===== verification/Components.v ===== *)
(** * Components (src/pkg/component/component.go, extcomponentmanager)

    The registry of the components by host, and the manager that keeps it in step
    with the external components of the other instances of the cluster.

    A component is an interface value: the registry works on any type of components
    with the methods of [component.Component].  The two kinds that the server has are
    the stream of an external component that is connected to this instance and a
    pointer to an [extComponent], which forwards to another instance; what such a
    pointer refers to is kept in a store of cells, because the code shares one. *)

From stdpp Require Import base list strings gmap.
From Stdlib Require Import ZArith Lia Ascii.
From S2P Require Import Prelude GoLib GoStrings Stravaganza C2SModel Roster Storage Dialback ResourceManager ModLib.

Definition ErrComponentNotFound : goerror := ErrText "component: not found".
Definition ComponentsStarted : string := "components.started".
Definition ComponentsStopped : string := "components.stopped".

(** [component.Component] *)
Class ComponentImpl `{XmlLib} (W C : Type) := {
  co_Host : C → W → string;
  co_Name : C → string;
  co_ProcessStanza : C → Element → M W unit;
  co_Start : C → M W unit;
  co_Stop : C → M W unit;
}.
(** The map of the registry *)
Class HasComps (W C : Type) := {
  comps : W → gmap string C;
  set_comps : gmap string C → W → W;
}.

(** ** The registry *)
Section registry.
Context `{XmlLib} {W C : Type} `{!ModEnv W} `{!ComponentImpl W C} `{!HasComps W C}.

Definition put_comp (h : string) (c : C) : M W unit := modify (fun w => set_comps (<[h := c]> (comps w)) w).

Definition NewComponents (components : list C) : M W unit :=
  modify (set_comps ∅);;
  for_each components (fun comp => h ← gets (co_Host comp); put_comp h comp).

Definition RegisterComponent (comp : C) : M W unit :=
  co_Start comp;;
  cHost ← gets (co_Host comp);
  put_comp cHost comp.

Definition UnregisterComponent (cHost : string) : M W unit :=
  cs ← gets comps;
  match cs !! cHost with
  | None => fail ErrComponentNotFound
  | Some comp =>
    co_Stop comp;;
    modify (fun w => set_comps (delete cHost (comps w)) w)
  end.

Definition Component (cHost : string) (w : W) : option C := comps w !! cHost.
Definition IsComponentHost (cHost : string) (w : W) : bool :=
  match comps w !! cHost with Some _ => true | None => false end.
(** Ranging over the map visits the entries in an order of its own. *)
Definition AllComponents (order : gmap string C → list (string * C)) (w : W) : list C := (order (comps w)).*2.

Definition ProcessStanza (stanza : Element) : M W unit :=
  cs ← gets comps;
  match cs !! Domain (ToJID stanza) with
  | None => fail ErrComponentNotFound
  | Some comp => co_ProcessStanza comp stanza
  end.

(** The loop of [Start] and [Stop] over the map in one of its orders: the hosts, up
    to the first error. *)
Fixpoint overAll (op : C → M W unit) (cs : list C) : M W (list string) :=
  match cs with
  | [] => mret []
  | c :: cs' =>
    op c;;
    h ← gets (co_Host c);
    hs ← overAll op cs';
    mret (h :: hs)
  end.
Definition Start (order : gmap string C → list (string * C)) : M W unit :=
  cs ← gets (AllComponents order);
  hosts ← overAll co_Start cs;
  me_runHook (EvComponents ComponentsStarted hosts).
Definition Stop (order : gmap string C → list (string * C)) : M W unit :=
  cs ← gets (AllComponents order);
  hosts ← overAll co_Stop cs;
  me_runHook (EvComponents ComponentsStopped hosts).

End registry.

(** ** The components of the server *)

(** [streamComponent] (with the host of its stream) and a pointer to an
    [extComponent] *)
Inductive component := StreamComponent (stm : Z) (host : string) | ExtComponent (cell : nat).

(** [extComponent] *)
Record extComponent (Conn : Type) := MkExt { ec_host : string; ec_conn : Conn }.
Arguments MkExt {_} _ _.
Arguments ec_host {_} _.
Arguments ec_conn {_} _.

Class HasCells (W Conn : Type) := {
  cells : W → list (extComponent Conn);
  set_cells : list (extComponent Conn) → W → W;
}.

(** The streams of external components, the connections to the other instances and
    the name of this one *)
Class CompNet `{XmlLib} (W Conn : Type) := {
  cn_sendStanza : Z → Element → M W unit;
  cn_Route : Conn → Element → string → M W unit;
  cn_GetConnection : string → M W Conn;
  cn_instanceID : string;
}.

Section manager.
Context `{XmlLib} {W Conn : Type} `{!HasComps W component} `{!HasCells W Conn} `{!CompNet W Conn} `{!KV W}.
Context (kv_GetPrefix : string → M W (list (string * string))).

(** [streamcomponent.go] and [extcomponent.go]; a nil cell panics. *)
#[export] Instance server_component : ComponentImpl W component := {|
  co_Host := fun c w =>
    match c with
    | StreamComponent _ h => h
    | ExtComponent p => match cells w !! p with Some ec => ec_host ec | None => "" end
    end;
  co_Name := fun _ => "";
  co_ProcessStanza := fun c stanza =>
    match c with
    | StreamComponent stm _ => ignore (cn_sendStanza stm stanza)
    | ExtComponent p =>
      cs ← gets cells;
      ec ← deref (cs !! p);
      cn_Route (ec_conn ec) stanza (ec_host ec)
    end;
  co_Start := fun _ => mret tt;
  co_Stop := fun _ => mret tt;
|}.

(** [newExtComponent], and writing to the variable that a pointer refers to *)
Definition newExtComponent (host : string) (conn : Conn) : M W nat :=
  cs ← gets cells;
  modify (set_cells (cs ++ [MkExt host conn]));;
  mret (length cs).
Definition assign (p : nat) (ec : extComponent Conn) : M W unit :=
  modify (fun w => set_cells (<[p := ec]> (cells w)) w).

Definition extComponentKeyPrefix : string := "ec://".
Definition kvComponentHostKey (cHost : string) : string := extComponentKeyPrefix +:+ cHost.
Definition extComponentVal (instanceID : string) : string := "i=" +:+ instanceID.

Definition RegisterComponentHost (cHost : string) : M W unit :=
  kv_Put (kvComponentHostKey cHost) (extComponentVal cn_instanceID).
Definition UnregisterComponentHost (cHost : string) : M W unit := kv_Del (kvComponentHostKey cHost).

Definition isLocalExtComponent (v : string) : bool := String.eqb (TrimPrefix v "i=") cn_instanceID.

(** [fmt.Sscanf(val, "i=%s", &instanceID)] *)
Definition scanInstance (val : string) : string :=
  match CutPrefix "i=" val with
  | Some s => (scan_word (skip_spaces s)).1
  | None => ""
  end.

Definition decodeExtComponent (k val : string) : M W (extComponent Conn) :=
  conn ← cn_GetConnection (scanInstance val);
  mret (MkExt (TrimPrefix k extComponentKeyPrefix) conn).

(** [getExtComponents] on the entries in the order of the map; what does not decode
    is skipped. *)
Fixpoint decodeAll (vs : list (string * string)) : M W (list (extComponent Conn)) :=
  match vs with
  | [] => mret []
  | (k, val) :: vs' =>
    if isLocalExtComponent val then decodeAll vs'
    else
      r ← try (decodeExtComponent k val);
      rest ← decodeAll vs';
      mret (match r with inr ec => ec :: rest | inl _ => rest end)
  end.
Definition getExtComponents : M W (list (extComponent Conn)) :=
  vs ← kv_GetPrefix extComponentKeyPrefix;
  decodeAll vs.

(** [refreshExternalComponents] up to the signal: the loop has one variable [ec],
    whose address is registered in every round. *)
Definition registerEach (p : nat) (ecs : list (extComponent Conn)) : M W unit :=
  for_each ecs (fun ec => assign p ec;; ignore (RegisterComponent (ExtComponent p))).
Definition refreshExternalComponents : M W unit :=
  ecs ← getExtComponents;
  match ecs with
  | [] => mret tt
  | ec :: _ => p ← newExtComponent (ec_host ec) (ec_conn ec); registerEach p ecs
  end.

Fixpoint processKVEvents (kvEvents : list WatchEvent) : M W unit :=
  match kvEvents with
  | [] => mret tt
  | ev :: kvEvents' =>
    (if isLocalExtComponent (ev_Val ev) then mret tt
     else match ev_Type ev with
     | WPut =>
       ec ← decodeExtComponent (ev_Key ev) (ev_Val ev);
       p ← newExtComponent (ec_host ec) (ec_conn ec);
       RegisterComponent (ExtComponent p)
     | WDel => UnregisterComponent (TrimPrefix (ev_Key ev) extComponentKeyPrefix)
     end);;
    processKVEvents kvEvents'
  end.

(** A response of the watch: errors are logged. *)
Definition onWatchResp (err : option goerror) (events : list WatchEvent) : M W unit :=
  match err with Some _ => mret tt | None => ignore (processKVEvents events) end.

End manager.

(** ** The registry follows the cluster *)
Section proofs.
Context `{XmlLib} {W Conn : Type} `{!HasComps W component} `{!HasCells W Conn} `{!CompNet W Conn} `{!KV W}.
Context (kv_GetPrefix : string → M W (list (string * string))).

(** The two stores are independent, and looking a connection up changes neither;
    [conn_of] is the connection to an instance, as far as there is one. *)
Context (conn_of : string → option Conn).
Class StoreLaws : Prop := {
  sl_comps : ∀ m w, comps (set_comps m w) = m;
  sl_cells : ∀ l w, cells (set_cells l w) = l;
  sl_comps_cells : ∀ l w, comps (set_cells l w) = comps w;
  sl_cells_comps : ∀ m w, cells (set_comps m w) = cells w;
  sl_conn : ∀ i w c w', cn_GetConnection i w = (Ok c, w') →
    comps w' = comps w ∧ cells w' = cells w ∧ conn_of i = Some c;
}.
Context `{!StoreLaws}.

(** What a host stands for: a stream of this instance, or a host behind a
    connection. *)
Definition resolve (w : W) (c : component) : option (Z + extComponent Conn) :=
  match c with StreamComponent stm _ => Some (inl stm) | ExtComponent p => inr <$> cells w !! p end.
Definition targets (w : W) : gmap string (Z + extComponent Conn) := omap (resolve w) (comps w).
(** Every pointer of the registry refers to a cell. *)
Definition pointers_ok (w : W) : Prop := ∀ h p, comps w !! h = Some (ExtComponent p) → (p < length (cells w))%nat.

(** A change of the cluster, on the targets. *)
Definition change (ts : gmap string (Z + extComponent Conn)) (ev : WatchEvent) : gmap string (Z + extComponent Conn) :=
  if isLocalExtComponent (ev_Val ev) then ts
  else
    let h := TrimPrefix (ev_Key ev) extComponentKeyPrefix in
    match ev_Type ev with
    | WPut => match conn_of (scanInstance (ev_Val ev)) with Some c => <[h := inr (MkExt h c)]> ts | None => ts end
    | WDel => delete h ts
    end.

Lemma targets_eq w w' : comps w' = comps w → cells w' = cells w → targets w' = targets w.
Proof. intros E1 E2. unfold targets, resolve. by rewrite E1, E2. Qed.

(** A new component at a host *)
Lemma register_new ec w w' : pointers_ok w →
  (p ← newExtComponent (ec_host ec) (ec_conn ec); RegisterComponent (ExtComponent p)) w = (Ok tt, w') →
  targets w' = <[ec_host ec := inr ec]> (targets w) ∧ pointers_ok w'.
Proof.
  intros Hok Hr. unfold newExtComponent, RegisterComponent, put_comp in Hr.
  unfold mbind, M_bind, gets, modify, mret, M_ret in Hr. simpl in Hr.
  rewrite sl_cells, lookup_app_r, Nat.sub_diag in Hr by lia. simpl in Hr. injection Hr as <-.
  destruct ec as [h c]. simpl. split.
  - apply map_eq. intros h'. unfold targets. rewrite sl_comps, sl_comps_cells.
    destruct (decide (h = h')) as [<-|Hne].
    + rewrite lookup_omap, !lookup_insert_eq. simpl.
      rewrite sl_cells_comps, sl_cells, lookup_app_r, Nat.sub_diag by lia. done.
    + rewrite lookup_omap, !lookup_insert_ne, lookup_omap by done.
      destruct (comps w !! h') as [[stm hs|p]|] eqn:E; simpl; try done.
      rewrite sl_cells_comps, sl_cells, lookup_app_l; [done|by eapply Hok].
  - intros h' p. rewrite sl_comps, sl_comps_cells, sl_cells_comps, sl_cells, length_app. simpl.
    intros [[_ [= <-]]|[_ Hp]]%lookup_insert_Some; [lia|]. apply Hok in Hp. lia.
Qed.

Lemma process_one ev w w' : pointers_ok w →
  (if isLocalExtComponent (ev_Val ev) then mret tt
   else match ev_Type ev with
   | WPut =>
     ec ← decodeExtComponent (ev_Key ev) (ev_Val ev);
     p ← newExtComponent (ec_host ec) (ec_conn ec);
     RegisterComponent (ExtComponent p)
   | WDel => UnregisterComponent (TrimPrefix (ev_Key ev) extComponentKeyPrefix)
   end) w = (Ok tt, w') →
  targets w' = change (targets w) ev ∧ pointers_ok w'.
Proof.
  intros Hok Hr. unfold change. destruct (isLocalExtComponent (ev_Val ev)); [by injection Hr as <-|].
  destruct (ev_Type ev).
  - inv_bind Hr as ec w1 Hd. unfold decodeExtComponent in Hd. inv_bind Hd as c w2 Hc. injection Hd as <- <-.
    apply sl_conn in Hc as (E1 & E2 & ->). rewrite <-(targets_eq w w2) by done.
    apply register_new in Hr; [done|]. intros h p. rewrite E1, E2. apply Hok.
  - unfold UnregisterComponent in Hr. inv_bind Hr as cs w1 Hcs. injection Hcs as <- <-.
    destruct (comps w !! _) as [comp|]; [|done]. inv_bind Hr as u w1 Hs. injection Hs as _ <-. injection Hr as <-.
    split.
    + unfold targets. rewrite sl_comps. rewrite omap_delete. f_equal. apply map_eq. intros h.
      rewrite !lookup_omap. destruct (comps w !! h) as [[|p]|]; simpl; try done. by rewrite sl_cells_comps.
    + intros h p. rewrite sl_comps, sl_cells_comps. intros [_ Hp]%lookup_delete_Some. by eapply Hok.
Qed.

(** Changes of the cluster that are processed without an error are followed
    exactly: a host that another instance announces is from then on a component
    behind the connection to that instance, a host that is withdrawn is none, the
    announcements of this instance change nothing and neither do those of other
    hosts.  A stanza for such a host is handed to that connection under that host. *)
Theorem components_follow_cluster (evs : list WatchEvent) (w w' : W) (Hok : pointers_ok w)
    (Hrun : processKVEvents evs w = (Ok tt, w')) :
  targets w' = foldl change (targets w) evs ∧ pointers_ok w' ∧
  ∀ stanza ec, targets w' !! Domain (ToJID stanza) = Some (inr ec) →
    ProcessStanza stanza w' = cn_Route (ec_conn ec) stanza (ec_host ec) w'.
Proof.
  revert w Hok Hrun. induction evs as [|ev evs IH]; intros w Hok Hrun.
  - injection Hrun as <-. split; [done|]. split; [done|]. intros stanza ec.
    unfold targets, ProcessStanza, mbind, M_bind, gets. rewrite lookup_omap.
    destruct (comps w !! _) as [[stm h|p]|]; simpl; try done.
    unfold mbind, M_bind, gets. by destruct (cells w !! p); intros [= <-].
  - cbn [processKVEvents] in Hrun. inv_bind Hrun as u w1 Hev. destruct u.
    apply process_one in Hev as [Ht Hok1]; [|done]. simpl. rewrite <-Ht. by apply IH.
Qed.

(** The registration loop at start-up: all hosts share the one variable of the loop,
    which ends up as the last component. *)
Theorem snapshot_shares_component (p : nat) (ecs : list (extComponent Conn)) (e : extComponent Conn) (w : W)
    (Hp : (p < length (cells w))%nat) :
  let w' := (registerEach p (ecs ++ [e]) w).2 in
  (∀ ec, ec ∈ ecs ++ [e] → comps w' !! ec_host ec = Some (ExtComponent p)) ∧ cells w' !! p = Some e.
Proof.
  unfold registerEach.
  assert (∀ x w, (p < length (cells w))%nat → ∃ w', (assign p x;; ignore (RegisterComponent (ExtComponent p))) w = (Ok tt, w') ∧
    comps w' = <[ec_host x := ExtComponent p]> (comps w) ∧ cells w' = <[p := x]> (cells w)) as Hone.
  { intros x w0 Hp0. eexists. unfold assign, ignore, RegisterComponent, put_comp, try, mbind, M_bind, gets, modify, mret, M_ret.
    simpl. split; [done|]. rewrite sl_comps, sl_cells_comps, sl_cells, sl_comps_cells.
    by rewrite list_lookup_insert_eq. }
  cut (∀ w, (p < length (cells w))%nat → let w' := (for_each (ecs ++ [e]) (fun ec => assign p ec;; ignore (RegisterComponent (ExtComponent p))) w).2 in
    (∀ h, h ∈ ec_host <$> ecs ++ [e] ∨ comps w !! h = Some (ExtComponent p) → comps w' !! h = Some (ExtComponent p)) ∧
    cells w' !! p = Some e).
  { intros Hall. destruct (Hall w Hp) as [Ha Hb]. split; [|done]. intros ec Hin. apply Ha. left. by apply list_elem_of_fmap_2. }
  clear w Hp. induction ecs as [|x ecs IH]; intros w Hp; cbn [app for_each].
  - destruct (Hone e w Hp) as (w1 & E & Ec & El). rewrite (bind_Ok _ _ _ tt w1 E). unfold mret, M_ret. cbn [snd].
    rewrite Ec, El. split; [|by rewrite list_lookup_insert_eq].
    intros h Hh. apply lookup_insert_Some. destruct (decide (ec_host e = h)); [by left|right]. set_solver.
  - destruct (Hone x w Hp) as (w1 & E & Ec & El). rewrite (bind_Ok _ _ _ tt w1 E).
    destruct (IH w1) as [Ha Hb]; [by rewrite El, length_insert|]. split; [|done].
    intros h Hh. apply Ha. rewrite Ec. destruct (decide (ec_host x = h)) as [<-|Hne].
    + right. by rewrite lookup_insert_eq.
    + rewrite lookup_insert_ne by done. set_solver.
Qed.

End proofs.
