(* ===== verification/ComponentIn.v ===== *)
(** * Streams of external components (src/pkg/component/xep0114)

    An external component connects, names its host in the stream header, proves that
    it knows the secret with the SHA-1 digest of the stream identifier and the secret,
    and is then registered as a component: the stanzas it sends are routed, and those
    for its host are sent to it. *)

From stdpp Require Import base list strings gmap.
From Stdlib Require Import ZArith Lia Ascii.
From S2P Require Import Prelude GoLib GoStrings Base64 Crypto GoHoare Stravaganza Hosts C2SModel Roster Storage Dialback ResourceManager MemRep ModLib Components.

Definition ExternalComponentRegistered : string := "ext_component.stream.registered".
Definition ExternalComponentUnregistered : string := "ext_component.stream.unregistered".
Definition ExternalComponentElementReceived : string := "ext_component.stream.element_received".

(** [inComponentState] *)
Inductive inComponentState := connecting | handshaking | authenticated | disconnected.
#[global] Instance inComponentState_eq_dec : EqDecision inComponentState.
Proof. solve_decision. Defined.

Record inConfig := MkInConfig { reqTimeout : Z; maxStanzaSize : Z; secret : string }.

Section stream.
Context `{XmlLib}.

(** [hook.ExternalComponentInfo] *)
Record ExternalComponentInfo := MkExtInfo { xi_ID : string; xi_Host : string; xi_Element : option Element }.

(** [inComponent]; [discTms] counts the disconnect timers that are pending and [done_]
    tells whether [doneCh] is closed.  The JID of a new stream is the empty one. *)
Record inComponent := MkInComponent {
  id : Z; cfg : inConfig; discTms : nat; done_ : bool; sendDisabled : bool; jd : option JID; state : inComponentState;
}.
Definition set_discTms (f : nat → nat) (s : inComponent) : inComponent :=
  MkInComponent (id s) (cfg s) (f (discTms s)) (done_ s) (sendDisabled s) (jd s) (state s).
Definition set_done (v : bool) (s : inComponent) : inComponent :=
  MkInComponent (id s) (cfg s) (discTms s) v (sendDisabled s) (jd s) (state s).
Definition set_sendDisabled (v : bool) (s : inComponent) : inComponent :=
  MkInComponent (id s) (cfg s) (discTms s) (done_ s) v (jd s) (state s).
Definition set_jd (v : option JID) (s : inComponent) : inComponent :=
  MkInComponent (id s) (cfg s) (discTms s) (done_ s) (sendDisabled s) v (state s).
Definition set_state (v : inComponentState) (s : inComponent) : inComponent :=
  MkInComponent (id s) (cfg s) (discTms s) (done_ s) (sendDisabled s) (jd s) v.
Definition domain_of (s : inComponent) : string := match jd s with Some j => Domain j | None => "" end.

(** What the stream calls (interface.go): session, transport, router, hub, hooks *)
Class CompInEnv (W : Type) := {
  ss_StreamID : W → string;
  ss_SetFromJID : JID → M W unit;
  ss_OpenComponent : M W unit;
  ss_Send : Element → M W unit;
  ss_Close : M W unit;
  ss_Reset : M W unit;
  tr_SetReadRateLimiter : Z * Z → M W unit;
  tr_Close : M W unit;
  rt_Route : Element → M W unit;
  hub_register : Z → W → W;
  hub_unregister : Z → W → W;
  hk_Run : string → ExternalComponentInfo → M W (bool * ExternalComponentInfo);
  shapers : list Shaper.Shaper;
}.

Section methods.
Context {W Conn : Type} `{!CompInEnv W} `{!HasComps W component} `{!HasCells W Conn} `{!CompNet W Conn} `{!KV W}.
Abbreviation MS := (M (inComponent * W)).

(** [inComponentID.String] *)
Definition idString (i : Z) : string := "ext_comp:" +:+ FormatUint i.

Definition newInComponent (i : Z) (c : inConfig) : M W inComponent :=
  tr_SetReadRateLimiter (Shaper.RateLimiter Shaper.DefaultS2S);;
  mret (MkInComponent i c 0 false false None connecting).

Definition getState : MS inComponentState := fld state.
Definition setState (v : inComponentState) : MS unit := setf (set_state v).
Definition runHook (name : string) (xi : ExternalComponentInfo) : MS (bool * ExternalComponentInfo) := onW (hk_Run name xi).

Definition sendElement (elem : Element) : MS unit :=
  disabled ← fld sendDisabled;
  if disabled : bool then mret tt else onW (ss_Send elem).

Definition restartSession : MS unit :=
  ignore (onW ss_Reset);;
  setState connecting.

Definition updateTransportRateLimiter : MS unit :=
  j ← fld jd;
  sh ← pureO (Shaper.MatchingJID shapers j);
  onW (tr_SetReadRateLimiter (Shaper.RateLimiter sh)).

Definition registerComponent : MS unit :=
  s ← fld (fun s => s);
  onW (RegisterComponent (StreamComponent (id s) (domain_of s)));;
  onW (RegisterComponentHost (domain_of s)).

Definition unregisterComponent : MS unit :=
  cHost ← fld domain_of;
  onW (UnregisterComponent cHost);;
  onW (UnregisterComponentHost cHost).

(** [close(s.doneCh)] *)
Definition closeDone : MS unit :=
  d ← fld done_;
  if d : bool then crash_with CloseOfClosedChannel else setf (set_done true).

(** [close]; the deferred close of [doneCh] runs on every return after it. *)
Definition close : MS unit :=
  st ← getState;
  if decide (st = disconnected) then mret tt
  else
    r ← try (
      setState disconnected;;
      st ← getState;
      cHost ← (if decide (st = authenticated) then unregisterComponent;; fld (fun s => match jd s with Some j => JIDString j | None => "" end)
               else mret "");
      i ← fld id;
      onW (modify (hub_unregister i));;
      _ ← runHook ExternalComponentUnregistered (MkExtInfo (idString i) cHost None);
      ignore (onW tr_Close));
    closeDone;;
    match r with inl e => fail e | inr _ => mret tt end.

Definition disconnect (streamErr : option stream_reason) : MS unit :=
  st ← getState;
  (if decide (st = connecting) then ignore (onW ss_OpenComponent) else mret tt);;
  match streamErr with
  | Some r => sendElement (StreamErrorElement r None)
  | None => mret tt
  end;;
  ignore (onW ss_Close);;
  st ← getState;
  if decide (st ≠ connecting ∧ streamErr = Some ConnectionTimeout) then
    setf (set_discTms S);;
    setf (set_sendDisabled true)
  else close.

Definition handleConnecting (elem : Element) : MS unit :=
  let cHost := Attribute elem AttrTo in
  if String.eqb cHost "" then disconnect (Some HostUnknown)
  else
    taken ← wfld (IsComponentHost cHost);
    if taken : bool then disconnect (Some Conflict)
    else
      j ← deref (NewJID "" cHost "" true);
      setf (set_jd (Some j));;
      onW (ss_SetFromJID j);;
      updateTransportRateLimiter;;
      setState handshaking;;
      ignore (onW ss_OpenComponent).

(** The digest that the component has to send. *)
Definition handshakeDigest (streamID secret : string) : string := hex_of sha1 (streamID +:+ secret).

Definition handleHandshaking (elem : Element) : MS unit :=
  if negb (String.eqb (Name elem) "handshake") then disconnect (Some UnsupportedStanzaType)
  else
    sid ← wfld ss_StreamID;
    c ← fld cfg;
    let hs := handshakeDigest sid (secret c) in
    if negb (String.eqb (Text elem) hs) then disconnect (Some NotAuthorized)
    else
      registerComponent;;
      setState authenticated;;
      sendElement (Build "handshake" [] [] "").

Definition handleAuthenticated (elem : Element) : MS unit :=
  if is_stanza elem then ignore (onW (rt_Route elem)) else disconnect (Some UnsupportedStanzaType).

Definition handleElement (elem : Element) : MS unit :=
  s ← fld (fun s => s);
  '(halted, hInf) ← runHook ExternalComponentElementReceived (MkExtInfo (idString (id s)) (domain_of s) (Some elem));
  if halted : bool then mret tt
  else
    st ← getState;
    match st with
    | connecting => e ← deref (xi_Element hInf); handleConnecting e
    | handshaking => e ← deref (xi_Element hInf); handleHandshaking e
    | authenticated =>
      match xi_Element hInf with
      | Some e => handleAuthenticated e
      | None => disconnect (Some UnsupportedStanzaType)
      end
    | disconnected => mret tt
    end.

Definition handleSessionError (err : goerror) : MS unit :=
  (if decide (err = ErrStreamClosedByPeer) then ignore (onW ss_Close) else mret tt);;
  ignore close.

Definition handleSessionResult (r : option (goerror + Element)) : MS unit :=
  match r with
  | Some (inr elem) => ignore (handleElement elem)
  | Some (inl err) => handleSessionError err
  | None => mret tt
  end.

Definition sendStanza (stanza : Element) : MS unit := sendElement stanza.
Definition shutdown : MS unit := disconnect (Some SystemShutdown).
Definition connTimeout : MS unit := ignore (disconnect (Some ConnectionTimeout)).

(** [start], up to the first iteration of [readLoop] *)
Definition start : MS unit :=
  i ← fld id;
  onW (modify (hub_register i));;
  _ ← runHook ExternalComponentRegistered (MkExtInfo (idString i) "" None);
  restartSession.

(** What can happen to a stream: a round of the read loop, which checks the state
    first, a stanza to send, the shutdown of the server, a timeout of the transport,
    or a disconnect timer. *)
Inductive event :=
  | EvSession (r : option (goerror + Element))
  | EvSend (stanza : Element)
  | EvShutdown
  | EvTimeout
  | EvDiscTimer.

Definition step (ev : event) : MS unit :=
  match ev with
  | EvSession r =>
    st ← getState;
    if decide (st = disconnected) then mret tt else handleSessionResult r
  | EvSend stanza => ignore (sendStanza stanza)
  | EvShutdown => ignore shutdown
  | EvTimeout => connTimeout
  | EvDiscTimer =>
    n ← fld discTms;
    match n with
    | O => mret tt
    | S _ => setf (set_discTms pred);; ignore close
    end
  end.

End methods.
End stream.
Arguments inComponent {_}.

(** ** Reasoning about streams *)
Section rules.
Context `{XmlLib} {W Conn : Type} `{!CompInEnv W} `{!HasComps W component} `{!HasCells W Conn} `{!CompNet W Conn} `{!KV W}.
Context (C : crash → Prop) (R : W → W → Prop) `{!PreOrder R}.

(** A call that changes the world by [R] and panics only as [C] allows. *)
Definition calm {A} (m : M W A) : Prop := keeps R m ∧ ∀ w c, (m w).1 = Crash c → C c.

(** The calls of a stream that has not authenticated. *)
Class InLaws : Prop := {
  il_SetFromJID : ∀ j, calm (ss_SetFromJID j);
  il_Open : calm ss_OpenComponent;
  il_Send : ∀ e, calm (ss_Send e);
  il_Close : calm ss_Close;
  il_Limit : ∀ l, calm (tr_SetReadRateLimiter l);
  il_trClose : calm tr_Close;
  il_hub : ∀ i w, R w (hub_unregister i w);
  il_hook : ∀ n xi, calm (hk_Run n xi);
  il_nil : C NilDeref;
}.
Context `{!InLaws}.

Context (P : inComponent * W → Prop).
Context (HR : ∀ s w w', R w w' → P (s, w) → P (s, w')).

Lemma inv_call {A} (m : M W A) : calm m → inv C P (onW m).
Proof. intros [Hk Hc]. by apply (inv_onW C R). Qed.

(** Closing: the stream ends up disconnected with [doneCh] closed. *)
Lemma close_cases s w : state s ≠ disconnected → done_ s = false →
  match close (s, w) with
  | (Crash c, _) => C c
  | (_, sw') => ∃ w', R w w' ∧ sw' = (set_done true (set_state disconnected s), w')
  end.
Proof.
  intros Hs Hd. unfold close, getState, fld, gets, setState, setf, modify, mbind, M_bind. cbn -[decide try].
  rewrite decide_False by done. unfold try. cbn -[decide].
  unfold runHook, onW. destruct (il_hook ExternalComponentUnregistered (MkExtInfo (idString (id s)) "" None)) as [Hk Hc].
  specialize (Hk (hub_unregister (id s) w)). specialize (Hc (hub_unregister (id s) w)).
  pose proof (il_hub (id s) w) as Hh. simpl.
  destruct (hk_Run _ _ _) as [[a|e|c] w1]; simpl in *; [| |by apply Hc].
  - unfold ignore, try, mbind, M_bind. destruct il_trClose as [Hkt Hct]. specialize (Hkt w1). specialize (Hct w1).
    destruct (tr_Close w1) as [[b|e|c] w2]; simpl in *; [..|by apply Hct];
      unfold closeDone, fld, gets, mbind, M_bind; simpl; rewrite Hd; simpl; exists w2; (split; [|done]);
      (transitivity (hub_unregister (id s) w); [done|]); by transitivity w1.
  - unfold closeDone, fld, gets, mbind, M_bind. simpl. rewrite Hd. simpl. exists w1. split; [|done].
    by transitivity (hub_unregister (id s) w).
Qed.

Lemma close_again s w : state s = disconnected → close (s, w) = (Ok tt, (s, w)).
Proof. intros Hs. unfold close, getState, fld, gets, mbind, M_bind. simpl. by rewrite decide_True. Qed.

(** What [P] has to allow. *)
Context (Hdone : ∀ s w, P (s, w) → state s ≠ disconnected → done_ s = false).
Context (Hclose : ∀ s w, P (s, w) → P (set_done true (set_state disconnected s), w)).
Context (Htimer : ∀ f s w, P (s, w) → P (set_discTms f s, w)).
Context (Hdis : ∀ s w, P (s, w) → P (set_sendDisabled true s, w)).
Context (Hshake : ∀ s w, P (s, w) → state s = connecting → P (set_state handshaking s, w)).
Context (Hjd : ∀ j s w, P (s, w) → P (set_jd j s, w)).

Lemma inv_close : inv C P close.
Proof.
  intros [s w] HP. destruct (decide (state s = disconnected)) as [Hs|Hs]; [by rewrite close_again|].
  pose proof (close_cases s w Hs (Hdone _ _ HP Hs)) as Hc.
  destruct (close (s, w)) as [[a|e|c] sw']; [..|done]; destruct Hc as (w' & Hw & ->); eapply HR; try done; by apply Hclose.
Qed.

Lemma inv_sendElement e : inv C P (sendElement e).
Proof. unfold sendElement. inv_walk. apply inv_call, il_Send. Qed.

Lemma inv_disconnect r : inv C P (disconnect r).
Proof.
  unfold disconnect, getState. inv_walk;
    first [apply inv_close|apply inv_sendElement|apply inv_call, il_Open|apply inv_call, il_Close
          |apply inv_setf; auto].
Qed.

End rules.

(** The first message: the state of a stream that is connecting is kept by the calls. *)
Section connecting.
Context `{XmlLib} {W Conn : Type} `{!CompInEnv W} `{!HasComps W component} `{!HasCells W Conn} `{!CompNet W Conn} `{!KV W}.
Context (C : crash → Prop) (R : W → W → Prop) `{!PreOrder R} `{!InLaws C R}.
Context (P : inComponent * W → Prop).
Context (HR : ∀ s w w', R w w' → P (s, w) → P (s, w')).
Context (Hdone : ∀ s w, P (s, w) → state s ≠ disconnected → done_ s = false).
Context (Hclose : ∀ s w, P (s, w) → P (set_done true (set_state disconnected s), w)).
Context (Htimer : ∀ f s w, P (s, w) → P (set_discTms f s, w)).
Context (Hdis : ∀ s w, P (s, w) → P (set_sendDisabled true s, w)).
Context (Hshake : ∀ s w, P (s, w) → state s = connecting → P (set_state handshaking s, w)).
Context (Hjd : ∀ j s w, P (s, w) → P (set_jd j s, w)).

Definition while_connecting (sw : inComponent * W) : Prop := P sw ∧ state sw.1 = connecting.

Lemma limiter_safe ss j c : Shaper.MatchingJID ss (Some j) ≠ Crash c.
Proof. induction ss as [|sh ss IH]; simpl; repeat case_match; done. Qed.

Lemma handleConnecting_keeps e : hoare C while_connecting (handleConnecting e) (fun _ => P) P.
Proof.
  assert (∀ r, hoare C while_connecting (disconnect r) (fun _ => P) P) as Hdisc.
  { intros r. eapply hoare_pre; [|apply (inv_disconnect C R P); auto]. by intros sw [HP _]. }
  unfold handleConnecting. destruct (String.eqb (Attribute e AttrTo) ""); [apply Hdisc|].
  eapply hoare_bind; [apply hoare_gets|]. intros taken. eapply (hoare_pre _ while_connecting); [by intros sw [HP _]|].
  destruct taken; [apply Hdisc|].
  intros [s w] [HP Hs]. destruct (NewJID "" (Attribute e AttrTo) "" true) as [j|]; simpl; [|by apply (il_nil C R)].
  unfold deref, mbind, M_bind. simpl. unfold onW.
  destruct (il_SetFromJID C R j) as [Hk1 Hc1]. specialize (Hk1 w). specialize (Hc1 w).
  destruct (ss_SetFromJID j w) as [[a|er|c] w1]; simpl in *; [|by eapply HR, Hjd|by apply Hc1].
  unfold updateTransportRateLimiter, fld, gets, pureO, mbind, M_bind. simpl.
  pose proof (limiter_safe shapers j) as Hl. destruct (Shaper.MatchingJID shapers (Some j)) as [sh|er|c]; simpl;
    [|by eapply HR, Hjd|by destruct (Hl c)].
  unfold onW. destruct (il_Limit C R (Shaper.RateLimiter sh)) as [Hk2 Hc2]. specialize (Hk2 w1). specialize (Hc2 w1).
  destruct (tr_SetReadRateLimiter _ w1) as [[b|er|c] w2]; simpl in *;
    [|by eapply HR; [transitivity w1|apply Hjd]|by apply Hc2].
  unfold ignore, try, mbind, M_bind. destruct (il_Open C R) as [Hk3 Hc3]. specialize (Hk3 w2). specialize (Hc3 w2). unfold onW.
  destruct (ss_OpenComponent w2) as [[b'|er|c] w3]; simpl in *; [..|by apply Hc3];
    (eapply HR; [transitivity w1; [done|]; by transitivity w2|]); apply Hshake; simpl; auto.
Qed.

End connecting.

(** ** Every event *)
Section events.
Context `{XmlLib} {W Conn : Type} `{!CompInEnv W} `{!HasComps W component} `{!HasCells W Conn} `{!CompNet W Conn} `{!KV W}.
Context (C : crash → Prop) (R : W → W → Prop) `{!PreOrder R} `{!InLaws C R}.

(** The calls of the handshake and of an authenticated stream. *)
Class AuthLaws : Prop := {
  al_Route : ∀ e, calm C R (rt_Route e);
  al_Register : ∀ i h, calm C R (RegisterComponent (StreamComponent i h));
  al_Put : ∀ k v, calm C R (kv_Put k v);
}.

Context (P : inComponent * W → Prop).
Class StreamInv : Prop := {
  si_world : ∀ s w w', R w w' → P (s, w) → P (s, w');
  si_done : ∀ s w, P (s, w) → state s ≠ disconnected → done_ s = false;
  si_close : ∀ s w, P (s, w) → P (set_done true (set_state disconnected s), w);
  si_timer : ∀ f s w, P (s, w) → P (set_discTms f s, w);
  si_dis : ∀ s w, P (s, w) → P (set_sendDisabled true s, w);
  si_shake : ∀ s w, P (s, w) → state s = connecting → P (set_state handshaking s, w);
  si_jd : ∀ j s w, P (s, w) → P (set_jd j s, w);
}.
Context `{!StreamInv}.

Lemma inv_disconnect' r : inv C P (disconnect r).
Proof. apply (inv_disconnect C R P); apply si_world || apply si_done || apply si_close || apply si_timer || apply si_dis. Qed.
Lemma inv_close' : inv C P close.
Proof. apply (inv_close C R P); apply si_world || apply si_done || apply si_close. Qed.
Lemma inv_call' {A} (m : M W A) : calm C R m → inv C P (onW m).
Proof. apply inv_call, si_world. Qed.
Lemma inv_send' e : inv C P (sendElement e).
Proof. apply (inv_sendElement C R P), si_world. Qed.
Lemma handleConnecting' e : hoare C (while_connecting P) (handleConnecting e) (fun _ => P) P.
Proof.
  apply (handleConnecting_keeps C R P); apply si_world || apply si_done || apply si_close || apply si_timer ||
    apply si_dis || apply si_shake || apply si_jd.
Qed.

(** An element that the handlers of the hook make of another. *)
Definition hook_gives (e e' : Element) : Prop := ∃ xi w xi' w', xi_Element xi = Some e ∧
  hk_Run ExternalComponentElementReceived xi w = (Ok (false, xi'), w') ∧ xi_Element xi' = Some e'.

(** A handler for each state, under the hook. *)
Lemma inv_handleElement e
    (Hhand : ∀ e', hook_gives e e' →
       hoare C (fun sw => P sw ∧ state sw.1 = handshaking) (handleHandshaking e') (fun _ => P) P)
    (Hauth : ∀ e', hoare C (fun sw => P sw ∧ state sw.1 = authenticated) (handleAuthenticated e') (fun _ => P) P) :
  inv C P (handleElement e).
Proof.
  intros [s w] HP. unfold handleElement, fld, gets, mbind, M_bind. simpl. unfold runHook, onW.
  destruct (il_hook C R ExternalComponentElementReceived (MkExtInfo (idString (id s)) (domain_of s) (Some e))) as [Hk Hc].
  specialize (Hk w). specialize (Hc w). destruct (hk_Run _ _ w) as [[[halted xi]|er|c] w1] eqn:Er; simpl in *;
    [|by eapply si_world|by apply Hc].
  assert (P (s, w1)) as HP1 by (by eapply si_world). destruct halted; [done|].
  unfold getState, fld, gets, mbind, M_bind. simpl.
  destruct (state s) eqn:Es; simpl; [| | |done].
  - destruct (xi_Element xi) as [e'|]; simpl; [|by apply (il_nil C R)]. by apply (handleConnecting' e' (s, w1)).
  - destruct (xi_Element xi) as [e'|] eqn:Ex; simpl; [|by apply (il_nil C R)]. apply (Hhand e'); [|done].
    by exists (MkExtInfo (idString (id s)) (domain_of s) (Some e)), w, xi, w1.
  - destruct (xi_Element xi) as [e'|]; simpl; [by apply (Hauth e' (s, w1))|by apply inv_disconnect'].
Qed.

(** The events other than an element. *)
Lemma inv_step ev : (∀ e, ev = EvSession (Some (inr e)) → inv C P (handleElement e)) → inv C P (step ev).
Proof.
  intros He. destruct ev as [r|st| | |]; simpl.
  - apply inv_bind; [apply inv_fld|]. intros st. case_decide; [apply inv_ret|].
    destruct r as [[err|e]|]; simpl; [|by apply inv_ignore, He|apply inv_ret].
    unfold handleSessionError. inv_walk; [apply inv_call', (il_Close C R)|apply inv_close'].
  - apply inv_ignore, inv_send'.
  - apply inv_ignore, inv_disconnect'.
  - apply inv_ignore, inv_disconnect'.
  - inv_walk; [apply inv_setf; apply si_timer|apply inv_close'].
Qed.

(** With the calls of an authenticated stream. *)
Context `{!AuthLaws} (Hauth : ∀ s w, P (s, w) → state s = handshaking → P (set_state authenticated s, w)).

Lemma registerComponent_keeps : inv C (fun sw => P sw ∧ state sw.1 = handshaking) registerComponent.
Proof.
  unfold registerComponent. apply inv_bind; [apply inv_fld|]. intros s.
  apply inv_bind; [|intros _]; apply (inv_call C R).
  - intros s' w w' Hw [HP Hs]. split; [by eapply si_world|done].
  - apply al_Register.
  - intros s' w w' Hw [HP Hs]. split; [by eapply si_world|done].
  - apply al_Put.
Qed.

Lemma handleHandshaking_keeps e :
  hoare C (fun sw => P sw ∧ state sw.1 = handshaking) (handleHandshaking e) (fun _ => P) P.
Proof.
  assert (∀ r, hoare C (fun sw => P sw ∧ state sw.1 = handshaking) (disconnect r) (fun _ => P) P) as Hdisc.
  { intros r. eapply hoare_pre; [|apply (inv_disconnect' r)]. by intros sw [HP _]. }
  unfold handleHandshaking. destruct (negb _); [apply Hdisc|].
  intros [s w] HP. unfold wfld, fld, gets, mbind, M_bind. simpl.
  destruct (negb _); [by apply (Hdisc (Some NotAuthorized) (s, w))|].
  pose proof (registerComponent_keeps (s, w) HP) as Hr.
  destruct (registerComponent (s, w)) as [[a|er|c] [s1 w1]]; simpl in *; [|by destruct Hr|done].
  apply inv_send'. destruct Hr. by apply Hauth.
Qed.

Lemma handleAuthenticated_keeps e :
  hoare C (fun sw => P sw ∧ state sw.1 = authenticated) (handleAuthenticated e) (fun _ => P) P.
Proof.
  apply (hoare_pre _ P); [by intros sw [HP _]|]. change (inv C P (handleAuthenticated e)).
  unfold handleAuthenticated. destruct (is_stanza e); [|apply inv_disconnect'].
  apply inv_ignore, inv_call', al_Route.
Qed.

Lemma inv_step_all ev : inv C P (step ev).
Proof.
  apply inv_step. intros e _. apply inv_handleElement; intros; [apply handleHandshaking_keeps|apply handleAuthenticated_keeps].
Qed.

End events.

(** ** Claims *)
Section claims.
Context `{XmlLib} {W Conn : Type} `{!CompInEnv W} `{!HasComps W component} `{!HasCells W Conn} `{!CompNet W Conn} `{!KV W}.

(** [doneCh] is closed when the stream is disconnected, and only then. *)
Definition done_ok (s : inComponent) : Prop := done_ s = true ↔ state s = disconnected.

Lemma done_ok_done s : done_ok s → state s ≠ disconnected → done_ s = false.
Proof. unfold done_ok. destruct (done_ s); naive_solver. Qed.

Lemma done_ok_state s v : done_ok s → state s ≠ disconnected → v ≠ disconnected → done_ok (set_state v s).
Proof. unfold done_ok. destruct (done_ s) eqn:E; simpl; rewrite E; naive_solver. Qed.

(** Any change of the world *)
Definition anyR (_ _ : W) : Prop := True.
#[export] Instance anyR_preorder : PreOrder anyR.
Proof. done. Qed.

(** Invariants of the stream and of a part of the world that [R] keeps. *)
Lemma done_inv (R : W → W → Prop) (Q : W → Prop) : (∀ w w', R w w' → Q w → Q w') →
  StreamInv R (fun sw => done_ok sw.1 ∧ Q sw.2).
Proof.
  intros HQ. split; simpl; try done.
  - intros s w w' Hw [Hd Hq]. split; [done|]. by eapply HQ.
  - intros s w [Hd _]. by apply done_ok_done.
  - intros s w [Hd Hq]. by split.
  - intros s w [Hd Hq] Hs. split; [|done]. apply done_ok_state; [done|congruence|done].
Qed.

Lemma run_inv (C : crash → Prop) (R : W → W → Prop) `{!PreOrder R} `{!InLaws C R} `{!AuthLaws C R} (Q : W → Prop) evs :
  (∀ w w', R w w' → Q w → Q w') →
  inv C (fun sw => done_ok sw.1 ∧ Q sw.2) (for_each evs step).
Proof.
  intros HQ. apply inv_for_each. intros ev _. pose proof (done_inv R Q HQ) as Hinv.
  apply (inv_step_all C R (fun sw => done_ok sw.1 ∧ Q sw.2)).
  intros s w [Hd Hq] Hs. split; [|done]. simpl. apply done_ok_state; [done|congruence|done].
Qed.

(** From its creation on, whatever elements, stanzas, timeouts and shutdowns
    come in whatever order, the channel of a component stream is closed exactly when
    the stream is disconnected, and it is never closed twice; no step panics in another
    way than the calls themselves do. *)
Theorem component_stream_invariant (C : crash → Prop) (HC : C CloseOfClosedChannel → False)
    `{!InLaws C anyR} `{!AuthLaws C anyR} (evs : list event) (s : inComponent) (w : W) (Hs : done_ok s) :
  match for_each evs step (s, w) with
  | (Ok _, (s', _)) => done_ok s'
  | (Err _, (s', _)) => done_ok s'
  | (Crash c, _) => C c ∧ c ≠ CloseOfClosedChannel
  end.
Proof.
  pose proof (run_inv C anyR (fun _ => True) evs ltac:(done) (s, w) ltac:(done)) as Hall.
  destruct (for_each evs step (s, w)) as [[a|e|c] [s' w']]; simpl in *; [naive_solver..|].
  split; [done|]. by intros ->.
Qed.

(** What the peers and the router see of a component stream: the registered hosts,
    what was routed, and the identifier of the stream. *)
Class RouteView := sent : W → list Element.
Context `{!RouteView}.
Definition unseen (w w' : W) : Prop := comps w' = comps w ∧ sent w' = sent w ∧ ss_StreamID w' = ss_StreamID w.
#[export] Instance unseen_preorder : PreOrder unseen.
Proof. split; [done|]. intros w1 w2 w3 (A1 & B1 & C1) (A2 & B2 & C2). unfold unseen. by rewrite A2, B2, C2. Qed.

(** An event that is not the handshake that the stream waits for. *)
Definition no_handshake (sid k : string) (ev : event) : Prop :=
  match ev with
  | EvSession (Some (inr e)) => ¬ (Name e = "handshake" ∧ Text e = handshakeDigest sid k)
  | _ => True
  end.

(** C22: Without the digest of the secret, nothing of an external component has an
    effect: as long as no handshake with the SHA-1 digest of the stream identifier and
    the secret arrives, the stream does not become authenticated, no component is
    registered and nothing is routed, provided that the handlers of the hook pass the
    elements on. *)
Theorem component_requires_handshake (C : crash → Prop) `{!InLaws C unseen} (evs : list event) (s s' : inComponent) (w w' : W) (r : outcome unit)
    (Hhook : ∀ e e' : Element, hook_gives e e' → e' = e)
    (Hs : done_ok s) (Hst : state s ≠ authenticated)
    (Hev : Forall (no_handshake (ss_StreamID w) (secret (cfg s))) evs)
    (Hrun : for_each evs step (s, w) = (r, (s', w'))) (Hr : ∀ c, r ≠ Crash c) :
  state s' ≠ authenticated ∧ comps w' = comps w ∧ sent w' = sent w.
Proof.
  set (P := fun sw : inComponent * W => done_ok sw.1 ∧ state sw.1 ≠ authenticated ∧ secret (cfg sw.1) = secret (cfg s) ∧
    unseen w sw.2).
  assert (StreamInv unseen P) as Hinv.
  { split; unfold P; simpl; [intros s0 w0|intros s0 w0|intros s0 w0|intros f s0 w0|intros s0 w0|intros s0 w0|intros j s0 w0].
    - intros w1 Hw (Hd & Hn & Hk & Hu). split; [done|]. split; [done|]. split; [done|]. by transitivity w0.
    - intros (Hd & _). by apply done_ok_done.
    - by intros (Hd & Hn & Hk & Hu).
    - done.
    - done.
    - intros (Hd & Hn & Hk & Hu) Hs0. split; [|done]. apply done_ok_state; [done|congruence|done].
    - done. }
  assert (inv C P (for_each evs step)) as Hall.
  { apply inv_for_each. intros ev Hin. rewrite Forall_forall in Hev. specialize (Hev ev Hin).
    apply (inv_step C unseen P). intros e ->. simpl in Hev. apply (inv_handleElement C unseen P).
    - intros e' ->%Hhook.
      assert (∀ r, hoare C (fun sw => P sw ∧ state sw.1 = handshaking) (disconnect r) (fun _ => P) P) as Hdisc.
      { intros r0. eapply hoare_pre; [|apply (inv_disconnect' C unseen P r0)]. by intros sw [HP _]. }
      unfold handleHandshaking. destruct (String.eqb_spec (Name e) "handshake") as [En|En]; simpl; [|apply Hdisc].
      intros [s0 w0] [HP Hs0]. unfold wfld, fld, gets, mbind, M_bind. simpl. destruct HP as (Hd & Hn & Hk & Hu).
      simpl in *. rewrite Hk. destruct Hu as (Hc & Hse & Hsid). rewrite Hsid.
      destruct (String.eqb_spec (Text e) (handshakeDigest (ss_StreamID w) (secret (cfg s)))) as [Et|Et]; [destruct Hev; by split|].
      by apply (Hdisc (Some NotAuthorized) (s0, w0)).
    - intros e' [s0 w0] [(_ & Hn & _) Hs0]. by destruct Hn. }
  specialize (Hall (s, w) ltac:(by unfold P)). rewrite Hrun in Hall.
  destruct r as [a|e|c]; [..|by destruct (Hr c)]; destruct Hall as (_ & Hn & _ & Hc & Hse & _); by repeat split.
Qed.

(** The hosts of the registry, which the stream only adds to. *)
Definition grows (w w' : W) : Prop := dom (comps w) ⊆ dom (comps w').
#[export] Instance grows_preorder : PreOrder grows.
Proof. split; [intros w; unfold grows; set_solver|]. intros w1 w2 w3 H1' H2'. unfold grows in *. set_solver. Qed.

(** [close] sets the state to disconnected before it compares it with
    authenticated: no event of a stream takes a component off the registry again,
    the end of its own stream included. *)
Theorem component_stays_registered (C : crash → Prop) `{!InLaws C grows} `{!AuthLaws C grows} (evs : list event)
    (s s' : inComponent) (w w' : W) (r : outcome unit) (h : string)
    (Hs : done_ok s) (Hh : IsComponentHost h w = true)
    (Hrun : for_each evs step (s, w) = (r, (s', w'))) (Hr : ∀ c, r ≠ Crash c) :
  IsComponentHost h w' = true.
Proof.
  assert (∀ w, IsComponentHost h w = true ↔ h ∈ dom (comps w)) as Hin.
  { intros w0. unfold IsComponentHost. rewrite elem_of_dom. destruct (comps w0 !! h); simpl; [|rewrite is_Some_alt; done].
    split; by eauto. }
  pose proof (run_inv C grows (fun w => h ∈ dom (comps w)) evs ltac:(unfold grows; set_solver) (s, w)) as Hall.
  simpl in Hall. rewrite <-Hin, Hrun in Hall. specialize (Hall (conj Hs Hh)).
  destruct r as [a|e|c]; [..|by destruct (Hr c)]; apply Hin; by destruct Hall.
Qed.

End claims.

(** ** The hub and the listener (streamhub.go, socket_listener.go) *)
Module StreamHub.
Definition t := gmap Z unit.
Definition newInHub : t := ∅.
Definition register (i : Z) (h : t) : t := <[i := tt]> h.
Definition unregister (i : Z) (h : t) : t := delete i h.
(** The streams that [stop] shuts down. *)
Definition streams (h : t) : list Z := (map_to_list h).*1.
End StreamHub.

Record ListenerConfig := MkListenerConfig {
  BindAddr : string; Port : Z; ConnectTimeout : Z; KeepAliveTimeout : Z; RequestTimeout : Z; MaxStanzaSize : Z;
}.
(** [SocketListener], without the objects it only passes on *)
Record SocketListener := MkListener { l_cfg : ListenerConfig; l_secretKey : string }.

(** [newSocketListener]: the literal does not set [secretKey] *)
Definition newSocketListener (c : ListenerConfig) (secretKey : string) : SocketListener := MkListener c "".
Definition NewListeners (cs : list ListenerConfig) (secretKey : string) : list SocketListener :=
  map (fun c => newSocketListener c secretKey) cs.
Definition getAddress (l : SocketListener) : string := BindAddr (l_cfg l) +:+ ":" +:+ Itoa (Port (l_cfg l)).

Section listener.
Context `{XmlLib} {W Conn : Type} `{!CompInEnv W} `{!HasComps W component} `{!HasCells W Conn} `{!CompNet W Conn} `{!KV W}.

(** [handleConn] up to the first iteration of the read loop; [i] is the next stream
    identifier.  Errors are logged. *)
Definition handleConn (l : SocketListener) (i : Z) (w : W) : option (inComponent * W) :=
  match newInComponent i (MkInConfig (RequestTimeout (l_cfg l)) (MaxStanzaSize (l_cfg l)) (l_secretKey l)) w with
  | (Ok s, w1) => match start (s, w1) with (Ok _, sw) => Some sw | _ => None end
  | _ => None
  end.

(** The configured secret does not reach the streams: a stream of a listener that was
    made with any secret compares the handshake with the digest of the stream
    identifier alone, which the peer is told in the stream header. *)
Theorem secret_is_ignored (c : ListenerConfig) (secretKey : string) (i : Z) (w w1 : W) (s : inComponent)
    (Hnew : newInComponent i (MkInConfig (RequestTimeout c) (MaxStanzaSize c) (l_secretKey (newSocketListener c secretKey))) w = (Ok s, w1))
    (s' : inComponent) (w' : W) (e : Element) (Hcfg : cfg s' = cfg s)
    (Hname : Name e = "handshake") (Htext : Text e = hex_of sha1 (ss_StreamID w')) :
  handleHandshaking e (s', w') =
    (registerComponent;; setState authenticated;; sendElement (Build "handshake" [] [] "")) (s', w').
Proof.
  unfold newInComponent in Hnew. inv_bind Hnew as u w2 Hl. injection Hnew as <- <-.
  unfold handleHandshaking. rewrite Hname. cbn [String.eqb Ascii.eqb Bool.eqb negb].
  rewrite (bind_Ok (wfld ss_StreamID) _ (s', w') (ss_StreamID w') (s', w') eq_refl).
  rewrite (bind_Ok (fld cfg) _ (s', w') (cfg s') (s', w') eq_refl). cbv zeta.
  rewrite Hcfg. cbn [cfg secret newSocketListener l_secretKey]. unfold handshakeDigest.
  by rewrite string_app_nil, <-Htext, String.eqb_refl.
Qed.

End listener.

(** ** A server with components in memory *)
Module CompDemo.
Import TreeLib.

Record cworld := MkCWorld {
  cw_comps : gmap string component; cw_cells : list (extComponent string);
  cw_sent : list XElement; cw_routed : list (string * XElement); cw_id : string;
}.
#[export] Instance demo_comps : HasComps cworld component := {|
  comps := cw_comps; set_comps := fun m w => MkCWorld m (cw_cells w) (cw_sent w) (cw_routed w) (cw_id w) |}.
#[export] Instance demo_cells : HasCells cworld string := {|
  cells := cw_cells; set_cells := fun l w => MkCWorld (cw_comps w) l (cw_sent w) (cw_routed w) (cw_id w) |}.
Definition log_sent (e : XElement) (w : cworld) : cworld :=
  MkCWorld (cw_comps w) (cw_cells w) (cw_sent w ++ [e]) (cw_routed w) (cw_id w).
Definition log_routed (c : string) (e : XElement) (w : cworld) : cworld :=
  MkCWorld (cw_comps w) (cw_cells w) (cw_sent w) (cw_routed w ++ [(c, e)]) (cw_id w).
(** Connections are named after their instances; this instance is i0. *)
#[export] Instance demo_net : @CompNet tree_jid tree_xml cworld string := {|
  cn_sendStanza := fun _ e => modify (log_sent e);
  cn_Route := fun c e h => modify (log_routed (c +:+ " " +:+ h) e);
  cn_GetConnection := fun i => mret i;
  cn_instanceID := "i0";
|}.
#[export] Instance demo_kv : KV cworld := NopKV.nop cworld.
#[export] Instance demo_env : @CompInEnv tree_jid tree_xml cworld := {|
  ss_StreamID := cw_id; ss_SetFromJID := fun _ => mret tt; ss_OpenComponent := mret tt;
  ss_Send := fun e => modify (log_sent e); ss_Close := mret tt; ss_Reset := mret tt;
  tr_SetReadRateLimiter := fun _ => mret tt; tr_Close := mret tt;
  rt_Route := fun e => modify (log_routed "" e);
  hub_register := fun _ w => w; hub_unregister := fun _ w => w;
  hk_Run := fun _ xi => mret (false, xi);
  shapers := [];
|}.
#[export] Instance demo_sent : @RouteView tree_jid tree_xml cworld := fun w => map snd (cw_routed w).

Definition nil_crash (c : crash) : Prop := c = NilDeref.
Lemma demo_in (R : cworld → cworld → Prop) `{!PreOrder R} : (∀ e w, R w (log_sent e w)) → InLaws nil_crash R.
Proof.
  intros Hs. split; try done; intros; (split; [|by intros w c]); intros w; simpl; try reflexivity. apply Hs.
Qed.
Lemma demo_auth (R : cworld → cworld → Prop) `{!PreOrder R} :
  (∀ c e w, R w (log_routed c e w)) → (∀ h c w, R w (set_comps (<[h := c]> (comps w)) w)) → AuthLaws nil_crash R.
Proof.
  intros Hr Hc. split; intros; (split; [|by intros w c]); intros w; simpl; [apply Hr|apply Hc|reflexivity].
Qed.

Definition empty : cworld := MkCWorld ∅ [] [] [] "stream-1".
Definition muc_stream (k : string) : @inComponent tree_jid :=
  MkInComponent 1 (MkInConfig 0 0 k) 0 false false None connecting.
Definition header : XElement := TNode "stream:stream" [("to", "muc.jackal.im")] [] "" None.
Definition shake (digest : string) : XElement := TNode "handshake" [] [] digest None.
Definition login (k : string) : list (@event tree_jid tree_xml) :=
  [EvSession (Some (inr header)); EvSession (Some (inr (shake (handshakeDigest "stream-1" k))))].
Definition after (evs : list event) (sw : inComponent * cworld) := for_each evs step sw.

(** A component logs in and its peer closes the stream. *)
Definition visit : list event := login "s3cret" ++ [EvSession (Some (inl ErrStreamClosedByPeer)); EvTimeout].
Lemma component_stream_invariant_witness :
  done_ok (after visit (muc_stream "s3cret", empty)).2.1 ∧ done_ (after visit (muc_stream "s3cret", empty)).2.1 = true.
Proof.
  split; [|vm_cast_no_check (eq_refl true)].
  pose proof (@component_stream_invariant tree_jid tree_xml cworld string demo_env demo_comps demo_cells demo_net demo_kv
    nil_crash ltac:(done) (demo_in anyR (fun _ _ => I)) (demo_auth anyR (fun _ _ _ => I) (fun _ _ _ => I)) visit (muc_stream "s3cret") empty
    ltac:(by split)) as Hall.
  replace (for_each visit step (muc_stream "s3cret", empty)) with
    (@Ok unit tt, (after visit (muc_stream "s3cret", empty)).2) in Hall by (vm_cast_no_check (eq_refl (after visit (muc_stream "s3cret", empty)))).
  destruct (after visit (muc_stream "s3cret", empty)).2 as [s' w']. exact Hall.
Defined.

(** A component with the wrong secret. *)
Lemma guess_is_wrong : Forall (no_handshake "stream-1" "s3cret") (login "guess").
Proof.
  unfold login. apply Forall_cons. split.
  - intros [En _]. vm_compute in En. discriminate En.
  - apply Forall_cons. split; [|apply Forall_nil; exact I]. intros [_ Et].
    assert (String.eqb (handshakeDigest "stream-1" "guess") (handshakeDigest "stream-1" "s3cret") = false) as Hne
      by (vm_compute; reflexivity).
    assert (∀ d, Text (shake d) = d) as Ht by reflexivity.
    rewrite Ht in Et. rewrite Et, String.eqb_refl in Hne. discriminate Hne.
Qed.
Lemma component_requires_handshake_witness :
  comps (after (login "guess") (muc_stream "s3cret", empty)).2.2 = comps empty.
Proof.
  assert (∀ e e' : XElement, hook_gives e e' → e' = e) as Hhook.
  { intros e e' (xi & w & xi' & w' & E1 & [= <- <-] & E2). congruence. }
  apply (@component_requires_handshake tree_jid tree_xml cworld string demo_env demo_comps demo_cells demo_net demo_kv demo_sent
    nil_crash (demo_in unseen ltac:(done)) (login "guess") (muc_stream "s3cret")
    (after (login "guess") (muc_stream "s3cret", empty)).2.1 empty
    (after (login "guess") (muc_stream "s3cret", empty)).2.2 (Ok tt) Hhook).
  - by split.
  - done.
  - apply guess_is_wrong.
  - vm_cast_no_check (eq_refl (after (login "guess") (muc_stream "s3cret", empty))).
  - done.
Defined.

(** After the visit the host is still taken: a second stream for it is refused. *)
Theorem component_cannot_return :
  let w := (after visit (muc_stream "s3cret", empty)).2.2 in
  IsComponentHost "muc.jackal.im" w = true ∧
  cw_sent (after [EvSession (Some (inr header))] (muc_stream "s3cret", w)).2.2 =
    cw_sent w ++ [StreamErrorElement Conflict None].
Proof.
  split; [vm_cast_no_check (eq_refl true)|].
  vm_cast_no_check (eq_refl (cw_sent (after [EvSession (Some (inr header))]
    (muc_stream "s3cret", (after visit (muc_stream "s3cret", empty)).2.2)).2.2)).
Qed.

(** Two streams that announce the same host before either has authenticated are both
    accepted, and the second takes the host over. *)
Theorem second_handshake_takes_over :
  let '(_, (s1, w1)) := after [EvSession (Some (inr header))] (muc_stream "k", empty) in
  let '(_, (_, w2)) := after (login "k") (MkInComponent 2 (MkInConfig 0 0 "k") 0 false false None connecting, w1) in
  let '(r, (s1', w3)) := after [EvSession (Some (inr (shake (handshakeDigest "stream-1" "k"))))] (s1, w2) in
  comps w2 !! "muc.jackal.im" = Some (StreamComponent 2 "muc.jackal.im") ∧
  comps w3 !! "muc.jackal.im" = Some (StreamComponent 1 "muc.jackal.im").
Proof. vm_compute. split; reflexivity. Qed.

(** *** The components of the cluster *)
#[export] Instance demo_laws : @StoreLaws tree_jid tree_xml cworld string demo_comps demo_cells demo_net Some.
Proof. split; try done. by intros i w c w' [= <- <-]. Qed.
Definition announced : list WatchEvent :=
  [MkEvent WPut "ec://muc.jackal.im" "i=i1"; MkEvent WPut "ec://pubsub.jackal.im" "i=i2";
   MkEvent WPut "ec://own.jackal.im" "i=i0"; MkEvent WDel "ec://muc.jackal.im" ""].
Lemma components_follow_cluster_witness :
  targets (processKVEvents announced empty).2 = {["pubsub.jackal.im" := inr (MkExt "pubsub.jackal.im" "i2")]}.
Proof.
  pose proof (@components_follow_cluster tree_jid tree_xml cworld string demo_comps demo_cells demo_net Some demo_laws
    announced empty (processKVEvents announced empty).2 ltac:(done) eq_refl) as [Ht _].
  rewrite Ht. vm_compute. reflexivity.
Defined.

(** At start-up both hosts of the other instances end up behind the connection and
    the host of the last one. *)
Definition snapshot (_ : string) : M cworld (list (string * string)) :=
  mret [("ec://muc.jackal.im", "i=i1"); ("ec://pubsub.jackal.im", "i=i2")].
Theorem snapshot_misroutes :
  targets (refreshExternalComponents snapshot empty).2 =
    {["muc.jackal.im" := inr (MkExt "pubsub.jackal.im" "i2"); "pubsub.jackal.im" := inr (MkExt "pubsub.jackal.im" "i2")]}.
Proof. vm_compute. reflexivity. Qed.

End CompDemo.
