(* ===== verification/Accounts.v ===== *)
(** * Last activity, private storage, vCards, version and time

    The modules of src/pkg/module/xep0012, xep0049, xep0054, xep0092 and xep0202, which
    answer IQs from the repository or from what the server knows. *)

From stdpp Require Import base list strings gmap.
From Stdlib Require Import ZArith Lia.
From S2P Require Import Prelude GoLib GoStrings GoHoare Stravaganza C2SModel Roster Storage Members Repository MemRep ModLib ModDemo.
Local Open Scope Z_scope.

(** ** Last activity (src/pkg/module/xep0012/last.go) *)
Module LastActivity.
Definition lastActivityNamespace : string := "jabber:iq:last".
Definition MatchesNamespace (namespace : string) (_ : bool) : bool := String.eqb namespace lastActivityNamespace.

Section module.
Context `{XmlMore} `{!JidMore} {W : Type} `{!ModEnv W} `{!Rep W}.
(** [time.Time.Unix], and the time at which the module was started *)
Context (Unix : Z → Z) (startedAt : Z).

Definition isSubscribedTo (contactJID userJID : JID) : M W bool :=
  if MatchesBare contactJID userJID then mret true
  else
    ri ← rep_FetchRosterItem (Node contactJID) (JIDString (ToBareJID userJID));
    mret (match ri with
          | Some ri => String.eqb (Subscription ri) SubFrom || String.eqb (Subscription ri) SubBoth
          | None => false
          end).

Definition processIncomingIQ (iq : Element) : M W unit :=
  let toJID := ToJID iq in
  if negb (me_IsLocalHost (Domain toJID)) || negb (IsFullWithUser toJID) || negb (has_child iq "query" lastActivityNamespace)
  then mret tt
  else
    ok ← isSubscribedTo toJID (FromJID iq);
    if negb ok then refuse iq SEForbidden;; fail ErrStopped else mret tt.

(** [onElementRecv], for both kinds of streams *)
Definition onElementRecv : M (ExecCtx * W) unit :=
  e ← fld ex_Element;
  match stanza_as KIQ e with Some iq => onW (processIncomingIQ iq) | None => mret tt end.

Definition onUserDeleted (username : string) : M W unit := rep_DeleteLast username.

Definition processC2SPresence (pr : Element) : M W unit :=
  if negb (IsUnavailable pr) || negb (IsBare (ToJID pr)) || negb (String.eqb (Node (FromJID pr)) (Node (ToJID pr)))
  then mret tt
  else now ← me_Now; rep_UpsertLast (MkLast (Node (FromJID pr)) (Unix now) (Status pr)).
Definition onC2SPresenceRecv (elem : option Element) : M W unit :=
  match stanza_as KPresence elem with Some pr => processC2SPresence pr | None => crash_with BadTypeAssertion end.

Definition sendReply (iq : Element) (seconds : Z) (status : string) : M W unit :=
  route (MakeResultIQ iq (Some (Build "query"
    [(Namespace, lastActivityNamespace); ("seconds", Itoa seconds)] [] status))).

Definition getServerLastActivity (iq : Element) : M W unit :=
  now ← me_Now;
  sendReply iq (int64 (Unix now - startedAt)) "";;
  me_runHook (EvLast (Node (FromJID iq)) (ToJID iq)).

Definition getAccountLastActivity (iq : Element) : M W unit :=
  ok ← isSubscribedTo (ToJID iq) (FromJID iq);
  if negb ok then refuse iq SEForbidden
  else
    rss ← me_GetResources (Node (ToJID iq));
    if (0 <? length rss)%nat then sendReply iq 0 ""
    else
      lst ← rep_FetchLast (Node (ToJID iq));
      match lst with
      | None => refuse iq SEItemNotFound
      | Some lst =>
        now ← me_Now;
        sendReply iq (int64 (Unix now - la_Seconds lst)) (la_Status lst);;
        me_runHook (EvLast (Node (FromJID iq)) (ToJID iq))
      end.

Definition getLastActivity (iq : Element) : M W unit :=
  if IsServer (ToJID iq) then getServerLastActivity iq else getAccountLastActivity iq.
Definition ProcessIQ (iq : Element) : M W unit :=
  if IsGet iq && has_child iq "query" lastActivityNamespace then getLastActivity iq else refuse iq SEBadRequest.

(** ** What is answered *)
Context `{!RouteLog W} `{!RouteLaws W}.

(** The last activity of an account that is offline: the time since it went offline
    and its last status, for the account itself and those whose subscription the
    account granted. *)
Theorem last_activity_answered (pr iq : Element) (w w1 wa wb w2 w3 w4 w5 w' : W) (t0 t1 : Z)
    (Hnow : me_Now w = (Ok t0, wa)) (Hput : processC2SPresence pr w = (Ok tt, w1))
    (Hpr : IsUnavailable pr = true) (Hbare : IsBare (ToJID pr) = true) (Hown : Node (FromJID pr) = Node (ToJID pr))
    (Hacc : Node (ToJID iq) = Node (ToJID pr))
    (Hsub : isSubscribedTo (ToJID iq) (FromJID iq) w2 = (Ok true, w3))
    (Hoff : me_GetResources (Node (ToJID iq)) w3 = (Ok [], w4))
    (Hread : ∀ l, rep_UpsertLast l wa = (Ok tt, w1) → rep_FetchLast (la_Username l) w4 = (Ok (Some l), w5))
    (Hnow1 : me_Now w5 = (Ok t1, wb))
    (Hget : getAccountLastActivity iq w2 = (Ok tt, w')) :
  ∃ e, routed w' = routed wb ++ [e] ∧
    MakeResultIQ iq (Some (Build "query" [(Namespace, lastActivityNamespace); ("seconds", Itoa (int64 (Unix t1 - Unix t0)))]
      [] (Status pr))) = Some e.
Proof.
  unfold processC2SPresence in Hput. rewrite Hpr, Hbare, Hown, String.eqb_refl in Hput. simpl in Hput.
  rewrite (bind_Ok _ _ _ t0 wa Hnow) in Hput. apply Hread in Hput. simpl in Hput.
  unfold getAccountLastActivity in Hget. rewrite (bind_Ok _ _ _ true w3 Hsub) in Hget. simpl in Hget.
  rewrite (bind_Ok _ _ _ [] w4 Hoff) in Hget. simpl in Hget. rewrite Hacc, (bind_Ok _ _ _ _ w5 Hput) in Hget.
  rewrite (bind_Ok _ _ _ t1 wb Hnow1) in Hget. inv_bind Hget as u w6 Hs. destruct u.
  unfold sendReply in Hs. apply route_ok in Hs as (e & He & Hl). exists e. split; [|exact He].
  apply (keeps_run same_routed) in Hget; [|apply rl_runHook]. unfold same_routed in Hget. congruence.
Qed.

End module.
End LastActivity.

(** ** Private storage (src/pkg/module/xep0049/private.go) *)
Module Private.
Definition privateNamespace : string := "jabber:iq:private".
Definition PrivateFetched : string := "private.fetched".
Definition PrivateUpdated : string := "private.updated".
Definition MatchesNamespace (namespace : string) (serverTarget : bool) : bool :=
  if serverTarget then false else String.eqb namespace privateNamespace.
Definition isValidNamespace (ns : string) : bool :=
  negb (String.eqb ns "") && negb (String.prefix "jabber:" ns) && negb (String.prefix "http://jabber.org/" ns) &&
  negb (String.eqb ns "vcard-temp").

Section module.
Context `{XmlLib} {W : Type} `{!ModEnv W} `{!Rep W}.

Definition getPrivate (iq q : Element) : M W unit :=
  match AllChildren q with
  | [prv] =>
    let ns := Attribute prv Namespace in
    if (0 <? ChildrenCount prv)%nat || negb (isValidNamespace ns) then refuse iq SENotAcceptable
    else
      let username := Node (FromJID iq) in
      prvElem ← or_internal iq (rep_FetchPrivate ns username);
      route (MakeResultIQ iq (Some (Build "query" [(Namespace, privateNamespace)]
        [Build (Name prv) [(Namespace, ns)] (match prvElem with Some p => AllChildren p | None => [] end) ""] "")));;
      me_runHook (EvPrivate PrivateFetched username prvElem)
  | _ => refuse iq SENotAcceptable
  end.

(** The loop of [setPrivate]; it stops at the first element with a bad name space. *)
Fixpoint setEach (iq : Element) (username : string) (prvs : list Element) : M W unit :=
  match prvs with
  | [] => route (MakeResultIQ iq None)
  | prv :: prvs' =>
    let ns := Attribute prv Namespace in
    if negb (isValidNamespace ns) then refuse iq SENotAcceptable
    else
      or_internal iq (rep_UpsertPrivate prv ns username);;
      me_runHook (EvPrivate PrivateUpdated username (Some prv));;
      setEach iq username prvs'
  end.
Definition setPrivate (iq q : Element) : M W unit :=
  if Nat.eqb (ChildrenCount q) 0 then refuse iq SENotAcceptable
  else setEach iq (Node (FromJID iq)) (AllChildren q).

Definition ProcessIQ (iq : Element) : M W unit :=
  if negb (MatchesBare (FromJID iq) (ToJID iq)) then refuse iq SEForbidden
  else
    match ChildNamespace iq "query" privateNamespace with
    | Some q => if IsGet iq then getPrivate iq q else if IsSet iq then setPrivate iq q else refuse iq SEBadRequest
    | None => refuse iq SEBadRequest
    end.
Definition onUserDeleted (username : string) : M W unit := rep_DeletePrivates username.

End module.

Section proofs.
Context `{XmlLib} {W : Type} `{!ModEnv W} `{!Rep W} `{!RouteLog W} `{!RouteLaws W}.

(** What is stored for a user, by name space; only a write changes it. *)
Class PrivateView := privates : W → string → gmap string Element.
Context `{!PrivateView}.
Definition same_privates (w w' : W) : Prop := ∀ u, privates w' u = privates w u.
#[local] Instance same_privates_preorder : PreOrder same_privates.
Proof. split; [done|]. intros w1 w2 w3 E1 E2 u. by rewrite E2, E1. Qed.
Class PrivateRepo : Prop := {
  pv_upsert : ∀ e ns u w w', rep_UpsertPrivate e ns u w = (Ok tt, w') →
    privates w' u = <[ns := e]> (privates w u) ∧ (∀ v, v ≠ u → privates w' v = privates w v);
  pv_fetch : ∀ ns u w r w', rep_FetchPrivate ns u w = (Ok r, w') → r = privates w u !! ns ∧ same_routed w w';
  pv_route : ∀ e, keeps same_privates (me_Route e);
  pv_hook : ∀ ev, keeps same_privates (me_runHook ev);
}.
Context `{!PrivateRepo}.

Lemma keeps_route_privates p : keeps same_privates (route p).
Proof. unfold route. keeps_auto. apply pv_route. Qed.

Definition stored_after (prvs : list Element) (m : gmap string Element) : gmap string Element :=
  foldl (fun m prv => <[Attribute prv Namespace := prv]> m) m prvs.

Lemma setEach_stores iq u prvs w w' : Forall (fun p => isValidNamespace (Attribute p Namespace) = true) prvs →
  setEach iq u prvs w = (Ok tt, w') →
  privates w' u = stored_after prvs (privates w u) ∧ ∀ v, v ≠ u → privates w' v = privates w v.
Proof.
  intros Hv. revert w. induction Hv as [|p prvs Hp Hv IH]; intros w Hr.
  - cbn [setEach] in Hr. apply (keeps_run same_privates) in Hr; [|apply keeps_route_privates].
    split; [apply Hr|]. intros v _. apply Hr.
  - cbn [setEach] in Hr. rewrite Hp in Hr. cbn [negb] in Hr. inv_bind Hr as u1 w1 Hu. destruct u1.
    apply or_internal_inv, pv_upsert in Hu as [Eu Eo]. inv_bind Hr as u2 w2 Hh.
    apply (keeps_run same_privates) in Hh; [|apply pv_hook]. apply IH in Hr as [Hs Ho].
    split; [by rewrite Hs, Hh, Eu|]. intros v Hne. by rewrite Ho, Hh, Eo.
Qed.

(** What a user stores privately is what the user is given back.  After a set
    request that succeeds, a get request for one of the name spaces is answered with
    the children of the last element of the request that has this name space, or, when
    it has none, with those of what was stored before, under the name that was asked
    for; the storage of the other users does not change. *)
Theorem private_roundtrip (iq iq' q q' prv : Element) (w w1 w2 : W)
    (Hown : MatchesBare (FromJID iq) (ToJID iq) = true) (Hown' : MatchesBare (FromJID iq') (ToJID iq') = true)
    (Hsame : Node (FromJID iq') = Node (FromJID iq))
    (Hq : ChildNamespace iq "query" privateNamespace = Some q) (Hset : IsSet iq = true) (Hnget : IsGet iq = false)
    (Hq' : ChildNamespace iq' "query" privateNamespace = Some q') (Hget : IsGet iq' = true)
    (Hsome : AllChildren q ≠ []) (Hv : Forall (fun p => isValidNamespace (Attribute p Namespace) = true) (AllChildren q))
    (Hone : AllChildren q' = [prv]) (Hempty : AllChildren prv = []) (Hns : isValidNamespace (Attribute prv Namespace) = true)
    (Hrun : ProcessIQ iq w = (Ok tt, w1)) (Hrun' : ProcessIQ iq' w1 = (Ok tt, w2)) :
  let u := Node (FromJID iq) in
  let ns := Attribute prv Namespace in
  (∃ e, routed w2 = routed w1 ++ [e] ∧
     ResultIQ iq' [Build "query" [(Namespace, privateNamespace)]
       [Build (Name prv) [(Namespace, ns)]
          (match stored_after (AllChildren q) (privates w u) !! ns with Some p => AllChildren p | None => [] end) ""] ""] = Some e) ∧
  ∀ v, v ≠ u → privates w1 v = privates w v.
Proof.
  unfold ProcessIQ in Hrun. rewrite Hown, Hq, Hset, Hnget in Hrun. cbn [negb] in Hrun.
  unfold setPrivate, ChildrenCount in Hrun. destruct (AllChildren q) as [|c cs] eqn:Ec; [done|].
  cbn [length Nat.eqb] in Hrun. apply setEach_stores in Hrun as [Hst Ho]; [|done].
  intros u ns. split; [|exact Ho].
  unfold ProcessIQ in Hrun'. rewrite Hown', Hq', Hget in Hrun'. cbn [negb] in Hrun'.
  unfold getPrivate, ChildrenCount in Hrun'. rewrite Hone, Hempty, Hns in Hrun'. cbn [length Nat.ltb Nat.leb negb orb] in Hrun'.
  inv_bind Hrun' as p w3 Hp. apply or_internal_inv, pv_fetch in Hp as [-> Hl]. rewrite Hsame, Hst in Hrun'.
  inv_bind Hrun' as u2 w4 Hr. destruct u2. apply route_ok in Hr as (e & He & Hl').
  apply (keeps_run same_routed) in Hrun'; [|apply rl_runHook]. exists e. split; [|exact He].
  unfold same_routed in *. congruence.
Qed.

End proofs.
End Private.

(** ** vCards (src/pkg/module/xep0054/vcard.go) *)
Module VCard.
Definition vCardNamespace : string := "vcard-temp".
Definition VCardFetched : string := "vcard.fetched".
Definition VCardUpdated : string := "vcard.updated".
Definition MatchesNamespace (namespace : string) (_ : bool) : bool := String.eqb namespace vCardNamespace.

Section module.
Context `{XmlLib} {W : Type} `{!ModEnv W} `{!Rep W}.

Definition getVCard (iq : Element) : M W unit :=
  match ChildNamespace iq "vCard" vCardNamespace with
  | None => refuse iq SEBadRequest
  | Some vc =>
    if (0 <? ChildrenCount vc)%nat then refuse iq SEBadRequest
    else
      vCard ← or_internal iq (rep_FetchVCard (Node (ToJID iq)));
      route (MakeResultIQ iq (Some (default (Build "vCard" [(Namespace, vCardNamespace)] [] "") vCard)));;
      me_runHook (EvVCard VCardFetched (Node (ToJID iq)) vCard)
  end.

Definition setVCard (iq : Element) : M W unit :=
  match ChildNamespace iq "vCard" vCardNamespace with
  | None => refuse iq SEBadRequest
  | Some vCard =>
    let allowed := IsServer (ToJID iq) || String.eqb (Node (ToJID iq)) (Node (FromJID iq)) in
    if negb allowed then refuse iq SEForbidden
    else
      or_internal iq (rep_UpsertVCard vCard (Node (ToJID iq)));;
      route (MakeResultIQ iq None);;
      me_runHook (EvVCard VCardUpdated (Node (ToJID iq)) (Some vCard))
  end.

Definition ProcessIQ (iq : Element) : M W unit :=
  if IsGet iq then getVCard iq else if IsSet iq then setVCard iq else mret tt.
Definition onUserDeleted (username : string) : M W unit := rep_DeleteVCard username.

End module.
End VCard.

(** ** Version and time (src/pkg/module/xep0092/version.go, xep0202/time.go) *)
Module Version.
Definition versionNamespace : string := "jabber:iq:version".
Definition MatchesNamespace (namespace : string) (serverTarget : bool) : bool :=
  if negb serverTarget then false else String.eqb namespace versionNamespace.
(** [version.Version] (src/pkg/version/version.go) *)
Definition serverVersion : SemanticVersion := NewVersion 0 62 2.

Section module.
Context `{XmlLib} {W : Type} `{!ModEnv W}.
(** The configuration and what [Start] reads of the operating system *)
Context (ShowOS : bool) (osInfo : string).

Definition getVersion (iq : Element) : M W unit :=
  match ChildNamespace iq "query" versionNamespace with
  | None => refuse iq SEBadRequest
  | Some q =>
    if (0 <? ChildrenCount q)%nat then refuse iq SEBadRequest
    else
      route (MakeResultIQ iq (Some (Build "query" [(Namespace, versionNamespace)]
        ([Build "name" [] [] "jackal"; Build "version" [] [] (TrimPrefix (VersionString serverVersion) "v")] ++
         (if ShowOS then [Build "os" [] [] osInfo] else [])) "")))
  end.
Definition ProcessIQ (iq : Element) : M W unit :=
  if IsGet iq then getVersion iq else if IsSet iq then refuse iq SEForbidden else mret tt.

End module.
End Version.

Module Time.
Definition timeNamespace : string := "urn:xmpp:time".
Definition MatchesNamespace (namespace : string) (serverTarget : bool) : bool :=
  if negb serverTarget then false else String.eqb namespace timeNamespace.

Section module.
Context `{XmlLib} {W : Type} `{!ModEnv W}.
(** [time.Time.Format] with the layouts of the zone offset and, after [UTC], of the time *)
Context (formatZone formatUTC : Z → string).

Definition reportServerTime (iq : Element) : M W unit :=
  tm ← me_Now;
  route (MakeResultIQ iq (Some (Build "time" [(Namespace, timeNamespace)]
    [Build "tzo" [] [] (formatZone tm); Build "utc" [] [] (formatUTC tm)] ""))).
Definition ProcessIQ (iq : Element) : M W unit :=
  if IsGet iq && has_child iq "time" timeNamespace then reportServerTime iq else refuse iq SEBadRequest.

End module.
End Time.

(** ** On the server in memory *)
Module AccountsDemo.
Import TreeLib TreeMore.

#[export] Instance demo_privates : @Private.PrivateView tree_jid tree_xml server :=
  fun w u => default ∅ (m_private (sv_mem w) !! u).
#[export] Instance demo_repo : @Private.PrivateRepo tree_jid tree_xml server server_env map_rep server_log demo_privates.
Proof.
  split.
  - intros e ns u [[]] w' [= <-]. unfold Private.privates, demo_privates. simpl.
    split; [by rewrite lookup_insert_eq|]. intros v Hv. by rewrite lookup_insert_ne.
  - intros ns u [[]] r w' [= <- <-]. split; [|done]. unfold Private.privates, demo_privates. simpl.
    by destruct (_ !! u).
  - by intros e [].
  - by intros ev [].
Qed.

Definition own (typ : string) (q : XElement) : XElement :=
  TNode "iq" [("type", typ); ("from", "romeo@jackal.im/garden"); ("to", "romeo@jackal.im")] [q] "" (Some KIQ).
Definition prefs (children : list XElement) : XElement := TNode "prefs" [("xmlns", "exodus:prefs")] children "" None.
Definition query (children : list XElement) : XElement :=
  TNode "query" [("xmlns", Private.privateNamespace)] children "" None.
Definition nick : XElement := TNode "nick" [] [] "Romeo" None.
Definition set_iq : XElement := own "set" (query [prefs [nick]]).
Definition get_iq : XElement := own "get" (query [prefs []]).
Definition after_set : server := (Private.ProcessIQ set_iq empty_server).2.
Definition after_get : server := (Private.ProcessIQ get_iq after_set).2.

Lemma private_roundtrip_witness : ∃ e, routed after_get = routed after_set ++ [e] ∧
  ResultIQ get_iq [Build "query" [(Namespace, Private.privateNamespace)] [Build "prefs" [(Namespace, "exodus:prefs")] [nick] ""] ""] = Some e.
Proof.
  destruct (@Private.private_roundtrip tree_jid tree_xml server server_env map_rep server_log server_routes demo_privates demo_repo
    set_iq get_iq (query [prefs [nick]]) (query [prefs []]) (prefs []) empty_server after_set after_get) as [(e & Hl & He) _];
    [vm_cast_no_check (eq_refl true)|vm_cast_no_check (eq_refl true)|done|vm_cast_no_check (eq_refl (Some (query [prefs [nick]])))
    |vm_cast_no_check (eq_refl true)|vm_cast_no_check (eq_refl false)|vm_cast_no_check (eq_refl (Some (query [prefs []])))
    |vm_cast_no_check (eq_refl true)|done|by repeat constructor|done|done|vm_cast_no_check (eq_refl true)| | |].
  - vm_cast_no_check (eq_refl (Private.ProcessIQ set_iq empty_server)).
  - vm_cast_no_check (eq_refl (Private.ProcessIQ get_iq after_set)).
  - exists e. by split.
Defined.

(** A set request with a good and a bad name space is refused, but the good part is
    stored. *)
Theorem refused_set_is_half_done :
  let w := (Private.ProcessIQ (own "set" (query [prefs [nick]; TNode "x" [] [] "" None])) empty_server).2 in
  map (fun e => t_attr e "type") (sv_routed w) = ["error"] ∧ Private.privates w "romeo" !! "exodus:prefs" = Some (prefs [nick]).
Proof. split; [vm_cast_no_check (eq_refl ["error"])|vm_cast_no_check (eq_refl (Some (prefs [nick])))]. Qed.

(** The owner of a vCard is told by the name alone: a user of another server replaces
    the vCard of its namesake, and everybody that of the server. *)
Definition vcard : XElement := TNode "vCard" [("xmlns", "vcard-temp")] [TNode "FN" [] [] "Nobody" None] "" None.
Definition vcard_iq (to : string) : XElement :=
  TNode "iq" [("type", "set"); ("from", "romeo@evil.org/x"); ("to", to)] [vcard] "" (Some KIQ).
Theorem namesake_replaces_vcard :
  m_vcard (sv_mem (VCard.ProcessIQ (vcard_iq "romeo@jackal.im") empty_server).2) !! "romeo" = Some vcard ∧
  m_vcard (sv_mem (VCard.ProcessIQ (vcard_iq "jackal.im") empty_server).2) !! "" = Some vcard.
Proof. split; vm_cast_no_check (eq_refl (Some vcard)). Qed.

End AccountsDemo.
