(* ===== verification/Ping.v ===== *)
(** * Pings (src/pkg/module/xep0199/ping.go)

    The module pings a client that has been silent for a while and, when it is
    configured to, disconnects one that does not answer.  The Go timers are explicit:
    [running] are those that will fire, by a number, and the two maps hold the numbers
    under the JID, as the code holds the pointers. *)

From stdpp Require Import base list strings gmap.
From Stdlib Require Import ZArith Lia.
From S2P Require Import Prelude GoLib GoHoare Stravaganza C2SModel Roster Storage Repository MemRep ModLib ModDemo.

Definition pingNamespace : string := "urn:xmpp:ping".
Definition killAction : string := "kill".
Record Config := MkConfig { AckTimeout : Z; Interval : Z; SendPings : bool; TimeoutAction : string }.
Definition MatchesNamespace (namespace : string) (_ : bool) : bool := String.eqb namespace pingNamespace.

Inductive timer_kind := TPing | TAck.

Section module.
Context `{XmlMore} {W : Type} `{!ModEnv W}.
Context (cfg : Config) (Disconnect : Z → stream_reason → M W unit).

(** ** Requests *)
Definition isPingIQ (iq : Element) : bool := IsGet iq && has_child iq "ping" pingNamespace.
Definition sendPongReply (pingIQ : Element) : M W unit := route (MakeResultIQ pingIQ None).
Definition ProcessIQ (iq : Element) : M W unit :=
  if isPingIQ iq then sendPongReply iq else refuse iq SEBadRequest.

(** ** Timers *)
Record Ping := MkPing {
  pingTimers : gmap string nat;
  ackTimers : gmap string nat;
  running : gmap nat (timer_kind * JID);
  next : nat;
}.
Definition New : Ping := MkPing ∅ ∅ ∅ 0.
Abbreviation MS := (M (Ping * W)).

(** [time.AfterFunc], whose timer is stored under the JID *)
Definition arm_ping (jd : JID) (p : Ping) : Ping :=
  MkPing (<[JIDString jd := next p]> (pingTimers p)) (ackTimers p) (<[next p := (TPing, jd)]> (running p)) (S (next p)).
Definition arm_ack (jd : JID) (p : Ping) : Ping :=
  MkPing (pingTimers p) (<[JIDString jd := next p]> (ackTimers p)) (<[next p := (TAck, jd)]> (running p)) (S (next p)).
(** [Stop] of a timer that is stored, if there is one *)
Definition stop (o : option nat) (r : gmap nat (timer_kind * JID)) : gmap nat (timer_kind * JID) :=
  match o with Some t => delete t r | None => r end.
Definition cancel (jk : string) (p : Ping) : Ping :=
  MkPing (delete jk (pingTimers p)) (delete jk (ackTimers p))
    (stop (ackTimers p !! jk) (stop (pingTimers p !! jk) (running p))) (next p).
Definition expire (t : nat) (p : Ping) : Ping :=
  MkPing (pingTimers p) (ackTimers p) (delete t (running p)) (next p).

Definition schedulePing (jd : JID) : MS unit := setf (arm_ping jd).
Definition cancelTimers (jd : JID) : MS unit := setf (cancel (JIDString jd)).

(** [sendPing], in its two parts: the ping is routed, and then, under the mutex, the
    timer that waits for the answer is set. *)
Definition pingIQ (uid : string) (jd : JID) : option Element :=
  BuildStanza KIQ [(AttrID, uid); (AttrType, GetType); (AttrFrom, Domain jd); (AttrTo, JIDString jd)]
    [Build "ping" [(Namespace, "urn:xmpp:ping")] [] ""].
Definition routePing (jd : JID) : MS unit :=
  uid ← onW me_uuid;
  onW (route (pingIQ uid jd)).
Definition armAck (jd : JID) : MS unit := setf (arm_ack jd).
Definition sendPing (jd : JID) : MS unit := routePing jd;; armAck jd.

Definition timeout (jd : JID) : MS unit :=
  if String.eqb (TimeoutAction cfg) killAction then
    stm ← onW (try (me_LocalStream (Node jd) (Resource jd)));
    match stm with
    | inr stm => ignore (onW (Disconnect stm ConnectionTimeout))
    | inl _ => mret tt
    end
  else mret tt.

(** ** Hooks *)
Definition onBinded (jd : JID) : MS unit := schedulePing jd.
Definition onRecvElement (binded : bool) (jd : JID) : MS unit :=
  if negb binded then mret tt else cancelTimers jd;; schedulePing jd.
Definition onDisconnect (jd : option JID) : MS unit :=
  match jd with Some jd => cancelTimers jd | None => mret tt end.

(** What can happen; a timer fires when it is running. *)
Inductive event :=
  | EvBinded (jd : JID)
  | EvRecv (binded : bool) (jd : JID)
  | EvDisconnect (jd : option JID)
  | EvFire (t : nat).
Definition step (ev : event) : MS unit :=
  match ev with
  | EvBinded jd => onBinded jd
  | EvRecv b jd => onRecvElement b jd
  | EvDisconnect jd => onDisconnect jd
  | EvFire t =>
    p ← fld (fun p => p);
    match running p !! t with
    | None => mret tt
    | Some (TPing, jd) => setf (expire t);; sendPing jd
    | Some (TAck, jd) => setf (expire t);; timeout jd
    end
  end.

(** ** Who is disconnected *)

(** The clients that have been pinged and not heard of since. *)
Definition silent_after (p : Ping) (ev : event) (silent : gset string) : gset string :=
  match ev with
  | EvBinded _ => silent
  | EvRecv b jd => if b then silent ∖ {[JIDString jd]} else silent
  | EvDisconnect (Some jd) => silent ∖ {[JIDString jd]}
  | EvDisconnect None => silent
  | EvFire t => match running p !! t with Some (TPing, jd) => {[JIDString jd]} ∪ silent | _ => silent end
  end.

(** A stream is bound under a JID when no timer of an earlier stream is known for it. *)
Definition allowed (p : Ping) (ev : event) : Prop :=
  match ev with
  | EvBinded jd => pingTimers p !! JIDString jd = None ∧ ackTimers p !! JIDString jd = None
  | _ => True
  end.

(** The states that a module reaches, with the silent clients. *)
Inductive reach : Ping → W → gset string → Prop :=
  | reach_start w : reach New w ∅
  | reach_world p w w' S : reach p w S → reach p w' S
  | reach_step p w S ev r p' w' : reach p w S → allowed p ev →
      step ev (p, w) = (r, (p', w')) → (∀ c, r ≠ Crash c) → reach p' w' (silent_after p ev S).

(** A timer that runs is the one that is known for its JID, a client that is waited
    for is silent, and a client that is waited for is not due to be pinged. *)
Record ping_inv (p : Ping) (S : gset string) : Prop := {
  pi_fresh : ∀ t x, running p !! t = Some x → (t < next p)%nat;
  pi_ping : ∀ t jd, running p !! t = Some (TPing, jd) → pingTimers p !! JIDString jd = Some t;
  pi_ack : ∀ t jd, running p !! t = Some (TAck, jd) → ackTimers p !! JIDString jd = Some t ∧ JIDString jd ∈ S;
  pi_excl : ∀ t t' jd jd', running p !! t = Some (TPing, jd) → running p !! t' = Some (TAck, jd') →
    JIDString jd ≠ JIDString jd';
}.

Lemma stop_some o r t x : stop o r !! t = Some x → o ≠ Some t ∧ r !! t = Some x.
Proof.
  destruct o as [t'|]; simpl; [|done]. intros [Hne Hl]%lookup_delete_Some. split; [congruence|done].
Qed.

(** After [cancelTimers] no timer runs for the JID, and the others are as before. *)
Lemma cancel_running p S jk t k jd : ping_inv p S → running (cancel jk p) !! t = Some (k, jd) →
  running p !! t = Some (k, jd) ∧ JIDString jd ≠ jk.
Proof.
  intros [Hf Hp Ha He]. simpl. intros [Hna [Hnp Hl]%stop_some]%stop_some. split; [done|].
  intros <-. destruct k; [by apply Hp in Hl|by apply Ha in Hl as [Hl _]].
Qed.

Lemma cancel_inv p S jk : ping_inv p S → ping_inv (cancel jk p) (S ∖ {[jk]}).
Proof.
  intros Hinv. pose proof Hinv as [Hf Hp Ha He].
  assert (∀ t x, running (cancel jk p) !! t = Some x → running p !! t = Some x) as Hsub.
  { intros t [k jd] Hl. by apply (cancel_running p S) in Hl as [Hl _]. }
  split; simpl.
  - intros t x Hl. by eapply Hf, Hsub.
  - intros t jd Hl. apply (cancel_running p S) in Hl as [Hl Hne]; [|done]. rewrite lookup_delete_ne by done. by apply Hp.
  - intros t jd Hl. apply (cancel_running p S) in Hl as [Hl Hne]; [|done]. rewrite lookup_delete_ne by done.
    apply Ha in Hl. set_solver.
  - intros t t' jd jd' Hl Hl'. by eapply He; apply Hsub.
Qed.

(** A ping is scheduled for a JID for which no timer runs. *)
Lemma arm_ping_inv p S jd : ping_inv p S → (∀ t k jd', running p !! t = Some (k, jd') → JIDString jd' ≠ JIDString jd) →
  ping_inv (arm_ping jd p) S.
Proof.
  intros [Hf Hp Ha He] Hno. split; simpl.
  - intros t x [[<- _]|[_ Hl]]%lookup_insert_Some; [lia|]. apply Hf in Hl. lia.
  - intros t jd' [[<- [= <-]]|[_ Hl]]%lookup_insert_Some; [by rewrite lookup_insert_eq|].
    rewrite lookup_insert_ne by (by apply not_eq_sym; eapply Hno). by apply Hp.
  - intros t jd' [[_ ?]|[_ Hl]]%lookup_insert_Some; [done|by apply Ha].
  - intros t t' jd1 jd2 Hl [[_ ?]|[_ Hl']]%lookup_insert_Some; [done|].
    apply lookup_insert_Some in Hl as [[_ [= <-]]|[_ Hl]]; [by apply not_eq_sym; eapply Hno|by eapply He].
Qed.

Lemma expire_inv p S t : ping_inv p S → ping_inv (expire t p) S.
Proof.
  intros [Hf Hp Ha He]. split; simpl; intros *; rewrite ?lookup_delete_Some; naive_solver.
Qed.

(** When the timer of a ping has fired, no other timer runs for its JID. *)
Lemma fired_none p S t jd : ping_inv p S → running p !! t = Some (TPing, jd) →
  ∀ t' k jd', running (expire t p) !! t' = Some (k, jd') → JIDString jd' ≠ JIDString jd.
Proof.
  intros [Hf Hp Ha He] Ht t' k jd' Hl E. simpl in Hl. apply lookup_delete_Some in Hl as [Hne Hl]. destruct k.
  - apply Hp in Hl, Ht. congruence.
  - by eapply (He t t').
Qed.

Lemma arm_ack_inv p S jd : ping_inv p S → (∀ t k jd', running p !! t = Some (k, jd') → JIDString jd' ≠ JIDString jd) →
  ping_inv (arm_ack jd p) ({[JIDString jd]} ∪ S).
Proof.
  intros [Hf Hp Ha He] Hno. split; simpl.
  - intros t x [[<- _]|[_ Hl]]%lookup_insert_Some; [lia|]. apply Hf in Hl. lia.
  - intros t jd' [[_ ?]|[_ Hl]]%lookup_insert_Some; [done|by apply Hp].
  - intros t jd' [[<- [= <-]]|[_ Hl]]%lookup_insert_Some; [rewrite lookup_insert_eq; set_solver|].
    rewrite lookup_insert_ne by (by apply not_eq_sym; eapply Hno). apply Ha in Hl. set_solver.
  - intros t t' jd1 jd2 [[_ ?]|[_ Hl]]%lookup_insert_Some Hl'; [done|].
    apply lookup_insert_Some in Hl' as [[_ [= <-]]|[_ Hl']]; [by eapply Hno|by eapply He].
Qed.

Lemma inv_mono p S S' : ping_inv p S → S ⊆ S' → ping_inv p S'.
Proof. intros [Hf Hp Ha He] HS. split; [done..| |done]. intros t jd Hl. apply Ha in Hl. set_solver. Qed.

(** The world does not change the timers. *)
Lemma routePing_run jd p w r p' w' : routePing jd (p, w) = (r, (p', w')) → p' = p.
Proof.
  unfold routePing, onW, mbind, M_bind. destruct (me_uuid w) as [[u|e|c] w1]; [|by intros [= _ <- _]..].
  destruct (route _ w1) as [r1 w2]. by intros [= _ <- _].
Qed.
Lemma timeout_run jd p w r p' w' : timeout jd (p, w) = (r, (p', w')) → p' = p.
Proof.
  unfold timeout. destruct (String.eqb _ _); [|by intros [= _ <- _]].
  unfold onW, ignore, try, mbind, M_bind. destruct (me_LocalStream _ _ w) as [[u|e|c] w1]; [|by intros [= _ <- _]..].
  destruct (Disconnect u ConnectionTimeout w1) as [[]w2]; by intros [= _ <- _].
Qed.

Lemma step_inv ev p w S r p' w' : ping_inv p S → allowed p ev → step ev (p, w) = (r, (p', w')) → (∀ c, r ≠ Crash c) →
  ping_inv p' (silent_after p ev S).
Proof.
  intros Hinv Hal Hst Hr. destruct ev as [jd|b jd|jd|t]; simpl in *.
  - injection Hst as _ <- _. destruct Hal as [Hp Ha]. apply arm_ping_inv; [done|].
    intros t k jd' Hl E. destruct k; [apply (pi_ping _ _ Hinv) in Hl|apply (pi_ack _ _ Hinv) in Hl as [Hl _]]; congruence.
  - unfold onRecvElement in Hst. destruct b; simpl in Hst; injection Hst as _ <- _; [|done].
    apply arm_ping_inv; [by apply cancel_inv|]. intros t k jd' Hl. by apply (cancel_running p S) in Hl as [_ Hne].
  - destruct jd as [jd|]; simpl in Hst; injection Hst as _ <- _; [by apply cancel_inv|done].
  - unfold mbind at 1, M_bind at 1 in Hst. simpl in Hst. destruct (running p !! t) as [[k jd]|] eqn:Ht;
      [|by injection Hst as _ <- _].
    pose proof (expire_inv p S t Hinv) as Hexp. destruct k.
    + unfold mbind at 1, M_bind at 1 in Hst. simpl in Hst. unfold sendPing in Hst. unfold mbind at 1, M_bind at 1 in Hst.
      destruct (routePing jd (expire t p, w)) as [[u|e|c] [p1 w1]] eqn:Ep; [..|injection Hst as <- _ _; by destruct (Hr c)];
        apply routePing_run in Ep as ->; injection Hst as _ <- _.
      * apply arm_ack_inv; [done|]. by eapply fired_none.
      * eapply inv_mono; [done|set_solver].
    + unfold mbind at 1, M_bind at 1 in Hst. simpl in Hst. by apply timeout_run in Hst as ->.
Qed.

Lemma reach_inv p w S : reach p w S → ping_inv p S.
Proof.
  induction 1 as [w|p w w' S _ IH|p w S ev r p' w' _ IH Hal Hst Hr]; [|done|by eapply step_inv].
  split; simpl; intros *; rewrite lookup_empty; done.
Qed.

(** The streams that the module has asked to end *)
Class KillLog := killed : W → list Z.
Context `{!KillLog}.
Definition same_killed (w w' : W) : Prop := killed w' = killed w.
Class KillLaws : Prop := {
  kl_uuid : keeps same_killed me_uuid;
  kl_route : ∀ e, keeps same_killed (me_Route e);
}.
Context `{!KillLaws}.


End module.

(** ** A client that answers at once *)
Module PingDemo.
Import TreeLib TreeMore.

Definition Disconnect (stm : Z) (_ : stream_reason) : M server unit := modify (log_sent stm (TNode "end" [] [] "" None)).
Definition kill_config : Config := MkConfig 32 60 true killAction.
Definition garden : @JID tree_jid := MkJid "romeo" "jackal.im" "garden".
Definition home : server := MkServer no_mem no_mail [] [] ∅ [("romeo", "garden")] ∅ 0.
#[export] Instance demo_killed : @KillLog server := fun w => (sv_sent w).*1.
#[export] Instance demo_laws : @KillLaws tree_jid tree_xml server server_env demo_killed.
Proof. split; [by intros []|by intros e []]. Qed.
Definition do (ev : @event tree_jid) : M (Ping * server) unit := step kill_config Disconnect ev.

(** A client that does not answer its ping is ended. *)
Definition bound := (do (EvBinded garden) (New, home)).2.
Definition pinged := (do (EvFire 0) bound).2.

(** The pong can arrive before the timer that waits for it is set: nothing then stops
    this timer, and the client is ended although it answered. *)
Theorem early_pong_is_ended :
  let run := setf (expire 0);; routePing garden;; do (EvRecv true garden);; armAck garden;; do (EvFire 2) in
  killed (run bound).2.2 = [0%Z].
Proof. vm_compute. reflexivity. Qed.

(** The same when the client leaves in between: the timer ends the next stream that
    is bound under the same JID. *)
Theorem late_timer_ends_next_stream :
  let run := setf (expire 0);; routePing garden;; do (EvDisconnect (Some garden));; armAck garden;;
    do (EvBinded garden);; do (EvFire 1) in
  killed (run bound).2.2 = [0%Z].
Proof. vm_compute. reflexivity. Qed.

End PingDemo.
