(* ===== verification/ModuleTable.v ===== *)
(** * The modules of the server together

    Which name spaces the IQ processors answer for (their [MatchesNamespace]), under
    the names that the configuration uses (src/pkg/jackal/modules.go), and that the
    order in which the configuration lists them does not matter. *)

From stdpp Require Import base list strings sets.
From Stdlib Require Import ZArith Lia.
From S2P Require Import Prelude GoLib Stravaganza C2SModel Roster Storage Repository MemRep ModLib ModDemo Modules Blocklist Mam Carbons Disco Accounts Ping.

Definition iq_table : list (string * (string → bool → bool)) :=
  [("roster", Roster.MatchesNamespace); ("last", LastActivity.MatchesNamespace); ("disco", Disco.MatchesNamespace);
   ("private", Private.MatchesNamespace); ("vcard", VCard.MatchesNamespace); ("version", Version.MatchesNamespace);
   ("blocklist", Blocklist.MatchesNamespace); ("ping", Ping.MatchesNamespace); ("time", Time.MatchesNamespace);
   ("carbons", Carbons.MatchesNamespace); ("mam", Mam.MatchesNamespace)].

(** The entries by name space *)
Definition namespaces : list (string * string) :=
  [("roster", "jabber:iq:roster"); ("last", "jabber:iq:last");
   ("disco", "http://jabber.org/protocol/disco#info"); ("disco", "http://jabber.org/protocol/disco#items");
   ("private", "jabber:iq:private"); ("vcard", "vcard-temp"); ("version", "jabber:iq:version");
   ("blocklist", "urn:xmpp:blocking"); ("ping", "urn:xmpp:ping"); ("time", "urn:xmpp:time");
   ("carbons", "urn:xmpp:carbons:2"); ("mam", "urn:xmpp:mam:2")].

Lemma table_namespace n f ns server : (n, f) ∈ iq_table → f ns server = true → (n, ns) ∈ namespaces.
Proof.
  unfold iq_table, namespaces. rewrite !elem_of_cons.
  intros Hin Hf. repeat destruct Hin as [[= -> ->]|Hin]; [..|by apply not_elem_of_nil in Hin];
    try (match type of Hf with ?g ns server = true => unfold g in Hf end);
    repeat match type of Hf with
    | (if ?b then _ else _) = true => destruct b; [try discriminate Hf|try discriminate Hf]
    | _ || _ = true => apply orb_true_iff in Hf as [Hf|Hf]
    end; try discriminate Hf; apply String.eqb_eq in Hf as ->; rewrite ?elem_of_cons; tauto.
Qed.

(** No name space belongs to two entries. *)
Lemma table_disjoint n f n' f' ns server : (n, f) ∈ iq_table → (n', f') ∈ iq_table →
  f ns server = true → f' ns server = true → n = n'.
Proof.
  intros Hf Hf' E E'. pose proof (table_namespace _ _ _ _ Hf E) as Hn. pose proof (table_namespace _ _ _ _ Hf' E') as Hn'.
  assert (NoDup (map snd namespaces)) as Hnd by (apply (bool_decide_unpack _); by vm_compute).
  by pose proof (NoDup_fmap_inj snd namespaces _ _ Hnd Hn Hn' eq_refl) as [= <-].
Qed.

(** ** Configuration *)
Definition defaultModules : list string :=
  ["roster"; "offline"; "last"; "disco"; "private"; "vcard"; "version"; "caps"; "blocklist"; "stream_mgmt"; "ping";
   "carbons"; "mam"].

Section init.
Context `{XmlMore} `{!JidMore} {W : Type} `{!ModEnv W}.
(** [modFns]: the modules by name *)
Context (modFns : string → option (Module_ W)).

Fixpoint selectModules (names : list string) : outcome (list (Module_ W)) :=
  match names with
  | [] => Ok []
  | n :: names' =>
    match modFns n with
    | None => Err (ErrText ("main: unrecognized module name: " +:+ n))
    | Some m => match selectModules names' with Ok ms => Ok (m :: ms) | r => r end
    end
  end.
Definition initModules (enabled : list string) : outcome (Modules W) :=
  match selectModules (if Nat.eqb (length enabled) 0 then defaultModules else enabled) with
  | Ok ms => Ok (NewModules ms)
  | Err e => Err e
  | Crash c => Crash c
  end.

(** The modules have the names they are known by, and their processors those name
    spaces. *)
Class TableLaws : Prop := {
  tl_name : ∀ n m, modFns n = Some m → mod_Name m = n;
  tl_table : ∀ n m p, modFns n = Some m → mod_Processor m = Some p → (n, iq_MatchesNamespace p) ∈ iq_table;
}.
Context `{!TableLaws}.

Lemma select_spec names ms : selectModules names = Ok ms → Forall2 (fun n m => modFns n = Some m) names ms.
Proof.
  revert ms. induction names as [|n names IH]; intros ms; simpl; [by intros [= <-]|].
  destruct (modFns n) as [m|] eqn:E; [|done]. destruct (selectModules names) as [ms'| |]; [|done..].
  intros [= <-]. constructor; auto.
Qed.
Lemma select_in names ms m : selectModules names = Ok ms → m ∈ ms → modFns (mod_Name m) = Some m.
Proof.
  intros Hs%select_spec Hm. induction Hs as [|n m' names ms' Hf Hs IH]; [by apply not_elem_of_nil in Hm|].
  apply elem_of_cons in Hm as [->|Hm]; [|by apply IH]. by rewrite (tl_name _ _ Hf).
Qed.
Lemma select_disjoint names ms : selectModules names = Ok ms → disjoint (setupModules ms).
Proof.
  intros Hs ns server p q Hp Hq Hmp Hmq. unfold setupModules in Hp, Hq.
  apply list_elem_of_omap in Hp as (m & Hm & Hp), Hq as (m' & Hm' & Hq).
  apply (select_in _ _ _ Hs) in Hm, Hm'.
  pose proof (table_disjoint _ _ _ _ _ _ (tl_table _ _ _ Hm Hp) (tl_table _ _ _ Hm' Hq) Hmp Hmq) as E.
  rewrite E in Hm. congruence.
Qed.

Lemma select_perm names names' ms ms' : names ≡ₚ names' → selectModules names = Ok ms → selectModules names' = Ok ms' →
  ms ≡ₚ ms'.
Proof.
  intros Hp Hs%select_spec Hs'%select_spec.
  assert (∀ l l', Forall2 (fun n m => modFns n = Some m) l l' → omap modFns l = l') as Ho.
  { induction 1 as [|n m l l' E _ IH]; [done|]. cbn. rewrite E. by f_equal. }
  apply Ho in Hs as <-, Hs' as <-. by rewrite Hp.
Qed.

(** The order in which the modules are enabled makes no difference to the IQs:
    two configurations that list the same modules hand every IQ to the same module, or
    refuse it with the same error. *)
Theorem module_order_irrelevant (enabled enabled' : list string) (ms ms' : Modules W) (iq : Element)
    (Hne : enabled ≠ []) (Hperm : enabled ≡ₚ enabled')
    (Hinit : initModules enabled = Ok ms) (Hinit' : initModules enabled' = Ok ms') :
  Modules.ProcessIQ ms iq = Modules.ProcessIQ ms' iq.
Proof.
  assert (enabled' ≠ []) as Hne'. { intros ->. by apply Permutation_nil_r in Hperm. }
  unfold initModules in *. destruct enabled as [|n l]; [done|]. destruct enabled' as [|n' l']; [done|].
  simpl length in *. cbn [Nat.eqb] in *.
  destruct (selectModules (n :: l)) as [sel| |] eqn:E; [|done..]. destruct (selectModules (n' :: l')) as [sel'| |] eqn:E'; [|done..].
  injection Hinit as <-. injection Hinit' as <-. apply ProcessIQ_perm; [by eapply select_disjoint|by eapply select_perm].
Qed.

End init.

(** ** Two modules *)
Module TableDemo.
Import TreeLib TreeMore.

Definition module_of (n : string) (f : string → bool → bool) (process : XElement → M server unit) : @Module_ tree_jid tree_xml server :=
  MkModule n (fun _ => mret None) (mret []) (mret []) (mret tt) (mret tt) (Some (MkProcessor f process)).
Definition modFns (n : string) : option (@Module_ tree_jid tree_xml server) :=
  if String.eqb n "private" then Some (module_of "private" Private.MatchesNamespace Private.ProcessIQ)
  else if String.eqb n "vcard" then Some (module_of "vcard" VCard.MatchesNamespace VCard.ProcessIQ)
  else None.
#[export] Instance demo_table : @TableLaws tree_jid tree_xml server modFns.
Proof.
  split; intros n m; unfold modFns; destruct (String.eqb_spec n "private") as [->|_]; [by intros [= <-]| | |];
    try (destruct (String.eqb_spec n "vcard") as [->|_]; [|done]).
  - by intros [= <-].
  - intros p [= <-] [= <-]. unfold iq_table. rewrite !elem_of_cons. simpl. tauto.
  - intros p [= <-] [= <-]. unfold iq_table. rewrite !elem_of_cons. simpl. tauto.
Qed.
Definition first_two (l : list string) : @Modules tree_jid tree_xml server :=
  match initModules modFns l with Ok ms => ms | _ => NewModules [] end.
Lemma module_order_irrelevant_witness :
  Modules.ProcessIQ (first_two ["private"; "vcard"]) AccountsDemo.get_iq =
  Modules.ProcessIQ (first_two ["vcard"; "private"]) AccountsDemo.get_iq.
Proof.
  apply (@module_order_irrelevant tree_jid tree_xml server server_env modFns demo_table ["private"; "vcard"] ["vcard"; "private"]);
    [done|apply Permutation_swap|done|done].
Defined.

End TableDemo.
