(* ===== verification/ClusterCalls.v ===== *)
(** * Calls between the instances of a cluster

    The services an instance offers to the others (src/pkg/cluster/server) and the
    clients that call them (src/pkg/cluster/connmanager), over gRPC: routing of
    stanzas, disconnection of streams, stanzas for components, and the transfer of
    the queue of a stream that resumes on another instance.

    gRPC is a parameter, [Invoke]: a call does not reach the other instance, or it
    runs there once and its answer arrives or is lost.  Messages are records; a
    stanza on the wire and back is the third-party library's, class [WireLib]. *)

From stdpp Require Import base list strings gmap.
From Stdlib Require Import ZArith Lia.
From S2P Require Import Prelude GoLib GoHoare Base64 Stravaganza C2SModel StreamQueue StreamMgmt.
From S2P Require LocalRouter Components.

(** ** The wire *)
Class WireLib `{XmlLib} := {
  Wire : Type;
  (** [elem.Proto()] *)
  Proto : Element → Wire;
  (** [NewBuilderFromProto(p).BuildStanza()] and [.Build()] *)
  StanzaFromProto : Wire → goerror + Element;
  ElementFromProto : Wire → Element;
}.

(** What is written is what is read. *)
Class WireOk `{WireLib} : Prop := {
  stanza_wire : ∀ e, is_stanza e = true → StanzaFromProto (Proto e) = inr e;
  element_wire : ∀ e, is_stanza e = false → ElementFromProto (Proto e) = e;
}.

(** [cc.Invoke(ctx, method, in, out)]: [new] is the message [out] before the call,
    the handler is that of the other instance, which gives a pointer to a message. *)
Class Grpc (A B : Type) := Invoke : ∀ {Resp : Type}, Resp → M B (option Resp) → M (A * B) Resp.

(** At most once; a nil message is sent as a message without fields. *)
Class GrpcOk `{!Grpc A B} : Prop :=
  Invoke_spec : ∀ Resp (new : Resp) h a b r a' b', Invoke new h (a, b) = (r, (a', b')) →
    a' = a ∧ ((b' = b ∧ ∃ e, r = Err e) ∨
              (b' = (h b).2 ∧ ((∃ e, r = Err e) ∨ ∃ resp, (h b).1 = Ok resp ∧ r = Ok (default new resp)))).
Arguments GrpcOk _ _ {_}.

(** [codes] and [status.Error(code, err.Error())] *)
Inductive code := InvalidArgument | NotFound | Internal.
Class Status := status : code → goerror → goerror.

(** The method of a generated client: it never gives a nil message. *)
Definition stub `{!Grpc A B} {Resp} (new : Resp) (h : M B (option Resp)) : M (A * B) (option Resp) :=
  out ← Invoke new h; mret (Some out).

(** ** Stream errors ([streamerror.Error], [pb.StreamError]) *)
Inductive StreamErrorReason :=
  | STREAM_ERROR_REASON_INVALID_XML | STREAM_ERROR_REASON_INVALID_NAMESPACE
  | STREAM_ERROR_REASON_HOST_UNKNOWN | STREAM_ERROR_REASON_CONFLICT
  | STREAM_ERROR_REASON_INVALID_FROM | STREAM_ERROR_REASON_POLICY_VIOLATION
  | STREAM_ERROR_REASON_REMOTE_CONNECTION_FAILED | STREAM_ERROR_REASON_CONNECTION_TIMEOUT
  | STREAM_ERROR_REASON_UNSUPPORTED_STANZA_TYPE | STREAM_ERROR_REASON_UNSUPPORTED_VERSION
  | STREAM_ERROR_REASON_NOT_AUTHORIZED | STREAM_ERROR_REASON_RESOURCE_CONSTRAINT
  | STREAM_ERROR_REASON_SYSTEM_SHUTDOWN | STREAM_ERROR_REASON_UNDEFINED_CONDITION
  | STREAM_ERROR_REASON_INTERNAL_SERVER_ERROR.

Definition stmErrReasonMap (r : stream_reason) : StreamErrorReason :=
  match r with
  | InvalidXML => STREAM_ERROR_REASON_INVALID_XML
  | InvalidNamespace => STREAM_ERROR_REASON_INVALID_NAMESPACE
  | HostUnknown => STREAM_ERROR_REASON_HOST_UNKNOWN
  | Conflict => STREAM_ERROR_REASON_CONFLICT
  | InvalidFrom => STREAM_ERROR_REASON_INVALID_FROM
  | PolicyViolation => STREAM_ERROR_REASON_POLICY_VIOLATION
  | RemoteConnectionFailed => STREAM_ERROR_REASON_REMOTE_CONNECTION_FAILED
  | ConnectionTimeout => STREAM_ERROR_REASON_CONNECTION_TIMEOUT
  | UnsupportedStanzaType => STREAM_ERROR_REASON_UNSUPPORTED_STANZA_TYPE
  | UnsupportedVersion => STREAM_ERROR_REASON_UNSUPPORTED_VERSION
  | NotAuthorized => STREAM_ERROR_REASON_NOT_AUTHORIZED
  | ResourceConstraint => STREAM_ERROR_REASON_RESOURCE_CONSTRAINT
  | SystemShutdown => STREAM_ERROR_REASON_SYSTEM_SHUTDOWN
  | UndefinedCondition => STREAM_ERROR_REASON_UNDEFINED_CONDITION
  | InternalServerError => STREAM_ERROR_REASON_INTERNAL_SERVER_ERROR
  end.

Definition errReasonMap (r : StreamErrorReason) : stream_reason :=
  match r with
  | STREAM_ERROR_REASON_INVALID_XML => InvalidXML
  | STREAM_ERROR_REASON_INVALID_NAMESPACE => InvalidNamespace
  | STREAM_ERROR_REASON_HOST_UNKNOWN => HostUnknown
  | STREAM_ERROR_REASON_INVALID_FROM => InvalidFrom
  | STREAM_ERROR_REASON_CONFLICT => Conflict
  | STREAM_ERROR_REASON_POLICY_VIOLATION => PolicyViolation
  | STREAM_ERROR_REASON_REMOTE_CONNECTION_FAILED => RemoteConnectionFailed
  | STREAM_ERROR_REASON_CONNECTION_TIMEOUT => ConnectionTimeout
  | STREAM_ERROR_REASON_UNSUPPORTED_STANZA_TYPE => UnsupportedStanzaType
  | STREAM_ERROR_REASON_UNSUPPORTED_VERSION => UnsupportedVersion
  | STREAM_ERROR_REASON_NOT_AUTHORIZED => NotAuthorized
  | STREAM_ERROR_REASON_RESOURCE_CONSTRAINT => ResourceConstraint
  | STREAM_ERROR_REASON_SYSTEM_SHUTDOWN => SystemShutdown
  | STREAM_ERROR_REASON_UNDEFINED_CONDITION => UndefinedCondition
  | STREAM_ERROR_REASON_INTERNAL_SERVER_ERROR => InternalServerError
  end.

Section wire.
Context `{WireLib}.

Record StreamErr := MkStreamErr {
  se_Reason : stream_reason; se_Lang : string; se_Text : string; se_ApplicationElement : option Element }.
Record PBStreamError := MkPBStreamError {
  pe_Reason : StreamErrorReason; pe_Lang : string; pe_Text : string; pe_ApplicationElement : option Wire }.

Definition toProtoStreamError (sErr : StreamErr) : PBStreamError :=
  MkPBStreamError (stmErrReasonMap (se_Reason sErr)) (se_Lang sErr) (se_Text sErr)
    (Proto <$> se_ApplicationElement sErr).

Definition toStreamError (e : PBStreamError) : StreamErr :=
  MkStreamErr (errReasonMap (pe_Reason e)) (pe_Lang e) (pe_Text e)
    (ElementFromProto <$> pe_ApplicationElement e).

(** A stream error that is sent to another instance arrives unchanged. *)
Lemma stream_error_roundtrip `{!WireOk} e :
  (∀ app, se_ApplicationElement e = Some app → is_stanza app = false) →
  toStreamError (toProtoStreamError e) = e.
Proof.
  destruct e as [r l t [app|]]; intros Hs; unfold toStreamError, toProtoStreamError; simpl.
  - rewrite element_wire by (by apply Hs). by destruct r.
  - by destruct r.
Qed.

(** ** Requests *)
Record LocalRouteRequest := MkLocalRoute { lq_Username : string; lq_Resource : string; lq_Stanza : Wire }.
Record LocalDisconnectRequest := MkLocalDisconnect {
  dq_Username : string; dq_Resource : string; dq_StreamError : PBStreamError }.

(** ** The instance that is called *)
Class Served (B : Type) := {
  sd_router : B → LocalRouter.LocalRouter;
  sd_Resource : Z → string;
  (** [s.SendElement(stanza)] and [<-stm.Disconnect(streamErr)] *)
  sd_SendElement : Z → Element → M B unit;
  sd_Disconnect : Z → StreamErr → M B unit;
  (** [comps.ProcessStanza] *)
  sd_ProcessStanza : Element → M B unit;
}.

Section server.
Context {B : Type} `{!Served B} `{!Status}.

(** [LocalRouter.Route] and [LocalRouter.Disconnect], on the streams they choose *)
Definition lr_Route (stanza : Element) (username resource : string) : M B unit :=
  r ← gets sd_router;
  for_each (LocalRouter.Route sd_Resource username resource r) (fun s => ignore (sd_SendElement s stanza)).
Definition lr_Disconnect (username resource : string) (e : StreamErr) : M B unit :=
  r ← gets sd_router;
  match LocalRouter.Disconnect sd_Resource username resource r with
  | None => mret tt
  | Some s => sd_Disconnect s e
  end.

(** [localRouterService.Route] *)
Definition serveRoute (req : LocalRouteRequest) : M B (option unit) :=
  match StanzaFromProto (lq_Stanza req) with
  | inl err => fail (status InvalidArgument err)
  | inr st =>
    ignore (lr_Route st (lq_Username req) (lq_Resource req));;
    mret (Some tt)
  end.

(** [localRouterService.Disconnect] *)
Definition serveDisconnect (req : LocalDisconnectRequest) : M B (option unit) :=
  ignore (lr_Disconnect (dq_Username req) (dq_Resource req) (toStreamError (dq_StreamError req)));;
  mret (Some tt).

(** [componentRouterService.Route] *)
Definition serveComponentRoute (p : Wire) : M B (option unit) :=
  match StanzaFromProto p with
  | inl err => fail (status InvalidArgument err)
  | inr st =>
    r ← try (sd_ProcessStanza st);
    match r with
    | inl err =>
      if bool_decide (err = Components.ErrComponentNotFound) then fail (status NotFound err)
      else fail (status Internal err)
    | inr _ => mret (Some tt)
    end
  end.

End server.

(** ** The clients ([localRouter], [componentRouter]) *)
Section client.
Context {A B : Type} `{!Served B} `{!Status} `{!Grpc A B}.

Definition Route (stanza : Element) (username resource : string) : M (A * B) unit :=
  stub tt (serveRoute (MkLocalRoute username resource (Proto stanza)));; mret tt.

Definition Disconnect (username resource : string) (streamErr : StreamErr) : M (A * B) unit :=
  stub tt (serveDisconnect (MkLocalDisconnect username resource (toProtoStreamError streamErr)));; mret tt.

(** [componentRouter.Route]; the host is not sent *)
Definition ComponentRoute (stanza : Element) (componentHost : string) : M (A * B) unit :=
  stub tt (serveComponentRoute (Proto stanza));; mret tt.

End client.

(** ** Transfer of queues ([streamManagementService], [streamManagement]) *)
Record QueueElement := MkQueueElement { qe_Stanza : Wire; qe_H : Z }.
Record TransferQueueResponse := MkTransfer {
  tr_Elements : list QueueElement; tr_Nonce : list Z; tr_InH : Z; tr_OutH : Z }.
Definition new_TransferQueueResponse : TransferQueueResponse := MkTransfer [] [] 0 0.

(** [streamManagementService.TransferQueue]; [enabled] when the instance has a map
    of queues *)
Definition serveTransferQueue {B} `{!SMEnv B} (enabled : bool) (identifier : string)
    : M (smState * B) (option TransferQueueResponse) :=
  if negb enabled then mret None
  else
    sq ← qm_Get identifier;
    match sq with
    | None => mret None
    | Some sq =>
      qm_Delete identifier;;
      q ← readQ sq;
      stm_DisconnectWait (Queue.GetStream q) Conflict;;
      q ← readQ sq;
      mret (Some (MkTransfer
        (map (fun el => MkQueueElement (Proto (content (Queue.stanza el))) (Queue.H el)) (Queue.Elements q))
        (Queue.Nonce q) (Queue.InboundH q) (Queue.OutboundH q)))
    end.

(** [clusterconnmanager.StreamQueue] *)
Record StreamQueue := MkStreamQueue {
  sqe_Elements : list (Queue.Element (Stanza := obj)); sqe_Nonce : list Z; sqe_InH : Z; sqe_OutH : Z }.

(** A stanza that is built is a new object. *)
Class NewObj (A : Type) := newObj : Element → M A obj.

Section transfer.
Context {A B : Type} `{!SMEnv B} `{!NewObj A} `{!Grpc A (smState * B)} (enabled : bool).

(** What is done on this instance while a call is made. *)
Definition here {R C : Type} (m : M A R) : M (A * C) R := fun '(a, c) => let '(r, a') := m a in (r, (a', c)).

(** The loop of [streamManagement.TransferQueue] *)
Fixpoint readElements {C} (els : list QueueElement) : M (A * C) (list (Queue.Element (Stanza := obj))) :=
  match els with
  | [] => mret []
  | elem :: els' =>
    match StanzaFromProto (qe_Stanza elem) with
    | inl err => fail err
    | inr e => o ← here (newObj e); rest ← readElements els'; mret (Queue.MkElement o (qe_H elem) :: rest)
    end
  end.

(** [streamManagement.TransferQueue] *)
Definition TransferQueue (queueID : string) : M (A * (smState * B)) (option StreamQueue) :=
  resp ← stub new_TransferQueueResponse (serveTransferQueue enabled queueID);
  match resp with
  | None => mret None
  | Some resp =>
    elements ← readElements (tr_Elements resp);
    mret (Some (MkStreamQueue elements (tr_Nonce resp) (tr_InH resp) (tr_OutH resp)))
  end.

End transfer.
End wire.

(** ** What the calls do *)
Lemma stub_inv `{!Grpc A B} `{!GrpcOk A B} {Resp} (new : Resp) (h : M B (option Resp)) a b r a' b' :
  stub new h (a, b) = (r, (a', b')) →
  a' = a ∧ (b' = b ∨ b' = (h b).2) ∧ (∀ c, r ≠ Crash c) ∧
  ∀ x, r = Ok x → b' = (h b).2 ∧ ∃ resp, (h b).1 = Ok resp ∧ x = Some (default new resp).
Proof.
  unfold stub, mbind, M_bind. destruct (Invoke new h (a, b)) as [r0 [a0 b0]] eqn:E.
  apply Invoke_spec in E as [-> [[-> [e ->]]|[-> [[e ->]|(resp & Hh & ->)]]]]; intros [= <- <- <-].
  - split; [done|]. split; [by left|]. by split.
  - split; [done|]. split; [by right|]. by split.
  - split; [done|]. split; [by right|]. split; [done|]. intros x [= <-]. by eauto.
Qed.

Section routing.
Context `{WireLib} `{!WireOk} {A B : Type} `{!Served B} `{!Status} `{!Grpc A B} `{!GrpcOk A B}.

(** A call whose answer carries nothing, made for the effect [m] on the other
    instance. *)
Definition once (m : M B unit) (call : M (A * B) unit) : Prop := ∀ a b r a' b',
  call (a, b) = (r, (a', b')) →
  a' = a ∧ (b' = b ∨ b' = (m b).2) ∧ (∀ c, r ≠ Crash c) ∧ (r = Ok tt → b' = (m b).2).

Lemma call_once m h : (∀ b, (h b).2 = (m b).2) → once m (stub tt h;; mret tt).
Proof.
  intros Hh a b r a' b' Hc. unfold mbind, M_bind in Hc. destruct (stub tt h (a, b)) as [r0 [a0 b0]] eqn:E.
  apply stub_inv in E as (-> & Hb & Hcr & Hok). rewrite Hh in *.
  destruct r0 as [x|e|c]; [| |by destruct (Hcr c)]; injection Hc as <- <- <-; (split; [done|]).
  - destruct (Hok x eq_refl) as [-> _]. split; [by right|]. by split.
  - by split.
Qed.

(** Routing to another instance.  Over the connection, a stanza is handed to
    the streams of the other instance, a stream is disconnected with its error, and a
    stanza for a component is processed, as the other instance would do itself: at
    most once, once when no error is reported, and nothing changes on the calling
    instance. *)
Theorem remote_calls_once :
  (∀ e u r, is_stanza e = true → once (lr_Route e u r) (Route e u r)) ∧
  (∀ u r err, (∀ app, se_ApplicationElement err = Some app → is_stanza app = false) →
     once (lr_Disconnect u r err) (Disconnect u r err)) ∧
  (∀ e host, is_stanza e = true → once (sd_ProcessStanza e) (ComponentRoute e host)).
Proof.
  split; [|split].
  - intros e u r He. apply call_once. intros b. unfold serveRoute. simpl. rewrite stanza_wire by done.
    unfold ignore, try, mbind, M_bind. by destruct (lr_Route e u r b) as [[]].
  - intros u r err Happ. apply call_once. intros b. unfold serveDisconnect. simpl.
    rewrite stream_error_roundtrip by done. unfold ignore, try, mbind, M_bind.
    by destruct (lr_Disconnect u r err b) as [[]].
  - intros e host He. apply call_once. intros b. unfold serveComponentRoute. rewrite stanza_wire by done.
    unfold try, mbind, M_bind. destruct (sd_ProcessStanza e b) as [[[]|err|c] b']; [done| |done].
    by case_bool_decide.
Qed.

End routing.

(** ** Resumption on another instance *)
Section resumption.
Context `{WireLib} `{!WireOk} {A B : Type} `{!SMEnv A} `{!SMEnv B} `{!NewObj A}.
Context `{!Grpc A (smState * B)} `{!GrpcOk A (smState * B)} (enabled : bool).

(** The surroundings of the module on the first of two instances: what is its own
    stays as it is, and a queue is transferred from the second. *)
Definition net_env : SMEnv (A * (smState * B)) := {|
  stm_JID := fun i w => stm_JID i w.1;
  stm_IsBinded := fun i w => stm_IsBinded i w.1;
  stm_IsAuthenticated := fun i w => stm_IsAuthenticated i w.1;
  stm_Info := fun i w => stm_Info i w.1;
  stm_SetInfoBool := fun i k v => here (stm_SetInfoBool i k v);
  stm_SendElement := fun i e => here (stm_SendElement i e);
  stm_SendStanza := fun i o => here (stm_SendStanza i o);
  stm_Disconnect := fun i r => here (stm_Disconnect i r);
  stm_DisconnectWait := fun i r '(s, (a, c)) =>
    let '(res, (s', a')) := stm_DisconnectWait i r (s, a) in (res, (s', (a', c)));
  stm_Resume := fun i j p inf => here (stm_Resume i j p inf);
  rm_GetResource := fun u r => here (rm_GetResource u r);
  cl_GetConnection := fun i => here (cl_GetConnection i);
  cl_TransferQueue := fun _ k =>
    q ← TransferQueue enabled k;
    q ← deref q;
    mret (sqe_Nonce q, sqe_Elements q, sqe_InH q, sqe_OutH q);
  rand_Intn := fun n => here (rand_Intn n);
  sm_instance_ID := @sm_instance_ID _ _ A _ |}.

(** What the first instance does between the call and the delivery. *)
Context `{!SMLog (W := A)}.
Class HereOk : Prop := {
  new_obj : ∀ e (a : A), ∃ o a', newObj e a = (Ok o, a') ∧ content o = e ∧ delivered a' = delivered a ∧
    ∀ i, stm_JID i a' = stm_JID i a;
  get_resource : ∀ u r (a : A), delivered (rm_GetResource u r a).2 = delivered a ∧
    ∀ i, stm_JID i (rm_GetResource u r a).2 = stm_JID i a;
  get_connection : ∀ k (a : A), delivered (cl_GetConnection k a).2 = delivered a ∧
    ∀ i, stm_JID i (cl_GetConnection k a).2 = stm_JID i a;
}.

Abbreviation elem := (Queue.Element (Stanza := obj)).
Definition same_elem (el el' : elem) : Prop :=
  content (Queue.stanza el') = content (Queue.stanza el) ∧ Queue.H el' = Queue.H el.

Definition wired (el : elem) : QueueElement := MkQueueElement (Proto (content (Queue.stanza el))) (Queue.H el).

(** Stanzas on the wire are built again, one by one. *)
Lemma readElements_ok `{!HereOk} {C} (els : list elem) (a : A) (c : C) :
  Forall (fun el => is_stanza (content (Queue.stanza el)) = true) els →
  ∃ els' a', readElements (map wired els) (a, c) = (Ok els', (a', c)) ∧ Forall2 same_elem els els' ∧
    delivered a' = delivered a ∧ ∀ i, stm_JID i a' = stm_JID i a.
Proof.
  revert a. induction els as [|el els IH]; intros a Hs; [by exists [], a|].
  inversion Hs as [|? ? He Hels]. subst. simpl. rewrite stanza_wire by done.
  destruct (new_obj (content (Queue.stanza el)) a) as (o & a1 & Hn & Hc & Hd & Hj).
  destruct (IH a1 Hels) as (els' & a2 & Hr & Hf & Hd2 & Hj2).
  exists (Queue.MkElement o (Queue.H el) :: els'), a2.
  rewrite (bind_Ok _ _ _ o (a1, c)) by (unfold here; by rewrite Hn).
  rewrite (bind_Ok _ _ _ els' (a2, c)) by done.
  split; [done|]. split; [by constructor|]. split; [by rewrite Hd2|]. intros i. by rewrite Hj2.
Qed.

(** What the other instance does for a transfer. *)
Lemma serveTransfer_some k sB b sq q sB1 b1 q1 :
  enabled = true → queues sB !! k = Some sq → heap sB !! sq = Some q →
  stm_DisconnectWait (Queue.stm q) Conflict (set_queues (delete k (queues sB)) sB, b) = (Ok tt, (sB1, b1)) →
  heap sB1 !! sq = Some q1 →
  serveTransferQueue enabled k (sB, b) =
    (Ok (Some (MkTransfer (map wired (Queue.elements q1)) (Queue.nc q1) (Queue.inH q1) (Queue.outH q1))), (sB1, b1)).
Proof.
  intros -> Hk Hq Hd Hq1. unfold serveTransferQueue. simpl.
  rewrite (bind_Ok _ _ _ (Some sq) (sB, b)) by (unfold qm_Get, sm_get, gets; simpl; by rewrite Hk).
  rewrite (bind_Ok _ _ _ tt (set_queues (delete k (queues sB)) sB, b)) by done.
  rewrite (bind_Ok _ _ _ q (set_queues (delete k (queues sB)) sB, b))
    by (unfold readQ, mbind, M_bind; simpl; by rewrite Hq).
  rewrite (bind_Ok _ _ _ tt (sB1, b1)) by done.
  rewrite (bind_Ok _ _ _ q1 (sB1, b1)) by (unfold readQ, mbind, M_bind; simpl; by rewrite Hq1).
  done.
Qed.

#[local] Existing Instance net_env.

#[local] Instance net_log : SMLog (W := A * (smState * B)).
Proof.
  refine {| delivered := fun w => delivered w.1 |}.
  - intros to o [a c]. simpl. destruct (log_Stanza to o a) as [Hl1 Hl2].
    unfold here. destruct (stm_SendStanza to o a) as [r a']. simpl in *. by subst.
  - intros to e [a c]. pose proof (log_Element to e a) as He. simpl. unfold here.
    by destruct (stm_SendElement to e a).
  - intros to j pr i [a c]. pose proof (log_Resume to j pr i a) as He. simpl. unfold here.
    by destruct (stm_Resume to j pr i a).
Defined.

Lemma last_acked_same h l l' : Forall2 same_elem l l' → ∀ i j,
  Queue.last_acked h i j l' = Queue.last_acked h i j l.
Proof. induction 1 as [|x y l l' [_ HH] _ IH]; intros i j; [done|]. simpl. by rewrite HH, IH. Qed.

Lemma acknowledged_same h (q q' : Queue.Queue (Stanza := obj)) :
  Forall2 same_elem (Queue.elements q) (Queue.elements q') →
  Forall2 same_elem (Queue.elements (Queue.Acknowledge h q)) (Queue.elements (Queue.Acknowledge h q')).
Proof.
  intros Hs. rewrite !Queue.elements_Acknowledge, (last_acked_same h _ _ Hs). by apply Forall2_drop.
Qed.

Lemma same_contents l l' : Forall2 same_elem l l' →
  map content (map Queue.stanza l') = map content (map Queue.stanza l).
Proof. induction 1 as [|x y l l' [Hc _] _ IH]; [done|]. simpl. by rewrite Hc, IH. Qed.

(** A transfer that succeeds, of a queue that is there. *)
Lemma TransferQueue_some `{!HereOk} k a a' sB b c' x sq q sB1 b1 q1 :
  enabled = true → queues sB !! k = Some sq → heap sB !! sq = Some q →
  stm_DisconnectWait (Queue.stm q) Conflict (set_queues (delete k (queues sB)) sB, b) = (Ok tt, (sB1, b1)) →
  heap sB1 !! sq = Some q1 → Forall (fun el => is_stanza (content (Queue.stanza el)) = true) (Queue.elements q1) →
  TransferQueue enabled k (a, (sB, b)) = (Ok x, (a', c')) →
  c' = (sB1, b1) ∧ delivered a' = delivered a ∧ (∀ i, stm_JID i a' = stm_JID i a) ∧
  ∃ els, x = Some (MkStreamQueue els (Queue.nc q1) (Queue.inH q1) (Queue.outH q1)) ∧
         Forall2 same_elem (Queue.elements q1) els.
Proof.
  intros He Hk Hq Hd Hq1 Hs Ht. pose proof (serveTransfer_some k sB b sq q sB1 b1 q1 He Hk Hq Hd Hq1) as Hserve.
  unfold TransferQueue in Ht. inv_bind Ht as resp [a1 c1] Hc. apply stub_inv in Hc as (-> & _ & _ & Hok).
  destruct (Hok resp eq_refl) as [-> (r & Hr & ->)]. rewrite Hserve in *. injection Hr as <-. simpl in Ht.
  inv_bind Ht as els [a2 c2] Hels.
  destruct (readElements_ok (Queue.elements q1) a (sB1, b1) Hs) as (els' & a3 & Hread & Hf & Hdel & Hj).
  rewrite Hread in Hels. injection Hels as <- <- <-. injection Ht as <- <- <-.
  split; [done|]. split; [done|]. split; [done|]. by exists els'.
Qed.

(** What the module does on its own leaves the other instance alone. *)
Definition same_there (x y : smState * (A * (smState * B))) : Prop := x.2.2 = y.2.2.
#[local] Instance same_there_preorder : PreOrder same_there.
Proof. split; [done|]. unfold same_there. intros x y z. congruence. Qed.

Lemma lift_here {R} (m : M A R) : keeps same_there (liftSM (here m)).
Proof. intros [s [a c]]. unfold liftSM, here. by destruct (m a). Qed.

Lemma upd_here f : keeps same_there (sm_upd f).
Proof. by intros [s [a c]]. Qed.

Lemma finishResume_here stm h prev jd nonce res sq : keeps same_there (finishResume stm h prev jd nonce res sq).
Proof.
  unfold finishResume, sendFailedReply, sendPending, ofStream, qm_Set, updQ, writeQ, readQ, sm_get, emit.
  repeat first [apply lift_here|apply upd_here|keeps_step].
  unfold emit_one. case_match; apply lift_here.
Qed.


End resumption.

(** ** Two instances

    Stream 1 of romeo is on the second instance with three messages in its queue
    ([SMDemo.busy]); stream 2 is on the first. *)
Module CallDemo.
Import TreeLib.

Abbreviation XElement := (@Element tree_jid tree_xml).
Abbreviation xobj := (@obj tree_jid tree_xml).

#[export] Existing Instance SMDemo.env.
#[export] Instance wire : @WireLib tree_jid tree_xml := {|
  Wire := XElement; Proto := fun e => e; ElementFromProto := fun e => e;
  StanzaFromProto := fun e => if is_stanza e then inr e else inl (ErrText "stanza") |}.
#[export] Instance wire_ok : WireOk.
Proof. split; [|done]. intros e He. simpl. by rewrite He. Qed.

(** A network that always works. *)
#[export] Instance net (A B : Type) : Grpc A B := fun Resp new h '(a, b) =>
  let '(r, b') := h b in
  (match r with Ok resp => Ok (default new resp) | Err e => Err e | Crash _ => Err (ErrText "unavailable") end, (a, b')).
#[export] Instance net_ok A B : GrpcOk A B.
Proof.
  intros Resp new h a b r a' b'. unfold Invoke, net. destruct (h b) as [[resp|e|c] b1]; intros [= <- <- <-];
    (split; [done|]); right; (split; [done|]); [right|left..]; by eauto.
Qed.

Record local := MkLocal { nextObj : nat; log : list (Z * xobj) }.

#[export] Instance local_new : NewObj local := fun e w =>
  (Ok (MkObj (nextObj w) e), MkLocal (S (nextObj w)) (log w)).

#[export] Instance local_env : @SMEnv tree_jid tree_xml local := {|
  stm_JID := fun _ _ => Some SMDemo.romeo; stm_IsBinded := fun _ _ => false;
  stm_IsAuthenticated := fun _ _ => true; stm_Info := fun _ _ => ∅;
  stm_SetInfoBool := fun _ _ _ => mret tt; stm_SendElement := fun _ _ => mret tt;
  stm_SendStanza := fun to o => modify (fun w => MkLocal (nextObj w) (log w ++ [(to, o)]));
  stm_Disconnect := fun _ _ => mret tt; stm_DisconnectWait := fun _ _ => mret tt;
  stm_Resume := fun _ _ _ _ => mret tt;
  rm_GetResource := fun _ _ => mret (Some SMDemo.desc); cl_GetConnection := fun _ => mret tt;
  cl_TransferQueue := fun _ _ => fail (ErrText "not asked");
  rand_Intn := fun _ => mret 6%Z; sm_instance_ID := "i0" |}.

#[export] Instance local_log : SMLog (W := local).
Proof. refine {| delivered := log |}; done. Defined.

#[export] Instance local_here : HereOk (A := local).
Proof. split; [|done..]. intros e a. by eexists _, _. Qed.

Definition resumed (prev : string) (h : Z) (sB : smState) :=
  @handleResume _ _ _ (net_env true) SMDemo.conf 2 h prev (SMDemo.empty, (MkLocal 10 [], (sB, [] : list (Z * xobj)))).

Definition prev : string := Eval vm_compute in encodeSMID SMDemo.romeo [7%Z].

Lemma run_parts {S A C} (x : outcome unit * (S * (A * C))) :
  x.1 = Ok tt → x = (Ok tt, (x.2.1, (x.2.2.1, x.2.2.2))).
Proof. destruct x as [r [s [a c]]]. simpl. by intros ->. Qed.


(** The other instance has no queue for the session: its answer is a message
    without fields, never nil, and an identifier with an empty nonce resumes a session
    that was never resumable. *)
Definition no_nonce : string := Eval vm_compute in encodeSMID SMDemo.romeo [].
Theorem missing_queue_resumed :
  queues SMDemo.empty !! queueKey SMDemo.romeo = None ∧
  (resumed no_nonce 0 SMDemo.empty).1 = Ok tt ∧
  queues (resumed no_nonce 0 SMDemo.empty).2.1 !! SMDemo.key = Some 0.
Proof.
  split; [vm_cast_no_check (@eq_refl (option nat) None)|].
  split; [vm_cast_no_check (@eq_refl (outcome unit) (Ok tt))|vm_cast_no_check (@eq_refl (option nat) (Some 0))].
Qed.

(** The queue is given up before the old stream is disconnected: when that fails, the
    answer is the error, and nobody has the queue any more. *)
Definition failing_env : SMEnv (list (Z * xobj)) := {|
  stm_JID := fun _ _ => Some SMDemo.romeo; stm_IsBinded := fun _ _ => true;
  stm_IsAuthenticated := fun _ _ => true; stm_Info := fun _ _ => ∅;
  stm_SetInfoBool := fun _ _ _ => mret tt; stm_SendElement := fun _ _ => mret tt;
  stm_SendStanza := fun to o => modify (fun l => l ++ [(to, o)]);
  stm_Disconnect := fun _ _ => mret tt;
  stm_DisconnectWait := fun _ _ => fail (ErrText "broken pipe");
  stm_Resume := fun _ _ _ _ => mret tt;
  rm_GetResource := fun _ _ => mret None; cl_GetConnection := fun _ => mret tt;
  cl_TransferQueue := fun _ _ => fail (ErrText "not asked");
  rand_Intn := fun _ => mret 6%Z; sm_instance_ID := "i1" |}.
Theorem failed_transfer_loses_queue :
  let out := @serveTransferQueue _ _ wire _ failing_env true SMDemo.key (SMDemo.busy, []) in
  out.1 = Err (ErrText "broken pipe") ∧ queues out.2.1 !! SMDemo.key = None.
Proof.
  split; [|vm_cast_no_check (@eq_refl (option nat) None)].
  vm_cast_no_check (@eq_refl (outcome (option (@TransferQueueResponse _ _ wire))) (Err (ErrText "broken pipe"))).
Qed.

(** One stream of romeo on the instance that is called; what it is sent. *)
Record there := MkThere { th_router : LocalRouter.LocalRouter; th_sent : list (Z * XElement); th_gone : list Z }.
#[export] Instance there_served : @Served tree_jid tree_xml there := {|
  sd_router := th_router; sd_Resource := fun _ => "balcony";
  sd_SendElement := fun s e => modify (fun w => MkThere (th_router w) (th_sent w ++ [(s, e)]) (th_gone w));
  sd_Disconnect := fun s _ => modify (fun w => MkThere (th_router w) (th_sent w) (s :: th_gone w));
  sd_ProcessStanza := fun _ => fail Components.ErrComponentNotFound |}.
#[export] Instance plain_status : Status := fun _ e => e.

Definition one_stream : there := MkThere (LocalRouter.MkLocalRouter ∅ {["romeo" := [1%Z]]}) [] [].
Definition hello : XElement := content (SMDemo.msg 1).

Lemma remote_calls_once_witness :
  th_sent (Route (A := unit) hello "romeo" "balcony" (tt, one_stream)).2.2 = [(1%Z, hello)].
Proof.
  destruct (remote_calls_once (A := unit) (B := there)) as [Hroute _].
  specialize (Hroute hello "romeo" "balcony" eq_refl tt one_stream
    (Route (A := unit) hello "romeo" "balcony" (tt, one_stream)).1 tt
    (Route (A := unit) hello "romeo" "balcony" (tt, one_stream)).2.2).
  destruct Hroute as (_ & _ & _ & Hok); [reflexivity|]. rewrite Hok; [reflexivity|].
  vm_cast_no_check (@eq_refl (outcome unit) (Ok tt)).
Defined.

End CallDemo.
