(* ===== verification/HookTable.v ===== *)
(** * Which handlers the modules register

    [Start] and [Stop] of every module: the hooks, methods and priorities under which
    a module takes part in the life of streams and accounts.  A method has one code
    pointer.  The table says in which order the handlers of a hook run, whatever the
    order in which the configuration lists the modules. *)

From stdpp Require Import base list strings gmap sorting.
From Stdlib Require Import ZArith Lia.
From S2P Require Import Prelude GoLib Hooks.

(** ** Hooks (src/pkg/hook) *)
Definition C2SStreamBinded : string := "c2s.stream.binded".
Definition C2SStreamDisconnected : string := "c2s.stream.disconnected".
Definition C2SStreamTerminated : string := "c2s.stream.terminated".
Definition C2SStreamElementReceived : string := "c2s.stream.element_received".
Definition C2SStreamIQReceived : string := "c2s.stream.iq_received".
Definition C2SStreamPresenceReceived : string := "c2s.stream.presence_received".
Definition C2SStreamMessageReceived : string := "c2s.stream.message_received".
Definition C2SStreamWillRouteElement : string := "c2s.stream.will_route_element".
Definition C2SStreamMessageRouted : string := "c2s.stream.message_routed".
Definition C2SStreamElementSent : string := "c2s.stream.element_sent".
Definition S2SInStreamElementReceived : string := "s2s.in.stream.stanza_received".
Definition S2SInStreamIQReceived : string := "s2s.in.stream.iq_received".
Definition S2SInStreamPresenceReceived : string := "s2s.in.stream.presence_received".
Definition S2SInStreamMessageReceived : string := "s2s.in.stream.message_received".
Definition S2SInStreamWillRouteElement : string := "s2s.in.stream.will_route_element".
Definition S2SInStreamMessageRouted : string := "s2s.in.stream.message_routed".
Definition UserDeleted : string := "user.deleted".
Definition DiscoProvidersStarted : string := "disco.providers.started".
Definition ModulesStarted : string := "modules.started".

(** ** Methods *)
Inductive method :=
  | Roster_onPresenceRecv | Roster_onUserDeleted
  | Offline_onMessageRouted | Offline_onC2SPresenceRecv | Offline_onUserDeleted
  | Last_onElementRecv | Last_onC2SPresenceRecv | Last_onUserDeleted
  | Disco_onModulesStarted
  | Private_onUserDeleted
  | VCard_onUserDeleted
  | Caps_onC2SPresenceRecv | Caps_onS2SPresenceRecv | Caps_onC2SIQRecv | Caps_onS2SIQRecv
  | Caps_onDiscoProvidersStarted
  | BlockList_onC2SElementRecv | BlockList_onS2SElementRecv | BlockList_onC2SElementWillRoute
  | BlockList_onS2SElementWillRoute | BlockList_onUserDeleted
  | Stream_onElementRecv | Stream_onElementSent | Stream_onDisconnect | Stream_onTerminate
  | Ping_onBinded | Ping_onDisconnect | Ping_onRecvElement
  | Carbons_onC2SElementWillRoute | Carbons_onS2SElementWillRoute
  | Carbons_onC2SMessageRouted | Carbons_onS2SMessageRouted
  | Mam_onMessageReceived | Mam_onMessageRouted | Mam_onUserDeleted.
#[global] Instance method_eq_dec : EqDecision method.
Proof. solve_decision. Defined.

(** Different methods have different code. *)
Definition all_methods : list method :=
  [Roster_onPresenceRecv; Roster_onUserDeleted; Offline_onMessageRouted; Offline_onC2SPresenceRecv;
   Offline_onUserDeleted; Last_onElementRecv; Last_onC2SPresenceRecv; Last_onUserDeleted; Disco_onModulesStarted;
   Private_onUserDeleted; VCard_onUserDeleted; Caps_onC2SPresenceRecv; Caps_onS2SPresenceRecv; Caps_onC2SIQRecv;
   Caps_onS2SIQRecv; Caps_onDiscoProvidersStarted; BlockList_onC2SElementRecv; BlockList_onS2SElementRecv;
   BlockList_onC2SElementWillRoute; BlockList_onS2SElementWillRoute; BlockList_onUserDeleted; Stream_onElementRecv;
   Stream_onElementSent; Stream_onDisconnect; Stream_onTerminate; Ping_onBinded; Ping_onDisconnect; Ping_onRecvElement;
   Carbons_onC2SElementWillRoute; Carbons_onS2SElementWillRoute; Carbons_onC2SMessageRouted;
   Carbons_onS2SMessageRouted; Mam_onMessageReceived; Mam_onMessageRouted; Mam_onUserDeleted].
Definition pointer (m : method) : Z :=
  match list_find (.= m) all_methods with Some (i, _) => Z.of_nat i | None => -1 end.

#[global] Instance pointer_inj : Inj (=) (=) pointer.
Proof.
  intros x y E. assert (∀ z, ∃ i, pointer z = Z.of_nat i ∧ all_methods !! i = Some z) as Hp
    by (intros []; by eexists).
  destruct (Hp x) as (i & Hi & Hx), (Hp y) as (j & Hj & Hy). rewrite Hi, Hj in E.
  apply Nat2Z.inj in E as ->. congruence.
Qed.

(** ** [Start] and [Stop] of the modules *)
Record registration := MkReg { rg_hook : string; rg_method : method; rg_priority : Z }.

Definition Roster_Start : list registration :=
  [MkReg C2SStreamPresenceReceived Roster_onPresenceRecv DefaultPriority;
   MkReg S2SInStreamPresenceReceived Roster_onPresenceRecv DefaultPriority;
   MkReg UserDeleted Roster_onUserDeleted DefaultPriority].
Definition Roster_Stop : list (string * method) :=
  [(C2SStreamPresenceReceived, Roster_onPresenceRecv); (S2SInStreamPresenceReceived, Roster_onPresenceRecv);
   (UserDeleted, Roster_onUserDeleted)].

Definition Offline_Start : list registration :=
  [MkReg C2SStreamMessageRouted Offline_onMessageRouted LowestPriority;
   MkReg S2SInStreamMessageRouted Offline_onMessageRouted LowestPriority;
   MkReg C2SStreamPresenceReceived Offline_onC2SPresenceRecv DefaultPriority;
   MkReg UserDeleted Offline_onUserDeleted DefaultPriority].
Definition Offline_Stop : list (string * method) :=
  [(C2SStreamMessageRouted, Offline_onMessageRouted); (S2SInStreamMessageRouted, Offline_onMessageRouted);
   (C2SStreamPresenceReceived, Offline_onC2SPresenceRecv); (UserDeleted, Offline_onUserDeleted)].

Definition Last_Start : list registration :=
  [MkReg C2SStreamElementReceived Last_onElementRecv DefaultPriority;
   MkReg S2SInStreamElementReceived Last_onElementRecv DefaultPriority;
   MkReg C2SStreamPresenceReceived Last_onC2SPresenceRecv DefaultPriority;
   MkReg UserDeleted Last_onUserDeleted DefaultPriority].
Definition Last_Stop : list (string * method) :=
  [(C2SStreamElementReceived, Last_onElementRecv); (S2SInStreamElementReceived, Last_onElementRecv);
   (C2SStreamPresenceReceived, Last_onC2SPresenceRecv); (UserDeleted, Last_onUserDeleted)].

Definition Disco_Start : list registration := [MkReg ModulesStarted Disco_onModulesStarted DefaultPriority].
Definition Disco_Stop : list (string * method) := [(ModulesStarted, Disco_onModulesStarted)].

Definition Private_Start : list registration := [MkReg UserDeleted Private_onUserDeleted DefaultPriority].
Definition Private_Stop : list (string * method) := [(UserDeleted, Private_onUserDeleted)].

Definition VCard_Start : list registration := [MkReg UserDeleted VCard_onUserDeleted DefaultPriority].
Definition VCard_Stop : list (string * method) := [(UserDeleted, VCard_onUserDeleted)].

Definition Caps_Start : list registration :=
  [MkReg C2SStreamPresenceReceived Caps_onC2SPresenceRecv DefaultPriority;
   MkReg S2SInStreamPresenceReceived Caps_onS2SPresenceRecv DefaultPriority;
   MkReg C2SStreamIQReceived Caps_onC2SIQRecv DefaultPriority;
   MkReg S2SInStreamIQReceived Caps_onS2SIQRecv DefaultPriority;
   MkReg DiscoProvidersStarted Caps_onDiscoProvidersStarted DefaultPriority].
Definition Caps_Stop : list (string * method) :=
  [(C2SStreamPresenceReceived, Caps_onC2SPresenceRecv); (S2SInStreamPresenceReceived, Caps_onS2SPresenceRecv);
   (C2SStreamIQReceived, Caps_onC2SIQRecv); (S2SInStreamIQReceived, Caps_onS2SIQRecv);
   (DiscoProvidersStarted, Caps_onDiscoProvidersStarted)].

Definition BlockList_Start : list registration :=
  [MkReg C2SStreamElementReceived BlockList_onC2SElementRecv HighestPriority;
   MkReg S2SInStreamElementReceived BlockList_onS2SElementRecv HighestPriority;
   MkReg C2SStreamWillRouteElement BlockList_onC2SElementWillRoute HighestPriority;
   MkReg S2SInStreamWillRouteElement BlockList_onS2SElementWillRoute HighestPriority;
   MkReg UserDeleted BlockList_onUserDeleted DefaultPriority].
Definition BlockList_Stop : list (string * method) :=
  [(C2SStreamElementReceived, BlockList_onC2SElementRecv); (S2SInStreamElementReceived, BlockList_onS2SElementRecv);
   (C2SStreamWillRouteElement, BlockList_onC2SElementWillRoute);
   (S2SInStreamWillRouteElement, BlockList_onS2SElementWillRoute); (UserDeleted, BlockList_onUserDeleted)].

Definition Stream_Start : list registration :=
  [MkReg C2SStreamElementReceived Stream_onElementRecv DefaultPriority;
   MkReg C2SStreamElementSent Stream_onElementSent DefaultPriority;
   MkReg C2SStreamDisconnected Stream_onDisconnect LowestPriority;
   MkReg C2SStreamTerminated Stream_onTerminate LowestPriority].
Definition Stream_Stop : list (string * method) :=
  [(C2SStreamElementReceived, Stream_onElementRecv); (C2SStreamElementSent, Stream_onElementSent);
   (C2SStreamDisconnected, Stream_onDisconnect); (C2SStreamTerminated, Stream_onTerminate)].

Definition Ping_Start (sendPings : bool) : list registration :=
  if sendPings then
    [MkReg C2SStreamBinded Ping_onBinded DefaultPriority;
     MkReg C2SStreamDisconnected Ping_onDisconnect HighestPriority;
     MkReg C2SStreamElementReceived Ping_onRecvElement HighestPriority]
  else [].
Definition Ping_Stop (sendPings : bool) : list (string * method) :=
  if sendPings then
    [(C2SStreamBinded, Ping_onBinded); (C2SStreamDisconnected, Ping_onDisconnect);
     (C2SStreamElementReceived, Ping_onRecvElement)]
  else [].

Definition Carbons_Start : list registration :=
  [MkReg C2SStreamWillRouteElement Carbons_onC2SElementWillRoute DefaultPriority;
   MkReg S2SInStreamWillRouteElement Carbons_onS2SElementWillRoute DefaultPriority;
   MkReg C2SStreamMessageRouted Carbons_onC2SMessageRouted (LowestPriority + 1);
   MkReg S2SInStreamMessageRouted Carbons_onS2SMessageRouted (LowestPriority + 1)].
Definition Carbons_Stop : list (string * method) :=
  [(C2SStreamWillRouteElement, Carbons_onC2SElementWillRoute);
   (S2SInStreamWillRouteElement, Carbons_onS2SElementWillRoute);
   (C2SStreamMessageRouted, Carbons_onC2SMessageRouted); (S2SInStreamMessageRouted, Carbons_onS2SMessageRouted)].

Definition Mam_Start : list registration :=
  [MkReg C2SStreamMessageReceived Mam_onMessageReceived HighestPriority;
   MkReg S2SInStreamMessageReceived Mam_onMessageReceived HighestPriority;
   MkReg C2SStreamMessageRouted Mam_onMessageRouted (LowestPriority + 2);
   MkReg S2SInStreamMessageRouted Mam_onMessageRouted (LowestPriority + 2);
   MkReg UserDeleted Mam_onUserDeleted DefaultPriority].
Definition Mam_Stop : list (string * method) :=
  [(C2SStreamMessageReceived, Mam_onMessageReceived); (S2SInStreamMessageReceived, Mam_onMessageReceived);
   (C2SStreamMessageRouted, Mam_onMessageRouted); (S2SInStreamMessageRouted, Mam_onMessageRouted);
   (UserDeleted, Mam_onUserDeleted)].

(** The modules with the names of the configuration; "version" and "time" register
    nothing. *)
Definition Start_of (sendPings : bool) (name : string) : list registration :=
  default [] ((list_to_map [("roster", Roster_Start); ("offline", Offline_Start); ("last", Last_Start);
    ("disco", Disco_Start); ("private", Private_Start); ("vcard", VCard_Start); ("caps", Caps_Start);
    ("blocklist", BlockList_Start); ("stream_mgmt", Stream_Start); ("ping", Ping_Start sendPings);
    ("carbons", Carbons_Start); ("mam", Mam_Start)] : gmap string (list registration)) !! name).
Definition Stop_of (sendPings : bool) (name : string) : list (string * method) :=
  default [] ((list_to_map [("roster", Roster_Stop); ("offline", Offline_Stop); ("last", Last_Stop);
    ("disco", Disco_Stop); ("private", Private_Stop); ("vcard", VCard_Stop); ("caps", Caps_Stop);
    ("blocklist", BlockList_Stop); ("stream_mgmt", Stream_Stop); ("ping", Ping_Stop sendPings);
    ("carbons", Carbons_Stop); ("mam", Mam_Stop)] : gmap string (list (string * method))) !! name).
Definition hooked_names : list string :=
  ["roster"; "offline"; "last"; "disco"; "private"; "vcard"; "caps"; "blocklist"; "stream_mgmt"; "ping"; "carbons"; "mam"].

(** ** What the table says *)

(** The module a method belongs to. *)
Definition owner (m : method) : string :=
  match m with
  | Roster_onPresenceRecv | Roster_onUserDeleted => "roster"
  | Offline_onMessageRouted | Offline_onC2SPresenceRecv | Offline_onUserDeleted => "offline"
  | Last_onElementRecv | Last_onC2SPresenceRecv | Last_onUserDeleted => "last"
  | Disco_onModulesStarted => "disco"
  | Private_onUserDeleted => "private"
  | VCard_onUserDeleted => "vcard"
  | Caps_onC2SPresenceRecv | Caps_onS2SPresenceRecv | Caps_onC2SIQRecv | Caps_onS2SIQRecv
  | Caps_onDiscoProvidersStarted => "caps"
  | BlockList_onC2SElementRecv | BlockList_onS2SElementRecv | BlockList_onC2SElementWillRoute
  | BlockList_onS2SElementWillRoute | BlockList_onUserDeleted => "blocklist"
  | Stream_onElementRecv | Stream_onElementSent | Stream_onDisconnect | Stream_onTerminate => "stream_mgmt"
  | Ping_onBinded | Ping_onDisconnect | Ping_onRecvElement => "ping"
  | Carbons_onC2SElementWillRoute | Carbons_onS2SElementWillRoute
  | Carbons_onC2SMessageRouted | Carbons_onS2SMessageRouted => "carbons"
  | Mam_onMessageReceived | Mam_onMessageRouted | Mam_onUserDeleted => "mam"
  end.

Definition key (r : registration) : string * method := (rg_hook r, rg_method r).

(** A statement about all modules follows from the entries of the table. *)
Lemma Start_of_cases (P : string → list registration → list (string * method) → Prop) sp :
  P "roster" Roster_Start Roster_Stop → P "offline" Offline_Start Offline_Stop → P "last" Last_Start Last_Stop →
  P "disco" Disco_Start Disco_Stop → P "private" Private_Start Private_Stop → P "vcard" VCard_Start VCard_Stop →
  P "caps" Caps_Start Caps_Stop → P "blocklist" BlockList_Start BlockList_Stop →
  P "stream_mgmt" Stream_Start Stream_Stop → P "ping" (Ping_Start sp) (Ping_Stop sp) →
  P "carbons" Carbons_Start Carbons_Stop → P "mam" Mam_Start Mam_Stop →
  (∀ n, n ∉ hooked_names → P n [] []) → ∀ n, P n (Start_of sp n) (Stop_of sp n).
Proof.
  intros ? ? ? ? ? ? ? ? ? ? ? ? Hother n. unfold Start_of, Stop_of. simpl.
  repeat match goal with
  | |- context [<[?k := _]> _ !! ?n] => destruct (decide (k = n)) as [<-|];
      [rewrite !lookup_insert_eq; done|rewrite !(lookup_insert_ne _ k n) by done]
  end.
  rewrite !lookup_empty. apply Hother. unfold hooked_names. set_solver.
Qed.

Lemma stop_mirrors_start sp n : map key (Start_of sp n) = Stop_of sp n.
Proof. apply (Start_of_cases (fun _ rs ks => map key rs = ks)); try done. by destruct sp. Qed.

Lemma start_owner sp n r : r ∈ Start_of sp n → owner (rg_method r) = n.
Proof.
  revert r. apply (Start_of_cases (fun n rs _ => ∀ r, r ∈ rs → owner (rg_method r) = n)); try by set_solver.
  all: try destruct sp; apply Forall_forall; repeat constructor.
Qed.

Lemma start_NoDup sp n : NoDup (map key (Start_of sp n)).
Proof.
  apply (Start_of_cases (fun _ rs _ => NoDup (map key rs))); try by constructor.
  all: try destruct sp; apply (bool_decide_unpack _); vm_compute; exact I.
Qed.

Section table.
Context `{SortSlice} {S : Type} (beh : method → M S unit) (sendPings : bool).

(** The calls of [AddHook] and [RemoveHook] in [Start] and [Stop] of the modules, one
    module after the other as [Modules.Start] and [Modules.Stop] do. *)
Definition addReg (hk : gmap string (list (handler S))) (r : registration) : gmap string (list (handler S)) :=
  AddHook (rg_hook r) (pointer (rg_method r)) (beh (rg_method r)) (rg_priority r) hk.
Definition removeReg (hk : gmap string (list (handler S))) (k : string * method) : gmap string (list (handler S)) :=
  RemoveHook k.1 (pointer k.2) hk.
Definition startModules (ms : list string) (hk : gmap string (list (handler S))) : gmap string (list (handler S)) :=
  foldl (fun hk n => foldl addReg hk (Start_of sendPings n)) hk ms.
Definition stopModules (ms : list string) (hk : gmap string (list (handler S))) : gmap string (list (handler S)) :=
  foldl (fun hk n => foldl removeReg hk (Stop_of sendPings n)) hk ms.

Definition hnd (r : registration) : handler S :=
  MkHandler (pointer (rg_method r)) (beh (rg_method r)) (rg_priority r).

(** All registrations of some modules, and those of one hook. *)
Definition regs (ms : list string) : list registration := ms ≫= Start_of sendPings.
Definition for_hook (hook : string) (rs : list registration) : list registration :=
  filter (fun r => rg_hook r = hook) rs.

Lemma foldl_bind {A B C} (f : C → B → C) (g : A → list B) (l : list A) : ∀ c,
  foldl (fun c a => foldl f c (g a)) c l = foldl f c (l ≫= g).
Proof. induction l as [|a l IH]; intros c; simpl; [done|]. by rewrite IH, foldl_app. Qed.

Lemma startModules_regs ms hk : startModules ms hk = foldl addReg hk (regs ms).
Proof. apply foldl_bind. Qed.
Lemma stopModules_keys ms hk : stopModules ms hk = foldl removeReg hk (ms ≫= Stop_of sendPings).
Proof. apply foldl_bind. Qed.

Lemma add_handlers hook r hk :
  handlers_of hook (addReg hk r) ≡ₚ handlers_of hook hk ++ map hnd (for_hook hook [r]).
Proof.
  unfold addReg, AddHook, for_hook. rewrite handlers_of_insert, filter_cons, filter_nil.
  case_decide as Hd; [subst|by rewrite app_nil_r]. apply sort_slice_perm.
Qed.

Lemma started_handlers hook rs : ∀ hk,
  handlers_of hook (foldl addReg hk rs) ≡ₚ handlers_of hook hk ++ map hnd (for_hook hook rs).
Proof.
  induction rs as [|r rs IH]; intros hk; simpl; [by rewrite app_nil_r|].
  rewrite IH, add_handlers, <-app_assoc, <-map_app. unfold for_hook. by rewrite <-filter_app.
Qed.

Lemma started_sorted rs : ∀ hk, hooks_sorted hk → hooks_sorted (foldl addReg hk rs).
Proof.
  induction rs as [|r rs IH]; intros hk Hs; simpl; [done|]. apply IH.
  apply (hooks_sorted_apply hk (OpAdd (rg_hook r) (pointer (rg_method r)) (beh (rg_method r)) (rg_priority r)) Hs).
Qed.

(** A method is registered once for a hook. *)
Definition single (hk : gmap string (list (handler S))) : Prop := ∀ hook, NoDup (map ptr (handlers_of hook hk)).

Lemma remove_first_filter q (hs : list (handler S)) : NoDup (map ptr hs) →
  default hs (remove_first q hs) = filter (fun x => ptr x ≠ q) hs.
Proof.
  induction hs as [|x hs IH]; intros Hnd; [done|]. simpl in Hnd. apply NoDup_cons in Hnd as [Hx Hnd].
  simpl. rewrite filter_cons. destruct (Z.eqb_spec (ptr x) q) as [E|E].
  - rewrite decide_False by (intros Hn; by apply Hn). simpl. symmetry. apply filter_all.
    intros y Hy Hq. apply Hx. rewrite E, <-Hq. by apply list_elem_of_fmap_2.
  - rewrite decide_True by done. rewrite <-IH by done. by destruct (remove_first q hs).
Qed.

Lemma remove_handlers hook k hk : single hk →
  handlers_of hook (removeReg hk k) =
    if decide (k.1 = hook) then filter (fun x => ptr x ≠ pointer k.2) (handlers_of hook hk) else handlers_of hook hk.
Proof.
  intros Hs. unfold removeReg, RemoveHook. pose proof (remove_first_filter (pointer k.2) _ (Hs k.1)) as Hf.
  destruct (remove_first (pointer k.2) (handlers_of k.1 hk)) as [hs|]; simpl in Hf.
  - rewrite handlers_of_insert. case_decide as Hd; [by rewrite <-Hd, <-Hf|done].
  - case_decide as Hd; [|done]. subst. by rewrite <-Hf.
Qed.

(** What is left after a list of removals. *)
Lemma stopped_handlers hook ks : ∀ hk, single hk →
  single (foldl removeReg hk ks) ∧
  handlers_of hook (foldl removeReg hk ks) =
    filter (fun x => Forall (fun k => k.1 = hook → ptr x ≠ pointer k.2) ks) (handlers_of hook hk).
Proof.
  induction ks as [|k ks IH]; intros hk Hs; simpl.
  { split; [done|]. symmetry. apply filter_all. intros x _. constructor. }
  assert (single (removeReg hk k)) as Hs'.
  { intros h. rewrite remove_handlers by done. case_decide; [|apply Hs].
    eapply sublist_NoDup; [apply (Hs h)|]. apply (fmap_sublist ptr), sublist_filter. }
  destruct (IH _ Hs') as [Hs2 ->]. split; [done|]. rewrite remove_handlers by done. case_decide as Hd.
  - rewrite list_filter_filter. apply list_filter_iff. intros x. rewrite Forall_cons. naive_solver.
  - apply list_filter_iff. intros x. rewrite Forall_cons. naive_solver.
Qed.

Lemma regs_owner ms r : r ∈ regs ms → owner (rg_method r) ∈ ms.
Proof. unfold regs. rewrite list_elem_of_bind. intros (n & Hr & Hn). by rewrite (start_owner _ _ _ Hr). Qed.

Lemma regs_keys ms : NoDup ms → NoDup (map key (regs ms)).
Proof.
  intros Hnd. replace (map key (regs ms)) with (ms ≫= fun n => map key (Start_of sendPings n)).
  - apply NoDup_bind; [|by intros; apply start_NoDup|done]. intros n n' k _ _ Hk Hk'.
    apply list_elem_of_fmap in Hk as (r & -> & Hr), Hk' as (r' & Hkk & Hr').
    rewrite <-(start_owner _ _ _ Hr), <-(start_owner _ _ _ Hr'). by injection Hkk as _ ->.
  - unfold regs. clear Hnd. induction ms as [|n ms IH]; [done|]. by rewrite !bind_cons, map_app, <-IH.
Qed.

(** Stopping the modules undoes their start.  When the modules that were started,
    in whatever order, are stopped, in whatever order, every hook has the handlers it
    had before: no module leaves a handler behind or takes one of others away. *)
Theorem start_stop_modules (ms ms' : list string) (hk : gmap string (list (handler S)))
    (Hnd : NoDup ms) (Hperm : ms ≡ₚ ms') (Hone : single hk)
    (Hnew : ∀ hook m, pointer m ∉ map ptr (handlers_of hook hk)) (hook : string) :
  handlers_of hook (stopModules ms' (startModules ms hk)) ≡ₚ handlers_of hook hk.
Proof.
  rewrite startModules_regs, stopModules_keys.
  assert (single (foldl addReg hk (regs ms))) as Hs.
  { intros h. rewrite started_handlers, map_app. apply NoDup_app. split; [apply Hone|]. split.
    - intros q Hq (x & -> & (r & -> & Hr)%list_elem_of_fmap)%list_elem_of_fmap. by apply (Hnew h (rg_method r)).
    - rewrite map_map. pose proof (regs_keys ms Hnd) as Hk. unfold for_hook. revert Hk. generalize (regs ms).
      intros rs. induction rs as [|r rs IH]; simpl; intros Hk; [constructor|]. apply NoDup_cons in Hk as [Hk Hrs].
      rewrite filter_cons. case_decide as Hd; [|by apply IH]. simpl. apply NoDup_cons. split; [|by apply IH].
      intros (r' & E & Hr')%list_elem_of_fmap. apply (inj pointer) in E. apply list_elem_of_filter in Hr' as [Hh Hr'].
      apply Hk. apply list_elem_of_fmap. exists r'. split; [|done]. unfold key. by rewrite E, Hd, Hh. }
  destruct (stopped_handlers hook (ms' ≫= Stop_of sendPings) _ Hs) as [_ ->].
  rewrite started_handlers, filter_app, filter_all, filter_none, app_nil_r; [done|..].
  - intros x (r & -> & Hr)%list_elem_of_fmap Hall. apply list_elem_of_filter in Hr as [Hh Hr].
    rewrite Forall_forall in Hall. apply (Hall (key r)); [|done|done].
    unfold regs in Hr. apply list_elem_of_bind in Hr as (n & Hr & Hn). apply list_elem_of_bind. exists n.
    rewrite <-stop_mirrors_start. split; [by apply list_elem_of_fmap_2|by rewrite <-Hperm].
  - intros x Hx. apply Forall_forall. intros k _ _ Hq. apply (Hnew hook k.2). rewrite <-Hq. by apply list_elem_of_fmap_2.
Qed.

Lemma NewHooks_sorted : hooks_sorted (NewHooks : gmap string (list (handler S))).
Proof. intros h. constructor. Qed.

(** [rs] lists what the modules register for a hook. *)
Definition lists (hook : string) (rs : list registration) : Prop :=
  ∀ n, for_hook hook (Start_of sendPings n) = filter (fun r => owner (rg_method r) = n) rs.

(** It is enough to look at the modules of the table. *)
Lemma lists_table hook rs :
  Forall (fun n => for_hook hook (Start_of sendPings n) = filter (fun r => owner (rg_method r) = n) rs) hooked_names →
  lists hook rs.
Proof.
  intros Hall n. destruct (decide (n ∈ hooked_names)) as [Hin|Hn]; [by rewrite Forall_forall in Hall; apply Hall|].
  transitivity (for_hook hook []).
  - f_equal. revert Hn. by apply (Start_of_cases (fun n rs _ => n ∉ hooked_names → rs = [])); [intros Hf; destruct Hf; set_solver..|].
  - symmetry. apply filter_none. intros r _ <-. apply Hn. unfold hooked_names. destruct (rg_method r); set_solver.
Qed.

Lemma regs_listed hook rs ms r : lists hook rs →
  r ∈ for_hook hook (regs ms) ↔ r ∈ rs ∧ owner (rg_method r) ∈ ms.
Proof.
  intros Hl. unfold for_hook, regs. rewrite list_elem_of_filter, list_elem_of_bind. split.
  - intros (Hh & n & Hr & Hn). assert (r ∈ for_hook hook (Start_of sendPings n)) as Hin by (by apply list_elem_of_filter).
    rewrite Hl in Hin. apply list_elem_of_filter in Hin as [<- Hin]. done.
  - intros [Hin Ho]. assert (r ∈ for_hook hook (Start_of sendPings (owner (rg_method r)))) as Hr.
    { rewrite Hl. by apply list_elem_of_filter. }
    apply list_elem_of_filter in Hr as [Hh Hr]. eauto.
Qed.

Definition above (x y : registration) : Prop := (rg_priority y < rg_priority x)%Z.

Lemma above_same rs x y : StronglySorted above rs → x ∈ rs → y ∈ rs → rg_priority x = rg_priority y → x = y.
Proof.
  unfold above. induction 1 as [|z rs Hs IH Hz]; [set_solver|]. rewrite Forall_forall in Hz.
  intros [->|Hx]%elem_of_cons [->|Hy]%elem_of_cons E; [done|apply Hz in Hy; lia|apply Hz in Hx; lia|by apply IH].
Qed.

Lemma sorted_handlers rs : StronglySorted above rs → StronglySorted by_priority (map hnd rs).
Proof.
  induction 1 as [|x rs Hs IH Hx]; simpl; constructor; [done|]. apply Forall_fmap.
  eapply Forall_impl; [exact Hx|]. unfold above, by_priority, compose. simpl. lia.
Qed.

Lemma sorted_filter (P : registration → Prop) `{!∀ x, Decision (P x)} rs :
  StronglySorted above rs → StronglySorted above (filter P rs).
Proof. apply StronglySorted_sublist, sublist_filter. Qed.

(** When no two modules use the same priority for a hook, its handlers are those of
    the modules that were started, by their priority. *)
Lemma handlers_in_order hook rs ms : NoDup ms → lists hook rs → StronglySorted above rs →
  handlers_of hook (startModules ms NewHooks) = map hnd (filter (fun r => owner (rg_method r) ∈ ms) rs).
Proof.
  intros Hnd Hl Hs. pose proof (sorted_filter (fun r => owner (rg_method r) ∈ ms) rs Hs) as Hf.
  rewrite startModules_regs. apply (StronglySorted_unique_strong by_priority).
  - intros x y Hx Hy Hxy Hyx. rewrite started_handlers in Hx. apply list_elem_of_fmap in Hx as (r & -> & Hr).
    apply list_elem_of_fmap in Hy as (r' & -> & [_ Hr']%list_elem_of_filter).
    apply (regs_listed hook rs) in Hr as [Hr _]; [|done].
    f_equal. apply (above_same rs); [done..|]. unfold by_priority in *. simpl in *. lia.
  - apply started_sorted, NewHooks_sorted.
  - by apply sorted_handlers.
  - rewrite started_handlers. apply (fmap_Permutation hnd). apply NoDup_Permutation.
    + apply NoDup_filter. eapply (NoDup_fmap_1 key), regs_keys, Hnd.
    + apply NoDup_filter. clear Hl Hf. induction Hs as [|x rs Hs IH Hx]; constructor; [|done].
      intros Hin. rewrite Forall_forall in Hx. apply Hx in Hin. unfold above in Hin. lia.
    + intros r. rewrite (regs_listed hook rs) by done. rewrite list_elem_of_filter. tauto.
Qed.

(** A handler of higher priority runs first: what comes before it in the list has
    at least its priority. *)
Lemma handlers_before hook ms r : r ∈ for_hook hook (regs ms) →
  ∃ pre post, handlers_of hook (startModules ms NewHooks) = pre ++ hnd r :: post ∧
    ∀ x, x ∈ pre → ∃ r', x = hnd r' ∧ r' ∈ for_hook hook (regs ms) ∧ (rg_priority r <= rg_priority r')%Z.
Proof.
  intros Hr. rewrite startModules_regs.
  pose proof (started_handlers hook (regs ms) NewHooks) as Hp. simpl in Hp.
  assert (hnd r ∈ handlers_of hook (foldl addReg NewHooks (regs ms))) as Hin.
  { rewrite Hp. by apply list_elem_of_fmap_2. }
  apply list_elem_of_split in Hin as (pre & post & E). exists pre, post. split; [done|]. intros x Hx.
  pose proof (started_sorted (regs ms) NewHooks NewHooks_sorted hook) as Hs. rewrite E in Hs.
  pose proof (sorted_app_le _ _ x (hnd r) Hs Hx ltac:(set_solver)) as Hle.
  assert (x ∈ map hnd (for_hook hook (regs ms))) as (r' & -> & Hr')%list_elem_of_fmap by (rewrite <-Hp, E; set_solver).
  by exists r'.
Qed.

End table.

(** ** Three modules beside a handler of another part *)
Module TableDemo.

Definition quiet (_ : method) : M unit unit := mret tt.
Definition other : gmap string (list (handler unit)) := <[UserDeleted := [MkHandler 100 (mret tt) DefaultPriority]]> (∅ : gmap string (list (handler unit))).

Lemma start_stop_modules_witness :
  length (handlers_of UserDeleted (startModules quiet true ["mam"; "ping"; "last"] other)) = 3%nat ∧
  handlers_of UserDeleted (stopModules true ["last"; "mam"; "ping"] (startModules quiet true ["mam"; "ping"; "last"] other))
    ≡ₚ handlers_of UserDeleted other.
Proof.
  split; [vm_compute; reflexivity|]. apply start_stop_modules.
  - apply (bool_decide_unpack _). vm_compute. exact I.
  - apply (bool_decide_unpack _). vm_compute. exact I.
  - intros hook. unfold other. rewrite handlers_of_insert. case_decide; [apply NoDup_singleton|constructor].
  - intros hook m. unfold other. rewrite handlers_of_insert. case_decide; [|apply not_elem_of_nil].
    simpl. rewrite list_elem_of_singleton. by destruct m.
Defined.

End TableDemo.
