(* ===== verification/JumpHash.v ===== *)
(** * Jump consistent hashing (src/pkg/storage/cached/redis/jumphash.go)

    The servers of the cache are chosen by a hash whose result depends on arithmetic
    in [float64].  The values it meets are positive and far from the limits of the
    exponent: a number is a significand and an exponent, and every operation rounds
    its exact result to 53 bits, ties to even. *)

From stdpp Require Import base list.
From Stdlib Require Import ZArith Lia.
From S2P Require Import Prelude GoLib.
From S2P Require Storage.
Open Scope Z_scope.

(** ** float64 *)
Record f64 := MkF64 { sig : Z; expo : Z }.

(** The exact value of [x] is [fst (frac x) / snd (frac x)]. *)
Definition frac (x : f64) : Z * Z :=
  if 0 <=? expo x then (sig x * 2 ^ expo x, 1) else (sig x, 2 ^ (- expo x)).

(** The quotient, to the nearest integer, ties to even. *)
Definition nearest (a b : Z) : Z :=
  let q := a / b in
  match Z.compare (2 * (a mod b)) b with
  | Lt => q
  | Gt => q + 1
  | Eq => if Z.even q then q else q + 1
  end.

(** The exponent [e] for which the quotient of [num] and [den] over 2^e has 53 bits. *)
Definition scaled (num den e : Z) : Z * Z :=
  if 0 <=? e then (num, den * 2 ^ e) else (num * 2 ^ (- e), den).
Definition exponent (num den : Z) : Z :=
  let l := Z.log2 num - Z.log2 den in
  let '(a, b) := scaled num den l in
  if b <=? a then l - 52 else l - 53.
Definition round (num den : Z) : f64 :=
  let e := exponent num den in
  let '(a, b) := scaled num den e in MkF64 (nearest a b) e.

Definition of_int (z : Z) : f64 := round z 1.
Definition mul (x y : f64) : f64 := round ((frac x).1 * (frac y).1) ((frac x).2 * (frac y).2).
Definition div (x y : f64) : f64 := round ((frac x).1 * (frac y).2) ((frac x).2 * (frac y).1).
(** [int64(x)] *)
Definition trunc (x : f64) : Z := Z.shiftl (sig x) (expo x).

(** ** jumpHash *)
Definition uint64 (z : Z) : Z := z mod 2 ^ 64.

Definition next_key (key : Z) : Z := uint64 (key * 2862933555777941757 + 1).
Definition next_bucket (b key : Z) : Z :=
  trunc (mul (of_int (b + 1)) (div (of_int (Z.shiftl 1 31)) (of_int (Z.shiftr key 33 + 1)))).

(** The loop; the buckets grow, so that as many rounds as there are buckets suffice. *)
Fixpoint jump (fuel : nat) (numBuckets b j key : Z) : option Z :=
  if numBuckets <=? j then Some b
  else
    match fuel with
    | O => None
    | S fuel' => let key' := next_key key in jump fuel' numBuckets j (next_bucket j key') key'
    end.
Definition jumpHash (key numBuckets : Z) : option Z :=
  Storage.int32 <$> jump (Z.to_nat numBuckets) numBuckets (-1) 0 (uint64 key).

(** Known values. *)
Example jump_values :
  map (fun '(k, n) => jumpHash k n) [(1, 1); (42, 57); (0xDEAD10CC, 1); (0xDEAD10CC, 666); (256, 1024)] =
  map Some [0; 43; 0; 361; 520].
Proof. vm_compute. reflexivity. Qed.

(** ** Rounding does not go below an integer *)

Lemma pow2_pos e : 0 <= e → 0 < 2 ^ e.
Proof. apply Z.pow_pos_nonneg. lia. Qed.

Lemma nearest_ge a b k : 0 < b → k * b <= a → k <= nearest a b.
Proof.
  intros Hb Hk. assert (k <= a / b) as Hq by (apply Z.div_le_lower_bound; lia).
  unfold nearest. destruct (_ ?= _); [destruct (Z.even _)|..]; lia.
Qed.

Lemma scaled_pos num den e : 0 < num → 0 < den → 0 < (scaled num den e).1 ∧ 0 < (scaled num den e).2.
Proof.
  intros Hn Hd. unfold scaled. destruct (Z.leb_spec 0 e); simpl.
  - pose proof (pow2_pos e). nia.
  - pose proof (pow2_pos (- e)). nia.
Qed.

(** Scaling by one more bit halves the quotient. *)
Lemma scaled_lower num den l c : 0 < num → 0 < den → 0 <= c → (scaled num den l).2 <= (scaled num den l).1 →
  2 ^ c * (scaled num den (l - c)).2 <= (scaled num den (l - c)).1.
Proof.
  intros Hn Hd Hc. unfold scaled. destruct (Z.leb_spec 0 l) as [Hl|Hl], (Z.leb_spec 0 (l - c)) as [Hl'|Hl']; simpl; intros H.
  - rewrite (Z.pow_sub_r 2 l c) by lia. transitivity (den * (2 ^ c * (2 ^ l / 2 ^ c))); [nia|].
    pose proof (Z.mul_div_le (2 ^ l) (2 ^ c) (pow2_pos c Hc)). nia.
  - replace (- (l - c)) with (c - l) by lia. replace (2 ^ c) with (2 ^ (c - l) * 2 ^ l) by (rewrite <-Z.pow_add_r; [f_equal; lia|lia..]).
    pose proof (pow2_pos (c - l)). nia.
  - lia.
  - replace (- (l - c)) with (c + - l) by lia. rewrite Z.pow_add_r by lia. pose proof (pow2_pos c Hc). nia.
Qed.

(** The quotient of two numbers is at least the quotient of the powers below. *)
Lemma scaled_log num den : 0 < num → 0 < den → let l := Z.log2 num - Z.log2 den in
  (scaled num den (l - 1)).2 <= (scaled num den (l - 1)).1.
Proof.
  intros Hn Hd l. pose proof (Z.log2_spec num Hn) as [Hln _]. pose proof (Z.log2_spec den Hd) as [_ Hld].
  pose proof (Z.log2_nonneg num). pose proof (Z.log2_nonneg den). unfold scaled.
  destruct (Z.leb_spec 0 (l - 1)) as [He|He]; simpl.
  - transitivity (2 ^ (Z.log2 den + 1) * 2 ^ (l - 1)).
    + pose proof (pow2_pos (l - 1) He). unfold Z.succ in Hld. nia.
    + rewrite <-Z.pow_add_r by lia. replace (Z.log2 den + 1 + (l - 1)) with (Z.log2 num) by lia. done.
  - transitivity (2 ^ (Z.log2 den + 1)); [unfold Z.succ in Hld; lia|].
    replace (Z.log2 den + 1) with (Z.log2 num + - (l - 1)) by lia. rewrite Z.pow_add_r by lia.
    pose proof (pow2_pos (- (l - 1))). nia.
Qed.

(** The significand has 53 bits. *)
Lemma exponent_lower num den : 0 < num → 0 < den →
  let '(a, b) := scaled num den (exponent num den) in 2 ^ 52 * b <= a.
Proof.
  intros Hn Hd. unfold exponent. set (l := Z.log2 num - Z.log2 den).
  destruct (scaled num den l) as [a b] eqn:E. destruct (Z.leb_spec b a) as [Hab|Hab].
  - pose proof (scaled_lower num den l 52 Hn Hd ltac:(lia)) as Hs. rewrite E in Hs.
    destruct (scaled num den (l - 52)). by apply Hs.
  - pose proof (scaled_lower num den (l - 1) 52 Hn Hd ltac:(lia) (scaled_log num den Hn Hd)) as Hs.
    replace (l - 1 - 52) with (l - 53) in Hs by lia. by destruct (scaled num den (l - 53)).
Qed.

(** [x] is at least the integer [k]. *)
Definition at_least (k : Z) (x : f64) : Prop := 0 < (frac x).2 ∧ k * (frac x).2 <= (frac x).1.

Lemma round_ge num den k : 0 < num → 0 < den → 0 <= k <= 2 ^ 53 → k * den <= num → at_least k (round num den).
Proof.
  intros Hn Hd Hk Hq. unfold round. pose proof (exponent_lower num den Hn Hd) as Hlow.
  pose proof (scaled_pos num den (exponent num den) Hn Hd) as [_ Hb]. set (e := exponent num den) in *.
  destruct (scaled num den e) as [a b] eqn:E. simpl in Hb. unfold at_least, frac. simpl.
  destruct (Z.leb_spec 0 e) as [He|He]; simpl.
  - split; [lia|]. destruct (decide (e = 0)) as [H0|Hne].
    + rewrite H0, Z.pow_0_r, !Z.mul_1_r. unfold scaled in E. rewrite H0 in E. simpl in E. injection E as <- <-.
      apply nearest_ge; lia.
    + pose proof (nearest_ge a b (2 ^ 52) Hb Hlow). assert (2 <= 2 ^ e) by (apply (Z.pow_le_mono_r 2 1 e); lia). nia.
  - split; [apply pow2_pos; lia|]. apply nearest_ge; [done|]. unfold scaled in E.
    destruct (Z.leb_spec 0 e); [lia|]. injection E as <- <-. pose proof (pow2_pos (- e)). nia.
Qed.

Lemma trunc_ge x k : at_least k x → k <= trunc x.
Proof.
  unfold at_least, frac, trunc. destruct (Z.leb_spec 0 (expo x)) as [He|He]; simpl; intros [Hp Hk].
  - rewrite Z.shiftl_mul_pow2 by done. lia.
  - replace (expo x) with (- - expo x) by lia. rewrite Z.shiftl_opp_r, Z.shiftr_div_pow2 by lia.
    apply Z.div_le_lower_bound; lia.
Qed.

(** Integers of 53 bits are exact. *)
Lemma of_int_exact z : 0 < z < 2 ^ 53 → 0 < (frac (of_int z)).2 ∧ (frac (of_int z)).1 = z * (frac (of_int z)).2.
Proof.
  intros [Hz Hlt]. pose proof (Z.log2_spec z Hz) as [Hlow _]. pose proof (Z.log2_nonneg z) as Hl0.
  assert (Z.log2 z < 53) as Hl by (apply Z.log2_lt_pow2; lia).
  assert (exponent z 1 = Z.log2 z - 52) as He.
  { unfold exponent, scaled. change (Z.log2 1) with 0. rewrite Z.sub_0_r.
    destruct (Z.leb_spec 0 (Z.log2 z)); [|lia]. rewrite Z.mul_1_l. by destruct (Z.leb_spec (2 ^ Z.log2 z) z); [|lia]. }
  assert (∀ a, nearest a 1 = a) as Hn.
  { intros a. unfold nearest. rewrite Z.mod_1_r, Z.div_1_r. done. }
  unfold of_int, round. rewrite He. unfold scaled, frac. destruct (Z.leb_spec 0 (Z.log2 z - 52)) as [H0|H0]; simpl.
  - replace (Z.log2 z - 52) with 0 by lia. simpl. rewrite Hn. lia.
  - destruct (Z.leb_spec 0 (Z.log2 z - 52)); [lia|]. simpl. rewrite Hn. split; [apply pow2_pos; lia|done].
Qed.

Lemma next_key_range key : 0 <= next_key key < 2 ^ 64.
Proof. unfold next_key, uint64. apply Z.mod_pos_bound. lia. Qed.

(** The next bucket is a later one. *)
Lemma next_bucket_grows b key : 0 <= b < 2 ^ 53 - 1 → 0 <= key < 2 ^ 64 → b < next_bucket b key.
Proof.
  intros Hb Hk. unfold next_bucket. enough (b + 1 <= trunc (mul (of_int (b + 1)) (div (of_int (Z.shiftl 1 31)) (of_int (Z.shiftr key 33 + 1))))) by lia.
  assert (1 <= Z.shiftr key 33 + 1 <= 2 ^ 31) as Hd.
  { rewrite Z.shiftr_div_pow2 by lia. assert (0 <= key / 2 ^ 33 < 2 ^ 31); [|lia].
    split; [apply Z.div_pos; lia|apply Z.div_lt_upper_bound; lia]. }
  destruct (of_int_exact (b + 1) ltac:(lia)) as [Hp1 Hx1]. destruct (of_int_exact (Z.shiftl 1 31) ltac:(done)) as [Hp2 Hx2].
  destruct (of_int_exact (Z.shiftr key 33 + 1) ltac:(lia)) as [Hp3 Hx3]. change (Z.shiftl 1 31) with (2 ^ 31) in *.
  set (x := of_int (b + 1)) in *. set (y := of_int (2 ^ 31)) in *. set (d := of_int (Z.shiftr key 33 + 1)) in *.
  assert (at_least 1 (div y d)) as [Hq0 Hq].
  { apply round_ge; [nia|nia|lia|]. rewrite Hx2, Hx3. nia. }
  apply trunc_ge, round_ge; [nia|nia|lia|]. rewrite Hx1. nia.
Qed.

(** ** The loop *)
Section loop.
Context (n : Z) (Hn : n <= 2 ^ 31).

(** It ends with a bucket below [n] that is not before the one at hand. *)
Lemma jump_ends fuel : ∀ b j key, -1 <= b < j → n - j <= Z.of_nat fuel → b < n → 
  ∃ r, jump fuel n b j key = Some r ∧ b <= r < n ∧ (j < n → j <= r).
Proof.
  induction fuel as [|fuel IH]; intros b j key Hbj Hf Hb; simpl; destruct (Z.leb_spec n j) as [Hj|Hj]; try lia.
  - exists b. split; [done|lia].
  - exists b. split; [done|lia].
  - pose proof (next_bucket_grows j (next_key key) ltac:(lia) (next_key_range key)) as Hg.
    destruct (IH j (next_bucket j (next_key key)) (next_key key)) as (r & Hr & Hin & _); [lia..|].
    exists r. split; [done|]. lia.
Qed.
End loop.

(** With more buckets the loop takes the same way and may go on. *)
Lemma jump_done fuel n b j key : n <= j → jump fuel n b j key = Some b.
Proof. intros Hj. destruct fuel; simpl; destruct (Z.leb_spec n j); (lia || done). Qed.

Lemma jump_extends n n' fuel : n <= n' <= 2 ^ 31 → ∀ fuel' b j key r r', -1 <= b < j → b < n → n' - j <= Z.of_nat fuel' →
  jump fuel n b j key = Some r → jump fuel' n' b j key = Some r' → r' = r ∨ n <= r'.
Proof.
  intros Hn. induction fuel as [|fuel IH]; intros fuel' b j key r r' Hbj Hb Hf Hr Hr'; destruct (Z.le_gt_cases n j) as [Hj|Hj].
  1,3: rewrite jump_done in Hr by done; injection Hr as <-;
    destruct (jump_ends n' ltac:(lia) fuel' b j key ltac:(lia) Hf ltac:(lia)) as (r0 & Hr0 & Hin & Hge);
    rewrite Hr' in Hr0; injection Hr0 as <-; destruct (Z.le_gt_cases n' j) as [Hj'|Hj']; [|right; lia];
    rewrite jump_done in Hr' by done; left; congruence.
  - simpl in Hr. destruct (Z.leb_spec n j); [lia|done].
  - destruct fuel' as [|fuel']; [lia|]. simpl in Hr, Hr'. destruct (Z.leb_spec n j), (Z.leb_spec n' j); try lia.
    pose proof (next_bucket_grows j (next_key key) ltac:(lia) (next_key_range key)).
    eapply IH; [..|exact Hr|exact Hr']; lia.
Qed.

Lemma int32_small z : 0 <= z < 2 ^ 31 → Storage.int32 z = z.
Proof. intros Hz. unfold Storage.int32. rewrite Z.mod_small; lia. Qed.

(** [jumpHash] gives one of the buckets. *)
Lemma jumpHash_range key n : 1 <= n <= 2 ^ 31 → ∃ b, jumpHash key n = Some b ∧ 0 <= b < n.
Proof.
  intros Hn. unfold jumpHash. destruct (jump_ends n ltac:(lia) (Z.to_nat n) (-1) 0 (uint64 key)) as (r & -> & Hr & H0); [lia..|].
  exists r. simpl. rewrite int32_small by lia. split; [done|lia].
Qed.


