(* ===== verification/SrvResolver.v ===== *)
(** * SRV records and their resolution (src/pkg/util/dns/srvresolver.go)

    A record in its textual form, and the resolver that asks for the targets of a
    record in intervals and says what is new and what is gone.  The lookup is a
    parameter; the channel of updates holds the updates that were not received. *)

From stdpp Require Import base list strings gmap sorting.
From Stdlib Require Import ZArith Ascii Lia.
From S2P Require Import Prelude GoLib GoStrings GoHoare S2SProvider.
Import Dialer.

(** ** Records *)
Definition errBadSRVFormat : goerror := ErrText "bad SRV record format".

(** One round of the loop of [ParseSRVRecord]: a label that begins with an underscore,
    and what is left. *)
Definition parseLabel (remaining : string) : outcome (string * string) :=
  match cut "."%char remaining with
  | None => Err errBadSRVFormat
  | Some (split, remaining') =>
    match CutPrefix "_" split with
    | None => Err errBadSRVFormat
    | Some label => Ok (label, remaining')
    end
  end.
Definition ParseSRVRecord (rec : string) : outcome (string * string * string) :=
  '(srv, remaining) ← parseLabel rec;
  '(proto, remaining) ← parseLabel remaining;
  if String.eqb remaining "" then Err errBadSRVFormat else mret (srv, proto, remaining).

(** A record as it is written. *)
Definition srv_record (srv proto name : string) : string := "_" +:+ srv +:+ "._" +:+ proto +:+ "." +:+ name.

Lemma cut_inv c s k v : cut c s = Some (k, v) → s = k +:+ String c v ∧ no_char c k = true.
Proof.
  revert k v. induction s as [|x s IH]; intros k v; simpl; [done|]. destruct (Ascii.eqb_spec x c) as [->|Hne].
  - by intros [= <- <-].
  - destruct (cut c s) as [[k' v']|]; [|done]. intros [= <- <-]. destruct (IH k' v' eq_refl) as [-> Hk].
    rewrite string_app_cons. split; [done|]. simpl. by destruct (Ascii.eqb_spec x c).
Qed.

Lemma parseLabel_iff rec label rest :
  parseLabel rec = Ok (label, rest) ↔ rec = "_" +:+ label +:+ "." +:+ rest ∧ no_char "."%char label = true.
Proof.
  unfold parseLabel. split.
  - destruct (cut "."%char rec) as [[split' rest']|] eqn:Ec; [|done]. destruct (CutPrefix "_" split') as [l|] eqn:Ep; [|done].
    intros [= -> ->]. apply cut_inv in Ec as [-> Hn]. apply CutPrefix_inv in Ep as ->. by split.
  - intros [-> Hl]. change ("_" +:+ label +:+ "." +:+ rest) with (("_" +:+ label) +:+ String "."%char rest).
    rewrite cut_app by done. by rewrite CutPrefix_app.
Qed.

(** A record is read exactly as it is written: the service, the protocol and the
    name of a written record come back, and what is accepted is a written record. *)
Theorem srv_record_exact (rec srv proto name : string) :
  ParseSRVRecord rec = Ok (srv, proto, name) ↔
  rec = srv_record srv proto name ∧ no_char "."%char srv = true ∧ no_char "."%char proto = true ∧ name ≠ "".
Proof.
  unfold ParseSRVRecord. split.
  - destruct (parseLabel rec) as [[l r]| |] eqn:E1; simpl; [|done..]. apply parseLabel_iff in E1 as [-> Hl].
    destruct (parseLabel r) as [[l' r']| |] eqn:E2; simpl; [|done..]. apply parseLabel_iff in E2 as [-> Hl'].
    destruct (String.eqb_spec r' "") as [|Hne]; [done|]. by intros [= -> -> ->].
  - intros (-> & Hs & Hp & Hn). unfold srv_record.
    rewrite (proj2 (parseLabel_iff _ srv ("_" +:+ proto +:+ "." +:+ name))) by (split; [|done]; reflexivity). simpl.
    rewrite (proj2 (parseLabel_iff _ proto name)) by done. simpl. by destruct (String.eqb_spec name "").
Qed.

(** ** The resolver *)

(** [for k := range m] visits the keys of a map once each, in any order. *)
Class MapRange := {
  range_keys : gset string → list string;
  range_keys_perm : ∀ X, range_keys X ≡ₚ elements X;
}.

(** [SRVUpdate] *)
Record SRVUpdate := MkUpdate { NewTargets : list string; OldTargets : list string }.

(** [SRVResolver]; [running] stands for the goroutine of [runLoop], [doneClosed] for
    the channel that ends it. *)
Record SRVResolver := MkResolver {
  rv_srv : string; rv_proto : string; rv_name : string; rsvInterval : Z;
  targets : list string; updateCh : list SRVUpdate; updateClosed : bool; doneClosed : bool; running : bool }.
Definition NewSRVResolver (service proto name : string) (resolveInterval : Z) : SRVResolver :=
  MkResolver service proto name resolveInterval [] [] false false false.

Definition set_targets (ts : list string) (r : SRVResolver) : SRVResolver :=
  MkResolver (rv_srv r) (rv_proto r) (rv_name r) (rsvInterval r) ts (updateCh r) (updateClosed r) (doneClosed r) (running r).
Definition set_updates (us : list SRVUpdate) (r : SRVResolver) : SRVResolver :=
  MkResolver (rv_srv r) (rv_proto r) (rv_name r) (rsvInterval r) (targets r) us (updateClosed r) (doneClosed r) (running r).
Definition set_running (b : bool) (r : SRVResolver) : SRVResolver :=
  MkResolver (rv_srv r) (rv_proto r) (rv_name r) (rsvInterval r) (targets r) (updateCh r) (updateClosed r) (doneClosed r) b.
Definition set_closed (r : SRVResolver) : SRVResolver :=
  MkResolver (rv_srv r) (rv_proto r) (rv_name r) (rsvInterval r) (targets r) (updateCh r) true true (running r).

(** The addresses of the targets of an answer. *)
Definition addresses (addrs : list SRV) : list string :=
  (fun a => JoinHostPort (TrimDot (Target a)) (Itoa (Port a))) <$> List.filter (fun a => negb (String.eqb (Target a) ".")) addrs.

(** The loop over the old targets: those that are not in the answer, and what is
    left of the index of the answer. *)
Fixpoint compareTargets (ts : list string) (m : gset string) : list string * gset string :=
  match ts with
  | [] => ([], m)
  | t :: ts' =>
    if decide (t ∈ m) then compareTargets ts' (m ∖ {[t]})
    else let '(old, m') := compareTargets ts' m in (t :: old, m')
  end.

Section resolver.
Context `{!SortSlice} `{!MapRange} {W : Type} (lookUpFn : string → string → string → M W (list SRV)).
Abbreviation MR := (M (SRVResolver * W)).

Definition resolve : MR (list string * list string) :=
  r ← fld (fun r => r);
  addrs ← onW (lookUpFn (rv_srv r) (rv_proto r) (rv_name r));
  let srvTargets := addresses addrs in
  let '(oldTargets, m) := compareTargets (targets r) (list_to_set srvTargets) in
  setf (set_targets (sort_slice String.ltb srvTargets));;
  mret (range_keys m, oldTargets).

Definition Resolve : MR unit :=
  resolve;;
  i ← fld rsvInterval;
  if Z.eqb i 0 then mret tt else setf (set_running true).

Definition Targets : MR (list string) := fld targets.

(** [r.updateCh <- update] *)
Definition send (u : SRVUpdate) : MR unit :=
  closed ← fld updateClosed;
  if closed : bool then crash_with SendOnClosedChannel
  else setf (fun r => set_updates (updateCh r ++ [u]) r).

(** The case of the ticker in [runLoop], and that of [doneCh]. *)
Definition tick : MR unit :=
  r ← try resolve;
  match r with
  | inl _ => mret tt
  | inr ([], []) => mret tt
  | inr (newTargets, oldTargets) => send (MkUpdate newTargets oldTargets)
  end.
Definition ended : MR unit := setf (set_running false).

(** [Close] *)
Definition Close : MR unit :=
  d ← fld doneClosed;
  if d : bool then crash_with CloseOfClosedChannel else setf set_closed.

(** ** What an update says *)

(** The set of targets of a client that applies an update. *)
Definition after_update (X : gset string) (u : SRVUpdate) : gset string :=
  (X ∖ list_to_set (OldTargets u)) ∪ list_to_set (NewTargets u).

Lemma compareTargets_spec ts m : NoDup ts →
  compareTargets ts m = (filter (fun t => t ∉ m) ts, m ∖ list_to_set ts).
Proof.
  revert m. induction ts as [|t ts IH]; intros m Hnd; simpl.
  { f_equal. set_solver. }
  apply NoDup_cons in Hnd as [Ht Hnd]. rewrite filter_cons. case_decide as Hin.
  - rewrite decide_False by tauto. rewrite IH by done. f_equal; [|set_solver].
    apply filter_elem_iff. intros x Hx. set_solver.
  - rewrite decide_True by done. rewrite IH by done. f_equal. set_solver.
Qed.

(** The resolver knows every target once, in order. *)
Definition ordered (ts : list string) : Prop := NoDup ts ∧ StronglySorted (fun x y => String.ltb y x = false) ts.

Lemma sorted_ordered ts : NoDup ts → ordered (sort_slice String.ltb ts).
Proof. intros Hnd. split; [by rewrite sort_slice_perm|apply sort_slice_sorted; typeclasses eauto]. Qed.

(** Two ordered lists of the same targets are the same list. *)
Lemma ordered_unique ts ts' : ordered ts → ordered ts' → (∀ t, t ∈ ts ↔ t ∈ ts') → ts = ts'.
Proof.
  intros [Hn Hs] [Hn' Hs'] Heq. apply (StronglySorted_unique_strong (fun x y => String.ltb y x = false)); [|done..|by apply NoDup_Permutation].
  intros x y _ _ Hxy Hyx. by apply string_lt_total.
Qed.

(** When no target occurs twice in the answers, what a resolution reports leads
    from the targets known before to those of the answer. *)
Lemma resolve_reports r w news olds r' w' : ordered (targets r) →
  (∀ w addrs w', lookUpFn (rv_srv r) (rv_proto r) (rv_name r) w = (Ok addrs, w') → NoDup (addresses addrs)) →
  resolve (r, w) = (Ok (news, olds), (r', w')) →
  ordered (targets r') ∧ r' = set_targets (targets r') r ∧ NoDup news ∧
  (∀ t, t ∈ news → t ∉ targets r) ∧
  after_update (list_to_set (targets r)) (MkUpdate news olds) = list_to_set (targets r').
Proof.
  intros [Hnd Hsort] Hlook E. unfold resolve in E. inv_bind E as r0 s0 Hr. injection Hr as <- <-.
  inv_bind E as addrs s1 Ha. unfold onW in Ha. simpl in Ha.
  destruct (lookUpFn (rv_srv r) (rv_proto r) (rv_name r) w) as [[a|e|c] w1] eqn:El; try done. injection Ha as -> <-.
  specialize (Hlook _ _ _ El). rewrite compareTargets_spec in E by done.
  inv_bind E as u s2 Hs. destruct u. injection Hs as <-. injection E as <- <- <- <-. simpl.
  pose proof (sorted_ordered _ Hlook) as Ho. pose proof (range_keys_perm (list_to_set (addresses addrs) ∖ list_to_set (targets r))) as Hp.
  split; [done|]. split; [done|]. split; [rewrite Hp; apply NoDup_elements|]. split.
  { intros t. rewrite Hp. set_solver. }
  apply set_eq. intros t. unfold after_update. simpl.
  rewrite !elem_of_union, elem_of_difference, !elem_of_list_to_set, Hp, list_elem_of_filter, elem_of_elements, elem_of_difference,
    !elem_of_list_to_set, (sort_slice_perm String.ltb (addresses addrs)).
  destruct (decide (t ∈ addresses addrs)), (decide (t ∈ targets r)); tauto.
Qed.

Lemma resolve_fails r w e r' w' : resolve (r, w) = (Err e, (r', w')) → r' = r.
Proof.
  unfold resolve, mbind, M_bind, fld, gets, onW. simpl. destruct (lookUpFn _ _ _ w) as [[a|e1|c] w1]; [|by intros [= _ -> _]..].
  destruct (compareTargets _ _). done.
Qed.

(** Updates that were not received lead from [X] to the targets of the resolver, one
    by one, each with targets that are new. *)
Inductive leads : gset string → list SRVUpdate → gset string → Prop :=
  | leads_nil X : leads X [] X
  | leads_cons X u us Y : NoDup (NewTargets u) → (∀ t, t ∈ NewTargets u → t ∉ X) → leads (after_update X u) us Y → leads X (u :: us) Y.

Lemma leads_snoc X us Y u : leads X us Y → NoDup (NewTargets u) → (∀ t, t ∈ NewTargets u → t ∉ Y) →
  leads X (us ++ [u]) (after_update Y u).
Proof. induction 1; intros Hn Hd; simpl; repeat (constructor; [done..|]); [constructor|auto]. Qed.

Lemma tick_leads r w r' w' X : ordered (targets r) →
  (∀ w addrs w', lookUpFn (rv_srv r) (rv_proto r) (rv_name r) w = (Ok addrs, w') → NoDup (addresses addrs)) →
  leads X (updateCh r) (list_to_set (targets r)) → tick (r, w) = (Ok tt, (r', w')) →
  ordered (targets r') ∧ leads X (updateCh r') (list_to_set (targets r')) ∧
  rv_srv r' = rv_srv r ∧ rv_proto r' = rv_proto r ∧ rv_name r' = rv_name r.
Proof.
  intros Ho Hlook Hl E. unfold tick in E. inv_bind E as x s Ht. unfold try in Ht.
  destruct (resolve (r, w)) as [[[news olds]|e|c] [r1 w1]] eqn:Er; [injection Ht as <- <-|injection Ht as <- <-|done].
  - destruct (resolve_reports _ _ _ _ _ _ Ho Hlook Er) as (Ho1 & Hr1 & Hnd & Hnew & Happ).
    assert (updateCh r1 = updateCh r) as Hch by (by rewrite Hr1).
    assert (rv_srv r1 = rv_srv r ∧ rv_proto r1 = rv_proto r ∧ rv_name r1 = rv_name r) as Hname by (by rewrite Hr1).
    destruct (decide (news = [] ∧ olds = [])) as [[-> ->]|Hne].
    + injection E as <- <-. split; [done|]. split; [|done]. rewrite Hch. rewrite <-Happ. unfold after_update. simpl.
      by replace (_ ∖ ∅ ∪ ∅) with (list_to_set (C := gset string) (targets r)) by set_solver.
    + assert (send (MkUpdate news olds) (r1, w1) = (Ok tt, (r', w'))) as Hsend by (destruct news, olds; [by destruct Hne|exact E..]).
      unfold send in Hsend. inv_bind Hsend as c s1 Hc. injection Hc as <- <-. simpl in Hsend.
      destruct (updateClosed r1); [done|]. injection Hsend as <- <-. simpl. split; [done|]. split; [|done].
      rewrite Hch, <-Happ. apply leads_snoc; [done..|]. intros t Ht. rewrite elem_of_list_to_set. by apply Hnew.
  - assert (r1 = r) as -> by (eapply resolve_fails, Er). by injection E as <- <-.
Qed.

(** A tick that is at work while the resolver is closed, or that is taken by
    [select] although both channels are ready, sends on the closed channel. *)
Theorem tick_after_close_panics (r : SRVResolver) (w : W) news olds r1 w1 r2 w2 :
  (news ≠ [] ∨ olds ≠ []) → Close (r, w) = (Ok tt, (r1, w1)) → resolve (r1, w1) = (Ok (news, olds), (r2, w2)) →
  (tick (r1, w1)).1 = Crash SendOnClosedChannel.
Proof.
  intros Hne Hc Hr. assert (updateClosed r2 = true) as Hcl.
  { unfold Close in Hc. inv_bind Hc as d s Hd. injection Hd as <- <-. simpl in Hc. destruct (doneClosed r); [done|].
    injection Hc as <- <-. unfold resolve in Hr. inv_bind Hr as r0 s0 Hr0. injection Hr0 as <- <-.
    inv_bind Hr as a s1 Ha. destruct s1 as [r3 w3]. apply onW_inv in Ha as [-> _]. destruct (compareTargets _ _).
    inv_bind Hr as u s2 Hs. injection Hs as _ <-. by injection Hr as _ _ <- _. }
  unfold tick, try, mbind at 1, M_bind at 1. rewrite Hr. simpl.
  assert ((send (MkUpdate news olds) (r2, w2)).1 = Crash SendOnClosedChannel) as Hs.
  { unfold send, mbind, M_bind, fld, gets. simpl. by rewrite Hcl. }
  destruct news, olds; naive_solver.
Qed.

End resolver.
