(* ===== verification/RedisCache.v ===== *)
(** * The Redis cache (src/pkg/storage/cached/redis)

    The cache of the caching repository on a pool of Redis servers: the server of a
    name space is chosen by [JumpHash]; the pool is the list of the configuration, or
    the targets of an SRV record, followed with [SrvResolver].  The Redis client and
    the hash of strings are parameters; the clients are handles. *)

From stdpp Require Import base list strings gmap sorting.
From Stdlib Require Import ZArith Lia.
From S2P Require Import Prelude GoLib GoStrings GoHoare Stravaganza JumpHash SrvResolver.
From S2P Require S2SProvider Cached CachedProofs.

(** [Config], without the credentials and time-outs that are handed to the client. *)
Record Config := MkConfig { cfg_SRV : string; cfg_Addresses : list string; cfg_TTL : Z }.

(** The calls of the Redis client ([redis.NewClient] and methods of [redis.Client]);
    [HGet] gives [redis.Nil] where there is no value. *)
Class Redis (W Client : Type) := {
  redis_NewClient : string → M W Client;
  redis_Ping : Client → M W unit;
  redis_Close : Client → M W unit;
  redis_HGet : Client → string → string → M W string;
  redis_HSet : Client → string → string → string → M W unit;
  redis_Expire : Client → string → Z → M W unit;
  redis_HDel : Client → string → list string → M W unit;
  redis_Del : Client → string → M W unit;
  redis_HExists : Client → string → string → M W bool;
}.
Definition redis_Nil : goerror := ErrText "redis: nil".

Section redis.
Context `{!SortSlice} `{!MapRange} {W Client : Type} `{!Redis W Client}.
Context (lookUpFn : string → string → string → M W (list S2SProvider.Dialer.SRV)) (Sum64String : string → Z).

(** ** Pools *)

(** [clientEntry], [srvServicePool], whose resolver is nil before it is started, and
    the implementations of [servicePool] *)
Definition clientEntry : Type := string * Client.
Record srvServicePool := MkSrvPool { rsv : option SRVResolver; clientEntries : list clientEntry }.
Inductive servicePool := StaticPool (clients : list Client) | SrvPool (p : srvServicePool).

Definition set_rsv (r : SRVResolver) (p : srvServicePool) : srvServicePool := MkSrvPool (Some r) (clientEntries p).
Definition set_entries (es : list clientEntry) (p : srvServicePool) : srvServicePool := MkSrvPool (rsv p) es.

(** The choice in [getClient] of both pools: an index below zero or past the end panics. *)
Definition choose {A} (s : string) (l : list A) : outcome A :=
  match l with
  | [x] => Ok x
  | _ =>
    match jumpHash (Sum64String s) (Z.of_nat (length l)) with
    | Some idx =>
      if (idx <? 0)%Z then Crash IndexOutOfRange
      else match l !! Z.to_nat idx with Some x => Ok x | None => Crash IndexOutOfRange end
    | None => Crash OutOfFuel
    end
  end.
Definition pool_getClient (p : servicePool) (s : string) : outcome Client :=
  match p with
  | StaticPool clients => choose s clients
  | SrvPool p => ent ← choose s (clientEntries p); mret ent.2
  end.

(** *** The pool of an SRV record *)
Abbreviation MP := (M (srvServicePool * W)).

(** A call of the resolver of the pool. *)
Definition onRsv {A} (m : M (SRVResolver * W) A) : MP A := fun '(p, w) =>
  match rsv p with
  | None => (Crash NilDeref, (p, w))
  | Some r => let '(x, (r', w')) := m (r, w) in (x, (set_rsv r' p, w'))
  end.

(** The loop that closes the clients of old targets. *)
Fixpoint removeEntry (a : string) (es : list clientEntry) : option (Client * list clientEntry) :=
  match es with
  | [] => None
  | ent :: es' =>
    if String.eqb ent.1 a then Some (ent.2, es')
    else match removeEntry a es' with Some (c, es'') => Some (c, ent :: es'') | None => None end
  end.
Fixpoint dropOld (oldTargets : list string) (es : list clientEntry) : M W (list clientEntry) :=
  match oldTargets with
  | [] => mret es
  | a :: oldTargets' =>
    match removeEntry a es with
    | None => dropOld oldTargets' es
    | Some (client, es') => ignore (redis_Close client);; dropOld oldTargets' es'
    end
  end.
(** The loop that connects to new targets. *)
Fixpoint addNew (newTargets : list string) (es : list clientEntry) : M W (list clientEntry) :=
  match newTargets with
  | [] => mret es
  | a :: newTargets' =>
    client ← redis_NewClient a;
    redis_Ping client;;
    addNew newTargets' (es ++ [(a, client)])
  end.

Definition syncClients (newTargets oldTargets : list string) : MP unit :=
  es ← fld clientEntries;
  es ← onW (dropOld oldTargets es);
  es ← onW (addNew newTargets es);
  setf (set_entries (sort_slice (asc_by fst) es)).

(** One round of [runUpdate], when there is an update. *)
Definition runUpdate : MP unit :=
  upd ← onRsv (
    us ← fld updateCh;
    match us with
    | [] => mret None
    | u :: us' => setf (set_updates us');; mret (Some u)
    end);
  match upd with
  | None => mret tt
  | Some u => ignore (syncClients (NewTargets u) (OldTargets u))
  end.

Definition resolveInterval : Z := 5 * 10 ^ 9.
Definition start_srv (cfg : Config) : MP unit :=
  '(srv, proto, name) ← pureO (ParseSRVRecord (cfg_SRV cfg));
  setf (set_rsv (NewSRVResolver srv proto name resolveInterval));;
  onRsv (Resolve lookUpFn);;
  ts ← onRsv Targets;
  syncClients ts [].

Definition stop_srv : MP unit :=
  onRsv Close;;
  es ← fld clientEntries;
  for_each es (fun ent => ignore (onW (redis_Close ent.2))).

(** ** The cache *)

(** [Cache]: the pool is nil before the cache is started. *)
Abbreviation MC := (M (option servicePool * W)).

Definition onSrv {A} (m : MP A) : MC A := fun '(sp, w) =>
  match sp with
  | Some (SrvPool p) => let '(x, (p', w')) := m (p, w) in (x, (Some (SrvPool p'), w'))
  | _ => (Crash BadTypeAssertion, (sp, w))
  end.

(** [staticServicePool.start] *)
Fixpoint start_static (addrs : list string) : MC unit :=
  match addrs with
  | [] => mret tt
  | addr :: addrs' =>
    client ← onW (redis_NewClient addr);
    onW (redis_Ping client);;
    setf (fun sp => match sp with Some (StaticPool cs) => Some (StaticPool (cs ++ [client])) | _ => sp end);;
    start_static addrs'
  end.

Definition Start (cfg : Config) : MC unit :=
  if negb (String.eqb (cfg_SRV cfg) "") then
    setf (fun _ => Some (SrvPool (MkSrvPool None [])));; onSrv (start_srv cfg)
  else setf (fun _ => Some (StaticPool []));; start_static (cfg_Addresses cfg).

Definition Stop : MC unit :=
  sp ← fld (fun sp => sp);
  sp ← deref sp;
  match sp with
  | StaticPool cs => for_each cs (fun c => ignore (onW (redis_Close c)))
  | SrvPool _ => onSrv stop_srv
  end.

Definition getClient (s : string) : MC Client :=
  sp ← fld (fun sp => sp);
  sp ← deref sp;
  pureO (pool_getClient sp s).

Definition Get (ns key : string) : MC (option string) :=
  cl ← getClient ns;
  r ← try (onW (redis_HGet cl ns key));
  match r with
  | inr val => mret (Some val)
  | inl err => if decide (err = redis_Nil) then mret None else fail err
  end.
Definition Put (cfg : Config) (ns key val : string) : MC unit :=
  cl ← getClient ns;
  onW (redis_HSet cl ns key val);;
  onW (redis_Expire cl ns (cfg_TTL cfg)).
Definition Del (ns : string) (keys : list string) : MC unit :=
  cl ← getClient ns;
  onW (redis_HDel cl ns keys).
Definition DelNS (ns : string) : MC unit :=
  cl ← getClient ns;
  onW (redis_Del cl ns).
Definition HasKey (ns key : string) : MC bool :=
  cl ← getClient ns;
  onW (redis_HExists cl ns key).

(** The interface of the caching repository ([cachedrepository.Cache]). *)
Definition redis_cache (cfg : Config) : Cached.Cache (option servicePool * W) := {|
  Cached.c_Get := Get; Cached.c_Put := Put cfg; Cached.c_Del := Del; Cached.c_DelNS := DelNS; Cached.c_HasKey := HasKey |}.

End redis.

Arguments servicePool : clear implicits.
Arguments srvServicePool : clear implicits.
Arguments clientEntry : clear implicits.

(** ** The choice of a server *)
Section choice.
Context (Sum64String : string → Z).

(** A pool that is not empty has a server for every name space. *)
Lemma choose_some {A} s (l : list A) : l ≠ [] → (Z.of_nat (length l) <= 2 ^ 31)%Z →
  ∃ x, choose Sum64String s l = Ok x ∧ x ∈ l.
Proof.
  intros Hne Hmax. destruct l as [|x [|y l]]; [done|exists x; set_solver|]. unfold choose.
  destruct (jumpHash_range (Sum64String s) (Z.of_nat (length (x :: y :: l)))) as (b & -> & Hb); [simpl in *; lia|].
  destruct (Z.ltb_spec b 0); [lia|].
  destruct (lookup_lt_is_Some_2 (x :: y :: l) (Z.to_nat b)) as [z Hz]; [lia|]. rewrite Hz.
  exists z. split; [done|]. by eapply list_elem_of_lookup_2.
Qed.

Lemma choose_elem {A} s (l : list A) x : choose Sum64String s l = Ok x → x ∈ l.
Proof.
  destruct l as [|y [|z l]]; unfold choose; [|intros [= <-]; set_solver|];
    (destruct (jumpHash _ _) as [b|]; [|done]; destruct (b <? 0)%Z; [done|];
     destruct (_ !! Z.to_nat b) as [y'|] eqn:E; [|done]; intros [= <-]; by eapply list_elem_of_lookup_2).
Qed.

(** An empty pool panics for every name space. *)
Theorem empty_pool_panics {Client : Type} (ns : string) :
  pool_getClient Sum64String (StaticPool (Client := Client) []) ns = Crash IndexOutOfRange.
Proof. done. Qed.

End choice.

(** ** The pool follows the record *)
Section sync.
Context `{!SortSlice} `{!MapRange} {W Client : Type} `{!Redis W Client}.

Abbreviation addrs p := (map fst (clientEntries p)).

Lemma removeEntry_spec a (es : list (clientEntry Client)) : NoDup (map fst es) →
  map fst (match removeEntry a es with Some (_, es') => es' | None => es end) = filter (.≠ a) (map fst es).
Proof.
  induction es as [|[x c] es IH]; simpl; intros Hnd; [done|]. apply NoDup_cons in Hnd as [Hx Hnd]. rewrite filter_cons.
  destruct (String.eqb_spec x a) as [->|Hne].
  - rewrite decide_False by naive_solver. symmetry. apply filter_all. by intros y Hy ->.
  - rewrite decide_True by done. specialize (IH Hnd). by destruct (removeEntry a es) as [[c' es']|]; simpl in *; rewrite <-IH.
Qed.

Lemma dropOld_spec olds : ∀ (es es' : list (clientEntry Client)) w w', NoDup (map fst es) →
  dropOld olds es w = (Ok es', w') → map fst es' = filter (fun t => t ∉ olds) (map fst es).
Proof.
  induction olds as [|a olds IH]; intros es es' w w' Hnd E; simpl in E.
  { injection E as <- <-. symmetry. apply filter_all. set_solver. }
  pose proof (removeEntry_spec a es Hnd) as Hr.
  assert (∃ es1 w1, map fst es1 = filter (.≠ a) (map fst es) ∧ dropOld olds es1 w1 = (Ok es', w')) as (es1 & w1 & H1 & Hd).
  { destruct (removeEntry a es) as [[c es1]|]; [|by exists es, w]. inv_bind E as u w1 Hc. by exists es1, w1. }
  rewrite (IH es1 es' w1 w'); [|rewrite H1; by apply NoDup_filter|done]. rewrite H1, list_filter_filter.
  apply list_filter_iff. set_solver.
Qed.

Lemma addNew_spec news : ∀ (es es' : list (clientEntry Client)) w w',
  addNew news es w = (Ok es', w') → map fst es' = map fst es ++ news.
Proof.
  induction news as [|a news IH]; intros es es' w w' E; simpl in E.
  { injection E as <- <-. by rewrite app_nil_r. }
  inv_bind E as c w1 Hc. inv_bind E as u w2 Hp. apply IH in E. rewrite E, map_app, <-app_assoc. done.
Qed.

Lemma sorted_fst (es : list (clientEntry Client)) :
  StronglySorted (fun x y => asc_by fst y x = false) es → StronglySorted (fun x y => String.ltb y x = false) (map fst es).
Proof. induction 1 as [|x es Hs IH Hx]; simpl; constructor; [done|]. by apply Forall_fmap. Qed.

(** An update that can be carried out changes the addresses as it says. *)
Lemma sync_addrs news olds p w p' w' : NoDup (addrs p) → NoDup news → (∀ t, t ∈ news → t ∉ addrs p) →
  syncClients news olds (p, w) = (Ok tt, (p', w')) →
  ordered (addrs p') ∧ rsv p' = rsv p ∧
  list_to_set (addrs p') =@{gset string} after_update (list_to_set (addrs p)) (MkUpdate news olds).
Proof.
  intros Hnd Hn Hnew E. unfold syncClients in E. inv_bind E as es s Hes. injection Hes as <- <-. simpl in E.
  inv_bind E as es1 s1 Hd. destruct s1 as [p1 w1]. apply onW_inv in Hd as [-> Hd]. apply dropOld_spec in Hd; [|done].
  inv_bind E as es2 s2 Ha. destruct s2 as [p2 w2]. apply onW_inv in Ha as [-> Ha]. apply addNew_spec in Ha.
  injection E as <- <-. simpl. pose proof (sort_slice_perm (asc_by fst) es2) as Hp.
  assert (map fst (sort_slice (asc_by fst) es2) ≡ₚ filter (fun t => t ∉ olds) (addrs p) ++ news) as Hperm
    by (by rewrite Hp, Ha, Hd).
  split; [split|split; [done|]].
  - rewrite Hperm. apply NoDup_app. split; [by apply NoDup_filter|]. split; [|done].
    intros t Ht Htn. apply list_elem_of_filter in Ht as [_ Ht]. by apply (Hnew t).
  - apply sorted_fst, sort_slice_sorted. typeclasses eauto.
  - apply set_eq. intros t. unfold after_update. simpl.
    rewrite elem_of_union, elem_of_difference, !elem_of_list_to_set, Hperm, elem_of_app, list_elem_of_filter. tauto.
Qed.

(** An update that cannot be carried out leaves the pool as it was: the clients of
    the old targets, closed by then, stay in it. *)
Theorem failed_sync_keeps_clients news olds p w e p' w' :
  syncClients news olds (p, w) = (Err e, (p', w')) → p' = p.
Proof.
  unfold syncClients, mbind, M_bind, fld, gets, onW. simpl. destruct (dropOld olds _ w) as [[es| |] w1]; [|by intros [= _ -> _]..].
  destruct (addNew news es w1) as [[es'| |] w2]; [done|by intros [= _ -> _]..].
Qed.

End sync.

(** *** Histories of a pool *)
Section follow.
Context `{!SortSlice} `{!MapRange} {W Client : Type} `{!Redis W Client}.
Context (lookUpFn : string → string → string → M W (list S2SProvider.Dialer.SRV)).

(** All servers can be reached. *)
Class Reachable : Prop := {
  re_NewClient : ∀ a w, ∃ c w', redis_NewClient a w = (Ok c, w');
  re_Ping : ∀ (c : Client) w, ∃ w', redis_Ping c w = (Ok tt, w');
  re_Close : ∀ (c : Client) w, no_crash (redis_Close c w).1;
}.
Context `{!Reachable}.
(** No target is given twice in an answer. *)
Context (Hlook : ∀ s p n w ans w', lookUpFn s p n w = (Ok ans, w') → NoDup (addresses ans)).

Abbreviation addrs p := (map fst (clientEntries p)).

Lemma dropOld_ok olds : ∀ (es : list (clientEntry Client)) w, ∃ es' w', dropOld olds es w = (Ok es', w').
Proof.
  induction olds as [|a olds IH]; intros es w; simpl; [by eexists _, _|].
  destruct (removeEntry a es) as [[c es1]|]; [|apply IH]. unfold ignore, try, mbind, M_bind.
  pose proof (re_Close c w) as Hc. destruct (redis_Close c w) as [[]]; simpl in Hc; [apply IH..|done].
Qed.
Lemma addNew_ok news : ∀ (es : list (clientEntry Client)) w, ∃ es' w', addNew news es w = (Ok es', w').
Proof.
  induction news as [|a news IH]; intros es w; simpl; [by eexists _, _|]. unfold mbind, M_bind.
  destruct (re_NewClient a w) as (c & w1 & ->), (re_Ping c w1) as (w2 & ->). apply IH.
Qed.
Lemma sync_ok news olds (p : srvServicePool Client) w : ∃ p' w', syncClients news olds (p, w) = (Ok tt, (p', w')).
Proof.
  unfold syncClients, mbind, M_bind, fld, gets, onW. simpl. destruct (dropOld_ok olds (clientEntries p) w) as (es & w1 & ->).
  destruct (addNew_ok news es w1) as (es' & w2 & ->). by eexists _, _.
Qed.

(** What happens to a pool after it was started: the ticker of the resolver, the
    receipt of an update, and what others do. *)
Inductive pool_step : srvServicePool Client * W → srvServicePool Client * W → Prop :=
  | step_tick s s' : onRsv (tick lookUpFn) s = (Ok tt, s') → pool_step s s'
  | step_update s s' : runUpdate s = (Ok tt, s') → pool_step s s'
  | step_world p w w' : pool_step (p, w) (p, w').

Definition follows (p : srvServicePool Client) : Prop :=
  ∃ r, rsv p = Some r ∧ ordered (targets r) ∧ ordered (addrs p) ∧
    leads (list_to_set (addrs p)) (updateCh r) (list_to_set (targets r)).

Lemma follows_step s s' : follows s.1 → pool_step s s' → follows s'.1.
Proof.
  intros Hf Hs. destruct Hs as [[p w] s1 E|[p w] s1 E|p w w']; destruct Hf as (r & Hr & Ht & Ha & Hl); simpl in *;
    [| |exists r; exact (conj Hr (conj Ht (conj Ha Hl)))].
  - rewrite Hr in E. destruct (tick lookUpFn (r, w)) as [x [r' w']] eqn:Et. injection E as -> <-.
    destruct (tick_leads _ _ _ _ _ _ Ht (Hlook _ _ _) Hl Et) as (Ht' & Hl' & _). exists r'. simpl. split; [reflexivity|]. auto.
  - unfold runUpdate, mbind at 1, M_bind at 1 in E. simpl in E. rewrite Hr in E. unfold mbind, M_bind, fld, gets in E. simpl in E.
    destruct (updateCh r) as [|u us] eqn:Eu; simpl in E.
    + injection E as <-. exists r. simpl. by rewrite Eu.
    + inversion Hl as [|? ? ? ? Hn Hnew Hl']; subst. unfold ignore, try, mbind, M_bind in E.
      destruct (sync_ok (NewTargets u) (OldTargets u) (set_rsv (set_updates us r) p) w) as (p' & w' & Hs).
      rewrite Hs in E. injection E as <-. apply sync_addrs in Hs as (Ho & Hr' & Hset);
        [|exact (proj1 Ha)|done|intros t Htn Hin; apply (Hnew t Htn); by apply elem_of_list_to_set].
      exists (set_updates us r). split; [exact Hr'|]. split; [exact Ht|]. split; [exact Ho|]. simpl. rewrite Hset. exact Hl'.
Qed.

Lemma pool_start_follows cfg w s : start_srv lookUpFn cfg (MkSrvPool None [], w) = (Ok tt, s) → follows s.1.
Proof.
  unfold start_srv. intros E. inv_bind E as x s0 Hp. unfold pureO in Hp. destruct (ParseSRVRecord (cfg_SRV cfg)) as [[[sv pr] nm]| |]; try done.
  injection Hp as <- <-. inv_bind E as u s1 Hs. injection Hs as _ <-. inv_bind E as u1 s2 Hrs. destruct u1.
  unfold onRsv in Hrs. simpl in Hrs. set (r0 := NewSRVResolver sv pr nm resolveInterval) in *.
  destruct (Resolve lookUpFn (r0, w)) as [y [r1 w1]] eqn:Er. injection Hrs as -> <-.
  unfold Resolve in Er. inv_bind Er as z s3 Hres. destruct z as [news olds], s3 as [r2 w2].
  apply resolve_reports in Hres as (Ho & Hr2 & _); [|by split; constructor|apply Hlook].
  assert (r1 = set_running true r2) as ->.
  { inv_bind Er as i s4 Hi. injection Hi as <- <-. simpl in Er. assert (rsvInterval r2 = resolveInterval) as Hi by (by rewrite Hr2).
    rewrite Hi in Er. by injection Er as <- <-. }
  inv_bind E as ts s5 Hts. injection Hts as <- <-. simpl in E. destruct s as [p' w'].
  apply sync_addrs in E as (Hoa & Hrv & Hset); [|constructor|exact (proj1 Ho)|intros t _; apply not_elem_of_nil].
  exists (set_running true r2). split; [done|]. split; [done|]. split; [done|]. simpl. rewrite Hset. rewrite Hr2. simpl.
  unfold after_update. simpl. replace (∅ ∖ ∅ ∪ list_to_set (targets r2)) with (list_to_set (C := gset string) (targets r2)) by set_solver.
  constructor.
Qed.

(** C30: The pool of an SRV record follows the record: while the servers can be reached
    and no answer names a target twice, after any number of resolutions and updates
    the pool holds one client for every target of the last answer, in order, once
    the updates under way are received; these lead from the one to the other. *)
Theorem pool_follows_record (cfg : Config) (w : W) (s0 s : srvServicePool Client * W)
    (Hstart : start_srv lookUpFn cfg (MkSrvPool None [], w) = (Ok tt, s0)) (Hrun : rtc pool_step s0 s) :
  ∃ r, rsv s.1 = Some r ∧
    leads (list_to_set (addrs s.1)) (updateCh r) (list_to_set (targets r)) ∧
    (updateCh r = [] → addrs s.1 = targets r).
Proof.
  assert (follows s.1) as (r & Hr & Ht & Ha & Hl).
  { apply pool_start_follows in Hstart. induction Hrun as [|s1 s2 s3 Hs _ IH]; [done|]. apply IH. by eapply follows_step. }
  exists r. split; [done|]. split; [done|]. intros Hu. rewrite Hu in Hl.
  assert (list_to_set (addrs s.1) =@{gset string} list_to_set (targets r)) as Heq by (by inversion Hl).
  apply ordered_unique; [done..|]. intros t. rewrite <-!(elem_of_list_to_set (C := gset string)). by rewrite Heq.
Qed.

End follow.

(** ** The Redis cache is a cache *)
Section contract.
Context `{XmlLib} {W Client : Type} `{!Redis W Client} (Sum64String : string → Z) (cfg : Config).

(** What the servers hold, by their address, and what the repository beside them
    would answer. *)
Class RedisView := {
  addr_of : Client → string;
  store : W → string → gmap (string * string) string;
  ans : W → ∀ {A}, CachedProofs.Query A → A;
}.
Context `{!RedisView}.

Definition same_ans (w w' : W) : Prop := ∀ A (q : CachedProofs.Query A), ans w' q = ans w q.
(** Nothing new is stored. *)
Definition fewer (w w' : W) : Prop := same_ans w w' ∧ ∀ a, store w' a ⊆ store w a.
#[local] Instance fewer_preorder : PreOrder fewer.
Proof.
  split; [by intros w|]. intros w1 w2 w3 [Ha Hs] [Ha' Hs']. split; [intros A q; by rewrite Ha', Ha|].
  intros a. by transitivity (store w2 a).
Qed.

(** A server gives what it holds, may lose entries at any time (they expire) and fail
    in every call; what it removed without an error is gone. *)
Class RedisOk : Prop := {
  rd_HGet : ∀ c n k w, let '(r, w') := redis_HGet c n k w in
    fewer w w' ∧ ∀ v, r = Ok v → store w (addr_of c) !! (n, k) = Some v;
  rd_HExists : ∀ c n k w, let '(r, w') := redis_HExists c n k w in
    fewer w w' ∧ (r = Ok true → is_Some (store w (addr_of c) !! (n, k)));
  rd_HSet : ∀ c n k v w, let '(r, w') := redis_HSet c n k v w in
    same_ans w w' ∧ ∀ a, store w' a ⊆ store w a ∨ (a = addr_of c ∧ store w' a ⊆ <[(n, k) := v]> (store w a));
  rd_Expire : ∀ c n t, keeps fewer (redis_Expire c n t);
  rd_HDel : ∀ c n ks w, let '(r, w') := redis_HDel c n ks w in
    fewer w w' ∧ (r = Ok tt → ∀ k, k ∈ ks → store w' (addr_of c) !! (n, k) = None);
  rd_Del : ∀ c n w, let '(r, w') := redis_Del c n w in
    fewer w w' ∧ (r = Ok tt → ∀ k, store w' (addr_of c) !! (n, k) = None);
}.
Context `{!RedisOk}.

(** The server of a name space. *)
Definition server_of (sp : option (servicePool Client)) (n : string) : option string :=
  sp ← sp;
  match pool_getClient Sum64String sp n with Ok c => Some (addr_of c) | _ => None end.
Definition clients_of (sp : option (servicePool Client)) : list Client :=
  match sp with
  | None => []
  | Some (StaticPool cs) => cs
  | Some (SrvPool p) => map snd (clientEntries p)
  end.

(** The entries that can be read: every name space is read from its server. *)
Definition visible (s : option (servicePool Client) * W) : gmap (string * string) string :=
  ⋃ map (fun c => filter (fun kv => server_of s.1 kv.1.1 = Some (addr_of c)) (store s.2 (addr_of c))) (clients_of s.1).

Lemma server_client sp n a : server_of sp n = Some a → ∃ c, c ∈ clients_of sp ∧ addr_of c = a.
Proof.
  destruct sp as [[cs|p]|]; simpl; [| |done].
  - destruct (choose Sum64String n cs) as [c| |] eqn:E; [|done..]. intros [= <-]. exists c. split; [by eapply choose_elem|done].
  - destruct (choose Sum64String n (clientEntries p)) as [[x c]| |] eqn:E; [|done..]. simpl. intros [= <-]. exists c.
    split; [|done]. apply choose_elem in E. by apply (list_elem_of_fmap_2 snd) in E.
Qed.

Lemma shard_lookup sp w c n k :
  filter (fun kv => server_of sp kv.1.1 = Some (addr_of c)) (store w (addr_of c)) !! (n, k) =
  if decide (server_of sp n = Some (addr_of c)) then store w (addr_of c) !! (n, k) else None.
Proof.
  rewrite map_lookup_filter. destruct (store w (addr_of c) !! (n, k)) as [v|]; simpl; [|by case_decide].
  destruct (decide (server_of sp n = Some (addr_of c))); [by rewrite option_guard_True|by rewrite option_guard_False].
Qed.

Lemma shards_lookup sp w n k cs :
  (⋃ map (fun c => filter (fun kv => server_of sp kv.1.1 = Some (addr_of c)) (store w (addr_of c))) cs) !! (n, k) =
  a ← server_of sp n; if decide (a ∈ map addr_of cs) then store w a !! (n, k) else None.
Proof.
  induction cs as [|c cs IH]; cbn [map union_list foldr].
  - rewrite lookup_empty. by destruct (server_of sp n).
  - rewrite lookup_union, IH, shard_lookup. destruct (server_of sp n) as [a|]; simpl; [|done].
    destruct (decide (a = addr_of c)) as [->|Hne].
    + rewrite decide_True by done. rewrite (decide_True (P := addr_of c ∈ addr_of c :: map addr_of cs)) by set_solver.
      case_decide; by destruct (store w (addr_of c) !! (n, k)).
    + rewrite decide_False by congruence. rewrite (left_id_L None _).
      destruct (decide (a ∈ map addr_of cs)); [rewrite decide_True by set_solver|rewrite decide_False by set_solver]; done.
Qed.

Lemma visible_lookup s n k : visible s !! (n, k) = a ← server_of s.1 n; store s.2 a !! (n, k).
Proof.
  unfold visible. rewrite shards_lookup. destruct (server_of s.1 n) as [a|] eqn:E; simpl; [|done].
  apply server_client in E as (c & Hc & <-). by rewrite decide_True by (by apply list_elem_of_fmap_2).
Qed.

Lemma visible_fewer sp w w' : (∀ a, store w' a ⊆ store w a) → visible (sp, w') ⊆ visible (sp, w).
Proof.
  intros Hs. apply map_subseteq_spec. intros [n k] v. rewrite !visible_lookup. simpl.
  destruct (server_of sp n) as [a|]; simpl; [|done]. apply (proj1 (map_subseteq_spec _ _) (Hs a)).
Qed.

(** A client for the name space, or a panic. *)
Lemma getClient_cases n sp (w : W) :
  (∃ c, getClient Sum64String n (sp, w) = (Ok c, (sp, w)) ∧ server_of sp n = Some (addr_of c)) ∨
  ∃ x, getClient Sum64String n (sp, w) = (Crash x, (sp, w)).
Proof.
  unfold getClient, server_of, mbind, M_bind, fld, gets, pureO. simpl. destruct sp as [sp|]; simpl; [|right; by eexists].
  destruct (pool_getClient Sum64String sp n) as [c|e|x] eqn:E; [left; by exists c| |right; by exists x].
  exfalso. revert E. destruct sp as [cs|p]; simpl; unfold mbind, outcome_bind, choose;
    [destruct cs as [|? []]|destruct (clientEntries p) as [|? []]]; try done; repeat case_match; try done; by intros.
Qed.

#[export] Instance redis_views : CachedProofs.Views (W := option (servicePool Client) * W) :=
  {| CachedProofs.entries := visible; CachedProofs.answer := fun s A q => ans s.2 q |}.

(** A call of the server of a name space. *)
Lemma server_call {A} n (call : Client → M W A) sp w r s' :
  (cl ← getClient Sum64String n; onW (call cl)) (sp, w) = (r, s') →
  (∃ x, r = Crash x ∧ s' = (sp, w)) ∨
  ∃ c w', server_of sp n = Some (addr_of c) ∧ call c w = (r, w') ∧ s' = (sp, w').
Proof.
  unfold mbind, M_bind. destruct (getClient_cases n sp w) as [(c & -> & Hc)|[x ->]]; [|intros [= <- <-]; left; by exists x].
  unfold onW. destruct (call c w) as [r' w'] eqn:E. intros [= <- <-]. right. by exists c, w'.
Qed.

(** What the calls do to the entries that can be read. *)
Abbreviation same := (CachedProofs.same_answers (W := option (servicePool Client) * W)).

Lemma call_fewer {A} n (call : Client → M W A) (Q : Client → W → outcome A → W → Prop) s r s' :
  (∀ c w, let '(r, w') := call c w in fewer w w' ∧ Q c w r w') →
  (cl ← getClient Sum64String n; onW (call cl)) s = (r, s') →
  same s s' ∧ visible s' ⊆ visible s ∧
  (∀ a, r = Ok a → ∃ c, server_of s.1 n = Some (addr_of c) ∧ s'.1 = s.1 ∧ Q c s.2 r s'.2).
Proof.
  intros Hcall E. destruct s as [sp w]. apply server_call in E as [(x & -> & ->)|(c & w' & Hc & E & ->)]; [done|].
  specialize (Hcall c w). rewrite E in Hcall. destruct Hcall as [[Ha Hs] HQ].
  split; [exact Ha|]. split; [by apply visible_fewer|]. intros a _. by exists c.
Qed.

Lemma visible_at s n k c : server_of s.1 n = Some (addr_of c) → visible s !! (n, k) = store s.2 (addr_of c) !! (n, k).
Proof. intros Hc. rewrite visible_lookup, Hc. done. Qed.

Lemma put_visible sp w w' n k v c : server_of sp n = Some (addr_of c) →
  (∀ a, store w' a ⊆ store w a ∨ (a = addr_of c ∧ store w' a ⊆ <[(n, k) := v]> (store w a))) →
  visible (sp, w') ⊆ visible (sp, w) ∨ visible (sp, w') ⊆ <[(n, k) := v]> (visible (sp, w)).
Proof.
  intros Hc Hs. destruct (Hs (addr_of c)) as [Hf|[_ Hf]].
  { left. apply visible_fewer. intros a. destruct (Hs a) as [|[-> _]]; done. }
  right. apply map_subseteq_spec. intros [n' k'] v'. rewrite visible_lookup. simpl.
  destruct (server_of sp n') as [a|] eqn:Ea; simpl; [|done]. intros Hv. destruct (decide ((n, k) = (n', k'))) as [[= <- <-]|Hne].
  - rewrite Hc in Ea. injection Ea as <-. apply (lookup_weaken _ _ _ _ Hv) in Hf. by rewrite lookup_insert_eq in *.
  - rewrite lookup_insert_ne, visible_lookup by done. simpl. rewrite Ea. simpl.
    destruct (Hs a) as [Hl|[_ Hl]]; apply (lookup_weaken _ _ _ _ Hv) in Hl; [done|by rewrite lookup_insert_ne in Hl].
Qed.

(** C19: The Redis cache keeps the contract on which the caching repository relies,
    whatever servers the pool has, even none: it returns what it holds, a value it
    stored is returned under its name space and key only, and an entry or a name space
    that was removed without an error is gone. *)
Theorem redis_is_cache : @CachedProofs.CacheOk _ _ (option (servicePool Client) * W) (redis_cache Sum64String cfg) redis_views.
Proof.
  split; simpl.
  - intros n k s. destruct (Get Sum64String n k s) as [r s'] eqn:E. unfold Get in E.
    destruct ((cl ← getClient Sum64String n; onW (redis_HGet cl n k)) s) as [r0 s0] eqn:E0.
    assert (s' = s0 ∧ ∀ v, r = Ok (Some v) → r0 = Ok v) as [-> Hr].
    { revert E E0. unfold mbind, M_bind, try. destruct (getClient Sum64String n s) as [[c|e|x] s1]; [|by intros [= <- <-] [= <- <-]..].
      destruct (onW (redis_HGet c n k) s1) as [[v|e|x] s2]; [| |by intros [= <- <-] [= <- <-]];
        [|case_decide]; intros [= <- <-] [= <- <-]; (split; [done|naive_solver]). }
    apply (call_fewer n _ (fun c w r w' => ∀ v, r = Ok v → store w (addr_of c) !! (n, k) = Some v)) in E0 as (Ha & Hs & Hv); [|intros c w; apply rd_HGet].
    split; [done|]. split; [done|]. intros v ->%Hr. destruct (Hv v eq_refl) as (c & Hc & _ & HQ).
    rewrite (visible_at _ _ _ _ Hc). by apply HQ.
  - intros n k s. destruct (HasKey Sum64String n k s) as [r s'] eqn:E.
    apply (call_fewer n _ (fun c w r w' => r = Ok true → is_Some (store w (addr_of c) !! (n, k)))) in E as (Ha & Hs & Hv); [|intros c w; apply rd_HExists].
    split; [done|]. split; [done|]. intros ->. destruct (Hv true eq_refl) as (c & Hc & _ & HQ). rewrite (visible_at _ _ _ _ Hc). auto.
  - intros n k v [sp w]. unfold Put, mbind at 1, M_bind at 1. destruct (getClient_cases n sp w) as [(c & -> & Hc)|[x ->]]; [|split; [done|by left]].
    unfold mbind, M_bind, onW. pose proof (rd_HSet c n k v w) as Hset. destruct (redis_HSet c n k v w) as [r w1]. destruct Hset as [Ha Hs].
    pose proof (put_visible sp w w1 n k v c Hc Hs) as Hp. destruct r; [|done..].
    pose proof (rd_Expire c n (cfg_TTL cfg) w1) as [Ha' Hs']. destruct (redis_Expire c n (cfg_TTL cfg) w1) as [r' w2]. simpl in *.
    split; [intros A q; simpl; by rewrite Ha', Ha|]. apply (visible_fewer sp) in Hs'.
    destruct Hp as [Hp|Hp]; [left|right]; by etrans.
  - intros n ks s. destruct (Del Sum64String n ks s) as [r s'] eqn:E.
    apply (call_fewer n _ (fun c w r w' => r = Ok tt → ∀ k, k ∈ ks → store w' (addr_of c) !! (n, k) = None)) in E as (Ha & Hs & Hv); [|intros c w; apply rd_HDel].
    split; [done|]. split; [done|]. intros -> k Hk. destruct (Hv tt eq_refl) as (c & Hc & Hsp & HQ).
    rewrite <-Hsp in Hc. rewrite (visible_at _ _ _ _ Hc). by apply HQ.
  - intros n s. destruct (DelNS Sum64String n s) as [r s'] eqn:E.
    apply (call_fewer n _ (fun c w r w' => r = Ok tt → ∀ k, store w' (addr_of c) !! (n, k) = None)) in E as (Ha & Hs & Hv); [|intros c w; apply rd_Del].
    split; [done|]. split; [done|]. intros -> k. destruct (Hv tt eq_refl) as (c & Hc & Hsp & HQ).
    rewrite <-Hsp in Hc. rewrite (visible_at _ _ _ _ Hc). by apply HQ.
Qed.

End contract.

(** ** Servers in memory *)
Module RedisDemo.
Import TreeLib.

(** The clients have an address and a number; the world has the contents of the
    servers, the closed clients, the servers that do not answer, and the answer of the
    name service. *)
Definition client : Type := string * nat.
Record net := MkNet {
  n_store : gmap string (gmap (string * string) string); n_closed : gset nat; n_next : nat;
  n_down : list string; n_dns : list S2SProvider.Dialer.SRV }.

Definition ask {A} (c : client) (f : gmap (string * string) string → A * gmap (string * string) string) : M net A := fun w =>
  if decide (c.2 ∈ n_closed w) then (Err (ErrText "redis: client is closed"), w)
  else if decide (c.1 ∈ n_down w) then (Err (ErrText "timeout"), w)
  else
    let '(a, m) := f (default ∅ (n_store w !! c.1)) in
    (Ok a, MkNet (<[c.1 := m]> (n_store w)) (n_closed w) (n_next w) (n_down w) (n_dns w)).
#[export] Instance demo_redis : Redis net client := {|
  redis_NewClient := fun a w => (Ok (a, n_next w), MkNet (n_store w) (n_closed w) (S (n_next w)) (n_down w) (n_dns w));
  redis_Ping := fun c => ask c (pair tt);
  redis_Close := fun c w => (Ok tt, MkNet (n_store w) ({[c.2]} ∪ n_closed w) (n_next w) (n_down w) (n_dns w));
  redis_HGet := fun c n k => r ← ask c (fun m => (m !! (n, k), m)); match r with Some v => mret v | None => fail redis_Nil end;
  redis_HSet := fun c n k v => ask c (fun m => (tt, <[(n, k) := v]> m));
  redis_Expire := fun c n t => ask c (pair tt);
  redis_HDel := fun c n ks => ask c (fun m => (tt, filter (fun kv => ¬ (kv.1.1 = n ∧ kv.1.2 ∈ ks)) m));
  redis_Del := fun c n => ask c (fun m => (tt, filter (fun kv => kv.1.1 ≠ n) m));
  redis_HExists := fun c n k => ask c (fun m => (bool_decide (is_Some (m !! (n, k))), m));
|}.
#[export] Instance demo_view : @RedisView tree_jid tree_xml net client := {|
  addr_of := fst; store := fun w a => default ∅ (n_store w !! a);
  ans := fun _ A q => CachedProofs.MapRep.holds CachedProofs.MapRep.empty_world q |}.

(** What a call does to the servers. *)
Lemma ask_run {A} (c : client) (f : gmap (string * string) string → A * gmap (string * string) string) w :
  (∃ e, ask c f w = (Err e, w)) ∨
  ∃ w', ask c f w = (Ok (f (store w c.1)).1, w') ∧
    ∀ a, store w' a = if decide (a = c.1) then (f (store w c.1)).2 else store w a.
Proof.
  unfold ask. case_decide; [left; by eexists|]. case_decide; [left; by eexists|]. right. simpl.
  destruct (f (default ∅ (n_store w !! c.1))) as [x m]. eexists. split; [done|]. intros a. simpl.
  case_decide as Hd; [subst; by rewrite lookup_insert_eq|by rewrite lookup_insert_ne].
Qed.

Lemma ask_fewer {A} (c : client) (f : gmap (string * string) string → A * gmap (string * string) string) :
  (∀ m, (f m).2 ⊆ m) → keeps fewer (ask c f).
Proof.
  intros Hf w. destruct (ask_run c f w) as [[e ->]|(w' & -> & Hs)]; [done|]. split; [done|]. intros a. cbn [snd]. rewrite Hs.
  case_decide as Hd; [subst; apply Hf|done].
Qed.

#[export] Instance demo_redis_ok : @RedisOk tree_jid tree_xml net client demo_redis demo_view.
Proof.
  split; simpl.
  - intros c n k w. unfold mbind, M_bind. pose proof (ask_fewer c (fun m => (m !! (n, k), m)) ltac:(done) w) as Hk.
    destruct (ask_run c (fun m => (m !! (n, k), m)) w) as [[e E]|(w' & E & Hs)]; rewrite E in *; [done|]. simpl in *.
    destruct (default ∅ (n_store w !! c.1) !! (n, k)) as [v|] eqn:Ev; (split; [done|]); [|done]. by intros v' [= <-].
  - intros c n k w. pose proof (ask_fewer c (fun m => (bool_decide (is_Some (m !! (n, k))), m)) ltac:(done) w) as Hk.
    destruct (ask_run c (fun m => (bool_decide (is_Some (m !! (n, k))), m)) w) as [[e E]|(w' & E & Hs)]; rewrite E in *; [done|].
    split; [done|]. simpl. intros [= Hb]. by apply bool_decide_eq_true in Hb.
  - intros c n k v w. destruct (ask_run c (fun m => (tt, <[(n, k) := v]> m)) w) as [[e ->]|(w' & -> & Hs)].
    + split; [done|]. by left.
    + split; [done|]. intros a. simpl in Hs. rewrite Hs. case_decide as Hd; [subst; by right|by left].
  - intros c n t. by apply ask_fewer.
  - intros c n ks w. set (f := fun m : gmap (string * string) string => (tt, filter (fun kv => ¬ (kv.1.1 = n ∧ kv.1.2 ∈ ks)) m)).
    pose proof (ask_fewer c f ltac:(intros m; apply map_filter_subseteq) w) as Hk.
    destruct (ask_run c f w) as [[e E]|(w' & E & Hs)]; rewrite E in *; [done|]. split; [done|]. intros _ k Hin.
    simpl in Hs. rewrite Hs, decide_True by done. apply map_lookup_filter_None. right. naive_solver.
  - intros c n w. set (f := fun m : gmap (string * string) string => (tt, filter (fun kv => kv.1.1 ≠ n) m)).
    pose proof (ask_fewer c f ltac:(intros m; apply map_filter_subseteq) w) as Hk.
    destruct (ask_run c f w) as [[e E]|(w' & E & Hs)]; rewrite E in *; [done|]. split; [done|]. intros _ k.
    simpl in Hs. rewrite Hs, decide_True by done. apply map_lookup_filter_None. right. naive_solver.
Qed.

#[export] Instance demo_range : MapRange.
Proof. refine {| range_keys := elements |}. done. Defined.

Definition look (_ _ _ : string) : M net (list S2SProvider.Dialer.SRV) := gets n_dns.
Definition target (t : string) : S2SProvider.Dialer.SRV := S2SProvider.Dialer.MkSRV t 6379.
Definition cfg : Config := MkConfig "_redis._tcp.jackal.im" [] 60.
Definition answers (ts : list string) (w : net) : net :=
  MkNet (n_store w) (n_closed w) (n_next w) (n_down w) (map target ts).
Definition down (ts : list string) (w : net) : net :=
  MkNet (n_store w) (n_closed w) (n_next w) ts (n_dns w).
Definition fresh (ts : list string) : net := MkNet ∅ ∅ 0 [] (map target ts).

(** A pool that is started; an answer that changes; a resolution and its update. *)
Definition pool : Type := srvServicePool client * net.
Definition started (ts : list string) : pool := (start_srv look cfg (MkSrvPool None [], fresh ts)).2.
Definition on_net (f : net → net) (s : pool) : pool := (s.1, f s.2).
Definition round (s : pool) : pool := (runUpdate (onRsv (tick look) s).2).2.
Definition entries_of (s : pool) : list (string * nat) := map snd (clientEntries s.1).

Lemma redis_is_cache_witness : @CachedProofs.CacheOk tree_jid tree_xml (option (servicePool client) * net)
  (redis_cache (fun _ => 7%Z) cfg) (redis_views (fun _ => 7%Z)).
Proof. exact (@redis_is_cache tree_jid tree_xml net client demo_redis (fun _ => 7%Z) cfg demo_view demo_redis_ok). Defined.

(** *** A pool whose servers can be reached *)
Definition steady : Redis net client := {|
  redis_NewClient := redis_NewClient; redis_Ping := fun _ => mret tt; redis_Close := redis_Close; redis_HGet := redis_HGet;
  redis_HSet := redis_HSet; redis_Expire := redis_Expire; redis_HDel := redis_HDel; redis_Del := redis_Del;
  redis_HExists := redis_HExists |}.
Lemma steady_reachable : @Reachable net client steady.
Proof. split; [intros a w; by eexists _, _|intros c w; by eexists|done]. Qed.

(** The answer is one of two. *)
Definition either (_ _ _ : string) : M net (list S2SProvider.Dialer.SRV) :=
  gets (fun w => map target (if decide (n_down w = []) then ["a."; "b."] else ["c."; "b."])).
Lemma either_once s p n w ans w' : either s p n w = (Ok ans, w') → NoDup (addresses ans).
Proof. intros [= <- _]. case_decide; apply (bool_decide_unpack _); vm_compute; exact I. Qed.

Definition begun : pool := (@start_srv _ _ net client steady either cfg (MkSrvPool None [], fresh [])).2.
Definition moved : pool := (onRsv (tick either) (on_net (down ["a."]) begun)).2.
Definition caught_up : pool := (@runUpdate _ net client steady moved).2.

Lemma pool_follows_record_witness :
  map fst (clientEntries begun.1) = ["a:6379"; "b:6379"] ∧ map fst (clientEntries caught_up.1) = ["b:6379"; "c:6379"] ∧
  ∃ r, rsv caught_up.1 = Some r ∧ map fst (clientEntries caught_up.1) = targets r.
Proof.
  split; [vm_compute; reflexivity|]. split; [vm_compute; reflexivity|].
  destruct (@pool_follows_record go_insertion_sort demo_range net client steady either steady_reachable either_once cfg (fresh [])
    begun caught_up) as (r & Hr & _ & Hall).
  - vm_compute. reflexivity.
  - eapply rtc_l; [eapply (step_world _ begun.1 begun.2 (down ["a."] begun.2))|].
    eapply rtc_l; [eapply (step_tick _ _ moved); vm_compute; reflexivity|].
    eapply rtc_l; [eapply (step_update _ _ caught_up); vm_compute; reflexivity|]. apply rtc_refl.
  - exists r. split; [exact Hr|]. apply Hall. revert Hr. vm_compute. by intros [= <-].
Defined.

(** *** What goes wrong otherwise *)

(** An answer that names a target twice: the target is reported as gone at every
    resolution, until the pool is empty and every call panics. *)
Theorem duplicate_target_empties_pool :
  let s := round (round (started ["a."; "a."])) in
  length (clientEntries (started ["a."; "a."]).1) = 2%nat ∧ clientEntries s.1 = [] ∧
  (Get (fun _ => 7%Z) "ns" "k" (Some (SrvPool s.1), s.2)).1 = Crash IndexOutOfRange.
Proof. split; [|split]; vm_compute; reflexivity. Qed.

(** A new server that does not answer: the client of the old one is closed and stays
    in the pool; when the new one answers later, it is not tried again. *)
Theorem failed_update_is_not_repeated :
  let s := round (on_net (fun w => answers ["b."] (down ["b:6379"] w)) (started ["a."])) in
  let s' := round (on_net (down []) s) in
  map fst (clientEntries s'.1) = ["a:6379"] ∧
  (Get (fun _ => 7%Z) "ns" "k" (Some (SrvPool s'.1), s'.2)).1 = Err (ErrText "redis: client is closed").
Proof. split; vm_compute; reflexivity. Qed.

(** A name space that moves to a new server and back: what was removed meanwhile is
    found again. *)
Definition hash (_ : string) : Z := 4.
Definition on_pool {A} (m : M (option (servicePool client) * net) A) (s : pool) : pool :=
  let '(_, (sp, w)) := m (Some (SrvPool s.1), s.2) in (match sp with Some (SrvPool p) => p | _ => s.1 end, w).
Definition came_back : pool :=
  let s1 := on_pool (Put hash cfg "ns" "k" "old") (started ["a."]) in
  let s2 := round (on_net (answers ["a."; "b."]) s1) in
  let s3 := on_pool (Del hash "ns" ["k"]) s2 in
  round (on_net (answers ["a."]) s3).
Theorem removed_entry_comes_back :
  (Get hash "ns" "k" (Some (SrvPool came_back.1), came_back.2)).1 = Ok (Some "old").
Proof. vm_compute. reflexivity. Qed.

End RedisDemo.
