(* ===== verification/Startup.v ===== *)
(** * How the server is put together (src/pkg/jackal)

    [Jackal.Run] creates the parts of the server from the configuration, hands each of
    them its collaborators, and registers those that are started and stopped.  The
    model records with every part the collaborators it is created with; a
    collaborator that does not exist yet is a nil pointer.  Reading the configuration,
    logging and limits of the process are left out, and so are the time limits of
    start and stop. *)

From stdpp Require Import base list strings gmap relations sorting.
From Stdlib Require Import ZArith Lia.
From S2P Require Import Prelude GoLib Stravaganza.
From S2P Require Users Hosts ModuleTable.

(** The parts: what the fields of [Jackal] hold, the two routers inside the global
    one, the modules and the listeners. *)
Inductive part :=
  | Peppers | HookTable | KV | ConnMng | ResMng | MemberList | Repository | HostTable | ShaperList
  | S2SOutProvider | LocalRouter | ClusterRouter | C2SRouter | S2SRouter | Router
  | Comps | ExtCompMng | StmQueueMap | Module_ (name : string) | Mods
  | AdminServer | ClusterServer | C2SListener (i : nat) | S2SInHub | S2SListener (i : nat) | CompListener (i : nat)
  | HTTPServer.
#[global] Instance part_eq_dec : EqDecision part.
Proof. solve_decision. Defined.

(** [Jackal]; [made] lists the parts that were created with their collaborators. *)
Record Jackal := MkJackal {
  made : list (part * list part);
  nils : list (part * part); (** a part and a collaborator that was nil *)
  fields : list part;
  starters : list part;
  stoppers : list part;
}.
(** [New] sets the key-value store and the member list that do nothing. *)
Definition New : Jackal := MkJackal [] [] [KV; MemberList] [] [].

(** [Config]: the listeners by their number. *)
Record Config := MkConfig {
  cfg_Cluster : string; cfg_KV : string; cfg_Peppers : Users.Pepper.Config; cfg_Storage : string; cfg_Cache : string;
  cfg_Hosts : list Hosts.Host.Config; cfg_Shapers : list Hosts.Shaper.Config; cfg_Modules : list string;
  cfg_C2S : nat; cfg_S2S : nat; cfg_Components : nat }.

Abbreviation MJ := (M Jackal).

(** A constructor call: the part with its collaborators, which are read from the
    fields. *)
Definition create (p : part) (args : list part) : MJ unit := modify (fun j =>
  MkJackal (made j ++ [(p, args)])
    (nils j ++ map (pair p) (filter (fun a => a ∉ fields j) args))
    (fields j ++ [p]) (starters j) (stoppers j)).

Definition registerStartStopper (p : part) : MJ unit := modify (fun j =>
  MkJackal (made j) (nils j) (fields j) (starters j ++ [p]) (p :: stoppers j)).

Definition pureJ {A} (r : outcome A) : MJ A := fun j => (r, j).

Definition kvClusterType : string := "kv".
Definition noneClusterType : string := "none".
Definition IsEnabled (cfg : Config) : bool := negb (String.eqb (cfg_Cluster cfg) noneClusterType).

(** [kv.New] *)
Definition kv_New (type : string) : outcome unit :=
  if String.eqb type "etcd" then Ok tt else Err (ErrText ("unrecognized cluster kv type: " +:+ type)).
Definition initKVStore (cfg : Config) : MJ unit :=
  pureJ (kv_New (cfg_KV cfg));;
  create KV [];;
  registerStartStopper KV.

Definition initCluster (cfg : Config) : MJ unit :=
  (if String.eqb (cfg_Cluster cfg) kvClusterType then initKVStore cfg
   else if String.eqb (cfg_Cluster cfg) noneClusterType then mret tt
   else fail (ErrText ("unrecognized cluster type: " +:+ cfg_Cluster cfg)));;
  create MemberList [KV; HookTable];;
  create ResMng [KV; HookTable];;
  create ConnMng [HookTable];;
  registerStartStopper ConnMng;;
  registerStartStopper ResMng;;
  registerStartStopper MemberList.

(** [storage.New] with [cachedrepository.New] *)
Definition storage_New (type cache : string) : outcome unit :=
  if String.eqb type "pgsql" || String.eqb type "boltdb" then
    if String.eqb cache "" || String.eqb cache "redis" then Ok tt
    else Err (ErrText ("unrecognized repository cache type: " +:+ cache))
  else Err (ErrText ("unrecognized repository type: " +:+ type)).
Definition initRepository (cfg : Config) : MJ unit :=
  pureJ (storage_New (cfg_Storage cfg) (cfg_Cache cfg));;
  create Repository [];;
  registerStartStopper Repository.

Definition initS2SOut : MJ unit :=
  create S2SOutProvider [HostTable; KV; ShaperList; HookTable];;
  registerStartStopper S2SOutProvider.

Definition initRouters : MJ unit :=
  create LocalRouter [HostTable];;
  create ClusterRouter [ConnMng];;
  create C2SRouter [LocalRouter; ClusterRouter; ResMng; Repository; HookTable];;
  create S2SRouter [S2SOutProvider];;
  create Router [HostTable; C2SRouter; S2SRouter];;
  registerStartStopper Router.

Definition initComponents : MJ unit :=
  create Comps [HookTable];;
  create ExtCompMng [KV; ConnMng; Comps];;
  registerStartStopper Comps;;
  registerStartStopper ExtCompMng.

(** [modFns]: the collaborators of the modules; stream management creates the map
    of queues. *)
Definition modFns (name : string) : option (MJ unit) :=
  (list_to_map [
    ("roster", create (Module_ "roster") [Router; HostTable; ResMng; Repository; HookTable]);
    ("offline", create (Module_ "offline") [Router; HostTable; Repository; HookTable]);
    ("last", create (Module_ "last") [Router; HostTable; ResMng; Repository; HookTable]);
    ("disco", create (Module_ "disco") [Router; Comps; Repository; ResMng; HookTable]);
    ("private", create (Module_ "private") [Router; Repository; HookTable]);
    ("vcard", create (Module_ "vcard") [Router; Repository; HookTable]);
    ("version", create (Module_ "version") [Router]);
    ("caps", create (Module_ "caps") [Router; Repository; HookTable]);
    ("blocklist", create (Module_ "blocklist") [Router; HostTable; ResMng; Repository; HookTable]);
    ("stream_mgmt", create StmQueueMap [];;
       create (Module_ "stream_mgmt") [StmQueueMap; ConnMng; Router; HostTable; ResMng; HookTable]);
    ("ping", create (Module_ "ping") [Router; HookTable]);
    ("time", create (Module_ "time") [Router]);
    ("carbons", create (Module_ "carbons") [Router; HostTable; ResMng; HookTable]);
    ("mam", create (Module_ "mam") [Router; HostTable; Repository; HookTable])] : gmap string (MJ unit)) !! name.

Fixpoint selectModules (names : list string) : MJ unit :=
  match names with
  | [] => mret tt
  | n :: names' =>
    match modFns n with
    | None => fail (ErrText ("main: unrecognized module name: " +:+ n))
    | Some f => f;; selectModules names'
    end
  end.
Definition enabledModules (cfg : Config) : list string :=
  match cfg_Modules cfg with [] => ModuleTable.defaultModules | ms => ms end.
Definition initModules (cfg : Config) : MJ unit :=
  selectModules (enabledModules cfg);;
  create Mods ([HostTable; Router; HookTable] ++ map Module_ (enabledModules cfg));;
  registerStartStopper Mods.

Definition initAdminServer : MJ unit :=
  create AdminServer [Repository; Peppers; HookTable];;
  registerStartStopper AdminServer.
Definition initClusterServer : MJ unit :=
  create ClusterServer [LocalRouter; Comps; StmQueueMap];;
  registerStartStopper ClusterServer.

(** The listeners of a kind, created first and registered then. *)
Definition newListeners (mk : nat → part) (n : nat) (args : list part) : MJ unit :=
  for_each (seq 0 n) (fun i => create (mk i) args);;
  for_each (seq 0 n) (fun i => registerStartStopper (mk i)).
Definition initListeners (cfg : Config) : MJ unit :=
  newListeners C2SListener (cfg_C2S cfg)
    [HostTable; Router; Comps; Mods; ResMng; Repository; Peppers; ShaperList; HookTable];;
  (if Nat.eqb (cfg_S2S cfg) 0 then mret tt
   else
     create S2SInHub [];;
     registerStartStopper S2SInHub;;
     newListeners S2SListener (cfg_S2S cfg)
       [HostTable; Router; Comps; Mods; S2SOutProvider; S2SInHub; KV; ShaperList; HookTable]);;
  newListeners CompListener (cfg_Components cfg) [HostTable; Comps; ExtCompMng; Router; ShaperList; HookTable].

Section run.
Context {Certificate : Type} (LoadCertificate : string → string → string → outcome Certificate).
Context (regexp_Compile : string → outcome (string → bool)).

Definition initHosts (cfg : Config) : MJ unit :=
  pureJ (Hosts.Host.NewHosts LoadCertificate (cfg_Hosts cfg));;
  create HostTable [].
Definition initShapers (cfg : Config) : MJ unit :=
  for_each (cfg_Shapers cfg) (fun c => pureJ (Hosts.Shaper.New regexp_Compile c);; mret tt);;
  create ShaperList [].

(** [Run], up to the start of the parts. *)
Definition init (cfg : Config) : MJ unit :=
  pureJ (Users.Pepper.NewKeys (cfg_Peppers cfg));;
  create Peppers [];;
  create HookTable [];;
  initCluster cfg;;
  initRepository cfg;;
  initHosts cfg;;
  initShapers cfg;;
  initS2SOut;;
  initRouters;;
  initComponents;;
  initModules cfg;;
  initAdminServer;;
  (if IsEnabled cfg then initClusterServer else mret tt);;
  initListeners cfg;;
  create HTTPServer [];;
  registerStartStopper HTTPServer.

(** *** Start and stop of the parts *)
Context {W : Type} (Start Stop : part → M W unit).

(** [bootstrap] and [shutdown], up to the first error; [waitForStopSignal] is in
    between. *)
Definition bootstrap (j : Jackal) : M W unit := for_each (starters j) Start.
Definition shutdown (j : Jackal) : M W unit := for_each (stoppers j) Stop.
Definition Run (cfg : Config) (waitForStopSignal : M W unit) : M W unit :=
  match init cfg New with
  | (Ok _, j) => bootstrap j;; waitForStopSignal;; shutdown j
  | (Err e, _) => fail e
  | (Crash c, _) => crash_with c
  end.
End run.

(** ** What a run creates and registers *)

(** The collaborators that are nil, for the parts of [log] created in this order
    where [fs] are there already. *)
Fixpoint nils_of (fs : list part) (log : list (part * list part)) : list (part * part) :=
  match log with
  | [] => []
  | (p, args) :: log' => map (pair p) (filter (fun a => a ∉ fs) args) ++ nils_of (fs ++ [p]) log'
  end.
Lemma nils_of_app fs l1 l2 : nils_of fs (l1 ++ l2) = nils_of fs l1 ++ nils_of (fs ++ map fst l1) l2.
Proof.
  revert fs. induction l1 as [|[p args] l1 IH]; intros fs; simpl; [by rewrite app_nil_r|].
  rewrite IH, <-!app_assoc. done.
Qed.

(** [m] creates the parts of [log] and registers those of [reg]. *)
Definition does {A} (m : MJ A) (log : list (part * list part)) (reg : list part) : Prop := ∀ j a j', m j = (Ok a, j') →
  made j' = made j ++ log ∧ fields j' = fields j ++ map fst log ∧ nils j' = nils j ++ nils_of (fields j) log ∧
  starters j' = starters j ++ reg ∧ stoppers j' = reverse reg ++ stoppers j.

Lemma does_ret {A} (a : A) : does (mret a) [] [].
Proof. intros j b j' [= _ <-]. by rewrite !app_nil_r. Qed.
Lemma does_pure {A} (r : outcome A) : does (pureJ r) [] [].
Proof. intros j b j' [= _ <-]. by rewrite !app_nil_r. Qed.
Lemma does_fail {A} e log reg : does (fail e : MJ A) log reg.
Proof. by intros j b j'. Qed.
Lemma does_create p args : does (create p args) [(p, args)] [].
Proof. intros j b j' [= _ <-]. simpl. by rewrite !app_nil_r. Qed.
Lemma does_register p : does (registerStartStopper p) [] [p].
Proof. intros j b j' [= _ <-]. simpl. by rewrite !app_nil_r. Qed.
Lemma does_bind {A B} (m : MJ A) (f : A → MJ B) l1 r1 l2 r2 :
  does m l1 r1 → (∀ a, does (f a) l2 r2) → does (m ≫= f) (l1 ++ l2) (r1 ++ r2).
Proof.
  intros Hm Hf j b j' E. inv_bind E as a j1 Ha. destruct (Hm _ _ _ Ha) as (M1 & F1 & N1 & S1 & T1).
  destruct (Hf a _ _ _ E) as (M2 & F2 & N2 & S2 & T2). rewrite M2, M1, F2, F1, N2, N1, S2, S1, T2, T1, F1.
  rewrite nils_of_app, map_app, reverse_app, !app_assoc. done.
Qed.
Lemma does_each {A} (f : A → MJ unit) (l : list A) log reg :
  (∀ x, does (f x) (log x) (reg x)) → does (for_each l f) (l ≫= log) (l ≫= reg).
Proof. intros Hf. induction l as [|x l IH]; simpl; [apply does_ret|]. by apply does_bind. Qed.

(** *** The plan of a configuration *)
Definition isKV (cfg : Config) : bool := String.eqb (cfg_Cluster cfg) kvClusterType.

Definition core_log (kv : bool) : list (part * list part) :=
  [(Peppers, []); (HookTable, [])] ++ (if kv then [(KV, [])] else []) ++
  [(MemberList, [KV; HookTable]); (ResMng, [KV; HookTable]); (ConnMng, [HookTable]); (Repository, []); (HostTable, []);
   (ShaperList, []); (S2SOutProvider, [HostTable; KV; ShaperList; HookTable]); (LocalRouter, [HostTable]);
   (ClusterRouter, [ConnMng]); (C2SRouter, [LocalRouter; ClusterRouter; ResMng; Repository; HookTable]);
   (S2SRouter, [S2SOutProvider]); (Router, [HostTable; C2SRouter; S2SRouter]); (Comps, [HookTable]);
   (ExtCompMng, [KV; ConnMng; Comps])].
Definition core_reg (kv : bool) : list part :=
  (if kv then [KV] else []) ++
  [ConnMng; ResMng; MemberList; Repository; S2SOutProvider; Router; Comps; ExtCompMng].

(** What a module creates. *)
Definition module_log (name : string) : list (part * list part) :=
  default [(Module_ name, [])] ((list_to_map [
    ("roster", [(Module_ "roster", [Router; HostTable; ResMng; Repository; HookTable])]);
    ("offline", [(Module_ "offline", [Router; HostTable; Repository; HookTable])]);
    ("last", [(Module_ "last", [Router; HostTable; ResMng; Repository; HookTable])]);
    ("disco", [(Module_ "disco", [Router; Comps; Repository; ResMng; HookTable])]);
    ("private", [(Module_ "private", [Router; Repository; HookTable])]);
    ("vcard", [(Module_ "vcard", [Router; Repository; HookTable])]);
    ("version", [(Module_ "version", [Router])]);
    ("caps", [(Module_ "caps", [Router; Repository; HookTable])]);
    ("blocklist", [(Module_ "blocklist", [Router; HostTable; ResMng; Repository; HookTable])]);
    ("stream_mgmt", [(StmQueueMap, []);
       (Module_ "stream_mgmt", [StmQueueMap; ConnMng; Router; HostTable; ResMng; HookTable])]);
    ("ping", [(Module_ "ping", [Router; HookTable])]);
    ("time", [(Module_ "time", [Router])]);
    ("carbons", [(Module_ "carbons", [Router; HostTable; ResMng; HookTable])]);
    ("mam", [(Module_ "mam", [Router; HostTable; Repository; HookTable])])] : gmap string (list (part * list part))) !! name).
Definition listeners_log (mk : nat → part) (n : nat) (args : list part) : list (part * list part) :=
  map (fun i => (mk i, args)) (seq 0 n).

Definition plan_log (cfg : Config) : list (part * list part) :=
  core_log (isKV cfg) ++ (enabledModules cfg ≫= module_log) ++
  [(Mods, [HostTable; Router; HookTable] ++ map Module_ (enabledModules cfg)); (AdminServer, [Repository; Peppers; HookTable])] ++
  (if IsEnabled cfg then [(ClusterServer, [LocalRouter; Comps; StmQueueMap])] else []) ++
  listeners_log C2SListener (cfg_C2S cfg)
    [HostTable; Router; Comps; Mods; ResMng; Repository; Peppers; ShaperList; HookTable] ++
  (if Nat.eqb (cfg_S2S cfg) 0 then [] else
     (S2SInHub, []) :: listeners_log S2SListener (cfg_S2S cfg)
       [HostTable; Router; Comps; Mods; S2SOutProvider; S2SInHub; KV; ShaperList; HookTable]) ++
  listeners_log CompListener (cfg_Components cfg) [HostTable; Comps; ExtCompMng; Router; ShaperList; HookTable] ++
  [(HTTPServer, [])].
Definition plan_reg (cfg : Config) : list part :=
  core_reg (isKV cfg) ++ [Mods; AdminServer] ++ (if IsEnabled cfg then [ClusterServer] else []) ++
  map C2SListener (seq 0 (cfg_C2S cfg)) ++
  (if Nat.eqb (cfg_S2S cfg) 0 then [] else S2SInHub :: map S2SListener (seq 0 (cfg_S2S cfg))) ++
  map CompListener (seq 0 (cfg_Components cfg)) ++ [HTTPServer].

Lemma does_eq {A} (m : MJ A) l r l' r' : does m l r → l = l' → r = r' → does m l' r'.
Proof. by intros H -> ->. Qed.

(** The modules by name: those of the table, with what they create. *)
Lemma modFns_does n f : modFns n = Some f → does f (module_log n) [].
Proof.
  unfold modFns, module_log. cbn [list_to_map foldr].
  repeat match goal with
  | |- context [<[?k := _]> _ !! ?n] => destruct (decide (k = n)) as [<-|];
      [rewrite !lookup_insert_eq; intros [= <-];
       first [apply does_create|apply (does_bind _ _ [_] [] [_] []); [apply does_create|intros _; apply does_create]]
      |rewrite !(lookup_insert_ne _ k n) by done]
  end.
  by rewrite lookup_empty.
Qed.

Ltac does_step :=
  match goal with
  | |- does (_ ≫= _) _ _ => eapply does_bind; [|intros ?]
  | |- does (create _ _) _ _ => apply does_create
  | |- does (registerStartStopper _) _ _ => apply does_register
  | |- does (pureJ _) _ _ => apply does_pure
  | |- does (mret _) _ _ => apply does_ret
  | |- does (fail _) _ _ => apply (does_fail _ [] [])
  end.
(** Walks through the calls; what they do together is compared at the end. *)
Ltac does_auto := eapply does_eq; [repeat does_step|try reflexivity..].

Lemma initCluster_does cfg : does (initCluster cfg)
  ((if isKV cfg then [(KV, [])] else []) ++ [(MemberList, [KV; HookTable]); (ResMng, [KV; HookTable]); (ConnMng, [HookTable])])
  ((if isKV cfg then [KV] else []) ++ [ConnMng; ResMng; MemberList]).
Proof.
  unfold initCluster, isKV, initKVStore. destruct (String.eqb (cfg_Cluster cfg) kvClusterType); [does_auto|].
  destruct (String.eqb (cfg_Cluster cfg) noneClusterType); does_auto.
Qed.

Lemma selectModules_does names : does (selectModules names) (names ≫= module_log) [].
Proof.
  induction names as [|n names IH]; simpl; [apply does_ret|]. destruct (modFns n) as [f|] eqn:E; [|apply does_fail].
  apply modFns_does in E as Hf. by apply (does_bind _ _ _ [] _ []).
Qed.

Lemma newListeners_does mk n args : does (newListeners mk n args) (listeners_log mk n args) (map mk (seq 0 n)).
Proof.
  assert (∀ {A B} (f : A → B) l, l ≫= (fun x => [f x]) = map f l) as Hm
    by (intros A B f l; induction l as [|x l IH]; [done|by rewrite bind_cons, IH]).
  eapply does_eq; [eapply does_bind; [|intros _]; eapply does_each; intros i; [apply does_create|apply does_register]|..].
  - rewrite Hm. replace (seq 0 n ≫= _) with ([] : list (part * list part)); [by rewrite app_nil_r|].
    by induction (seq 0 n).
  - rewrite Hm. by replace (seq 0 n ≫= (fun _ => [])) with ([] : list part) by (by induction (seq 0 n)).
Qed.

Lemma initListeners_does cfg : does (initListeners cfg)
  (listeners_log C2SListener (cfg_C2S cfg) [HostTable; Router; Comps; Mods; ResMng; Repository; Peppers; ShaperList; HookTable] ++
   (if Nat.eqb (cfg_S2S cfg) 0 then [] else
      (S2SInHub, []) :: listeners_log S2SListener (cfg_S2S cfg)
        [HostTable; Router; Comps; Mods; S2SOutProvider; S2SInHub; KV; ShaperList; HookTable]) ++
   listeners_log CompListener (cfg_Components cfg) [HostTable; Comps; ExtCompMng; Router; ShaperList; HookTable])
  (map C2SListener (seq 0 (cfg_C2S cfg)) ++
   (if Nat.eqb (cfg_S2S cfg) 0 then [] else S2SInHub :: map S2SListener (seq 0 (cfg_S2S cfg))) ++
   map CompListener (seq 0 (cfg_Components cfg))).
Proof.
  apply does_bind; [apply newListeners_does|]. intros _. apply does_bind; [|intros _; apply newListeners_does].
  destruct (Nat.eqb (cfg_S2S cfg) 0); [apply does_ret|].
  apply (does_bind _ _ [_] [] _ _); [apply does_create|]. intros _.
  apply (does_bind _ _ [] [_] _ _); [apply does_register|]. intros _. apply newListeners_does.
Qed.

Section wiring.
Context {Certificate : Type} (LoadCertificate : string → string → string → outcome Certificate).
Context (regexp_Compile : string → outcome (string → bool)).

Lemma initShapers_does cfg : does (initShapers regexp_Compile cfg) [(ShaperList, [])] [].
Proof.
  apply (does_bind _ _ [] [] [_] []); [|intros _; apply does_create].
  eapply does_eq; [eapply does_each; intros c; eapply does_bind; [apply does_pure|intros ?; apply does_ret]|..];
    by induction (cfg_Shapers cfg).
Qed.

Lemma initClusterServer_does cfg : does (if IsEnabled cfg then initClusterServer else mret tt)
  (if IsEnabled cfg then [(ClusterServer, [LocalRouter; Comps; StmQueueMap])] else []) (if IsEnabled cfg then [ClusterServer] else []).
Proof. destruct (IsEnabled cfg); [unfold initClusterServer|]; does_auto. Qed.

Lemma init_does cfg : does (init LoadCertificate regexp_Compile cfg) (plan_log cfg) (plan_reg cfg).
Proof.
  unfold init. eapply does_eq.
  { eapply does_bind; [apply does_pure|intros _]. do 2 (eapply does_bind; [apply does_create|intros _]).
    eapply does_bind; [apply initCluster_does|intros _].
    eapply does_bind; [unfold initRepository; repeat does_step|intros _].
    eapply does_bind; [unfold initHosts; repeat does_step|intros _].
    eapply does_bind; [apply initShapers_does|intros _].
    eapply does_bind; [unfold initS2SOut; repeat does_step|intros _].
    eapply does_bind; [unfold initRouters; repeat does_step|intros _].
    eapply does_bind; [unfold initComponents; repeat does_step|intros _].
    eapply does_bind; [unfold initModules; eapply does_bind; [apply selectModules_does|intros _; repeat does_step]|intros _].
    eapply does_bind; [unfold initAdminServer; repeat does_step|intros _].
    eapply does_bind; [|intros _; eapply does_bind; [apply initListeners_does|intros _; repeat does_step]].
    apply initClusterServer_does. }
  - unfold plan_log, core_log. simpl. destruct (isKV cfg); simpl; rewrite <-?app_assoc; done.
  - unfold plan_reg, core_reg. simpl. destruct (isKV cfg); simpl; rewrite <-?app_assoc; done.
Qed.

(** *** The collaborators exist *)

(** Every part of [log] finds its collaborators in [fs] or before it. *)
Fixpoint wired (fs : list part) (log : list (part * list part)) : Prop :=
  match log with
  | [] => True
  | (p, args) :: log' => args ⊆ fs ∧ wired (fs ++ [p]) log'
  end.
Lemma wired_nils fs log : wired fs log → nils_of fs log = [].
Proof.
  revert fs. induction log as [|[p args] log IH]; intros fs; simpl; [done|]. intros [Ha Hw]. rewrite (IH _ Hw), app_nil_r.
  by rewrite filter_none by set_solver.
Qed.
Lemma wired_mono fs fs' log : fs ⊆ fs' → wired fs log → wired fs' log.
Proof.
  revert fs fs'. induction log as [|[p args] log IH]; intros fs fs' Hf; simpl; [done|]. intros [Ha Hw].
  split; [set_solver|]. apply (IH (fs ++ [p])); [set_solver|done].
Qed.
Lemma wired_app fs l1 l2 : wired fs l1 → wired (fs ++ map fst l1) l2 → wired fs (l1 ++ l2).
Proof.
  revert fs. induction l1 as [|[p args] l1 IH]; intros fs; simpl; [by rewrite app_nil_r|]. intros [Ha Hw] Hw2. split; [done|].
  apply IH; [done|]. by rewrite <-app_assoc.
Qed.
Lemma wired_listeners mk n args fs : args ⊆ fs → wired fs (listeners_log mk n args).
Proof.
  unfold listeners_log. generalize (seq 0 n). intros l. revert fs. induction l as [|i l IH]; intros fs Ha; simpl; [done|].
  split; [done|]. apply IH. set_solver.
Qed.

(** What is there when the core is made. *)
Definition core : list part :=
  [KV; MemberList; Peppers; HookTable; ResMng; ConnMng; Repository; HostTable; ShaperList; S2SOutProvider; LocalRouter;
   ClusterRouter; C2SRouter; S2SRouter; Router; Comps; ExtCompMng].
#[local] Instance wired_dec fs log : Decision (wired fs log).
Proof. revert fs. induction log as [|[p args] log IH]; intros fs; simpl; [apply _|]. apply and_dec; [apply _|apply IH]. Defined.

Lemma core_wired kv : wired [KV; MemberList] (core_log kv) ∧ core ⊆ [KV; MemberList] ++ map fst (core_log kv).
Proof. destruct kv; (split; [apply (bool_decide_unpack _); vm_compute; exact I|apply (bool_decide_unpack _); vm_compute; exact I]). Qed.

Lemma module_wired n : wired core (module_log n).
Proof.
  unfold module_log. cbn [list_to_map foldr].
  repeat match goal with
  | |- context [<[?k := _]> _ !! ?n] => destruct (decide (k = n)) as [<-|];
      [rewrite !lookup_insert_eq; apply (bool_decide_unpack _); vm_compute; exact I|rewrite !(lookup_insert_ne _ k n) by done]
  end.
  rewrite lookup_empty. simpl. split; [set_solver|done].
Qed.
Lemma module_made n : Module_ n ∈ map fst (module_log n).
Proof.
  unfold module_log. cbn [list_to_map foldr].
  repeat match goal with
  | |- context [<[?k := _]> _ !! ?n] => destruct (decide (k = n)) as [<-|];
      [rewrite !lookup_insert_eq; set_solver|rewrite !(lookup_insert_ne _ k n) by done]
  end.
  rewrite lookup_empty. set_solver.
Qed.
Lemma modules_made names n p : n ∈ names → p ∈ map fst (module_log n) → p ∈ map fst (names ≫= module_log).
Proof.
  intros Hn Hp. induction names as [|n' names IH]; [by apply not_elem_of_nil in Hn|]. rewrite bind_cons, map_app.
  apply elem_of_app. apply elem_of_cons in Hn as [<-|Hn]; [by left|right; by apply IH].
Qed.
Lemma modules_wired names fs : core ⊆ fs → wired fs (names ≫= module_log).
Proof.
  revert fs. induction names as [|n names IH]; intros fs Hf; [done|]. rewrite bind_cons. apply wired_app.
  - by apply (wired_mono core), module_wired.
  - apply IH. set_solver.
Qed.

(** The only collaborator that can be missing is the map of queues, of a server in a
    cluster without stream management. *)
Lemma plan_nils cfg p a : (p, a) ∈ nils_of [KV; MemberList] (plan_log cfg) →
  p = ClusterServer ∧ a = StmQueueMap ∧ "stream_mgmt" ∉ enabledModules cfg.
Proof.
  unfold plan_log. destruct (core_wired (isKV cfg)) as [Hw Hc]. rewrite nils_of_app, (wired_nils _ _ Hw).
  set (fs := [KV; MemberList] ++ map fst (core_log (isKV cfg))) in *. clearbody fs.
  set (names := enabledModules cfg). rewrite nils_of_app, (wired_nils _ _ (modules_wired names fs Hc)), !app_nil_l.
  set (fs2 := fs ++ map fst (names ≫= module_log)). assert (core ⊆ fs2) as Hc2 by set_solver.
  assert (∀ n, n ∈ names → Module_ n ∈ fs2) as Hmods.
  { intros n Hn. apply elem_of_app. right. apply (modules_made names n); [done|apply module_made]. }
  rewrite nils_of_app, wired_nils.
  2: { split; [|split; [set_solver|done]]. intros x. rewrite elem_of_app. intros [Hx|(n & -> & Hn)%list_elem_of_fmap]; [set_solver|auto]. }
  rewrite app_nil_l, nils_of_app. rewrite (wired_nils _ (listeners_log _ _ _ ++ _)), app_nil_r.
  2: { apply wired_app; [apply wired_listeners; set_solver|]. apply wired_app.
       - destruct (Nat.eqb (cfg_S2S cfg) 0); [done|]. split; [set_solver|]. apply wired_listeners. set_solver.
       - apply wired_app; [apply wired_listeners; set_solver|]. simpl. set_solver. }
  destruct (IsEnabled cfg); [|intros Hx; by apply not_elem_of_nil in Hx]. simpl. rewrite app_nil_r.
  intros (x & [= -> ->] & Hx)%list_elem_of_fmap. apply list_elem_of_filter in Hx as [Hn Hx]. split; [done|].
  assert (∀ y, y ∈ core → x ≠ y) as Hy.
  { intros y Hy ->. apply Hn, elem_of_app. left. by apply Hc2. }
  rewrite !elem_of_cons in Hx. destruct Hx as [->|[->|[->|Hx]]]; [| | |by apply not_elem_of_nil in Hx].
  1,2: exfalso; eapply Hy; [|done]; apply (bool_decide_unpack _); vm_compute; exact I.
  split; [done|]. intros Hin. apply Hn, elem_of_app. left.
  apply elem_of_app. right. by apply (modules_made names "stream_mgmt"), list_elem_of_here.
Qed.

(** *** The order *)
Definition rank (p : part) : nat :=
  match p with
  | Peppers => 0 | HookTable => 0 | KV => 1 | ConnMng => 2 | ResMng => 3 | MemberList => 4 | Repository => 5
  | HostTable => 6 | ShaperList => 7 | S2SOutProvider => 8 | LocalRouter => 9 | ClusterRouter => 10 | C2SRouter => 11
  | S2SRouter => 12 | Router => 13 | Comps => 14 | ExtCompMng => 15 | StmQueueMap => 16 | Module_ _ => 17 | Mods => 18
  | AdminServer => 19 | ClusterServer => 20 | C2SListener _ => 21 | S2SInHub => 22 | S2SListener _ => 23
  | CompListener _ => 24 | HTTPServer => 25
  end.

Definition ranked (e : part * list part) : Prop := Forall (fun a => rank a < rank e.1)%nat e.2.
#[local] Instance ranked_dec e : Decision (ranked e).
Proof. unfold ranked. apply _. Defined.

Lemma module_ranked n : Forall ranked (module_log n).
Proof.
  unfold module_log. cbn [list_to_map foldr].
  repeat match goal with
  | |- context [<[?k := _]> _ !! ?n] => destruct (decide (k = n)) as [<-|];
      [rewrite !lookup_insert_eq; apply (bool_decide_unpack _); vm_compute; exact I|rewrite !(lookup_insert_ne _ k n) by done]
  end.
  rewrite lookup_empty. repeat constructor.
Qed.
Lemma listeners_ranked mk n args : (∀ i, Forall (fun a => rank a < rank (mk i))%nat args) → Forall ranked (listeners_log mk n args).
Proof. intros Ha. apply Forall_fmap, Forall_forall. intros i _. apply Ha. Qed.

Lemma plan_ranked cfg : Forall ranked (plan_log cfg).
Proof.
  unfold plan_log. rewrite !Forall_app. split_and!.
  - destruct (isKV cfg); apply (bool_decide_unpack _); vm_compute; exact I.
  - apply Forall_forall. intros e (n & He & _)%list_elem_of_bind. pose proof (module_ranked n) as Hm. rewrite Forall_forall in Hm. auto.
  - constructor; [|constructor; [|constructor]]; unfold ranked; simpl; repeat (constructor; [simpl; lia|]); [|constructor].
    apply Forall_fmap, Forall_forall. intros n _. simpl. lia.
  - destruct (IsEnabled cfg); repeat constructor; simpl; lia.
  - apply listeners_ranked. intros i. repeat constructor; simpl; lia.
  - destruct (Nat.eqb (cfg_S2S cfg) 0); constructor; [constructor|]. apply listeners_ranked. intros i. repeat constructor; simpl; lia.
  - apply listeners_ranked. intros i. repeat constructor; simpl; lia.
  - repeat constructor.
Qed.

Definition not_after (p q : part) : Prop := (rank p <= rank q)%nat.
Lemma same_sorted (mk : nat → part) l : (∀ i k, rank (mk i) = rank (mk k)) → StronglySorted not_after (map mk l).
Proof.
  intros Hr. induction l as [|i l IH]; simpl; constructor; [done|]. apply Forall_fmap, Forall_forall. intros k _.
  unfold not_after, compose. by rewrite (Hr i k).
Qed.
Lemma sorted_append l1 l2 k : StronglySorted not_after l1 → StronglySorted not_after l2 →
  Forall (fun p => rank p <= k)%nat l1 → Forall (fun p => k <= rank p)%nat l2 → StronglySorted not_after (l1 ++ l2).
Proof.
  intros H1 H2 Hl Hg. induction H1 as [|x l1 Hs IH Hx]; simpl; [done|]. apply Forall_cons in Hl as [Hk Hl].
  constructor; [by apply IH|]. apply Forall_app. split; [done|]. eapply Forall_impl; [exact Hg|]. unfold not_after. simpl. lia.
Qed.

(** The parts of every segment are between two ranks. *)
Definition between (lo hi : nat) (l : list part) : Prop :=
  StronglySorted not_after l ∧ Forall (fun p => lo <= rank p <= hi)%nat l.
Lemma between_app lo k hi l1 l2 : (lo <= k <= hi)%nat → between lo k l1 → between k hi l2 → between lo hi (l1 ++ l2).
Proof.
  intros Hk [H1 F1] [H2 F2]. split.
  - apply (sorted_append _ _ k); [done..|by eapply Forall_impl; [exact F1|simpl; lia]|by eapply Forall_impl; [exact F2|simpl; lia]].
  - apply Forall_app. split; [eapply Forall_impl; [exact F1|simpl; lia]|eapply Forall_impl; [exact F2|simpl; lia]].
Qed.
Lemma between_listeners lo hi mk n r : (∀ i, rank (mk i) = r) → (lo <= r <= hi)%nat → between lo hi (map mk (seq 0 n)).
Proof.
  intros Hr Hb. split; [apply same_sorted; congruence|]. apply Forall_fmap, Forall_forall. intros i _. simpl. by rewrite Hr.
Qed.
#[local] Instance between_dec lo hi l : Decision (between lo hi l).
Proof. unfold between, not_after. apply _. Defined.

Lemma plan_sorted cfg : StronglySorted not_after (plan_reg cfg).
Proof.
  enough (between 0 25 (plan_reg cfg)) as [Hs _] by done. unfold plan_reg.
  apply (between_app _ 15); [lia|destruct (isKV cfg); apply (bool_decide_unpack _); vm_compute; exact I|].
  apply (between_app _ 19); [lia|apply (bool_decide_unpack _); vm_compute; exact I|].
  apply (between_app _ 20); [lia|destruct (IsEnabled cfg); apply (bool_decide_unpack _); vm_compute; exact I|].
  apply (between_app _ 21); [lia|by apply (between_listeners _ _ _ _ 21); [|lia]|].
  apply (between_app _ 23); [lia| |].
  - destruct (Nat.eqb (cfg_S2S cfg) 0); [apply (bool_decide_unpack _); vm_compute; exact I|].
    apply (between_app 21 22 23 [S2SInHub]); [lia|apply (bool_decide_unpack _); vm_compute; exact I|by apply (between_listeners _ _ _ _ 23); [|lia]].
  - apply (between_app _ 24); [lia|by apply (between_listeners _ _ _ _ 24); [|lia]|apply (bool_decide_unpack _); vm_compute; exact I].
Qed.

(** A part and what it is made of, directly or through others. *)
Definition uses (j : Jackal) (p a : part) : Prop := ∃ args, (p, args) ∈ made j ∧ a ∈ args.

Lemma sorted_before l i k p a : StronglySorted not_after l → l !! i = Some a → l !! k = Some p → (rank a < rank p)%nat → (i < k)%nat.
Proof.
  intros Hs. revert i k. induction Hs as [|x l Hs IH Hx]; intros i k Ha Hp Hr; [done|]. rewrite Forall_forall in Hx.
  destruct i as [|i], k as [|k]; simpl in *; [simplify_eq; lia|lia| |pose proof (IH i k Ha Hp Hr); lia].
  simplify_eq. apply list_elem_of_lookup_2, Hx in Ha. unfold not_after in Ha. lia.
Qed.

(** C24: The server is put together in an order that works: with every configuration
    that is accepted, no part is created with a collaborator that does not exist yet
    (a cluster server without stream management apart, which gets no map of queues);
    every part is started after the parts it uses, directly or through others, and
    stopped before them. *)
Theorem startup_in_order (cfg : Config) (j : Jackal) (Hinit : init LoadCertificate regexp_Compile cfg New = (Ok tt, j)) :
  (∀ p a, (p, a) ∈ nils j → p = ClusterServer ∧ a = StmQueueMap ∧ "stream_mgmt" ∉ enabledModules cfg) ∧
  stoppers j = reverse (starters j) ∧
  (∀ p a i k, tc (uses j) p a → starters j !! i = Some a → starters j !! k = Some p → (i < k)%nat).
Proof.
  destruct (init_does cfg _ _ _ Hinit) as (Hm & _ & Hn & Hs & Ht). simpl in *. rewrite Hn, Ht, Hs, app_nil_r.
  split; [apply plan_nils|]. split; [done|]. intros p a i k Huse Ha Hp.
  apply (sorted_before _ _ _ _ _ (plan_sorted cfg) Ha Hp). clear Ha Hp i k.
  assert (∀ p a, uses j p a → (rank a < rank p)%nat) as Hu.
  { intros x y (args & Hin & Hy). rewrite Hm in Hin. pose proof (plan_ranked cfg) as Hr. rewrite Forall_forall in Hr.
    specialize (Hr _ Hin). unfold ranked in Hr. rewrite Forall_forall in Hr. by apply Hr. }
  induction Huse as [x y Hxy|x y z Hxy _ IH]; [by apply Hu|]. apply Hu in Hxy. lia.
Qed.

End wiring.

(** ** A configuration *)
Module StartupDemo.

Definition cert (_ _ _ : string) : outcome unit := Ok tt.
Definition regexp (_ : string) : outcome (string → bool) := Ok (fun _ => true).
Definition small : Config :=
  MkConfig "kv" "etcd" (Users.Pepper.MkConfig ∅ "") "boltdb" "redis" [] [] [] 2 1 0.
Definition built : Jackal := (init cert regexp small New).2.

Lemma startup_in_order_witness : length (starters built) = 17%nat ∧ nils built = [] ∧
  (∀ p a i k, tc (uses built) p a → starters built !! i = Some a → starters built !! k = Some p → (i < k)%nat).
Proof.
  split; [vm_compute; reflexivity|]. split; [vm_compute; reflexivity|].
  apply (startup_in_order cert regexp small built). vm_compute. reflexivity.
Defined.

End StartupDemo.
