(* ===== verification/EtcdKV.v ===== *)
(** * The store of a cluster (src/pkg/cluster/kv/etcd/kv.go)

    The key-value store of a cluster on an etcd client, which is a parameter: every
    key that an instance writes is attached to the lease of the instance, so that the
    keys leave with it. *)

From stdpp Require Import base list strings gmap.
From Stdlib Require Import ZArith Lia.
From S2P Require Import Prelude GoLib GoHoare Dialback.
From S2P Require C2SModel ResourceManager.

(** ** The client *)
(** The calls of the etcd client, the request of the health of an endpoint with the
    text of its errors, and the signal that ends the process.  A keep-alive channel is the list of the responses
    that it delivers before it is closed. *)
Inductive EtcdEventType := EventTypePut | EventTypeDelete | EventTypeOther.
Record EtcdEvent := MkEtcdEvent {
  ee_Type : EtcdEventType; ee_Key : string; ee_Value : string; ee_PrevKv : option string }.
Class Etcd (W : Type) := {
  et_Health : string → M W string;
  et_errText : goerror → string;
  et_Dial : M W unit;
  et_Put : string → string → Z → M W unit;
  et_Get : string → M W (list (string * string));
  et_GetPrefix : string → M W (list (string * string));
  et_Delete : string → M W unit;
  et_Grant : Z → M W Z;
  et_KeepAlive : Z → M W (list (option unit));
  et_Revoke : Z → M W unit;
  et_Close : M W unit;
  et_shutdown : M W unit;
}.

Definition leaseTTLInSeconds : Z := 10.

(** [KV]; [cli] tells whether there is a client, [cancelled] that the context of the
    lease was ended. *)
Record EKV := MkEKV { Endpoints : list string; cli : bool; leaseID : Z; kaCh : list (option unit); cancelled : bool; done : bool }.
Definition New (endpoints : list string) : EKV := MkEKV endpoints false 0 [] false false.
Definition set_cli (k : EKV) : EKV := MkEKV (Endpoints k) true (leaseID k) (kaCh k) (cancelled k) (done k).
Definition set_lease (l : Z) (k : EKV) : EKV := MkEKV (Endpoints k) (cli k) l (kaCh k) (cancelled k) (done k).
Definition set_kaCh (c : list (option unit)) (k : EKV) : EKV := MkEKV (Endpoints k) (cli k) (leaseID k) c (cancelled k) (done k).
Definition set_stopped (k : EKV) : EKV := MkEKV (Endpoints k) (cli k) (leaseID k) (kaCh k) true true.

(** [kvtypes.WatchEvent] with its previous value, and [toWatchResp] *)
Definition toEvent (ev : EtcdEvent) : option (ResourceManager.WatchEvent * option string) :=
  let prev := match ee_PrevKv ev with Some v => if String.eqb v "" then None else Some v | None => None end in
  match ee_Type ev with
  | EventTypePut => Some (ResourceManager.MkEvent ResourceManager.WPut (ee_Key ev) (ee_Value ev), prev)
  | EventTypeDelete => Some (ResourceManager.MkEvent ResourceManager.WDel (ee_Key ev) (ee_Value ev), prev)
  | EventTypeOther => None
  end.
Definition toWatchResp (events : list EtcdEvent) (err : option goerror) : list (ResourceManager.WatchEvent * option string) * option goerror :=
  (omap toEvent events, err).

Section etcd.
Context {W : Type} `{!Etcd W}.
Abbreviation MK := (M (EKV * W)).

(** A call of the client, which is nil before the store is started. *)
Definition client {A} (m : M W A) : MK A := c ← fld cli; if c : bool then onW m else crash_with NilDeref.

Definition Put (key value : string) : MK unit := l ← fld leaseID; client (et_Put key value l).
Definition Get (key : string) : MK string :=
  kvs ← client (et_Get key);
  match kvs with
  | [] => mret ""
  | (_, v) :: _ => mret v
  end.
Definition GetPrefix (prefix : string) : MK (gmap string string) :=
  kvs ← client (et_GetPrefix prefix);
  mret (foldl (fun m kv => <[kv.1 := kv.2]> m) ∅ kvs).
Definition Del (key : string) : MK unit := client (et_Delete key).

Definition errHealth (e : string) : goerror := ErrText ("etcd health check failed: " +:+ e).
Definition checkHealth (endpoints : list string) : MK unit :=
  for_each endpoints (fun endpoint =>
    r ← try (onW (et_Health endpoint));
    match r with
    | inl e => fail (errHealth (et_errText e))
    | inr health => if C2SModel.Info.ParseBool health then mret tt else fail (errHealth ("health = false, for endpoint " +:+ endpoint))
    end).

(** [keepAliveLease]: the loop ranges over the channel that was there when it began. *)
Definition maxKeepAliveRetries : nat := 10.
Fixpoint keepAlive (ch : list (option unit)) (retries : nat) : MK unit :=
  match ch with
  | [] => mret tt
  | resp :: ch' =>
    d ← fld done;
    if d : bool then mret tt
    else
      match resp with
      | Some _ => keepAlive ch' retries
      | None =>
        l ← fld leaseID;
        r ← try (client (et_KeepAlive l));
        match r with
        | inr ch2 => setf (set_kaCh ch2);; keepAlive ch' 0
        | inl _ =>
          setf (set_kaCh []);;
          if Nat.eqb (S retries) maxKeepAliveRetries then onW et_shutdown
          else keepAlive ch' (S retries)
        end
      end
  end.
Definition keepAliveLease : MK unit := ch ← fld kaCh; keepAlive ch 0.

Definition Start : MK unit :=
  es ← fld Endpoints;
  checkHealth es;;
  onW et_Dial;;
  setf set_cli;;
  l ← client (et_Grant leaseTTLInSeconds);
  setf (set_lease l);;
  r ← try (client (et_KeepAlive l));
  match r with
  | inl e => setf (set_kaCh []);; fail e
  | inr ch => setf (set_kaCh ch)
  end.

Definition Stop : MK unit :=
  setf set_stopped;;
  l ← fld leaseID;
  client (et_Revoke l);;
  client et_Close.

(** The interface of the streams and of the resource manager. *)
#[export] Instance etcd_kv : KV (EKV * W) := {|
  kv_IsNop := false; kv_Put := Put; kv_Get := Get; kv_Del := Del |}.

End etcd.

(** ** What etcd promises *)
Section contract.
Context {W : Type} `{!Etcd W}.

(** The keys with their values and leases. *)
Class EtcdView := et_content : W → gmap string (string * Z).
Context `{HV : !EtcdView}.
Definition same_content (w w' : W) : Prop := et_content w' = et_content w.
#[local] Instance same_content_preorder : PreOrder same_content.
Proof. split; [done|]. intros w1 w2 w3. unfold same_content. congruence. Qed.

(** A write that fails may have taken effect; a lease is new when it is granted, and
    the keys of a lease are removed with it. *)
Class EtcdOk : Prop := {
  eo_Close : keeps same_content et_Close;
  eo_shutdown : keeps same_content et_shutdown;
  eo_KeepAlive : ∀ l, keeps same_content (et_KeepAlive l);
  eo_Put : ∀ k v l w, let '(r, w') := et_Put k v l w in
    et_content w' = <[k := (v, l)]> (et_content w) ∨ (r ≠ Ok tt ∧ same_content w w');
  eo_Delete : ∀ k w, let '(r, w') := et_Delete k w in
    et_content w' = delete k (et_content w) ∨ (r ≠ Ok tt ∧ same_content w w');
  eo_Get : ∀ k w, let '(r, w') := et_Get k w in same_content w w' ∧
    ∀ kvs, r = Ok kvs → kvs = match et_content w !! k with Some (v, _) => [(k, v)] | None => [] end;
  eo_GetPrefix : ∀ p w, let '(r, w') := et_GetPrefix p w in same_content w w' ∧
    ∀ kvs, r = Ok kvs → kvs ≡ₚ map_to_list (filter (fun kv => String.prefix p kv.1 = true) (fst <$> et_content w));
  eo_Grant : ∀ t w, let '(r, w') := et_Grant t w in same_content w w' ∧
    ∀ l, r = Ok l → ∀ k v, et_content w !! k ≠ Some (v, l);
  eo_Revoke : ∀ l w, let '(r, w') := et_Revoke l w in
    r = Ok tt → et_content w' = filter (fun kv => kv.2.2 ≠ l) (et_content w);
}.
Context `{HO : !EtcdOk}.

Lemma client_inv {A} (m : M W A) k w a s' : client m (k, w) = (Ok a, s') → cli k = true ∧ ∃ w', s' = (k, w') ∧ m w = (Ok a, w').
Proof.
  unfold client. intros E. inv_bind E as c s Hc. injection Hc as <- <-. simpl in E. destruct (cli k); [|done]. split; [done|].
  destruct s' as [k' w']. apply onW_inv in E as [-> E]. by exists w'.
Qed.

(** The store is the map that the streams rely on. *)
#[export] Instance etcd_map : KVMap (EKV * W).
Proof.
  refine {| kv_map := fun s => fst <$> et_content s.2 |}.
  - intros k v [x w] s' E. unfold kv_Put, etcd_kv, Put in E. inv_bind E as l s Hl. injection Hl as <- <-.
    apply client_inv in E as (_ & w' & -> & E). pose proof (eo_Put k v (leaseID x) w) as Hp. simpl in E. rewrite E in Hp.
    destruct Hp as [Hp|[Hp _]]; [|done]. simpl. by rewrite Hp, fmap_insert.
  - intros k [x w] v s' E. unfold kv_Get, etcd_kv, Get in E. inv_bind E as kvs s Hk.
    apply client_inv in Hk as (_ & w' & -> & Hk). pose proof (eo_Get k w) as Hg. rewrite Hk in Hg. destruct Hg as [Hs Hg].
    specialize (Hg kvs eq_refl). assert (s' = (x, w') ∧ v = match kvs with [] => "" | (_, v) :: _ => v end) as [-> ->].
    { destruct kvs as [|[]]; by injection E as <- <-. }
    simpl. rewrite Hs, lookup_fmap, Hg. by destruct (et_content w !! k) as [[]|].
  - intros k [x w] s' E. apply client_inv in E as (_ & w' & -> & E). pose proof (eo_Delete k w) as Hp. rewrite E in Hp.
    destruct Hp as [Hp|[Hp _]]; [|done]. simpl. by rewrite Hp, fmap_delete.
Defined.

(** [GetPrefix] gives the keys with the prefix. *)
Lemma GetPrefix_exact p k w m s' : GetPrefix p (k, w) = (Ok m, s') →
  m = filter (fun kv => String.prefix p kv.1 = true) (fst <$> et_content w).
Proof.
  unfold GetPrefix. intros E. inv_bind E as kvs s Hk. apply client_inv in Hk as (_ & w' & -> & Hk).
  pose proof (eo_GetPrefix p w) as Hg. rewrite Hk in Hg. destruct Hg as [_ Hg]. specialize (Hg kvs eq_refl).
  injection E as <- _. set (f := filter _ _) in *. clearbody f.
  assert (NoDup (map fst kvs)) as Hnd by (rewrite Hg; apply NoDup_fst_map_to_list).
  assert (∀ (l : list (string * string)) (m : gmap string string), NoDup (map fst l) → (∀ x, x ∈ map fst l → m !! x = None) →
    foldl (fun m kv => <[kv.1 := kv.2]> m) m l = list_to_map l ∪ m) as Hf.
  { clear. induction l as [|[x v] l IH]; intros m Hnd Hm; simpl; [by rewrite (left_id_L ∅ (∪))|].
    simpl in Hnd. apply NoDup_cons in Hnd as [Hx Hnd]. rewrite IH; [|done|].
    - rewrite <-insert_union_l, insert_union_r; [done|]. apply not_elem_of_list_to_map. done.
    - intros y Hy. rewrite lookup_insert_ne by (intros ->; done). apply Hm. set_solver. }
  rewrite Hf, (right_id_L ∅ (∪)) by (done || (intros; apply lookup_empty)).
  rewrite <-(list_to_map_to_list f). apply list_to_map_proper; done.
Qed.

(** ** The keys of an instance *)

(** What happens to the store of an instance with lease [l]: its own calls, its loop
    that keeps the lease, and the changes [X] of others, who do not attach keys to the lease.  [mine] are the keys
    whose last change is a write of the instance that succeeded, [tried] those it ever
    tried to write. *)
Record hist := MkHist { hs : EKV * W; mine : gset string; tried : gset string }.
Inductive hstep (l : Z) : hist → hist → Prop :=
  | h_put key v s s' r M T : Put key v s = (r, s') →
      hstep l (MkHist s M T) (MkHist s' (if is_ok r then {[key]} ∪ M else M ∖ {[key]}) ({[key]} ∪ T))
  | h_del key s s' r M T : Del key s = (r, s') → hstep l (MkHist s M T) (MkHist s' (M ∖ {[key]}) T)
  | h_get key s s' r M T : Get key s = (r, s') → hstep l (MkHist s M T) (MkHist s' M T)
  | h_prefix p s s' r M T : GetPrefix p s = (r, s') → hstep l (MkHist s M T) (MkHist s' M T)
  | h_alive ch n s s' r M T : keepAlive ch n s = (r, s') → hstep l (MkHist s M T) (MkHist s' M T)
  | h_others (X : gset string) k w w' M T :
      (∀ key, key ∉ X → et_content w' !! key = et_content w !! key) →
      (∀ key v, et_content w' !! key = Some (v, l) → ∃ v', et_content w !! key = Some (v', l)) →
      hstep l (MkHist (k, w) M T) (MkHist (k, w') (M ∖ X) T).

Definition hinv (l : Z) (h : hist) : Prop :=
  cli (hs h).1 = true ∧ leaseID (hs h).1 = l ∧
  (∀ key, key ∈ mine h → ∃ v, et_content (hs h).2 !! key = Some (v, l)) ∧
  (∀ key v, et_content (hs h).2 !! key = Some (v, l) → key ∈ tried h).

(** A call of the client changes the world only. *)
Lemma client_run {A} (m : M W A) k w : cli k = true → client m (k, w) = ((m w).1, (k, (m w).2)).
Proof. intros Hc. unfold client, mbind, M_bind, fld, gets, onW. simpl. rewrite Hc. by destruct (m w). Qed.

Lemma reads_keep {A B} (m : M W A) (f : A → B) k w r s' : cli k = true → keeps same_content m →
  (a ← client m; mret (f a)) (k, w) = (r, s') → s'.1 = k ∧ et_content s'.2 = et_content w.
Proof.
  intros Hc Hm. unfold mbind, M_bind. rewrite client_run by done. specialize (Hm w). destruct (m w) as [[] w1]; by intros [= _ <-].
Qed.

Lemma keeps_reads {A} (m : M W A) (P : W → A → Prop) :
  (∀ w, let '(r, w') := m w in same_content w w' ∧ ∀ a, r = Ok a → P w a) → keeps same_content m.
Proof. intros Hm w. specialize (Hm w). by destruct (m w) as [r w']; destruct Hm. Qed.

Lemma Get_keeps key k w r s' : cli k = true → Get key (k, w) = (r, s') → s'.1 = k ∧ et_content s'.2 = et_content w.
Proof.
  intros Hc E. apply (reads_keep (et_Get key) (fun kvs => match kvs with [] => "" | (_, v) :: _ => v end) k w r s' Hc).
  - apply (keeps_reads _ _ (eo_Get key)).
  - rewrite <-E. unfold Get, mbind, M_bind. destruct (client (et_Get key) (k, w)) as [[[|[]]| |] s]; done.
Qed.

Definition same_store (s s' : EKV * W) : Prop :=
  cli s'.1 = cli s.1 ∧ leaseID s'.1 = leaseID s.1 ∧ et_content s'.2 = et_content s.2.
#[local] Instance same_store_preorder : PreOrder same_store.
Proof. split; [done|]. intros s1 s2 s3 (?&?&?) (?&?&?). split_and!; congruence. Qed.

Lemma keepAlive_keeps ch n : keeps same_store (keepAlive ch n).
Proof.
  assert (∀ A (m : M W A), keeps same_content m → keeps same_store (onW m)) as Hw.
  { intros A m Hm [k w]. unfold onW. specialize (Hm w). by destruct (m w). }
  assert (∀ c, keeps same_store (setf (set_kaCh c))) as Hs by (intros c [k w]; done).
  revert n. induction ch as [|[u|] ch IH]; intros n; simpl; keeps_auto; try apply IH; try apply Hs.
  - unfold client. keeps_auto. apply Hw, eo_KeepAlive.
  - apply Hw, eo_shutdown.
Qed.

Lemma hstep_inv l h h' : hinv l h → hstep l h h' → hinv l h'.
Proof.
  intros (Hc & Hl & Hm & Ht) Hs.
  destruct Hs as [key v [k w] s' r M T E|key [k w] s' r M T E|key [k w] s' r M T E|p [k w] s' r M T E|ch n [k w] s' r M T E|X k w w' M T Hsame Hown];
    simpl in *.
  - unfold Put, mbind, M_bind, fld, gets in E. simpl in E. rewrite client_run in E by done. pose proof (eo_Put key v (leaseID k) w) as Hp.
    destruct (et_Put key v (leaseID k) w) as [r1 w1]. injection E as <- <-. rewrite Hl in Hp. split; [done|]. split; [done|]. simpl.
    destruct Hp as [Hp|[Hne Hp]]; [rewrite Hp|unfold same_content in Hp; rewrite Hp]; split.
    + intros key' Hk. destruct (decide (key' = key)) as [->|Hne]; [rewrite lookup_insert_eq; by eexists|].
      rewrite lookup_insert_ne by done. apply Hm. destruct (is_ok r1); set_solver.
    + intros key' v'. destruct (decide (key' = key)) as [->|Hne]; [set_solver|]. rewrite lookup_insert_ne by done. intros E%Ht. set_solver.
    + intros key' Hk. apply Hm. destruct r1 as [[]| |]; [done|set_solver..].
    + intros key' v' E%Ht. set_solver.
  - unfold Del in E. rewrite client_run in E by done. pose proof (eo_Delete key w) as Hp. destruct (et_Delete key w) as [r1 w1].
    injection E as <- <-. split; [done|]. split; [done|]. simpl.
    destruct Hp as [Hp|[Hne Hp]]; [rewrite Hp|unfold same_content in Hp; rewrite Hp]; split.
    + intros key' Hk. rewrite lookup_delete_ne by set_solver. apply Hm. set_solver.
    + intros key' v' [_ E]%lookup_delete_Some. by apply Ht in E.
    + intros key' Hk. apply Hm. set_solver.
    + done.
  - destruct (Get_keeps key k w r s' Hc E) as [Hk Hw]. rewrite <-Hk in Hc, Hl. rewrite <-Hw in Hm, Ht. done.
  - apply reads_keep in E as [Hk Hw]; [|done|apply (keeps_reads _ _ (eo_GetPrefix p))]. rewrite <-Hk in Hc, Hl. rewrite <-Hw in Hm, Ht. done.
  - apply (keeps_run same_store) in E as (Hc' & Hl' & Hw); [|apply keepAlive_keeps]. simpl in *. rewrite <-Hc' in Hc. rewrite <-Hl' in Hl.
    rewrite <-Hw in Hm, Ht. done.
  - split; [done|]. split; [done|]. split.
    + intros key Hk. rewrite Hsame by set_solver. apply Hm. set_solver.
    + intros key v (v' & E)%Hown. by apply Ht in E.
Qed.

(** A started store has a client and a lease that no key has. *)
Lemma Start_inv k w s : Start (k, w) = (Ok tt, s) → cli s.1 = true ∧ ∀ key v, et_content s.2 !! key ≠ Some (v, leaseID s.1).
Proof.
  unfold Start. intros E. inv_bind E as es s0 He. injection He as _ <-.
  inv_bind E as u1 [k1 w1] _. inv_bind E as u2 [k2 w2] _. inv_bind E as u3 s3 H3. injection H3 as _ <-.
  inv_bind E as l s4 Hg. apply client_inv in Hg as (_ & w4 & -> & Hg). pose proof (eo_Grant leaseTTLInSeconds w2) as Hn. rewrite Hg in Hn.
  destruct Hn as [Hs Hn]. specialize (Hn l eq_refl).
  inv_bind E as u5 s5 H5. injection H5 as _ <-. inv_bind E as r s6 H6. unfold try in H6.
  rewrite client_run in H6 by done. pose proof (eo_KeepAlive l w4) as Hk. destruct (et_KeepAlive l w4) as [[ch|e|c] w5]; [|by injection H6 as <- <-|done].
  injection H6 as <- <-. injection E as <-. split; [done|]. intros key v. simpl. unfold same_content in *. simpl in Hk. rewrite Hk, Hs. apply Hn.
Qed.

Lemma Stop_inv s s' : Stop s = (Ok tt, s') → et_content s'.2 = filter (fun kv => kv.2.2 ≠ leaseID s.1) (et_content s.2).
Proof.
  destruct s as [k w]. unfold Stop. intros E. inv_bind E as u s1 H. injection H as _ <-.
  inv_bind E as l s2 H. injection H as <- <-. simpl in E. inv_bind E as u2 s3 H. apply client_inv in H as (_ & w1 & -> & H).
  apply client_inv in E as (_ & w2 & -> & E). pose proof (eo_Revoke (leaseID k) w) as Hr. rewrite H in Hr. destruct u2.
  pose proof (eo_Close w1) as Hc. rewrite E in Hc. unfold same_content in Hc. simpl in *. rewrite Hc. by apply Hr.
Qed.

(** C33: the keys leave with the instance.  When a store was started and is stopped without
    an error, whatever it and others did in between and whichever calls failed, no key
    is left whose last change was a write of this instance, and every key that the
    instance never tried to write is as it was. *)
Theorem keys_leave_with_instance (k : EKV) (w : W) (s : EKV * W) (h : hist) (s' : EKV * W)
    (Hstart : Start (k, w) = (Ok tt, s)) (Hrun : rtc (hstep (leaseID s.1)) (MkHist s ∅ ∅) h) (Hstop : Stop (hs h) = (Ok tt, s')) :
  (∀ key, key ∈ mine h → et_content s'.2 !! key = None) ∧
  (∀ key, key ∉ tried h → et_content s'.2 !! key = et_content (hs h).2 !! key).
Proof.
  apply Start_inv in Hstart as (Hc & Hfresh).
  assert (hinv (leaseID s.1) h) as (Hc' & Hl & Hm & Ht).
  { assert (hinv (leaseID s.1) (MkHist s ∅ ∅)) as Hi.
    { split; [done|]. split; [done|]. split; [set_solver|]. intros key v E. by apply Hfresh in E. }
    revert Hi. clear -Hrun HO. induction Hrun as [h|h h1 h' Hs _ IH]; [done|]. intros Hi. apply IH. by eapply hstep_inv. }
  apply Stop_inv in Hstop. rewrite Hl in Hstop. rewrite Hstop. split.
  - intros key (v & E)%Hm. apply map_lookup_filter_None. right. intros x Hx. rewrite E in Hx. injection Hx as <-. simpl. tauto.
  - intros key Hk. destruct (et_content (hs h).2 !! key) as [[v l]|] eqn:E.
    + apply map_lookup_filter_Some. split; [done|]. simpl. intros ->. by apply Ht in E.
    + apply map_lookup_filter_None. by left.
Qed.

(** ** What the client is told *)

(** The events of a watch are those of etcd, in order. *)
Lemma toWatchResp_exact evs err : Forall (fun ev => ee_Type ev ≠ EventTypeOther) evs →
  map (fun e => (ResourceManager.ev_Key e.1, ResourceManager.ev_Val e.1)) (toWatchResp evs err).1 = map (fun ev => (ee_Key ev, ee_Value ev)) evs.
Proof.
  induction 1 as [|ev evs Hev _ IH]; [done|]. unfold toWatchResp in *. cbn [fst omap list_omap map] in *.
  unfold toEvent at 1. destruct (ee_Type ev); [..|done]; simpl; by rewrite IH.
Qed.

(** etcd closes a keep-alive channel when the lease cannot be refreshed and does not
    send nil: the loop ends without a try to renew the lease and without ending the
    process. *)
Theorem lost_lease_unnoticed (ch : list (option unit)) (n : nat) (s : EKV * W) (Hch : Forall is_Some ch) :
  keepAlive ch n s = (Ok tt, s).
Proof.
  induction Hch as [|resp ch [u ->] _ IH]; [done|]. simpl. unfold mbind, M_bind, fld, gets. by destruct (done s.1).
Qed.

End contract.

(** ** A run *)
Module EtcdDemo.
(** An etcd with the keys and the number of leases it granted. *)
Definition EW : Type := gmap string (string * Z) * Z.
#[local] Instance etcd : Etcd EW := {|
  et_Health := fun _ => mret "true";
  et_errText := fun _ => "";
  et_Dial := mret tt;
  et_Put := fun k v l => modify (fun w => (<[k := (v, l)]> w.1, w.2));
  et_Get := fun k => gets (fun w => match w.1 !! k with Some (v, _) => [(k, v)] | None => [] end);
  et_GetPrefix := fun p => gets (fun w => map_to_list (filter (fun kv => String.prefix p kv.1 = true) (fst <$> w.1)));
  et_Delete := fun k => modify (fun w => (delete k w.1, w.2));
  et_Grant := fun _ => l ← gets (fun w => (map_fold (fun _ kv m => Z.max kv.2 m) w.2 w.1 + 1)%Z); modify (fun w => (w.1, l));; mret l;
  et_KeepAlive := fun _ => mret [Some tt];
  et_Revoke := fun l => modify (fun w => (filter (fun kv => kv.2.2 ≠ l) w.1, w.2));
  et_Close := mret tt;
  et_shutdown := mret tt |}.
#[local] Instance view : @EtcdView EW := fst.

Lemma lease_bound (m : gmap string (string * Z)) z k v l : m !! k = Some (v, l) → (l ≤ map_fold (fun _ kv m => Z.max kv.2 m) z m)%Z.
Proof.
  revert k v l. apply (map_fold_weak_ind (fun r m => ∀ k v l, m !! k = Some (v, l) → (l ≤ r)%Z)); [done|].
  intros i x m' r _ IH k v l [[-> ->]|[_ E%IH]]%lookup_insert_Some; simpl; lia.
Qed.

#[local] Instance ok : EtcdOk.
Proof.
  split; try done; try (intros; by left).
  - intros k w. split; [done|]. intros kvs E. by injection E as <-.
  - intros p w. split; [done|]. intros kvs E. by injection E as <-.
  - intros t w. split; [done|]. intros l E. injection E as <-. intros k v E. apply (lease_bound _ w.2) in E. unfold et_content, view in *. simpl in *. lia.
Qed.

Definition w0 : EW := ({["b" := ("theirs", 1%Z)]}, 1%Z).
Definition k0 : EKV := New ["http://127.0.0.1:2379"].
Definition k1 : EKV := MkEKV ["http://127.0.0.1:2379"] true 2 [Some tt] false false.
Definition k2 : EKV := MkEKV ["http://127.0.0.1:2379"] true 2 [Some tt] true true.
Definition w1 : EW := (<["a" := ("mine", 2%Z)]> w0.1, 2%Z).
Definition h1 : hist := MkHist (k1, w1) {["a"]} {["a"]}.

Lemma run_h1 : rtc (hstep 2) (MkHist (k1, (w0.1, 2%Z)) ∅ ∅) h1.
Proof.
  unfold h1. replace ({["a"]} : gset string) with ({["a"]} ∪ ∅ : gset string) by set_solver.
  apply rtc_once. by apply (h_put 2 "a" "mine" (k1, (w0.1, 2%Z)) (k1, w1) (Ok tt) ∅ ∅).
Qed.

(** The instance writes a key and stops: the key is gone, the key of another instance
    is not. *)
Lemma keys_leave_with_instance_witness : ∃ s', Stop (hs h1) = (Ok tt, s') ∧ et_content s'.2 !! "a" = None ∧ et_content s'.2 !! "b" = Some ("theirs", 1%Z).
Proof.
  exists (k2, (filter (fun kv => kv.2.2 ≠ 2%Z) w1.1, 2%Z)). split; [done|].
  destruct (keys_leave_with_instance k0 w0 (k1, (w0.1, 2%Z)) h1 (k2, (filter (fun kv => kv.2.2 ≠ 2%Z) w1.1, 2%Z))) as [Hm Ht].
  - vm_compute. reflexivity.
  - exact run_h1.
  - done.
  - split; [apply Hm; set_solver|]. rewrite Ht by set_solver. vm_compute. reflexivity.
Defined.

End EtcdDemo.
