(* ===== verification/Measured.v ===== *)
(** * The measured repository (src/pkg/storage/measured)

    A wrapper that counts the calls of a repository.  It is shown that no program can
    tell the wrapper from the repository, transactions included. *)

From stdpp Require Import base list strings gmap.
From Stdlib Require Import ZArith.
From S2P Require Import Prelude Stravaganza Roster Storage Repository MemRep.
From S2P Require Users.

Definition upsertOp : string := "upsert".
Definition fetchOp : string := "fetch".
Definition deleteOp : string := "delete".
Definition lockOp : string := "lock".

(** The labels of an operation, without the name of the instance and the duration;
    [me_report] is the client of Prometheus. *)
Record metric := MkMetric { me_type : string; me_success : bool; me_tx : bool }.
Class Meter (W : Type) := me_report : metric → W → W.

Section measured.
Context `{XmlLib} {W : Type} `{RW : !Rep W} `{RM : !RepMessages W} `{!Meter W}.

Definition reportOpMetric (opType : string) (success inTx : bool) : M W unit :=
  modify (me_report (MkMetric opType success inTx)).

(** The body of every method: the call, the report, the result of the call.  A panic
    of the call is not reported. *)
Definition measure {A} (op : string) (inTx : bool) (m : M W A) : M W A :=
  r ← try m;
  reportOpMetric op (match r with inr _ => true | inl _ => false end) inTx;;
  match r with inr a => mret a | inl err => fail err end.

Section methods.
Context (inTx : bool).
(** [measuredUserRep] *)
Definition UpsertUser (user : Users.User) : M W unit := measure upsertOp inTx (rep_UpsertUser user).
Definition DeleteUser (username : string) : M W unit := measure deleteOp inTx (rep_DeleteUser username).
Definition FetchUser (username : string) : M W (option Users.User) := measure fetchOp inTx (rep_FetchUser username).
Definition UserExists (username : string) : M W bool := measure fetchOp inTx (rep_UserExists username).
(** [measuredLastRep] *)
Definition UpsertLast (lst : Last) : M W unit := measure upsertOp inTx (rep_UpsertLast lst).
Definition FetchLast (username : string) : M W (option Last) := measure fetchOp inTx (rep_FetchLast username).
Definition DeleteLast (username : string) : M W unit := measure deleteOp inTx (rep_DeleteLast username).
(** [measuredCapabilitiesRep] *)
Definition UpsertCapabilities (caps : Capabilities) : M W unit := measure upsertOp inTx (rep_UpsertCapabilities caps).
Definition CapabilitiesExist (node : string) (ver : string) : M W bool := measure fetchOp inTx (rep_CapabilitiesExist node ver).
Definition FetchCapabilities (node : string) (ver : string) : M W (option Capabilities) := measure fetchOp inTx (rep_FetchCapabilities node ver).
(** [measuredBlockListRep] *)
Definition UpsertBlockListItem (item : BlockItem) : M W unit := measure upsertOp inTx (rep_UpsertBlockListItem item).
Definition DeleteBlockListItem (item : BlockItem) : M W unit := measure deleteOp inTx (rep_DeleteBlockListItem item).
Definition FetchBlockListItems (username : string) : M W (list BlockItem) := measure fetchOp inTx (rep_FetchBlockListItems username).
Definition DeleteBlockListItems (username : string) : M W unit := measure deleteOp inTx (rep_DeleteBlockListItems username).
(** [measuredPrivateRep] *)
Definition FetchPrivate (namespace : string) (username : string) : M W (option Element) := measure fetchOp inTx (rep_FetchPrivate namespace username).
Definition UpsertPrivate (prv : Element) (namespace : string) (username : string) : M W unit := measure upsertOp inTx (rep_UpsertPrivate prv namespace username).
Definition DeletePrivates (username : string) : M W unit := measure deleteOp inTx (rep_DeletePrivates username).
(** [measuredVCardRep] *)
Definition UpsertVCard (vCard : Element) (username : string) : M W unit := measure upsertOp inTx (rep_UpsertVCard vCard username).
Definition FetchVCard (username : string) : M W (option Element) := measure fetchOp inTx (rep_FetchVCard username).
Definition DeleteVCard (username : string) : M W unit := measure deleteOp inTx (rep_DeleteVCard username).
(** [measuredRosterRep] *)
Definition TouchRosterVersion (username : string) : M W Z := measure upsertOp inTx (rep_TouchRosterVersion username).
Definition FetchRosterVersion (username : string) : M W Z := measure fetchOp inTx (rep_FetchRosterVersion username).
Definition UpsertRosterItem (ri : Item) : M W unit := measure upsertOp inTx (rep_UpsertRosterItem ri).
Definition DeleteRosterItem (username : string) (jid : string) : M W unit := measure deleteOp inTx (rep_DeleteRosterItem username jid).
Definition DeleteRosterItems (username : string) : M W unit := measure deleteOp inTx (rep_DeleteRosterItems username).
Definition FetchRosterItems (username : string) : M W (list Item) := measure fetchOp inTx (rep_FetchRosterItems username).
Definition FetchRosterItemsInGroups (username : string) (groups : list string) : M W (list Item) := measure fetchOp inTx (rep_FetchRosterItemsInGroups username groups).
Definition FetchRosterItem (username : string) (jid : string) : M W (option Item) := measure fetchOp inTx (rep_FetchRosterItem username jid).
Definition UpsertRosterNotification (rn : Notification) : M W unit := measure upsertOp inTx (rep_UpsertRosterNotification rn).
Definition DeleteRosterNotification (contact : string) (jid : string) : M W unit := measure deleteOp inTx (rep_DeleteRosterNotification contact jid).
Definition DeleteRosterNotifications (contact : string) : M W unit := measure deleteOp inTx (rep_DeleteRosterNotifications contact).
Definition FetchRosterNotification (contact : string) (jid : string) : M W (option Notification) := measure fetchOp inTx (rep_FetchRosterNotification contact jid).
Definition FetchRosterNotifications (contact : string) : M W (list Notification) := measure fetchOp inTx (rep_FetchRosterNotifications contact).
Definition FetchRosterGroups (username : string) : M W (list string) := measure fetchOp inTx (rep_FetchRosterGroups username).
(** [measuredOfflineRep] *)
Definition InsertOfflineMessage (message : Element) (username : string) : M W unit := measure upsertOp inTx (rep_InsertOfflineMessage message username).
Definition CountOfflineMessages (username : string) : M W Z := measure fetchOp inTx (rep_CountOfflineMessages username).
Definition FetchOfflineMessages (username : string) : M W (list Element) := measure fetchOp inTx (rep_FetchOfflineMessages username).
Definition DeleteOfflineMessages (username : string) : M W unit := measure deleteOp inTx (rep_DeleteOfflineMessages username).
(** [measuredArchiveRep] *)
Definition InsertArchiveMessage (message : ArchiveMessage) : M W unit := measure upsertOp inTx (rep_InsertArchiveMessage message).
Definition FetchArchiveMetadata (archiveID : string) : M W (option Metadata) := measure fetchOp inTx (rep_FetchArchiveMetadata archiveID).
Definition FetchArchiveMessages (f : Filters) (archiveID : string) : M W (list ArchiveMessage) := measure fetchOp inTx (rep_FetchArchiveMessages f archiveID).
Definition DeleteArchiveOldestMessages (archiveID : string) (maxElements : Z) : M W unit := measure deleteOp inTx (rep_DeleteArchiveOldestMessages archiveID maxElements).
Definition DeleteArchive (archiveID : string) : M W unit := measure deleteOp inTx (rep_DeleteArchive archiveID).
(** [measuredLocker] *)
Definition Lock (lockID : string) : M W unit := measure upsertOp inTx (rep_Lock lockID).
Definition Unlock (lockID : string) : M W unit := measure upsertOp inTx (rep_Unlock lockID).
End methods.

Definition Measured (inTx : bool) : Rep W := {|
  rep_UpsertUser := UpsertUser inTx;
  rep_DeleteUser := DeleteUser inTx;
  rep_FetchUser := FetchUser inTx;
  rep_UserExists := UserExists inTx;
  rep_UpsertLast := UpsertLast inTx;
  rep_FetchLast := FetchLast inTx;
  rep_DeleteLast := DeleteLast inTx;
  rep_UpsertCapabilities := UpsertCapabilities inTx;
  rep_CapabilitiesExist := CapabilitiesExist inTx;
  rep_FetchCapabilities := FetchCapabilities inTx;
  rep_UpsertBlockListItem := UpsertBlockListItem inTx;
  rep_DeleteBlockListItem := DeleteBlockListItem inTx;
  rep_FetchBlockListItems := FetchBlockListItems inTx;
  rep_DeleteBlockListItems := DeleteBlockListItems inTx;
  rep_FetchPrivate := FetchPrivate inTx;
  rep_UpsertPrivate := UpsertPrivate inTx;
  rep_DeletePrivates := DeletePrivates inTx;
  rep_UpsertVCard := UpsertVCard inTx;
  rep_FetchVCard := FetchVCard inTx;
  rep_DeleteVCard := DeleteVCard inTx;
  rep_TouchRosterVersion := TouchRosterVersion inTx;
  rep_FetchRosterVersion := FetchRosterVersion inTx;
  rep_UpsertRosterItem := UpsertRosterItem inTx;
  rep_DeleteRosterItem := DeleteRosterItem inTx;
  rep_DeleteRosterItems := DeleteRosterItems inTx;
  rep_FetchRosterItems := FetchRosterItems inTx;
  rep_FetchRosterItemsInGroups := FetchRosterItemsInGroups inTx;
  rep_FetchRosterItem := FetchRosterItem inTx;
  rep_UpsertRosterNotification := UpsertRosterNotification inTx;
  rep_DeleteRosterNotification := DeleteRosterNotification inTx;
  rep_DeleteRosterNotifications := DeleteRosterNotifications inTx;
  rep_FetchRosterNotification := FetchRosterNotification inTx;
  rep_FetchRosterNotifications := FetchRosterNotifications inTx;
  rep_FetchRosterGroups := FetchRosterGroups inTx;
  rep_InTransaction := rep_InTransaction;
|}.
Definition MeasuredMessages (inTx : bool) : RepMessages W := {|
  rep_InsertOfflineMessage := InsertOfflineMessage inTx;
  rep_CountOfflineMessages := CountOfflineMessages inTx;
  rep_FetchOfflineMessages := FetchOfflineMessages inTx;
  rep_DeleteOfflineMessages := DeleteOfflineMessages inTx;
  rep_InsertArchiveMessage := InsertArchiveMessage inTx;
  rep_FetchArchiveMetadata := FetchArchiveMetadata inTx;
  rep_FetchArchiveMessages := FetchArchiveMessages inTx;
  rep_DeleteArchiveOldestMessages := DeleteArchiveOldestMessages inTx;
  rep_DeleteArchive := DeleteArchive inTx;
  rep_Lock := Lock inTx;
  rep_Unlock := Unlock inTx;
|}.

(** [New] and [newMeasuredTx]: the methods with and without the mark of a
    transaction. *)
Definition New : Rep W * RepMessages W := (Measured false, MeasuredMessages false).
Definition newMeasuredTx : Rep W * RepMessages W := (Measured true, MeasuredMessages true).

(** [InTransaction]: [f] is given the wrapped transaction. *)
Definition InTransaction (f : Rep W * RepMessages W → M W unit) : M W unit := rep_InTransaction (f newMeasuredTx).

End measured.

(** ** Programs *)
Section programs.
Context `{XmlLib}.

(** A call of a repository. *)
Inductive call : Type → Type :=
  | CUpsertUser (user : Users.User) : call unit
  | CDeleteUser (username : string) : call unit
  | CFetchUser (username : string) : call (option Users.User)
  | CUserExists (username : string) : call bool
  | CUpsertLast (lst : Last) : call unit
  | CFetchLast (username : string) : call (option Last)
  | CDeleteLast (username : string) : call unit
  | CUpsertCapabilities (caps : Capabilities) : call unit
  | CCapabilitiesExist (node : string) (ver : string) : call bool
  | CFetchCapabilities (node : string) (ver : string) : call (option Capabilities)
  | CUpsertBlockListItem (item : BlockItem) : call unit
  | CDeleteBlockListItem (item : BlockItem) : call unit
  | CFetchBlockListItems (username : string) : call (list BlockItem)
  | CDeleteBlockListItems (username : string) : call unit
  | CFetchPrivate (namespace : string) (username : string) : call (option Element)
  | CUpsertPrivate (prv : Element) (namespace : string) (username : string) : call unit
  | CDeletePrivates (username : string) : call unit
  | CUpsertVCard (vCard : Element) (username : string) : call unit
  | CFetchVCard (username : string) : call (option Element)
  | CDeleteVCard (username : string) : call unit
  | CTouchRosterVersion (username : string) : call Z
  | CFetchRosterVersion (username : string) : call Z
  | CUpsertRosterItem (ri : Item) : call unit
  | CDeleteRosterItem (username : string) (jid : string) : call unit
  | CDeleteRosterItems (username : string) : call unit
  | CFetchRosterItems (username : string) : call (list Item)
  | CFetchRosterItemsInGroups (username : string) (groups : list string) : call (list Item)
  | CFetchRosterItem (username : string) (jid : string) : call (option Item)
  | CUpsertRosterNotification (rn : Notification) : call unit
  | CDeleteRosterNotification (contact : string) (jid : string) : call unit
  | CDeleteRosterNotifications (contact : string) : call unit
  | CFetchRosterNotification (contact : string) (jid : string) : call (option Notification)
  | CFetchRosterNotifications (contact : string) : call (list Notification)
  | CFetchRosterGroups (username : string) : call (list string)
  | CInsertOfflineMessage (message : Element) (username : string) : call unit
  | CCountOfflineMessages (username : string) : call Z
  | CFetchOfflineMessages (username : string) : call (list Element)
  | CDeleteOfflineMessages (username : string) : call unit
  | CInsertArchiveMessage (message : ArchiveMessage) : call unit
  | CFetchArchiveMetadata (archiveID : string) : call (option Metadata)
  | CFetchArchiveMessages (f : Filters) (archiveID : string) : call (list ArchiveMessage)
  | CDeleteArchiveOldestMessages (archiveID : string) (maxElements : Z) : call unit
  | CDeleteArchive (archiveID : string) : call unit
  | CLock (lockID : string) : call unit
  | CUnlock (lockID : string) : call unit.

Definition rep_call {W} `{!Rep W} `{!RepMessages W} {A} (c : call A) : M W A :=
  match c with
  | CUpsertUser user => rep_UpsertUser user
  | CDeleteUser username => rep_DeleteUser username
  | CFetchUser username => rep_FetchUser username
  | CUserExists username => rep_UserExists username
  | CUpsertLast lst => rep_UpsertLast lst
  | CFetchLast username => rep_FetchLast username
  | CDeleteLast username => rep_DeleteLast username
  | CUpsertCapabilities caps => rep_UpsertCapabilities caps
  | CCapabilitiesExist node ver => rep_CapabilitiesExist node ver
  | CFetchCapabilities node ver => rep_FetchCapabilities node ver
  | CUpsertBlockListItem item => rep_UpsertBlockListItem item
  | CDeleteBlockListItem item => rep_DeleteBlockListItem item
  | CFetchBlockListItems username => rep_FetchBlockListItems username
  | CDeleteBlockListItems username => rep_DeleteBlockListItems username
  | CFetchPrivate namespace username => rep_FetchPrivate namespace username
  | CUpsertPrivate prv namespace username => rep_UpsertPrivate prv namespace username
  | CDeletePrivates username => rep_DeletePrivates username
  | CUpsertVCard vCard username => rep_UpsertVCard vCard username
  | CFetchVCard username => rep_FetchVCard username
  | CDeleteVCard username => rep_DeleteVCard username
  | CTouchRosterVersion username => rep_TouchRosterVersion username
  | CFetchRosterVersion username => rep_FetchRosterVersion username
  | CUpsertRosterItem ri => rep_UpsertRosterItem ri
  | CDeleteRosterItem username jid => rep_DeleteRosterItem username jid
  | CDeleteRosterItems username => rep_DeleteRosterItems username
  | CFetchRosterItems username => rep_FetchRosterItems username
  | CFetchRosterItemsInGroups username groups => rep_FetchRosterItemsInGroups username groups
  | CFetchRosterItem username jid => rep_FetchRosterItem username jid
  | CUpsertRosterNotification rn => rep_UpsertRosterNotification rn
  | CDeleteRosterNotification contact jid => rep_DeleteRosterNotification contact jid
  | CDeleteRosterNotifications contact => rep_DeleteRosterNotifications contact
  | CFetchRosterNotification contact jid => rep_FetchRosterNotification contact jid
  | CFetchRosterNotifications contact => rep_FetchRosterNotifications contact
  | CFetchRosterGroups username => rep_FetchRosterGroups username
  | CInsertOfflineMessage message username => rep_InsertOfflineMessage message username
  | CCountOfflineMessages username => rep_CountOfflineMessages username
  | CFetchOfflineMessages username => rep_FetchOfflineMessages username
  | CDeleteOfflineMessages username => rep_DeleteOfflineMessages username
  | CInsertArchiveMessage message => rep_InsertArchiveMessage message
  | CFetchArchiveMetadata archiveID => rep_FetchArchiveMetadata archiveID
  | CFetchArchiveMessages f archiveID => rep_FetchArchiveMessages f archiveID
  | CDeleteArchiveOldestMessages archiveID maxElements => rep_DeleteArchiveOldestMessages archiveID maxElements
  | CDeleteArchive archiveID => rep_DeleteArchive archiveID
  | CLock lockID => rep_Lock lockID
  | CUnlock lockID => rep_Unlock lockID
  end.

(** What a client does: it looks at every result and decides.  The body of a
    transaction is such a program without transactions. *)
Inductive prog : bool → Type → Type :=
  | PRet b A (a : A) : prog b A
  | PFail b A (e : goerror) : prog b A
  | PCall b A B (c : call B) (k : goerror + B → prog b A) : prog b A
  | PTx A (body : prog true unit) (k : goerror + unit → prog false A) : prog false A.

(** A program on a repository [r] whose transactions are made by [begin]. *)
Fixpoint run {W} (begin : (Rep W * RepMessages W → M W unit) → M W unit) (r : Rep W * RepMessages W) {b A} (p : prog b A) : M W A :=
  match p with
  | PRet _ _ a => mret a
  | PFail _ _ e => fail e
  | PCall _ _ B c k => x ← try (@rep_call W r.1 r.2 B c); run begin r (k x)
  | PTx _ body k => x ← try (begin (fun tx => run begin tx body)); run begin r (k x)
  end.
End programs.

(** ** The wrapper does not show *)
Section proofs.
Context `{XmlLib} {W : Type} `{RW : !Rep W} `{RM : !RepMessages W} `{!Meter W}.

(** Worlds that differ in the metrics only. *)
Context (same : W → W → Prop) `{HS : !Equivalence same}.

(** Two computations with the same result on worlds that differ in the metrics only. *)
Definition sim {A} (m m' : M W A) : Prop :=
  ∀ w w', same w w' → (m w).1 = (m' w').1 ∧ same (m w).2 (m' w').2.

(** The repository does not look at the metrics. *)
Class Unmetered : Prop := {
  um_report : ∀ me w, same w (me_report me w);
  um_call : ∀ A (c : call A), sim (rep_call c) (rep_call c);
  um_tx : ∀ m m', sim m m' → sim (rep_InTransaction m) (rep_InTransaction m');
}.
Context `{HU : !Unmetered}.

Lemma sim_bind {A B} (m m' : M W A) (k k' : A → M W B) : sim m m' → (∀ a, sim (k a) (k' a)) → sim (m ≫= k) (m' ≫= k').
Proof.
  intros Hm Hk w w' Hw. destruct (Hm w w' Hw) as [E Hs]. unfold mbind, M_bind.
  destruct (m w) as [r w1], (m' w') as [r' w1']. simpl in *. subst r'. destruct r; [by apply Hk|done..].
Qed.

Lemma sim_try {A} (m m' : M W A) : sim m m' → sim (try m) (try m').
Proof.
  intros Hm w w' Hw. destruct (Hm w w' Hw) as [E Hs]. unfold try.
  destruct (m w) as [r w1], (m' w') as [r' w1']. simpl in *. subst r'. by destruct r.
Qed.

Lemma sim_measure {A} op b (m m' : M W A) : sim m m' → sim (measure op b m) m'.
Proof.
  intros Hm w w' Hw. destruct (Hm w w' Hw) as [E Hs]. unfold measure, mbind, M_bind, try, reportOpMetric, modify.
  destruct (m w) as [r w1], (m' w') as [r' w1']. simpl in *. subst r'.
  destruct r as [a|e|c]; simpl; (split; [done|]); [..|done]; (etransitivity; [symmetry; apply um_report|done]).
Qed.

(** The wrapped repository makes each call of the repository. *)
Lemma measured_call b {A} (c : call A) : ∃ op, @rep_call _ _ W (Measured b) (MeasuredMessages b) A c = measure op b (rep_call c).
Proof. destruct c; eexists; reflexivity. Qed.

(** A transaction of the repository itself. *)
Definition plain_tx (f : Rep W * RepMessages W → M W unit) : M W unit := rep_InTransaction (f (RW, RM)).

Lemma sim_run {b A} (p : prog b A) x : sim (run InTransaction (Measured x, MeasuredMessages x) p) (run plain_tx (RW, RM) p).
Proof.
  revert x. induction p as [b A a|b A e|b A B c k IH|A body IHb k IH]; intros x; simpl.
  - by intros w w' Hw.
  - by intros w w' Hw.
  - apply sim_bind; [|intros; apply IH]. apply sim_try. destruct (measured_call x c) as [op ->]. apply sim_measure, um_call.
  - apply sim_bind; [|intros; apply IH]. apply sim_try, um_tx. apply (IHb true).
Qed.

(** No program can tell the measured repository from the repository it wraps: with
    and without transactions, whatever fails, the result is the same, a panic
    included, and the worlds differ in the metrics only. *)
Theorem measured_indistinguishable {A} (p : prog false A) (w w' : W) (Hw : same w w') :
  (run InTransaction New p w).1 = (run plain_tx (RW, RM) p w').1 ∧
  same (run InTransaction New p w).2 (run plain_tx (RW, RM) p w').2.
Proof. by apply sim_run. Qed.

End proofs.

(** ** A measured repository in memory *)
Module MeasuredDemo.
Import TreeLib.

Record mworld := MkMWorld { mw_mem : mem; mw_mail : mail; mw_log : list metric }.
#[local] Instance mworld_mem : HasMem mworld := {|
  get_mem := mw_mem; set_mem := fun m w => MkMWorld m (mw_mail w) (mw_log w);
  roll_back := fun w w' => MkMWorld (mw_mem w) (mw_mail w) (mw_log w') |}.
#[local] Instance mworld_mail : HasMail mworld := {| get_mail := mw_mail; set_mail := fun m w => MkMWorld (mw_mem w) m (mw_log w) |}.
#[local] Instance mworld_meter : Meter mworld := fun me w => MkMWorld (mw_mem w) (mw_mail w) (mw_log w ++ [me]).
Definition same (w w' : mworld) : Prop := mw_mem w = mw_mem w' ∧ mw_mail w = mw_mail w'.
#[local] Instance same_equivalence : Equivalence same.
Proof. split; [done|by intros ?? []|intros ??? [] []; split; congruence]. Qed.
#[local] Instance unmetered : Unmetered same.
Proof.
  split.
  - done.
  - intros A c [m l g] [m' l' g'] [E E']. simpl in E, E'. subst m' l'. by destruct c.
  - intros m m' Hm w w' Hw. destruct (Hm w w' Hw) as [E Hs]. unfold rep_InTransaction, map_rep.
    destruct (m w) as [r w1], (m' w') as [r' w1']. simpl in *. subst r'. by destruct r as [[]| |].
Qed.

(** A transaction that removes a user and fails is rolled back, and its call is
    counted as one in a transaction. *)
Definition w0 : mworld := MkMWorld no_mem no_mail [].
Definition body : prog true unit := PCall true unit unit (CDeleteUser "ana") (fun _ => PFail true unit ErrStopped).
Definition client : prog false bool := PTx bool body (fun _ => PCall false bool bool (CUserExists "ana")
  (fun r => match r with inr x => PRet false bool x | inl e => PFail false bool e end)).

Lemma measured_indistinguishable_witness :
  (run InTransaction New client w0).1 = Ok false ∧ mw_log (run InTransaction New client w0).2 = [MkMetric "delete" true true; MkMetric "fetch" true false].
Proof.
  destruct (measured_indistinguishable same client w0 w0) as [E _]; [done|]. rewrite E. split; [vm_cast_no_check (eq_refl (Ok false : outcome bool))|].
  vm_cast_no_check (eq_refl [MkMetric "delete" true true; MkMetric "fetch" true false]).
Defined.

(** A lock is counted as a write: there is a name for the operation, which is not
    used. *)
Theorem lock_is_counted_as_upsert : mw_log (@rep_Lock _ _ _ (New (W := mworld)).2 "id" w0).2 = [MkMetric upsertOp true false].
Proof. reflexivity. Qed.
End MeasuredDemo.
