(* ===== verification/Listeners.v ===== *)
(** * The listeners of client and server connections
    (src/pkg/c2s/socket_listener.go, src/pkg/s2s/socket_listener.go)

    What a listener makes of its configuration and of a connection, how it is started
    and stopped, and what follows from the authenticator that all streams of a
    listener share. *)

From stdpp Require Import base list strings gmap relations.
From Stdlib Require Import ZArith Lia.
From S2P Require Import Prelude GoLib GoHoare Base64 Stravaganza Hosts Dialback.
From S2P Require C2SIn S2SIn Scram.

(** ** The network *)

(** [net.ListenConfig.Listen], [tls.NewListener] and [Close] of a listener, and the gRPC
    connection of the external authenticator. *)
Record tlsConfig (Certificate : Type) := MkTLS { tc_Certificates : list Certificate; tc_requireClientCert : bool }.
Arguments MkTLS {_} _ _.
Arguments tc_Certificates {_} _.
Arguments tc_requireClientCert {_} _.
Class ListenEnv (W : Type) := {
  le_Listen : string → M W nat;
  le_Close : nat → M W unit;
  le_Dial : string → bool → M W nat;
  le_Hangup : nat → M W unit;
}.
(** [net.Listener]: a socket, or TLS on a socket *)
Record netListener (Certificate : Type) := MkNetListener { nl_socket : nat; nl_tls : option (tlsConfig Certificate) }.
Arguments MkNetListener {_} _ _.
Arguments nl_socket {_} _.
Arguments nl_tls {_} _.

Definition address (bindAddr : string) (port : Z) : string := bindAddr +:+ ":" +:+ Itoa port.

(** ** The accept loop *)
Section accept.
Context {Conn : Type}.

(** The loop has seen that the listener is active and waits in [Accept], or is about to
    look; [served] are the connections that were handed to a goroutine. *)
Record loop := MkLoop { active : bool; waiting : bool; served : list Conn }.
Inductive loop_step : loop → loop → Prop :=
  | look s : loop_step (MkLoop true false s) (MkLoop true true s)
  | accepted a s c : loop_step (MkLoop a true s) (MkLoop a false (s ++ [c]))
  | accept_failed a s : loop_step (MkLoop a true s) (MkLoop a false s)
  | stopped a b s : loop_step (MkLoop a b s) (MkLoop false b s).

(** After [Stop] one connection can still be served, and no other. *)
Lemma one_after_stop l l' : rtc loop_step l l' → active l = false →
  active l' = false ∧ ∃ cs, served l' = served l ++ cs ∧ length cs + (if waiting l' then 1 else 0) ≤ if waiting l then 1 else 0.
Proof.
  induction 1 as [l|l1 l2 l3 Hs _ IH]; intros Ha.
  - split; [done|]. exists []. by rewrite app_nil_r.
  - destruct Hs as [s|a s c|a s|a b s]; simpl in *; subst; [done|..].
    + destruct IH as (Ha & cs & E & Hl); [done|]. split; [done|]. exists (c :: cs). rewrite E, <-app_assoc. split; [done|]. simpl. lia.
    + destruct IH as (Ha & cs & E & Hl); [done|]. split; [done|]. exists cs. split; [done|]. lia.
    + by apply IH.
Qed.
End accept.

(** ** Listeners of clients *)
Module C2SListener.
Section listener.
Context `{XmlLib} {W Certificate : Type} `{!C2SIn.C2SEnv W} `{!ListenEnv W}.

Record ListenerConfig := MkListenerConfig {
  BindAddr : string; Port : Z; DirectTLS : bool; Mechanisms : list string;
  ExtAddress : string; ExtIsSecure : bool; CompressionLevel : string; ResourceConflict : string;
  MaxStanzaSize : Z }.

(** [auth.NewScram] makes a new authenticator for a connection. *)
Context (NewScram : Scram.ScramType → bool → M W nat).

(** The external authenticator of a listener: its handle, its address, and its
    connection once it is dialled. *)
Record extAuth := MkExtAuth { ea_handle : nat; ea_address : string; ea_isSecure : bool; ea_cc : option nat }.
Record SocketListener := MkListener {
  cfg : ListenerConfig; l_extAuth : option extAuth; l_hosts : @Host.Hosts Certificate;
  tlsCfg : option (tlsConfig Certificate); ln : option (netListener Certificate); l_active : bool }.
Definition set_ext e l := MkListener (cfg l) e (l_hosts l) (tlsCfg l) (ln l) (l_active l).
Definition set_tls t l := MkListener (cfg l) (l_extAuth l) (l_hosts l) t (ln l) (l_active l).
Definition set_ln x l := MkListener (cfg l) (l_extAuth l) (l_hosts l) (tlsCfg l) (Some x) true.
Definition set_inactive l := MkListener (cfg l) (l_extAuth l) (l_hosts l) (tlsCfg l) (ln l) false.
Abbreviation ML := (M (SocketListener * W)).

(** [newSocketListener], where [h] is the handle of a new external authenticator *)
Definition newSocketListener (c : ListenerConfig) (hosts : Host.Hosts) (h : nat) : SocketListener :=
  MkListener c (if (0 <? String.length (ExtAddress c))%nat then Some (MkExtAuth h (ExtAddress c) (ExtIsSecure c) None) else None) hosts None None false.
Definition NewListeners (cs : list ListenerConfig) (hosts : Host.Hosts) (h : nat) : list SocketListener :=
  imap (fun i c => newSocketListener c hosts (h + i)) cs.

Definition getAddress (l : SocketListener) : string := address (BindAddr (cfg l)) (Port (cfg l)).

(** [External.Start] and [External.Stop] *)
Definition ext_Start (e : extAuth) : ML unit :=
  cc ← onW (le_Dial (ea_address e) (ea_isSecure e));
  setf (set_ext (Some (MkExtAuth (ea_handle e) (ea_address e) (ea_isSecure e) (Some cc)))).
Definition ext_Stop (e : extAuth) : ML unit := cc ← deref (ea_cc e); onW (le_Hangup cc).

Definition Start : ML unit :=
  oe ← fld l_extAuth;
  match oe with Some e => ext_Start e | None => mret tt end;;
  addr ← fld getAddress;
  sock ← onW (le_Listen addr);
  c ← fld cfg;
  hs ← fld l_hosts;
  (if DirectTLS c then
     let t := MkTLS (Host.Certificates hs) false in
     setf (set_tls (Some t));; setf (set_ln (MkNetListener sock (Some t)))
   else setf (set_ln (MkNetListener sock None))).

Definition Stop : ML unit :=
  setf set_inactive;;
  x ← fld ln;
  x ← deref x;
  onW (le_Close (nl_socket x));;
  oe ← fld l_extAuth;
  match oe with Some e => ext_Stop e | None => mret tt end.

(** The names of the configuration. *)
Definition cmpLevelMap (s : string) : Z :=
  if String.eqb s "default" then 1 else if String.eqb s "best" then 2 else if String.eqb s "speed" then 3 else C2SIn.NoCompression.
Definition resConflictMap (s : string) : C2SIn.resourceConflict :=
  if String.eqb s "override" then C2SIn.override else if String.eqb s "disallow" then C2SIn.disallow
  else if String.eqb s "terminate_old" then C2SIn.terminateOld else C2SIn.override.
Definition mechanismType (mechanism : string) : option Scram.ScramType :=
  if String.eqb mechanism "scram_sha_1" then Some Scram.ScramSHA1
  else if String.eqb mechanism "scram_sha_256" then Some Scram.ScramSHA256
  else if String.eqb mechanism "scram_sha_512" then Some Scram.ScramSHA512
  else if String.eqb mechanism "scram_sha3_512" then Some Scram.ScramSHA3512 else None.

(** [getInConfig], without the time limits *)
Definition getInConfig (l : SocketListener) : C2SIn.inCfg :=
  C2SIn.MkCfg (MaxStanzaSize (cfg l)) (cmpLevelMap (CompressionLevel (cfg l))) (resConflictMap (ResourceConflict (cfg l))) (DirectTLS (cfg l)).

(** [getAuthenticators]: the external one is the same for every connection. *)
Fixpoint scrams (ms : list string) : M W (list nat) :=
  match ms with
  | [] => mret []
  | m :: ms' =>
    match mechanismType m with
    | Some t => a ← NewScram t false; b ← NewScram t true; res ← scrams ms'; mret (a :: b :: res)
    | None => scrams ms'
    end
  end.
Definition getAuthenticators (l : SocketListener) : M W (list nat) :=
  res ← scrams (Mechanisms (cfg l));
  mret (match l_extAuth l with Some e => [ea_handle e] | None => [] end ++ res).

(** [handleConn], up to the first iteration of the read loop of the stream; [i] is the
    next stream identifier.  Errors are logged. *)
Definition handleConn (l : SocketListener) (i : Z) (w : W) : option (C2SIn.inC2S * W) :=
  match (auths ← getAuthenticators l; C2SIn.newInC2S i (getInConfig l) auths) w with
  | (Ok s, w1) => match C2SIn.start (s, w1) with (Ok _, sw) => Some sw | _ => None end
  | _ => None
  end.

(** ** What clients are offered *)
(** The mechanisms of a new stream are PLAIN when there is an external authenticator,
    and both forms of every mechanism of the configuration that is known, in the order
    of the configuration. *)
Definition mechanism_names (ms : list string) : list string :=
  flat_map (fun m => match mechanismType m with
    | Some t => [Scram.Mechanism (Scram.NewScram t false); Scram.Mechanism (Scram.NewScram t true)]
    | None => [] end) ms.
Hypothesis NewScram_mechanism : ∀ t b w a w', NewScram t b w = (Ok a, w') → C2SIn.auth_Mechanism a = Scram.Mechanism (Scram.NewScram t b).

Lemma scrams_names ms w auths w' : scrams ms w = (Ok auths, w') → map C2SIn.auth_Mechanism auths = mechanism_names ms.
Proof.
  revert auths w w'. induction ms as [|m ms IH]; intros auths w w'; simpl; [by intros [= <- _]|].
  destruct (mechanismType m) as [t|]; [|apply IH]. intros E. inv_bind E as a w1 Ha. inv_bind E as b w2 Hb. inv_bind E as res w3 Hr.
  injection E as <- _. simpl. erewrite NewScram_mechanism by done. erewrite NewScram_mechanism by done. by rewrite (IH _ _ _ Hr).
Qed.

Theorem stream_offers_configured (l : SocketListener) (i : Z) (w w' : W) (s : C2SIn.inC2S)
    (Hext : ∀ e, l_extAuth l = Some e → C2SIn.auth_Mechanism (ea_handle e) = Scram.External.Mechanism)
    (Hnew : (auths ← getAuthenticators l; C2SIn.newInC2S i (getInConfig l) auths) w = (Ok s, w')) :
  map C2SIn.auth_Mechanism (C2SIn.authenticators (C2SIn.authSt s)) =
    match l_extAuth l with Some _ => [Scram.External.Mechanism] | None => [] end ++ mechanism_names (Mechanisms (cfg l)).
Proof.
  inv_bind Hnew as auths w1 Ha. unfold C2SIn.newInC2S in Hnew. inv_bind Hnew as u w2 Hu. injection Hnew as <- _. simpl.
  unfold getAuthenticators in Ha. inv_bind Ha as res w3 Hr. injection Ha as <- _. rewrite map_app, (scrams_names _ _ _ _ Hr).
  f_equal. destruct (l_extAuth l) as [e|] eqn:He; [|done]. simpl. by rewrite Hext.
Qed.

(** All streams of a listener get the same external authenticator. *)
Lemma external_is_shared (l : SocketListener) e w1 a1 w1' w2 a2 w2' : l_extAuth l = Some e →
  getAuthenticators l w1 = (Ok a1, w1') → getAuthenticators l w2 = (Ok a2, w2') → head a1 = Some (ea_handle e) ∧ head a2 = Some (ea_handle e).
Proof.
  unfold getAuthenticators. intros -> E1 E2. inv_bind E1 as r1 x1 _. inv_bind E2 as r2 x2 _. by injection E1 as <- _; injection E2 as <- _.
Qed.

End listener.
End C2SListener.

(** ** Listeners of servers *)
Module S2SListener.
Section listener.
Context `{XmlLib} {W Certificate : Type} `{!S2SIn.S2SInEnv W} `{!KV W} `{!ListenEnv W}.

Record ListenerConfig := MkListenerConfig { BindAddr : string; Port : Z; MaxStanzaSize : Z; DirectTLS : bool }.
Record SocketListener := MkListener {
  cfg : ListenerConfig; l_hosts : @Host.Hosts Certificate; ln : option (netListener Certificate); l_active : bool }.
Abbreviation ML := (M (SocketListener * W)).

Definition newSocketListener (c : ListenerConfig) (hosts : Host.Hosts) : SocketListener := MkListener c hosts None false.
Definition NewListeners (cs : list ListenerConfig) (hosts : Host.Hosts) : list SocketListener := map (fun c => newSocketListener c hosts) cs.
Definition getAddress (l : SocketListener) : string := address (BindAddr (cfg l)) (Port (cfg l)).
Definition getTLSConfig (l : SocketListener) : tlsConfig Certificate := MkTLS (Host.Certificates (l_hosts l)) true.

Definition Start : ML unit :=
  addr ← fld getAddress;
  sock ← onW (le_Listen addr);
  setf (fun l => MkListener (cfg l) (l_hosts l)
    (Some (MkNetListener sock (if DirectTLS (cfg l) then Some (getTLSConfig l) else None))) true).
Definition Stop : ML unit :=
  setf (fun l => MkListener (cfg l) (l_hosts l) (ln l) false);;
  x ← fld ln;
  x ← deref x;
  onW (le_Close (nl_socket x)).
Definition handleConn (l : SocketListener) (i : Z) (w : W) : option (S2SIn.inS2S * W) :=
  match S2SIn.newInS2S i (S2SIn.MkInConfig (MaxStanzaSize (cfg l)) (DirectTLS (cfg l))) w with
  | (Ok s, w1) => match S2SIn.start (s, w1) with (Ok _, sw) => Some sw | _ => None end
  | _ => None
  end.
End listener.
End S2SListener.

(** ** Logins with an external authenticator *)
Section logins.
Context `{XmlLib} {W : Type} `{!Scram.External.Client W}.
Import Scram.External.

(** A login is not atomic: a stream lets the authenticator process the credentials and
    sends the answer ([continueAuthentication]), asks whether it succeeded
    ([startAuthentication]), asks for the name and resets the authenticator
    ([finishAuthentication]).  Streams run in goroutines of their own, so that their
    steps interleave.  [owner] tells which authenticator a stream has. *)
Inductive phase := Idle | Proved (u : string) | Checked (u : string) | Named (u n : string) | LoggedIn (u n : string).
Record logins := MkLogins { exts : gmap nat External; lw : W; phases : gmap nat phase }.

(** The name in the credentials. *)
Definition claimed (elem : Element) : string :=
  match DecodeString (Text elem) with
  | Some b => match split 0 b with [_; u; _] => string_of_bytes u | _ => "" end
  | None => ""
  end.

Inductive login_step (owner : nat → nat) : logins → logins → Prop :=
  | l_process i elem e e' w w' a es ps : ps !! i = Some Idle → es !! owner i = Some e →
      ProcessElement elem (e, w) = (Ok (inr a), (e', w')) →
      login_step owner (MkLogins es w ps) (MkLogins (<[owner i := e']> es) w' (<[i := Proved (claimed elem)]> ps))
  | l_refused i elem e e' w w' r es ps : ps !! i = Some Idle → es !! owner i = Some e →
      ProcessElement elem (e, w) = (r, (e', w')) → (∀ a, r ≠ Ok (inr a)) →
      login_step owner (MkLogins es w ps) (MkLogins (<[owner i := e']> es) w' ps)
  | l_check i u e w es ps : ps !! i = Some (Proved u) → es !! owner i = Some e →
      login_step owner (MkLogins es w ps) (MkLogins es w (<[i := if Authenticated e then Checked u else Idle]> ps))
  | l_name i u e w es ps : ps !! i = Some (Checked u) → es !! owner i = Some e →
      login_step owner (MkLogins es w ps) (MkLogins es w (<[i := Named u (Username e)]> ps))
  | l_reset i u n e w es ps : ps !! i = Some (Named u n) → es !! owner i = Some e →
      login_step owner (MkLogins es w ps) (MkLogins (<[owner i := MkExternal "" false]> es) w (<[i := LoggedIn u n]> ps)).

Lemma ProcessElement_proves elem e w a e' w' : ProcessElement elem (e, w) = (Ok (inr a), (e', w')) → e' = MkExternal (claimed elem) true.
Proof.
  unfold ProcessElement, claimed. destruct (String.eqb (Text elem) ""); [done|]. destruct (DecodeString (Text elem)) as [b|]; [|done].
  destruct (split 0 b) as [|x [|u [|p [|]]]]; try done. intros E. inv_bind E as r s Hr.
  destruct r as [|[]]; [done|..|done]. inv_bind E as t s' Ht. destruct s as [e1 w1]. injection Ht as _ <-. by injection E as _ <- _.
Qed.

(** What holds when no two streams have the same authenticator. *)
Definition login_inv (owner : nat → nat) (l : logins) : Prop :=
  ∀ i, match phases l !! i with
       | Some (Proved u | Checked u) => exts l !! owner i = Some (MkExternal u true)
       | Some (Named u n | LoggedIn u n) => n = u
       | _ => True
       end.

Lemma login_inv_step owner `{!Inj (=) (=) owner} l l' : login_step owner l l' → login_inv owner l → login_inv owner l'.
Proof.
  intros Hs Hi j. specialize (Hi j) as Hj.
  destruct Hs as [i elem e e' w w' a es ps Hp He E|i elem e e' w w' r es ps Hp He E Hr|i u e w es ps Hp He|i u e w es ps Hp He|i u n e w es ps Hp He];
    simpl in *; (destruct (decide (i = j)) as [->|Hne]; [rewrite Hp in Hj; try rewrite lookup_insert_eq|try rewrite lookup_insert_ne by done]).
  - rewrite lookup_insert_eq. f_equal. by eapply ProcessElement_proves.
  - destruct (ps !! j) as [[]|]; try done; by rewrite lookup_insert_ne by (intros E'%(inj owner); done).
  - by rewrite Hp.
  - destruct (ps !! j) as [[]|]; try done; by rewrite lookup_insert_ne by (intros E'%(inj owner); done).
  - by destruct (Authenticated e).
  - done.
  - rewrite He in Hj. by injection Hj as ->.
  - done.
  - done.
  - destruct (ps !! j) as [[]|]; try done; by rewrite lookup_insert_ne by (intros E'%(inj owner); done).
Qed.

(** With an authenticator per stream, as the SCRAM mechanisms have it, a stream is
    logged in under the name whose password it proved, however the logins interleave. *)
Theorem own_authenticator_right_name (owner : nat → nat) (Hown : Inj (=) (=) owner) (l l' : logins) (i : nat) (u n : string)
    (Hidle : ∀ j p, phases l !! j = Some p → p = Idle) (Hrun : rtc (login_step owner) l l')
    (Hin : phases l' !! i = Some (LoggedIn u n)) : n = u.
Proof.
  assert (login_inv owner l') as Hi.
  { assert (login_inv owner l) as Hi. { intros j. destruct (phases l !! j) as [p|] eqn:E; [|done]. by rewrite (Hidle _ _ E). }
    clear -Hrun Hi Hown. induction Hrun as [|l1 l2 l3 Hs _ IH]; [done|]. apply IH. by eapply login_inv_step. }
  specialize (Hi i). by rewrite Hin in Hi.
Qed.

End logins.

(** ** Two clients of one listener *)
Module ListenerDemo.
Import TreeLib Scram.External.

(** Everybody's password is the name. *)
#[local] Instance client : Client unit := {| cl_Authenticate := fun u p => mret (String.eqb u p) |}.
Definition plain (u p : string) : @Element tree_jid tree_xml :=
  Build "auth" [] [] (EncodeToString ([0] ++ bytes_of_string u ++ [0] ++ bytes_of_string p)%Z).
Definition start : logins := MkLogins {[0%nat := NewExternal]} tt {[1%nat := Idle; 2%nat := Idle]}.

(** The authenticator of a listener is shared: when the credentials of ana are processed
    between the processing of the credentials of eve and the question for the name,
    the stream that proved the password of eve is logged in as ana. *)
Theorem shared_authenticator_wrong_name : ∃ l', rtc (login_step (fun _ => 0%nat)) start l' ∧ phases l' !! 2%nat = Some (LoggedIn "eve" "ana").
Proof.
  eexists. split.
  - eapply rtc_l; [eapply (l_process _ 2 (plain "eve" "eve")); [done|done|vm_compute; reflexivity]|].
    eapply rtc_l; [eapply (l_process _ 1 (plain "ana" "ana")); [done|done|vm_compute; reflexivity]|].
    eapply rtc_l; [eapply (l_check _ 2); done|]. eapply rtc_l; [eapply (l_name _ 2); done|].
    eapply rtc_l; [eapply (l_reset _ 2); done|]. apply rtc_refl.
  - vm_compute. reflexivity.
Qed.

End ListenerDemo.
