(* ===== verification/Transport.v ===== *)
(** * The socket transport (src/pkg/transport, src/pkg/util/ratelimiter)

    A connection with a read buffer, a rate limit, a write buffer, time limits, TLS and
    compression, which are put on it while it is in use. *)

From stdpp Require Import base list strings gmap relations.
From Stdlib Require Import ZArith Lia.
From S2P Require Import Prelude GoLib GoHoare.

Abbreviation slen s := (Z.of_nat (String.length s)).
Fixpoint take_n (n : nat) (s : string) : string := match n, s with S n', String c s' => String c (take_n n' s') | _, _ => "" end.
Fixpoint drop_n (n : nat) (s : string) : string := match n, s with S n', String _ s' => drop_n n' s' | _, _ => s end.
Definition take_s (n : Z) (s : string) : string := take_n (Z.to_nat n) s.
Definition drop_s (n : Z) (s : string) : string := drop_n (Z.to_nat n) s.
#[local] Open Scope Z_scope.
Lemma take_drop_s n s : take_s n s +:+ drop_s n s = s.
Proof. unfold take_s, drop_s. generalize (Z.to_nat n). clear n. induction s as [|c s IH]; intros [|n]; [done..|]. simpl. rewrite string_app_cons. by rewrite IH. Qed.
Lemma slen_take_s n s : slen (take_s n s) ≤ Z.max 0 n.
Proof.
  unfold take_s. replace (Z.max 0 n) with (Z.of_nat (Z.to_nat n)) by lia. generalize (Z.to_nat n). clear n.
  induction s as [|c s IH]; intros [|n]; simpl; [lia..|]. specialize (IH n). lia.
Qed.
Lemma slen_app s t : slen (s +:+ t) = slen s + slen t.
Proof. induction s as [|c s IH]; [done|]. rewrite string_app_cons. simpl. lia. Qed.
Lemma slen_drop_s n s : slen (drop_s n s) = Z.max 0 (slen s - Z.max 0 n).
Proof.
  unfold drop_s. replace (Z.max 0 n) with (Z.of_nat (Z.to_nat n)) by lia. generalize (Z.to_nat n). clear n.
  induction s as [|c s IH]; intros [|n]; simpl; [lia..|]. rewrite IH. lia.
Qed.

(** ** Connections with time limits (deadline_conn.go) *)
(** A handler is a closure of the stream, named by a number; [timer] is a call of
    [time.AfterFunc] that was not stopped. *)
Definition timer : Type := Z * nat.
Record deadlineConn := MkDConn {
  connected : bool; connTimeout : Z; rdTimeout : Z; connDeadlineHnd : option nat; rdDeadlineHnd : option nat }.
Definition newDeadlineConn (connTimeout readTimeout : Z) : deadlineConn := MkDConn false connTimeout readTimeout None None.
Definition set_connected d := MkDConn true (connTimeout d) (rdTimeout d) (connDeadlineHnd d) (rdDeadlineHnd d).
Definition setConnectDeadlineHandler (h : nat) (d : deadlineConn) : deadlineConn :=
  MkDConn (connected d) (connTimeout d) (rdTimeout d) (Some h) (rdDeadlineHnd d).
Definition setReadDeadlineHandler (h : nat) (d : deadlineConn) : deadlineConn :=
  MkDConn (connected d) (connTimeout d) (rdTimeout d) (connDeadlineHnd d) (Some h).

(** [Read]: [rd] is the connection below, with the timers that run while it waits. *)
Definition dRead {X} (rd : list timer → Z → M X string) (n : Z) : M (deadlineConn * X) string :=
  d ← fld (fun d => d);
  match connected d, connDeadlineHnd d, rdDeadlineHnd d with
  | false, Some h, _ =>
    r ← try (onW (rd [(connTimeout d, h)] n));
    setf set_connected;;
    match r with inl e => fail e | inr s => mret s end
  | _, _, Some h => onW (rd [(rdTimeout d, h)] n)
  | _, _, None => onW (rd [] n)
  end.

(** ** The socket *)
Inductive connKind := TCPConn | TLSConn | OtherConn.
Inductive writer := WConn | WTLS | WZlib.
Inductive reader := RBuf | RZlib.

(** [bufio.Writer] *)
Record bufWriter := MkBuf { bw_buf : string; bw_err : option goerror; bw_wr : writer }.
(** [compress.ZlibCompressor]; [zc_open] and [zc_reading] tell whether its writer and its
    reader are there, [zc_err] is the error its writer keeps. *)
Record ZlibCompressor := MkZlib { zc_level : Z; zc_w : writer; zc_open : bool; zc_err : option goerror; zc_reading : bool }.
(** [compress.Level] and the levels of zlib *)
Definition DefaultCompression : Z := 1.
Definition BestCompression : Z := 2.
Definition SpeedCompression : Z := 3.
Definition NewZlibCompressor (w : writer) (level : Z) : ZlibCompressor :=
  MkZlib (if Z.eqb level DefaultCompression then -1 else if Z.eqb level BestCompression then 9
          else if Z.eqb level SpeedCompression then 1 else level) w false None false.

(** [socketTransport].  [conn] is the connection with its limits, [tlsc] the limits of the
    connection with TLS on it; [lim] the rate limit, [rbuf] the read buffer. *)
Record socket := MkSocket {
  kind : connKind; conn : deadlineConn; tlsc : option deadlineConn; lim : option (Z * Z); rbuf : string; rd : reader;
  wr : writer; bw : option bufWriter; zl : option ZlibCompressor; compressed : bool; connectTimeout : Z; keepAliveTimeout : Z }.
Definition set_conn v s := MkSocket (kind s) v (tlsc s) (lim s) (rbuf s) (rd s) (wr s) (bw s) (zl s) (compressed s) (connectTimeout s) (keepAliveTimeout s).
Definition set_tlsc v s := MkSocket (kind s) (conn s) v (lim s) (rbuf s) (rd s) (wr s) (bw s) (zl s) (compressed s) (connectTimeout s) (keepAliveTimeout s).
Definition set_lim v s := MkSocket (kind s) (conn s) (tlsc s) v (rbuf s) (rd s) (wr s) (bw s) (zl s) (compressed s) (connectTimeout s) (keepAliveTimeout s).
Definition set_rbuf v s := MkSocket (kind s) (conn s) (tlsc s) (lim s) v (rd s) (wr s) (bw s) (zl s) (compressed s) (connectTimeout s) (keepAliveTimeout s).
Definition set_bw v s := MkSocket (kind s) (conn s) (tlsc s) (lim s) (rbuf s) (rd s) (wr s) v (zl s) (compressed s) (connectTimeout s) (keepAliveTimeout s).
Definition set_zl v s := MkSocket (kind s) (conn s) (tlsc s) (lim s) (rbuf s) (rd s) (wr s) (bw s) v (compressed s) (connectTimeout s) (keepAliveTimeout s).

Definition readBufferSize : Z := 4096.
Definition maxWriteBufferSize : Z := 256 * 1024.
Definition errNoWriteFlush : goerror := ErrText "transport: flushing buffer before writing".

(** [NewSocketTransport] *)
Definition NewSocketTransport (k : connKind) (connectTimeout keepAliveTimeout : Z) : socket :=
  MkSocket k (newDeadlineConn connectTimeout keepAliveTimeout) None None "" RBuf WConn None None false connectTimeout keepAliveTimeout.

(** The network, TLS, zlib, the rate limiter and the pool of buffers.  A write reports
    that all was written, or the number of bytes that were and the error. *)
Class Net (W : Type) := {
  nc_Read : list timer → Z → M W string;
  nc_Write : string → M W (unit + Z * goerror);
  nc_Close : M W unit;
  nc_SetWriteDeadline : Z → M W unit;
  tls_Read : list timer → (Z → M (deadlineConn * W) string) → Z → M (deadlineConn * W) string;
  tls_Write : string → M W (unit + Z * goerror);
  tls_Unique : W → string;
  tls_Exporter : W → option string;
  tls_PeerCertificates : W → list string;
  zl_NewWriterLevel : Z → M W unit;
  zl_Deflate : string → M W (string * string);
  zl_NewReader : (Z → M (socket * W) string) → M (socket * W) unit;
  zl_Read : (Z → M (socket * W) string) → Z → M (socket * W) string;
  rate_AllowN : Z * Z → Z → M W bool;
  pool_Get : M W bufWriter;
  pool_Put : bufWriter → M W unit;
}.

Section transport.
Context {W : Type} `{!Net W}.
Abbreviation MT := (M (socket * W)).

(** *** Reading *)

(** The connection the reader has. *)
Definition connRead (n : Z) : MT string := fun '(s, w) =>
  match tlsc s with
  | None => let '(r, (d, w')) := dRead nc_Read n (conn s, w) in (r, (set_conn d s, w'))
  | Some t =>
    let '(r, (t', (d, w'))) := dRead (fun ts => tls_Read ts (dRead nc_Read)) n (t, (conn s, w)) in
    (r, (set_tlsc (Some t') (set_conn d s), w'))
  end.

(** [ratelimiter.Reader.Read] *)
Definition limRead (n : Z) : MT string :=
  p ← connRead n;
  l ← fld lim;
  match l with
  | None => mret p
  | Some l =>
    ok ← onW (rate_AllowN l (slen p));
    if ok : bool then mret p else fail ErrReadLimitExceeded
  end.

(** [bufio.Reader.Read]; the reader below gives an error or bytes, never both, so that
    no error is kept. *)
Definition bufRead (n : Z) : MT string :=
  b ← fld rbuf;
  if Z.eqb n 0 then mret ""
  else if negb (String.eqb b "") then setf (set_rbuf (drop_s n b));; mret (take_s n b)
  else if Z.leb readBufferSize n then limRead n
  else
    p ← limRead readBufferSize;
    setf (set_rbuf (drop_s n p));; mret (take_s n p).

(** [ZlibCompressor.Read] *)
Definition zlibRead (n : Z) : MT string :=
  z ← fld zl;
  z ← deref z;
  (if zc_reading z then mret tt
   else zl_NewReader bufRead;; setf (fun s => set_zl (Some (MkZlib (zc_level z) (zc_w z) (zc_open z) (zc_err z) true)) s));;
  zl_Read bufRead n.

Definition Read (n : Z) : MT string :=
  r ← fld rd;
  match r with RBuf => bufRead n | RZlib => zlibRead n end.

(** *** Writing *)

(** [Write] of what is below the buffer.  The compressor writes what zlib gives for the
    bytes, then what it gives when it is flushed, whose error is not returned. *)
Definition baseWrite (w : writer) (p : string) : MT (unit + Z * goerror) :=
  onW (match w with WTLS => tls_Write p | _ => nc_Write p end).
Definition set_zerr (e : option goerror) (z : ZlibCompressor) : ZlibCompressor := MkZlib (zc_level z) (zc_w z) (zc_open z) e (zc_reading z).
Definition zlibOut (p : string) : MT (option goerror) :=
  if String.eqb p "" then mret None
  else
    z ← fld zl;
    z ← deref z;
    r ← baseWrite (zc_w z) p;
    match r with
    | inl _ => mret None
    | inr (_, e) => setf (set_zl (Some (set_zerr (Some e) z)));; mret (Some e)
    end.
Definition zlibWrite (p : string) : MT (unit + Z * goerror) :=
  z ← fld zl;
  z ← deref z;
  r ← (if zc_open z then mret (inr tt)
       else try (onW (zl_NewWriterLevel (zc_level z));; setf (set_zl (Some (MkZlib (zc_level z) (zc_w z) true (zc_err z) (zc_reading z))))));
  match r with
  | inl e => mret (inr (0%Z, e))
  | inr _ =>
    match zc_err z with
    | Some e => mret (inr (0%Z, e))
    | None =>
      out ← onW (zl_Deflate p);
      r ← zlibOut out.1;
      match r with
      | Some e => mret (inr (0%Z, e))
      | None => zlibOut out.2;; mret (inl tt)
      end
    end
  end.
Definition writeTo (w : writer) (p : string) : MT (unit + Z * goerror) :=
  match w with WZlib => zlibWrite p | _ => baseWrite w p end.

(** [bufio.Writer.Flush], on the buffer [b] *)
Definition bufFlush (b : bufWriter) : MT bufWriter :=
  match bw_err b with
  | Some _ => mret b
  | None =>
    if String.eqb (bw_buf b) "" then mret b
    else
      r ← writeTo (bw_wr b) (bw_buf b);
      match r with
      | inl _ => mret (MkBuf "" None (bw_wr b))
      | inr (n, e) =>
        mret (MkBuf (if ((0 <? n) && (n <? slen (bw_buf b)))%Z then drop_s n (bw_buf b) else bw_buf b) (Some e) (bw_wr b))
      end
  end.

(** [bufio.Writer.Write]: the loop runs at most twice, since [Write] below writes all or
    fails.  [direct] writes to an empty buffer what is larger than it. *)
Definition available (b : bufWriter) : Z := maxWriteBufferSize - slen (bw_buf b).
Definition append (b : bufWriter) (p : string) : bufWriter := MkBuf (bw_buf b +:+ p) (bw_err b) (bw_wr b).
Definition direct (b : bufWriter) (p : string) : MT bufWriter :=
  r ← writeTo (bw_wr b) p;
  match r with
  | inl _ => mret b
  | inr (_, e) => mret (MkBuf (bw_buf b) (Some e) (bw_wr b))
  end.
Definition bufWrite (b : bufWriter) (p : string) : MT bufWriter :=
  match bw_err b with
  | Some _ => mret b
  | None =>
    if Z.leb (slen p) (available b) then mret (append b p)
    else if String.eqb (bw_buf b) "" then direct b p
    else
      let n := available b in
      b' ← bufFlush (append b (take_s n p));
      match bw_err b' with
      | Some _ => mret b'
      | None => if Z.leb (slen (drop_s n p)) (available b') then mret (append b' (drop_s n p)) else direct b' (drop_s n p)
      end
  end.

(** [bufio.Writer.WriteString]: the loop fills and flushes the buffer, since nothing
    below has a [WriteString].  Every iteration but the first takes at least a byte. *)
Fixpoint bufWriteString (fuel : nat) (b : bufWriter) (p : string) : MT bufWriter :=
  match bw_err b with
  | Some _ => mret b
  | None =>
    if Z.leb (slen p) (available b) then mret (append b p)
    else match fuel with
    | 0%nat => crash_with OutOfFuel
    | S fuel' =>
      let n := available b in
      b' ← bufFlush (append b (take_s n p));
      bufWriteString fuel' b' (drop_s n p)
    end
  end.

(** [grabBuffWriter] with [bufio.Writer.Reset], and [releaseBuffWriter] *)
Definition grabBuffWriter : MT bufWriter :=
  o ← fld bw;
  match o with
  | Some b => mret b
  | None =>
    _ ← onW pool_Get;
    v ← fld wr;
    let b := MkBuf "" None v in
    setf (set_bw (Some b));; mret b
  end.
Definition releaseBuffWriter : MT unit :=
  o ← fld bw;
  match o with
  | Some b => onW (pool_Put b);; setf (set_bw None)
  | None => mret tt
  end.

(** The outcome of a method of the buffer. *)
Definition keepBuf (b : bufWriter) : MT unit :=
  setf (set_bw (Some b));;
  match bw_err b with Some e => fail e | None => mret tt end.
Definition Write (p : string) : MT unit := b ← grabBuffWriter; b' ← bufWrite b p; keepBuf b'.
(** [io.Copy] of a string reader calls [WriteString] when the string is not empty. *)
Definition WriteString (str : string) : MT unit :=
  b ← grabBuffWriter;
  if String.eqb str "" then mret tt
  else b' ← bufWriteString (S (S (String.length str))) b str; keepBuf b'.
Definition Flush : MT unit :=
  o ← fld bw;
  match o with
  | None => fail errNoWriteFlush
  | Some b => b' ← bufFlush b; keepBuf b';; releaseBuffWriter
  end.

(** *** The rest *)
Definition Close : MT unit := onW nc_Close.
Definition SetReadRateLimiter (l : Z * Z) : MT unit := setf (set_lim (Some l)).
Definition SetWriteDeadline (d : Z) : MT unit := onW (nc_SetWriteDeadline d).
Definition on_top (f : deadlineConn → deadlineConn) (s : socket) : socket :=
  match tlsc s with Some t => set_tlsc (Some (f t)) s | None => set_conn (f (conn s)) s end.
Definition SetConnectDeadlineHandler (h : nat) : MT unit := setf (on_top (setConnectDeadlineHandler h)).
Definition SetKeepAliveDeadlineHandler (h : nat) : MT unit := setf (on_top (setReadDeadlineHandler h)).

(** [StartTLS]: nothing is done when the connection is no TCP connection, in particular
    when it has TLS.  The limits of the new connection have no handlers. *)
Definition StartTLS : MT unit :=
  setf (fun s =>
    match tlsc s, kind s with
    | None, TCPConn =>
      MkSocket (kind s) (conn s) (Some (newDeadlineConn (connectTimeout s) (keepAliveTimeout s))) (lim s) "" RBuf WTLS
        (bw s) (zl s) (compressed s) (connectTimeout s) (keepAliveTimeout s)
    | _, _ => s
    end).
Definition EnableCompression (level : Z) : MT unit :=
  setf (fun s =>
    if compressed s then s
    else MkSocket (kind s) (conn s) (tlsc s) (lim s) (rbuf s) RZlib WZlib (bw s) (Some (NewZlibCompressor (wr s) level)) true
           (connectTimeout s) (keepAliveTimeout s)).

Definition is_tls (s : socket) : bool := match tlsc s, kind s with Some _, _ | None, TLSConn => true | _, _ => false end.
Inductive ChannelBindingMechanism := TLSUnique | TLSExporter.
Definition ChannelBindingBytes (m : ChannelBindingMechanism) : MT string :=
  t ← fld is_tls;
  if t : bool then
    match m with
    | TLSUnique => wfld tls_Unique
    | TLSExporter => o ← wfld tls_Exporter; mret (default "" o)
    end
  else mret "".
Definition PeerCertificates : MT (list string) :=
  t ← fld is_tls;
  if t : bool then wfld tls_PeerCertificates else mret [].

End transport.

(** ** What the network promises *)
(** The bytes that TLS delivered, and the bytes that were written without and with TLS. *)
Class NetView (W : Type) := { tls_got : W → string; sent : writer → W → string }.
Class NetOk (W : Type) `{!Net W} `{!NetView W} : Prop := {
  no_tls_Read : ∀ ts n d w p d' w', tls_Read ts (dRead nc_Read) n (d, w) = (Ok p, (d', w')) → tls_got w' = tls_got w +:+ p;
  no_AllowN : ∀ l n, keeps (fun w w' => tls_got w' = tls_got w) (rate_AllowN l n);
  no_nc_Write : ∀ p w, ∃ r w', nc_Write p w = (Ok r, w') ∧
    sent WConn w' = sent WConn w +:+ match r with inl _ => p | inr (n, _) => take_s n p end;
  no_tls_Write : ∀ p w, ∃ r w', tls_Write p w = (Ok r, w') ∧
    sent WTLS w' = sent WTLS w +:+ match r with inl _ => p | inr (n, _) => take_s n p end;
  no_pool_Get : ∀ w, ∃ b w', pool_Get w = (Ok b, w') ∧ ∀ v, sent v w' = sent v w;
  no_pool_Put : ∀ b w, ∃ w', pool_Put b w = (Ok tt, w') ∧ ∀ v, sent v w' = sent v w;
}.

Section proofs.
Context {W : Type} `{!Net W} `{!NetView W} `{HN : !NetOk W}.
Abbreviation MT := (M (socket * W)).

(** *** Nothing of the time before TLS is read after it *)
Fixpoint reads (ns : list Z) : MT (list string) :=
  match ns with
  | [] => mret []
  | n :: ns' => p ← Read n; ps ← reads ns'; mret (p :: ps)
  end.

Definition joined (l : list string) : string := foldr (fun a b => a +:+ b) "" l.
Definition secured (s : socket) : Prop := rd s = RBuf ∧ is_Some (tlsc s).

Lemma dRead_inv {X} (f : list timer → Z → M X string) n d x p d' x' : dRead f n (d, x) = (Ok p, (d', x')) → ∃ ts, f ts n x = (Ok p, x').
Proof.
  unfold dRead. intros E. inv_bind E as c s Hc. injection Hc as <- <-.
  destruct (connected d), (connDeadlineHnd d) as [h|], (rdDeadlineHnd d) as [h'|]; try (apply onW_inv in E as [_ E]; by eexists).
  all: inv_bind E as r [d1 x1] Hr; unfold try in Hr; destruct (onW _ (d, x)) as [r0 [d2 x2]] eqn:Ho; apply onW_inv in Ho as [-> Ho];
    inv_bind E as u s Hu; injection Hu as _ <-; destruct r0; simplify_eq/=; injection E as <- <- <-; by eexists.
Qed.

Lemma limRead_secured n s w p s' w' : secured s → limRead n (s, w) = (Ok p, (s', w')) →
  secured s' ∧ rbuf s' = rbuf s ∧ tls_got w' = tls_got w +:+ p.
Proof.
  intros [Hr [t Ht]] E. unfold limRead in E. inv_bind E as q [s1 w1] Hq. inv_bind E as l s2 Hl. injection Hl as <- <-.
  assert (secured s1 ∧ rbuf s1 = rbuf s ∧ lim s1 = lim s ∧ tls_got w1 = tls_got w +:+ q) as (Hs & Hb & Hl & Hg).
  { unfold connRead in Hq. rewrite Ht in Hq. destruct (dRead _ n (t, (conn s, w))) as [r [t' [d w2]]] eqn:Hd. simplify_eq.
    apply dRead_inv in Hd as [ts Hd]. by apply no_tls_Read in Hd. }
  simpl in E. destruct (lim s1) as [l|]; [|by injection E as <- <- <-].
  inv_bind E as ok [s2 w2] Ho. apply onW_inv in Ho as [-> Ho]. apply (keeps_run _ _ _ _ _ (no_AllowN l (slen q))) in Ho.
  destruct ok; [|done]. injection E as <- <- <-. split_and!; try done; try apply Hs. congruence.
Qed.

Lemma Read_secured n s w p s' w' : secured s → Read n (s, w) = (Ok p, (s', w')) →
  secured s' ∧ ∃ new, tls_got w' = tls_got w +:+ new ∧ rbuf s +:+ new = p +:+ rbuf s'.
Proof.
  intros Hs E. unfold Read in E. inv_bind E as r s0 Hr. injection Hr as <- <-. simpl in E. destruct Hs as [Hr Ht]. rewrite Hr in E.
  unfold bufRead in E. inv_bind E as b s0 Hb. injection Hb as <- <-. simpl in E.
  destruct (Z.eqb n 0); [injection E as <- <- <-; split; [done|]; exists ""; by rewrite !string_app_nil|].
  destruct (String.eqb_spec (rbuf s) "") as [Hb|Hb]; simpl in E.
  - rewrite Hb. destruct (readBufferSize <=? n).
    + apply limRead_secured in E as (Hs & Hb' & Hg); [|by split]. split; [done|]. exists p. split; [done|]. rewrite Hb', Hb. by rewrite string_app_nil.
    + inv_bind E as q [s1 w1] Hq. apply limRead_secured in Hq as (Hs & Hb' & Hg); [|by split]. injection E as <- <- <-.
      split; [apply Hs|]. exists q. split; [done|]. by rewrite take_drop_s.
  - injection E as <- <- <-. split; [by split|]. exists "". simpl. by rewrite !string_app_nil, take_drop_s.
Qed.

(** C34: nothing that was received before TLS is read after it: what is read from a
    transport after [StartTLS] is what TLS delivers, in order and without loss, whatever
    the buffer held at the switch. *)
Theorem starttls_discards_cleartext (s : socket) (w : W) (ns : list Z) (outs : list string) (s' : socket) (w' : W)
    (Hk : kind s = TCPConn) (Ht : tlsc s = None) (Hrun : (StartTLS;; reads ns) (s, w) = (Ok outs, (s', w'))) :
  tls_got w' = tls_got w +:+ joined outs +:+ rbuf s'.
Proof.
  inv_bind Hrun as u s1 Hs. injection Hs as _ <-. rewrite Ht, Hk in Hrun.
  match type of Hrun with reads ns (?x, _) = _ => set (s1 := x) in *; assert (secured s1 ∧ rbuf s1 = "") as [Hs Hb] by done; clearbody s1 end.
  enough (∃ new, tls_got w' = tls_got w +:+ new ∧ rbuf s1 +:+ new = joined outs +:+ rbuf s') as (new & -> & E).
  { rewrite Hb in E. simpl in E. by rewrite <-E. }
  clear Hb Hk Ht s. revert s1 w outs Hs Hrun. induction ns as [|n ns IH]; intros s1 w outs Hs Hrun; simpl in Hrun.
  - injection Hrun as <- <- <-. exists "". by rewrite !string_app_nil.
  - inv_bind Hrun as p [s2 w2] Hp. inv_bind Hrun as ps [s3 w3] Hps. injection Hrun as <- <- <-.
    apply Read_secured in Hp as (Hs2 & n1 & Hg & E1); [|done]. destruct (IH _ _ _ Hs2 Hps) as (n2 & Hg2 & E2).
    exists (n1 +:+ n2). split; [by rewrite Hg2, Hg, string_app_assoc|].
    rewrite string_app_assoc, E1, <-string_app_assoc, E2. simpl. by rewrite string_app_assoc.
Qed.

(** *** What is written arrives in order *)
Inductive wop := OWrite (p : string) | OString (p : string) | OFlush.
Definition text (o : wop) : string := match o with OWrite p | OString p => p | OFlush => "" end.
Definition do_op (o : wop) : MT unit := match o with OWrite p => Write p | OString p => WriteString p | OFlush => Flush end.
Fixpoint wrun (ops : list wop) : MT (list bool) :=
  match ops with
  | [] => mret []
  | o :: ops' =>
    r ← try (do_op o);
    rs ← wrun ops';
    mret (match r with inr _ => true | inl _ => false end :: rs)
  end.

(** The buffer [b] when [X] was written so far, also by others: all is sent or in the
    buffer, and after an error a part of it was sent. *)
Definition bufok (v : writer) (X : string) (b : bufWriter) (w : W) : Prop :=
  bw_wr b = v ∧ slen (bw_buf b) <= maxWriteBufferSize ∧
  match bw_err b with None => sent v w +:+ bw_buf b = X | Some _ => ∃ rest, X = sent v w +:+ rest end.

Section fixed.
Context (v : writer) (Hv : v ≠ WZlib).

Lemma writeTo_spec p s w : ∃ r w', writeTo v p (s, w) = (Ok r, (s, w')) ∧
  sent v w' = sent v w +:+ match r with inl _ => p | inr (n, _) => take_s n p end.
Proof.
  destruct v; [| |done]; unfold writeTo, baseWrite, onW.
  - destruct (no_nc_Write p w) as (r & w' & E & Hs). exists r, w'. by rewrite E.
  - destruct (no_tls_Write p w) as (r & w' & E & Hs). exists r, w'. by rewrite E.
Qed.

Lemma bufFlush_spec X b s w : bufok v X b w → ∃ b' w', bufFlush b (s, w) = (Ok b', (s, w')) ∧ bufok v X b' w' ∧ (bw_err b' = None → bw_buf b' = "").
Proof.
  intros (Hw & Hl & Hb). unfold bufFlush. destruct (bw_err b) as [e|] eqn:He; [exists b, w; split_and!; [done|split_and!; [done..|by rewrite He]|congruence]|].
  destruct (String.eqb_spec (bw_buf b) "") as [Hn|Hn]; [exists b, w; split_and!; [done|split_and!; [done..|by rewrite He]|done]|].
  destruct (writeTo_spec (bw_buf b) s w) as (r & w' & E & Hs). unfold mbind, M_bind. rewrite Hw, E. destruct r as [u|[n e]]; simpl.
  - exists (MkBuf "" None v), w'. split_and!; [done| |done]. split_and!; [done|done|]. simpl. by rewrite string_app_nil, Hs.
  - eexists _, w'. split_and!; [done| |done]. split; [done|]. split.
    + simpl. destruct (_ && _); [|done]. rewrite slen_drop_s. lia.
    + simpl. exists (drop_s n (bw_buf b)). by rewrite Hs, <-string_app_assoc, take_drop_s.
Qed.

Lemma bufok_more X p b w : bw_err b ≠ None → bufok v X b w → bufok v (X +:+ p) b w.
Proof.
  intros He (Hw & Hl & Hb). split_and!; [done..|]. destruct (bw_err b); [|done]. destruct Hb as [rest ->]. exists (rest +:+ p). by rewrite string_app_assoc.
Qed.

Lemma bufok_append X p b w : bw_err b = None → slen p <= available b → bufok v X b w → bufok v (X +:+ p) (append b p) w.
Proof.
  intros He Hp (Hw & Hl & Hb). unfold bufok, available in *. simpl. rewrite He in *. split_and!; [done| |].
  - rewrite slen_app. lia.
  - by rewrite <-Hb, string_app_assoc.
Qed.

Lemma direct_spec X p b s w : bw_err b = None → bw_buf b = "" → bufok v X b w →
  ∃ b' w', direct b p (s, w) = (Ok b', (s, w')) ∧ bufok v (X +:+ p) b' w'.
Proof.
  intros He Hn (Hw & Hl & Hb). rewrite He, Hn, string_app_nil in Hb. unfold direct, mbind, M_bind. rewrite Hw.
  destruct (writeTo_spec p s w) as (r & w' & E & Hs). rewrite E. destruct r as [u|[n e]].
  - exists b, w'. split; [done|]. unfold bufok. rewrite He, Hn, Hs, Hb, string_app_nil. done.
  - eexists _, w'. split; [done|]. unfold bufok. simpl. split_and!; [done..|]. exists (drop_s n p). by rewrite Hs, Hb, <-string_app_assoc, take_drop_s.
Qed.

(** The buffer is filled, flushed, and what is left is written to the rest. *)
Lemma fill_spec X p b s w : bw_err b = None → slen p > available b → bufok v X b w →
  ∃ b' w', bufFlush (append b (take_s (available b) p)) (s, w) = (Ok b', (s, w')) ∧
    bufok v (X +:+ take_s (available b) p) b' w' ∧ (bw_err b' = None → bw_buf b' = "").
Proof.
  intros He Hp Hb. apply bufFlush_spec. apply bufok_append; [done| |done].
  destruct Hb as (_ & Hl & _). unfold available in *. pose proof (slen_take_s (maxWriteBufferSize - slen (bw_buf b)) p). lia.
Qed.

Lemma bufWrite_spec X p b s w : bufok v X b w → ∃ b' w', bufWrite b p (s, w) = (Ok b', (s, w')) ∧ bufok v (X +:+ p) b' w'.
Proof.
  intros Hb. unfold bufWrite. destruct (bw_err b) as [e|] eqn:He; [exists b, w; split; [done|]; apply bufok_more; [congruence|done]|].
  destruct (Z.leb_spec (slen p) (available b)); [eexists _, w; split; [done|]; by apply bufok_append|].
  destruct (String.eqb_spec (bw_buf b) "") as [Hn|Hn]; [by apply direct_spec|].
  destruct (fill_spec X p b s w He ltac:(lia) Hb) as (b' & w' & E & Hb' & Hn'). unfold mbind, M_bind. rewrite E.
  assert (X +:+ p = (X +:+ take_s (available b) p) +:+ drop_s (available b) p) as -> by (by rewrite <-string_app_assoc, take_drop_s).
  destruct (bw_err b') as [e|] eqn:He'; [exists b', w'; split; [done|]; apply bufok_more; [congruence|done]|].
  destruct (Z.leb_spec (slen (drop_s (available b) p)) (available b')); [eexists _, w'; split; [done|]; by apply bufok_append|].
  apply direct_spec; [done|by apply Hn'|done].
Qed.

Lemma bufWriteString_spec fuel X p b s w : slen p + (if Z.leb (available b) 0 then 1 else 0) <= Z.of_nat fuel → bufok v X b w →
  ∃ b' w', bufWriteString fuel b p (s, w) = (Ok b', (s, w')) ∧ bufok v (X +:+ p) b' w'.
Proof.
  revert X p b w. induction fuel as [|fuel IH]; intros X p b w Hf Hb; simpl;
    (destruct (bw_err b) as [e|] eqn:He; [exists b, w; split; [done|]; apply bufok_more; [congruence|done]|]);
    (destruct (Z.leb_spec (slen p) (available b)); [eexists _, w; split; [done|]; by apply bufok_append|]).
  - destruct Hb as (_ & Hl & _). unfold available in *. destruct (Z.leb_spec (maxWriteBufferSize - slen (bw_buf b)) 0); lia.
  - destruct (fill_spec X p b s w He ltac:(lia) Hb) as (b' & w' & E & Hb' & Hn'). unfold mbind, M_bind. rewrite E.
    assert (X +:+ p = (X +:+ take_s (available b) p) +:+ drop_s (available b) p) as -> by (by rewrite <-string_app_assoc, take_drop_s).
    destruct (bw_err b') as [e|] eqn:He'.
    { exists b', w'. split; [destruct fuel; simpl; by rewrite He'|]. apply bufok_more; [congruence|done]. }
    apply IH; [|done]. destruct Hb as (_ & Hl & _). rewrite slen_drop_s. specialize (Hn' eq_refl).
    replace (available b') with maxWriteBufferSize by (unfold available; rewrite Hn'; simpl; lia).
    change (maxWriteBufferSize <=? 0) with false. simpl. destruct (Z.leb_spec (available b) 0); unfold available in *; lia.
Qed.

(** The transport when [X] was written so far. *)
Definition sockok (X : string) (s : socket) (w : W) : Prop :=
  wr s = v ∧ match bw s with None => sent v w = X | Some b => bufok v X b w end.

Lemma grab_spec X s w : sockok X s w → ∃ b s' w', grabBuffWriter (s, w) = (Ok b, (s', w')) ∧ wr s' = v ∧ bw s' = Some b ∧ bufok v X b w'.
Proof.
  intros [Hw Hb]. unfold grabBuffWriter, mbind, M_bind, fld, gets. simpl. destruct (bw s) as [b|] eqn:E; [by exists b, s, w|].
  destruct (no_pool_Get w) as (b0 & w' & Hg & Hs). unfold onW. rewrite Hg. eexists _, _, w'. split; [done|]. simpl. split_and!; [done|done|].
  split_and!; [done..|]. simpl. by rewrite string_app_nil, Hs.
Qed.

Lemma keepBuf_spec X b s w : wr s = v → bufok v X b w → ∃ r, keepBuf b (s, w) = (r, (set_bw (Some b) s, w)) ∧
  sockok X (set_bw (Some b) s) w ∧ match r with Ok _ => bw_err b = None | Err _ => True | Crash _ => False end.
Proof.
  intros Hw Hb. unfold keepBuf, mbind, M_bind, setf, modify. destruct (bw_err b) as [e|] eqn:E; by eexists.
Qed.

Lemma do_op_spec X o s w : sockok X s w → ∃ r s' w', do_op o (s, w) = (r, (s', w')) ∧ sockok (X +:+ text o) s' w' ∧
  match r with Ok _ => o = OFlush → sent v w' = X | Err _ => True | Crash _ => False end.
Proof.
  intros Hs. destruct o as [p|p|]; simpl.
  - destruct (grab_spec X s w Hs) as (b & s1 & w1 & Hg & Hw & _ & Hb). destruct (bufWrite_spec X p b s1 w1 Hb) as (b' & w2 & E & Hb').
    destruct (keepBuf_spec _ b' s1 w2 Hw Hb') as (r & Hk & Hs' & Hr). exists r, (set_bw (Some b') s1), w2.
    unfold Write, mbind, M_bind. rewrite Hg, E. split; [done|]. split; [done|]. by destruct r.
  - destruct (grab_spec X s w Hs) as (b & s1 & w1 & Hg & Hw & Hbw & Hb). unfold WriteString, mbind, M_bind. rewrite Hg.
    destruct (String.eqb_spec p "") as [->|Hp].
    + exists (Ok tt), s1, w1. split; [done|]. split; [|done]. rewrite string_app_nil. split; [done|]. by rewrite Hbw.
    + destruct (bufWriteString_spec (S (S (String.length p))) X p b s1 w1) as (b' & w2 & E & Hb'); [case_match; lia|done|]. rewrite E.
      destruct (keepBuf_spec _ b' s1 w2 Hw Hb') as (r & Hk & Hs' & Hr). exists r, (set_bw (Some b') s1), w2. split; [done|]. split; [done|]. by destruct r.
  - rewrite string_app_nil. destruct Hs as [Hw Hb]. unfold Flush, mbind, M_bind, fld, gets. simpl. destruct (bw s) as [b|] eqn:Eb.
    2: { exists (Err errNoWriteFlush), s, w. split; [done|]. split; [|done]. split; [done|]. by rewrite Eb. }
    destruct (bufFlush_spec X b s w Hb) as (b' & w1 & E & Hb' & Hn). rewrite E.
    destruct (keepBuf_spec X b' s w1 Hw Hb') as (r & Hk & Hs' & Hr). rewrite Hk. destruct r as [[]|e|c]; [|by eexists _, _, _|done].
    destruct (no_pool_Put b' w1) as (w2 & Hp & Hsame). unfold releaseBuffWriter, mbind, M_bind, fld, gets, onW. simpl. rewrite Hp.
    eexists _, _, w2. split; [done|]. destruct Hb' as (_ & _ & Hb'). rewrite Hr, (Hn Hr), string_app_nil in Hb'.
    split; [|intros _; by rewrite Hsame]. split; [done|]. simpl. by rewrite Hsame.
Qed.

Lemma wrun_spec X ops s w : sockok X s w → ∃ oks s' w', wrun ops (s, w) = (Ok oks, (s', w')) ∧ sockok (X +:+ joined (map text ops)) s' w' ∧
  (last ops = Some OFlush → last oks = Some true → sent v w' = X +:+ joined (map text ops)).
Proof.
  revert X s w. induction ops as [|o ops IH]; intros X s w Hs; simpl; [exists [], s, w; by rewrite string_app_nil|].
  destruct (do_op_spec X o s w Hs) as (r & s1 & w1 & E & Hs1 & Hr). unfold mbind, M_bind, try. rewrite E.
  destruct (IH (X +:+ text o) s1 w1 Hs1) as (oks & s2 & w2 & E2 & Hs2 & Hl). rewrite <-string_app_assoc in Hs2, Hl.
  assert (∀ b : bool, (b = true → ∃ u, r = Ok u) → last (o :: ops) = Some OFlush → last (b :: oks) = Some true →
    sent v w2 = X +:+ text o +:+ joined (map text ops)) as Hlast.
  { intros b Hb Ho Hoks. destruct ops as [|o' ops].
    - injection E2 as <- <- <-. injection Ho as ->. injection Hoks as ->. destruct (Hb eq_refl) as [u ->]. simpl. by rewrite string_app_nil, Hr.
    - apply Hl; [done|]. simpl in E2. inv_bind E2 as x s3 Hx. inv_bind E2 as xs s4 Hxs. by injection E2 as <- _. }
  destruct r as [u|e|c]; [..|done]; rewrite E2; eexists _, s2, w2; (split; [done|]); (split; [done|]); apply Hlast; [by eexists|done].
Qed.

End fixed.

End proofs.

(** ** Transports in memory *)
Module TransportDemo.
Record tworld := MkTWorld { t_in : string; t_got : string; t_out : string; t_tls : string; t_down : bool }.
Definition out (p : string) : M tworld (unit + Z * goerror) := fun w =>
  if t_down w then (Ok (inr (0, ErrStopped)), w)
  else (Ok (inl tt), MkTWorld (t_in w) (t_got w) (t_out w +:+ p) (t_tls w) false).
Definition tls_out (p : string) : M tworld (unit + Z * goerror) :=
  modify (fun w => MkTWorld (t_in w) (t_got w) (t_out w) (t_tls w +:+ p) (t_down w));; mret (inl tt).
(** TLS delivers what is there. *)
Definition tls_in (n : Z) : M (deadlineConn * tworld) string :=
  p ← wfld (fun w => take_s n (t_in w));
  onW (modify (fun w => MkTWorld (drop_s n (t_in w)) (t_got w +:+ p) (t_out w) (t_tls w) (t_down w)));; mret p.
#[local] Instance net : Net tworld := {|
  nc_Read := fun _ _ => mret "clear"; nc_Write := out; nc_Close := mret tt; nc_SetWriteDeadline := fun _ => mret tt;
  tls_Read := fun _ _ => tls_in; tls_Write := tls_out; tls_Unique := fun _ => ""; tls_Exporter := fun _ => None; tls_PeerCertificates := fun _ => [];
  zl_NewWriterLevel := fun _ => mret tt; zl_Deflate := fun p => mret ("", p); zl_NewReader := fun _ => mret tt; zl_Read := fun rd => rd;
  rate_AllowN := fun _ _ => mret true; pool_Get := mret (MkBuf "rest" (Some ErrStopped) WConn); pool_Put := fun _ => mret tt |}.
#[local] Instance view : NetView tworld := {| tls_got := t_got; sent := fun v w => match v with WTLS => t_tls w | _ => t_out w end |}.
#[local] Instance ok : NetOk tworld.
Proof.
  split; try done.
  - intros ts n d w p d' w' E. by injection E as <- <- <-.
  - intros p w. simpl. unfold out. destruct (t_down w) eqn:E; eexists _, _; (split; [done|]); simpl; [|done]. by destruct p; rewrite ?string_app_nil.
  - intros p w. by eexists _, _.
  - intros w. by eexists _, _.
  - intros b w. by eexists.
Qed.

(** A client sends more than its request for TLS in one packet. *)
Definition s0 : socket := set_rbuf "<auth/>" (NewSocketTransport TCPConn 3 600).
Definition w0 : tworld := MkTWorld "<stream>" "" "" "" false.
Lemma starttls_discards_cleartext_witness : ∃ s' w', (StartTLS;; reads [3; 100]) (s0, w0) = (Ok ["<st"; "ream>"], (s', w')) ∧
  tls_got w' = "<st" +:+ "ream>".
Proof.
  eexists _, _. split; [vm_compute; reflexivity|].
  rewrite (starttls_discards_cleartext s0 w0 [3; 100] ["<st"; "ream>"] (set_rbuf "" (StartTLS (s0, w0)).2.1) (MkTWorld "" "<stream>" "" "" false)); vm_compute; reflexivity.
Defined.

(** Two stanzas. *)
Definition s1 : socket := NewSocketTransport TCPConn 3 600.
Definition ops1 : list wop := [OString "<a>"; OFlush; OWrite "<b>"; OString ""; OFlush].

(** zlib gives its output when it is flushed, and the error of that is dropped: with
    compression, a stanza that could not be sent is reported as written and flushed. *)
Theorem compressed_write_error_unnoticed :
  let w := MkTWorld "" "" "" "" true in
  is_ok ((EnableCompression DefaultCompression;; WriteString "<a>";; Flush) (s1, w)).1 = true ∧
  t_out ((EnableCompression DefaultCompression;; WriteString "<a>";; Flush) (s1, w)).2.2 = "" ∧
  is_ok ((WriteString "<a>";; Flush) (s1, w)).1 = false.
Proof. vm_compute. done. Qed.
End TransportDemo.
