(* ===== verification/Pgsql.v ===== *)
(** * The PostgreSQL repository (src/pkg/storage/pgsql)

    The statements that the repository sends, as values, and what it makes of the
    answers.  The database is a parameter; values travel in their text form. *)

From stdpp Require Import base list strings gmap.
From Stdlib Require Import ZArith Lia.
From S2P Require Import Prelude GoLib Stravaganza Roster Storage.
From S2P Require Users.

(** ** Statements *)

(** A condition as the statements have it: [Contains] is [@>] on arrays,
    [SerialBefore] and [SerialAfter] compare the serial number with that of a message of
    an archive, [EpochAfter] and [EpochBefore] the creation time with an epoch,
    [NotNewest] leaves out the newest messages of an archive. *)
Inductive cond :=
  | Eq (c v : string)
  | In (c : string) (vs : list string)
  | Contains (c : string) (vs : list string)
  | EitherIs (c c' v : string)
  | SerialBefore (id archive : string)
  | SerialAfter (id archive : string)
  | EpochAfter (e : Z)
  | EpochBefore (e : Z)
  | NotNewest (archive : string) (n : Z).

(** [ON CONFLICT]: nothing, an update of columns, or an increment with [RETURNING] *)
Inductive conflict :=
  | NoClause
  | DoNothing (key : list string)
  | DoUpdate (key : list string) (sets : list (string * string))
  | DoIncrement (key : list string) (c : string).

Inductive stmt :=
  | Insert (table : string) (vals : list (string * string)) (oc : conflict) (returning : list string)
  | Delete (table : string) (cs : list cond)
  | Select (cols : list string) (table : string) (cs : list cond) (order : option (string * bool))
  | SelectCount (table : string) (cs : list cond)
  | SelectDistinctUnnest (c : string) (table : string) (cs : list cond)
  | SelectBounds (archive : string).

(** The connection: [pg_QueryRow] gives [None] for [sql.ErrNoRows], [pg_Query] the rows
    that [Next] delivers and what [Err] of the rows says after it.  Arrays are those of
    [pq.Array]; [pg_nilWhere] is what the statement builder makes of a nil predicate, no
    condition or a statement that fails. *)
Class PG (W : Type) := {
  TX : Type;
  pg_Exec : stmt → M W unit;
  pg_QueryRow : stmt → M W (option (list string));
  pg_Query : stmt → M W (list (list string) * option goerror);
  pg_Begin : M W TX;
  pg_Commit : TX → M W unit;
  pg_Rollback : TX → M W unit;
  pg_Exit : TX → W → W;
  pg_TryLock : string → M W bool;
  pg_Unlock : string → M W unit;
  enc_array : list string → string;
  dec_array : string → option (list string);
  pg_nilWhere : M W (list cond);
}.

Definition errScan : goerror := ErrText "sql: Scan error".
Definition bool_text (b : bool) : string := if b then "true" else "false".
Definition text_bool (s : string) : option bool :=
  if String.eqb s "true" then Some true else if String.eqb s "false" then Some false else None.
Definition text_int (s : string) : option Z := match Atoi s with (z, None) => Some z | _ => None end.

Section pgsql.
Context `{XmlLib} {W : Type} `{!PG W} `{!Codec Element}.

(** A result of [Scan] or of a decoder. *)
Definition ofO {A} (o : option A) : M W A := match o with Some a => mret a | None => fail errScan end.
Definition ofS {A} (r : goerror + A) : M W A := match r with inr a => mret a | inl e => fail e end.

(** [for rows.Next()] with a scanner; [Err] of the rows is not asked for. *)
Fixpoint scanAll {A} (scan : list string → M W A) (rows : list (list string)) : M W (list A) :=
  match rows with
  | [] => mret []
  | r :: rows' => a ← scan r; l ← scanAll scan rows'; mret (a :: l)
  end.
Definition fetchRows {A} (q : stmt) (scan : list string → M W A) : M W (list A) :=
  rows ← pg_Query q; scanAll scan rows.1.
(** [QueryRow] whose missing row is no error *)
Definition fetchRow {A} (q : stmt) (scan : list string → M W A) : M W (option A) :=
  r ← pg_QueryRow q;
  match r with
  | Some r => a ← scan r; mret (Some a)
  | None => mret None
  end.
Definition errNoRows : goerror := ErrText "sql: no rows in result set".
Definition scanInt (r : list string) : M W Z := match r with [n] => ofO (text_int n) | _ => fail errScan end.
Definition fetchInt (q : stmt) : M W Z :=
  r ← pg_QueryRow q;
  match r with Some r => scanInt r | None => fail errNoRows end.

(** ** Accounts (user.go, last.go, capabilities.go) *)
Definition usersTableName : string := "users".
Definition lastTableName : string := "last".
Definition capsTableName : string := "capabilities".

Definition UpsertUser (user : Users.User) : M W unit :=
  let s := Users.ScramOf user in
  let vals := [("h_sha_1", Users.Sha1 s); ("h_sha_256", Users.Sha256 s); ("h_sha_512", Users.Sha512 s); ("h_sha3_512", Users.Sha3512 s);
               ("salt", Users.Salt s); ("iteration_count", Itoa (Users.IterationCount s)); ("pepper_id", Users.PepperId s)] in
  pg_Exec (Insert usersTableName (("username", Users.Username user) :: vals) (DoUpdate ["username"] vals) []).
Definition DeleteUser (username : string) : M W unit := pg_Exec (Delete usersTableName [Eq "username" username]).
Definition scanUser (r : list string) : M W Users.User :=
  match r with
  | [u; h1; h256; h512; h3; salt; n; p] => n ← ofO (text_int n); mret (Users.MkUser u (Users.MkScram h1 h256 h512 h3 salt n p))
  | _ => fail errScan
  end.
Definition FetchUser (username : string) : M W (option Users.User) :=
  fetchRow (Select ["username"; "h_sha_1"; "h_sha_256"; "h_sha_512"; "h_sha3_512"; "salt"; "iteration_count"; "pepper_id"]
    usersTableName [Eq "username" username] None) scanUser.
Definition UserExists (username : string) : M W bool :=
  count ← fetchInt (SelectCount usersTableName [Eq "username" username]); mret (0 <? count)%Z.

Definition UpsertLast (l : Last) : M W unit :=
  let vals := [("seconds", Itoa (la_Seconds l)); ("status", la_Status l)] in
  pg_Exec (Insert lastTableName (("username", la_Username l) :: vals) (DoUpdate ["username"] vals) []).
Definition FetchLast (username : string) : M W (option Last) :=
  fetchRow (Select ["username"; "seconds"; "status"] lastTableName [Eq "username" username] None)
    (fun r => match r with [u; s; t] => s ← ofO (text_int s); mret (MkLast u s t) | _ => fail errScan end).
Definition DeleteLast (username : string) : M W unit := pg_Exec (Delete lastTableName [Eq "username" username]).

Definition UpsertCapabilities (caps : Capabilities) : M W unit :=
  let vals := [("features", enc_array (ca_Features caps))] in
  pg_Exec (Insert capsTableName (("node", ca_Node caps) :: ("ver", ca_Ver caps) :: vals) (DoUpdate ["node"; "ver"] vals) []).
Definition CapabilitiesExist (node ver : string) : M W bool :=
  count ← fetchInt (SelectCount capsTableName [Eq "node" node; Eq "ver" ver]); mret (0 <? count)%Z.
Definition FetchCapabilities (node ver : string) : M W (option Capabilities) :=
  fetchRow (Select ["node"; "ver"; "features"] capsTableName [Eq "node" node; Eq "ver" ver] None)
    (fun r => match r with [n; v; f] => f ← ofO (dec_array f); mret (MkCaps n v f) | _ => fail errScan end).

(** ** What users store (blocklist.go, private.go, vcard.go, offline.go) *)
Definition blockListsTableName : string := "blocklist_items".
Definition privateStorageTableName : string := "private_storage".
Definition vCardsTableName : string := "vcards".
Definition offlineMessagesTableName : string := "offline_messages".

Definition UpsertBlockListItem (item : BlockItem) : M W unit :=
  pg_Exec (Insert blockListsTableName [("username", bl_Username item); ("jid", bl_Jid item)] (DoNothing ["username"; "jid"]) []).
Definition DeleteBlockListItem (item : BlockItem) : M W unit :=
  pg_Exec (Delete blockListsTableName [Eq "username" (bl_Username item); Eq "jid" (bl_Jid item)]).
Definition scanBlockListItem (r : list string) : M W BlockItem :=
  match r with [u; j] => mret (MkBlockItem u j) | _ => fail errScan end.
Definition FetchBlockListItems (username : string) : M W (list BlockItem) :=
  fetchRows (Select ["username"; "jid"] blockListsTableName [Eq "username" username] (Some ("created_at", false))) scanBlockListItem.
Definition DeleteBlockListItems (username : string) : M W unit := pg_Exec (Delete blockListsTableName [Eq "username" username]).

(** [NewBuilderFromBinary] and [Build] *)
Definition scanElement (r : list string) : M W Element :=
  match r with [b] => ofS (UnmarshalBinary b) | _ => fail errScan end.
Definition FetchPrivate (namespace username : string) : M W (option Element) :=
  fetchRow (Select ["data"] privateStorageTableName [Eq "namespace" namespace; Eq "username" username] None) scanElement.
Definition UpsertPrivate (prv : Element) (namespace username : string) : M W unit :=
  b ← ofS (MarshalBinary prv);
  pg_Exec (Insert privateStorageTableName [("username", username); ("namespace", namespace); ("data", b)]
    (DoUpdate ["username"; "namespace"] [("data", b)]) []).
Definition DeletePrivates (username : string) : M W unit := pg_Exec (Delete privateStorageTableName [Eq "username" username]).

Definition UpsertVCard (vCard : Element) (username : string) : M W unit :=
  b ← ofS (MarshalBinary vCard);
  pg_Exec (Insert vCardsTableName [("username", username); ("vcard", b)] (DoUpdate ["username"] [("vcard", b)]) []).
Definition FetchVCard (username : string) : M W (option Element) :=
  fetchRow (Select ["vcard"] vCardsTableName [Eq "username" username] None) scanElement.
Definition DeleteVCard (username : string) : M W unit := pg_Exec (Delete vCardsTableName [Eq "username" username]).

(** [BuildMessage] fails on what is no message *)
Definition scanMessage (r : list string) : M W Element :=
  e ← scanElement r;
  match Kind e with Some KMessage => mret e | _ => fail errScan end.
Definition InsertOfflineMessage (message : Element) (username : string) : M W unit :=
  b ← ofS (MarshalBinary message);
  pg_Exec (Insert offlineMessagesTableName [("username", username); ("message", b)] NoClause []).
Definition CountOfflineMessages (username : string) : M W Z := fetchInt (SelectCount offlineMessagesTableName [Eq "username" username]).
Definition FetchOfflineMessages (username : string) : M W (list Element) :=
  fetchRows (Select ["message"] offlineMessagesTableName [Eq "username" username] (Some ("id", false))) scanMessage.
Definition DeleteOfflineMessages (username : string) : M W unit := pg_Exec (Delete offlineMessagesTableName [Eq "username" username]).

(** ** Rosters (roster.go) *)
Definition rosterVersionsTableName : string := "roster_versions".
Definition rosterItemsTableName : string := "roster_items".
Definition rosterNotificationsTableName : string := "roster_notifications".

Definition TouchRosterVersion (username : string) : M W Z :=
  fetchInt (Insert rosterVersionsTableName [("username", username)] (DoIncrement ["username"] "ver") ["ver"]).
Definition FetchRosterVersion (username : string) : M W Z :=
  o ← fetchRow (Select ["ver"] rosterVersionsTableName [Eq "username" username] None) scanInt;
  mret (default 0%Z o).
Definition UpsertRosterItem (ri : Item) : M W unit :=
  let vals := [("name", ItemName ri); ("subscription", Subscription ri); ("groups", enc_array (Groups ri)); ("ask", bool_text (Ask ri))] in
  pg_Exec (Insert rosterItemsTableName (("username", Username ri) :: ("jid", Jid ri) :: vals) (DoUpdate ["username"; "jid"] vals) []).
Definition DeleteRosterItem (username jid : string) : M W unit :=
  pg_Exec (Delete rosterItemsTableName [Eq "username" username; Eq "jid" jid]).
Definition DeleteRosterItems (username : string) : M W unit := pg_Exec (Delete rosterItemsTableName [Eq "username" username]).
Definition itemColumns : list string := ["username"; "jid"; "name"; "subscription"; "groups"; "ask"].
Definition scanRosterItem (r : list string) : M W Item :=
  match r with
  | [u; j; n; s; g; a] => g ← ofO (dec_array g); a ← ofO (text_bool a); mret (MkItem u j n s g a)
  | _ => fail errScan
  end.
Definition FetchRosterItems (username : string) : M W (list Item) :=
  fetchRows (Select itemColumns rosterItemsTableName [Eq "username" username] (Some ("created_at", true))) scanRosterItem.
Definition FetchRosterItemsInGroups (username : string) (groups : list string) : M W (list Item) :=
  fetchRows (Select itemColumns rosterItemsTableName [Eq "username" username; Contains "groups" groups] (Some ("created_at", true))) scanRosterItem.
Definition FetchRosterItem (username jid : string) : M W (option Item) :=
  fetchRow (Select itemColumns rosterItemsTableName [Eq "username" username; Eq "jid" jid] None) scanRosterItem.
Definition UpsertRosterNotification (rn : Notification) : M W unit :=
  b ← ofS (MarshalBinary (rn_Presence rn));
  pg_Exec (Insert rosterNotificationsTableName [("contact", rn_Contact rn); ("jid", rn_Jid rn); ("presence", b)]
    (DoUpdate ["contact"; "jid"] [("presence", b)]) []).
Definition DeleteRosterNotification (contact jid : string) : M W unit :=
  pg_Exec (Delete rosterNotificationsTableName [Eq "contact" contact; Eq "jid" jid]).
Definition DeleteRosterNotifications (contact : string) : M W unit := pg_Exec (Delete rosterNotificationsTableName [Eq "contact" contact]).
Definition scanRosterNotification (r : list string) : M W Notification :=
  match r with
  | [c; j; b] => p ← ofS (UnmarshalBinary b); mret (MkNotification c j p)
  | _ => fail errScan
  end.
Definition FetchRosterNotification (contact jid : string) : M W (option Notification) :=
  fetchRow (Select ["contact"; "jid"; "presence"] rosterNotificationsTableName [Eq "contact" contact; Eq "jid" jid] None) scanRosterNotification.
Definition FetchRosterNotifications (contact : string) : M W (list Notification) :=
  fetchRows (Select ["contact"; "jid"; "presence"] rosterNotificationsTableName [Eq "contact" contact] None) scanRosterNotification.
Definition FetchRosterGroups (username : string) : M W (list string) :=
  fetchRows (SelectDistinctUnnest "groups" rosterItemsTableName [Eq "username" username])
    (fun r => match r with [g] => mret g | _ => fail errScan end).

(** ** Archives (archive.go) *)
Definition archiveTableName : string := "archives".

(** A JID that cannot be read is a nil pointer, whose methods panic. *)
Definition InsertArchiveMessage (message : ArchiveMessage) : M W unit :=
  b ← ofS (MarshalBinary (ar_Message message));
  fromJID ← deref (NewWithString (ar_FromJid message) true);
  toJID ← deref (NewWithString (ar_ToJid message) true);
  pg_Exec (Insert archiveTableName
    [("archive_id", ar_ArchiveId message); ("id", ar_Id message); ("from", JIDString fromJID); ("from_bare", JIDString (ToBareJID fromJID));
     ("to", JIDString toJID); ("to_bare", JIDString (ToBareJID toJID)); ("message", b)] NoClause []).

(** [start.UTC().Format(archiveStampFormat)] *)
Context (formatStamp : Z → string).
Definition FetchArchiveMetadata (archiveID : string) : M W (option Metadata) :=
  fetchRow (SelectBounds archiveID) (fun r =>
    match r with
    | [i; t; j; u] => t ← ofO (text_int t); u ← ofO (text_int u); mret (MkMetadata i (formatStamp t) j (formatStamp u))
    | _ => fail errScan
    end).

(** [toEpoch]: the seconds and the nanoseconds are printed with a dot between them and
    read as a number, here in billionths, up to the rounding of float64. *)
Definition nanos : Z := (10 ^ 9)%Z.
Definition toEpoch (tm : Z) : Z :=
  (let n := tm mod nanos in tm / nanos * nanos + n * 10 ^ (9 - Z.of_nat (String.length (Itoa n))))%Z.

(** [filtersToPred]; [float64(time.Millisecond)] is a million, added to seconds. *)
Definition filtersToPred (f : Filters) (archiveID : string) : goerror + list cond :=
  let wth :=
    if String.eqb (fi_With f) "" then inr []
    else match NewWithString (fi_With f) false with
         | None => inl (ErrText "jid: invalid")
         | Some jd => inr [if IsFull jd then EitherIs "to" "from" (JIDString jd) else EitherIs "to_bare" "from_bare" (JIDString jd)]
         end in
  let ids := match fi_Ids f with
    | [] => (if String.eqb (fi_BeforeId f) "" then [] else [SerialBefore (fi_BeforeId f) archiveID]) ++
            (if String.eqb (fi_AfterId f) "" then [] else [SerialAfter (fi_AfterId f) archiveID])
    | ids => [In "id" ids]
    end in
  let start := match fi_Start f with Some t => [EpochAfter (toEpoch t + 10 ^ 6 * nanos)%Z] | None => [] end in
  let fin := match fi_End f with Some t => [EpochBefore (toEpoch t)] | None => [] end in
  match wth with
  | inl e => inl e
  | inr wth => inr (Eq "archive_id" archiveID :: wth ++ ids ++ start ++ fin)
  end.

Definition scanArchiveMessage (archiveID : string) (r : list string) : M W ArchiveMessage :=
  match r with
  | [i; from; to; b; t] => t ← ofO (text_int t); msg ← scanMessage [b]; mret (MkArchive archiveID i from to msg t)
  | _ => fail errScan
  end.
(** [Where(filtersToPred(f, archiveID))]: the error becomes an argument of a nil
    predicate. *)
Definition FetchArchiveMessages (f : Filters) (archiveID : string) : M W (list ArchiveMessage) :=
  p ← match filtersToPred f archiveID with inr p => mret p | inl _ => pg_nilWhere end;
  fetchRows (Select ["id"; "from"; "to"; "message"; "created_at"] archiveTableName p (Some ("created_at", false))) (scanArchiveMessage archiveID).
Definition DeleteArchiveOldestMessages (archiveID : string) (maxElements : Z) : M W unit :=
  pg_Exec (Delete archiveTableName [Eq "archive_id" archiveID; NotNewest archiveID maxElements]).
Definition DeleteArchive (archiveID : string) : M W unit := pg_Exec (Delete archiveTableName [Eq "archive_id" archiveID]).

(** ** Locks and transactions (locker.go, repository.go) *)

(** [Lock]: [patience] is the number of rounds until the context ends. *)
Fixpoint Lock (patience : nat) (lockID : string) : M W unit :=
  match patience with
  | 0%nat => fail (ErrText "context deadline exceeded")
  | S patience' =>
    acquired ← pg_TryLock lockID;
    if acquired : bool then mret tt else Lock patience' lockID
  end.
Definition Unlock (lockID : string) : M W unit := pg_Unlock lockID.

(** [InTransaction]; a panic of [f] ends the process with the transaction open. *)
Definition InTransaction (f : M W unit) : M W unit := fun w =>
  match pg_Begin w with
  | (Ok tx, w1) =>
    match f w1 with
    | (Ok _, w2) => pg_Commit tx w2
    | (Err e, w2) => (Err e, (pg_Rollback tx w2).2)
    | (Crash c, w2) => (Crash c, pg_Exit tx w2)
    end
  | (Err e, w1) => (Err e, w1)
  | (Crash c, w1) => (Crash c, w1)
  end.

End pgsql.
