(* ===== verification/PgsqlProofs.v ===== *)
(** * What the PostgreSQL repository guarantees

    The meaning of the statements on tables of rows, the contract of the database, and
    that the repository keeps the contract the roster module is verified against. *)

From stdpp Require Import base list strings gmap.
From Stdlib Require Import ZArith Lia Ascii.
From S2P Require Import Prelude GoLib Stravaganza C2SModel Roster RosterProofs Storage Pgsql.
From S2P Require BoltProofs Bolt.

(** ** Tables *)
Abbreviation row := (gmap string string).
Definition get (c : string) (r : row) : string := default "" (r !! c).
Definition num (c : string) (r : row) : Z := (Atoi (get c r)).1.
Abbreviation database := (gmap string (list row)).
Definition tbl (t : string) (d : database) : list row := default [] (d !! t).
Definition same_key (key : list string) (a b : row) : bool := forallb (fun c => String.eqb (get c a) (get c b)) key.

Section meaning.
(** [dec] reads an array. *)
Context (dec : string → option (list string)).

Definition in_archive (a : string) (d : database) : list row := List.filter (fun r => String.eqb (get "archive_id" r) a) (tbl archiveTableName d).
Definition serial_of (d : database) (id a : string) : option Z :=
  num "serial" <$> head (List.filter (fun r => String.eqb (get "id" r) id) (in_archive a d)).
Definition newer (c : string) (a b : row) : bool := (num c b <? num c a)%Z.
Definition holds (d : database) (c : cond) (r : row) : bool :=
  match c with
  | Eq c v => String.eqb (get c r) v
  | In c vs => existsb (String.eqb (get c r)) vs
  | Contains c vs => match dec (get c r) with Some l => forallb (fun v => existsb (String.eqb v) l) vs | None => false end
  | EitherIs c c' v => String.eqb (get c r) v || String.eqb (get c' r) v
  | SerialBefore id a => match serial_of d id a with Some n => (num "serial" r <? n)%Z | None => false end
  | SerialAfter id a => match serial_of d id a with Some n => (n <? num "serial" r)%Z | None => false end
  | EpochAfter e => (e <? num "created_at" r)%Z
  | EpochBefore e => (num "created_at" r <? e)%Z
  | NotNewest a n => negb (existsb (fun r' => String.eqb (get "id" r') (get "id" r))
      (take (Z.to_nat n) (insertion_sort (newer "created_at") (in_archive a d))))
  end.
Definition matches (d : database) (cs : list cond) (r : row) : bool := forallb (fun c => holds d c r) cs.

(** [ON CONFLICT]: the row [nr] is new, or the row with its key is changed. *)
Definition insert_row (oc : conflict) (nr : row) (rows : list row) : list row :=
  let change key (f : row → row) :=
    if existsb (same_key key nr) rows then map (fun r => if same_key key nr r then f r else r) rows else rows ++ [nr] in
  match oc with
  | NoClause => rows ++ [nr]
  | DoNothing key => change key (fun r => r)
  | DoUpdate key sets => change key (fun r => (list_to_map sets : row) ∪ r)
  | DoIncrement key c => change key (fun r => <[c := Itoa (num c r + 1)]> r)
  end.

(** What a statement does; [stamp] are the columns that the database fills in. *)
Definition exec (stamp : row) (st : stmt) (d : database) : database :=
  match st with
  | Insert t vals oc _ => <[t := insert_row oc ((list_to_map vals : row) ∪ stamp) (tbl t d)]> d
  | Delete t cs => <[t := List.filter (fun r => negb (matches d cs r)) (tbl t d)]> d
  | _ => d
  end.

Definition ordered (o : option (string * bool)) (rows : list row) : list row :=
  match o with
  | None => rows
  | Some (c, desc) => insertion_sort (fun a b => if desc : bool then newer c a b else newer c b a) rows
  end.
(** What a statement answers, after it was executed. *)
Definition rows_of (st : stmt) (d : database) : list (list string) :=
  match st with
  | Select cols t cs o => map (fun r => map (fun c => get c r) cols) (ordered o (List.filter (matches d cs) (tbl t d)))
  | SelectCount t cs => [[Itoa (Z.of_nat (length (List.filter (matches d cs) (tbl t d))))]]
  | SelectDistinctUnnest c t cs =>
    map (fun g => [g]) (remove_dups (mjoin (map (fun r => default [] (dec (get c r))) (List.filter (matches d cs) (tbl t d)))))
  | SelectBounds a =>
    let l := insertion_sort (fun a b => (num "serial" a <? num "serial" b)%Z) (in_archive a d) in
    match head l, last l with
    | Some x, Some y => [[get "id" x; get "created_at" x; get "id" y; get "created_at" y]]
    | _, _ => []
    end
  | Insert t vals (DoIncrement key _) cols =>
    map (fun r => map (fun c => get c r) cols) (List.filter (same_key key (list_to_map vals)) (tbl t d))
  | _ => []
  end.
End meaning.

(** ** The contract of the database *)
(** A statement that fails has no effect.  The order of rows that are not ordered is that
    of the table; a query by primary key has at most one row. *)
Class PGOk (W : Type) `{!PG W} := {
  db : W → database;
  snap : TX → database;
  ok_Exec : ∀ st w, match pg_Exec st w with (Ok _, w') => ∃ stamp, db w' = exec dec_array stamp st (db w) | (_, w') => db w' = db w end;
  ok_QueryRow : ∀ st w, match pg_QueryRow st w with
    | (Ok o, w') => (∃ stamp, db w' = exec dec_array stamp st (db w)) ∧ o = head (rows_of dec_array st (db w'))
    | (_, w') => db w' = db w end;
  ok_Query : ∀ st w, match pg_Query st w with
    | (Ok (rows, err), w') => (∃ stamp, db w' = exec dec_array stamp st (db w)) ∧ (err = None → rows = rows_of dec_array st (db w'))
    | (_, w') => db w' = db w end;
  ok_Begin : ∀ w, match pg_Begin w with (Ok tx, w') => w' = w ∧ snap tx = db w | (_, w') => db w' = db w end;
  ok_Commit : ∀ tx w, match pg_Commit tx w with (Ok _, w') => db w' = db w | (_, w') => db w' = snap tx end;
  ok_Rollback : ∀ tx w, db (pg_Rollback tx w).2 = snap tx;
  ok_Exit : ∀ tx w, db (pg_Exit tx w) = snap tx;
  ok_array : ∀ l, dec_array (enc_array l) = Some l;
}.

(** ** A table as a map *)
Section views.
Context {V : Type} (k1 k2 : string) (f : row → option V).
Definition at_key (a b : string) (r : row) : bool := String.eqb (get k1 r) a && String.eqb (get k2 r) b.
Definition view (rows : list row) : gmap (string * string) V :=
  omap id (list_to_map (map (fun r => ((get k1 r, get k2 r), f r)) rows) : gmap (string * string) (option V)).

Lemma view_lookup rows a b : view rows !! (a, b) = List.find (at_key a b) rows ≫= f.
Proof.
  unfold view. rewrite lookup_omap. induction rows as [|r rows IH]; [done|]. simpl. unfold at_key at 1.
  destruct (String.eqb_spec (get k1 r) a) as [<-|Ha]; simpl.
  - destruct (String.eqb_spec (get k2 r) b) as [<-|Hb]; simpl; [by rewrite lookup_insert_eq|].
    by rewrite lookup_insert_ne by congruence.
  - by rewrite lookup_insert_ne by congruence.
Qed.

Lemma find_keeps (p q : row → bool) rows : (∀ r, p r = true → q r = true) → List.find p (List.filter q rows) = List.find p rows.
Proof.
  intros Hpq. induction rows as [|r rows IH]; [done|]. simpl. destruct (q r) eqn:Hq; simpl; [by rewrite IH|].
  destruct (p r) eqn:Hp; [|done]. rewrite Hpq in Hq by done. done.
Qed.
Lemma find_drops (p q : row → bool) rows : (∀ r, p r = true → q r = false) → List.find p (List.filter q rows) = None.
Proof.
  intros Hpq. induction rows as [|r rows IH]; [done|]. simpl. destruct (q r) eqn:Hq; simpl; [|done].
  destruct (p r) eqn:Hp; [|done]. by rewrite Hpq in Hq.
Qed.
Lemma find_change (p : row → bool) (g : row → row) rows : (∀ r, p (g r) = p r) → List.find p (map g rows) = g <$> List.find p rows.
Proof. intros Hg. induction rows as [|r rows IH]; [done|]. simpl. rewrite Hg. by destruct (p r). Qed.

Lemma at_key_true a b r : at_key a b r = true ↔ get k1 r = a ∧ get k2 r = b.
Proof. unfold at_key. by rewrite andb_true_iff, !String.eqb_eq. Qed.
Lemma same_key_at nr r : same_key [k1; k2] nr r = at_key (get k1 nr) (get k2 nr) r.
Proof. unfold same_key, at_key. simpl. rewrite andb_true_r. by rewrite (String.eqb_sym (get k1 nr)), (String.eqb_sym (get k2 nr)). Qed.

Lemma existsb_same_key nr rows : existsb (same_key [k1; k2] nr) rows = existsb (at_key (get k1 nr) (get k2 nr)) rows.
Proof. induction rows as [|r rows IH]; [done|]. cbn [existsb]. by rewrite same_key_at, IH. Qed.

(** An upsert is an insertion. *)
Lemma view_upsert sets nr rows v :
  f nr = Some v → (∀ r, at_key (get k1 nr) (get k2 nr) r = true → f ((list_to_map sets : row) ∪ r) = Some v) →
  (list_to_map sets : row) !! k1 = None → (list_to_map sets : row) !! k2 = None →
  view (insert_row (DoUpdate [k1; k2] sets) nr rows) = <[(get k1 nr, get k2 nr) := v]> (view rows).
Proof.
  intros Hn Hu H1 H2. set (a := get k1 nr) in *. set (b := get k2 nr) in *.
  assert (∀ r, get k1 ((list_to_map sets : row) ∪ r) = get k1 r ∧ get k2 ((list_to_map sets : row) ∪ r) = get k2 r) as Hk.
  { intros r. unfold get. by rewrite !lookup_union_r. }
  apply map_eq. intros [x y]. rewrite view_lookup. unfold insert_row.
  assert (existsb (same_key [k1; k2] nr) rows = existsb (at_key a b) rows) as -> by apply existsb_same_key.
  rewrite (map_ext _ (fun r => if at_key a b r then (list_to_map sets : row) ∪ r else r)) by (intros r; by rewrite same_key_at).
  assert (∀ r, at_key x y (if at_key a b r then (list_to_map sets : row) ∪ r else r) = at_key x y r) as Hsame.
  { intros r. destruct (at_key a b r); [|done]. unfold at_key. by destruct (Hk r) as [-> ->]. }
  destruct (decide ((x, y) = (a, b))) as [[= -> ->]|Hne].
  - rewrite lookup_insert_eq. destruct (existsb (at_key a b) rows) eqn:He.
    + rewrite find_change by done. destruct (List.find (at_key a b) rows) as [r|] eqn:Hf.
      * apply find_some in Hf as [_ Hf]. simpl. rewrite Hf. by apply Hu.
      * apply existsb_exists in He as (r & Hr & Hp). by rewrite (find_none _ _ Hf r Hr) in Hp.
    + assert (List.find (at_key a b) (rows ++ [nr]) = Some nr) as ->; [|done].
      induction rows as [|r rows IH]; simpl in *.
      * by rewrite (proj2 (at_key_true a b nr)) by done.
      * apply orb_false_iff in He as [He1 He2]. rewrite He1. by apply IH.
  - rewrite lookup_insert_ne, view_lookup by done.
    assert (∀ r, at_key x y r = true → at_key a b r = false) as Hd.
    { intros r [E1 E2]%at_key_true. destruct (at_key a b r) eqn:E; [|done]. apply at_key_true in E as [E3 E4]. congruence. }
    destruct (existsb (at_key a b) rows) eqn:He.
    + rewrite find_change by done. destruct (List.find (at_key x y) rows) as [r|] eqn:Hf; [|done].
      apply find_some in Hf as [_ Hf]. simpl. by rewrite (Hd r Hf).
    + f_equal. clear He. induction rows as [|r rows IH]; simpl; [|by rewrite IH].
      destruct (at_key x y nr) eqn:E; [|done]. apply at_key_true in E as [E1 E2]. destruct Hne. by rewrite <-E1, <-E2.
Qed.

(** Deletions by key and by the first column. *)
Lemma view_delete (p : row → bool) rows a b : (∀ r, p r = at_key a b r) → view (List.filter (fun r => negb (p r)) rows) = delete (a, b) (view rows).
Proof.
  intros Hp. apply map_eq. intros [x y]. rewrite view_lookup. destruct (decide ((x, y) = (a, b))) as [[= -> ->]|Hne].
  - rewrite lookup_delete_eq, find_drops; [done|]. intros r Hr. by rewrite Hp, Hr.
  - rewrite lookup_delete_ne, view_lookup by done. rewrite find_keeps; [done|]. intros r [E1 E2]%at_key_true. rewrite Hp.
    destruct (at_key a b r) eqn:E; [|done]. apply at_key_true in E as [E3 E4]. congruence.
Qed.
Lemma view_delete_all (p : row → bool) rows a : (∀ r, p r = String.eqb (get k1 r) a) →
  view (List.filter (fun r => negb (p r)) rows) = filter (fun kv => kv.1.1 ≠ a) (view rows).
Proof.
  intros Hp. apply map_eq. intros [x y]. rewrite view_lookup. destruct (decide (x = a)) as [->|Hne].
  - rewrite find_drops by (intros r [E1 E2]%at_key_true; by rewrite Hp, E1, String.eqb_refl).
    symmetry. apply map_lookup_filter_None. right. intros v _. simpl. tauto.
  - rewrite find_keeps by (intros r [E1 E2]%at_key_true; rewrite Hp, E1; by rewrite (proj2 (String.eqb_neq _ _) Hne)).
    rewrite <-view_lookup. destruct (view rows !! (x, y)) as [v|] eqn:E; symmetry.
    + by apply map_lookup_filter_Some.
    + apply map_lookup_filter_None. by left.
Qed.
Lemma head_filter (p : row → bool) rows : head (List.filter p rows) = List.find p rows.
Proof. induction rows as [|r rows IH]; [done|]. simpl. by destruct (p r). Qed.
End views.

(** ** The roster module on this repository *)
Section roster.
Context `{XmlLib} {W : Type} `{!PG W} `{HP : !PGOk W} `{!BoltProofs.RosterSurround W}.
Context `{!Codec Element} `{!CodecOk Element}.

#[local] Instance pg_roster_env : RosterEnv W := {|
  rep_FetchRosterVersion := FetchRosterVersion;
  rep_FetchRosterItem := FetchRosterItem;
  rep_FetchRosterItems := FetchRosterItems;
  rep_UpsertRosterNotification := fun contact jid p => UpsertRosterNotification (MkNotification contact jid p);
  rep_FetchRosterNotification := fun contact jid => rn ← FetchRosterNotification contact jid; mret (rn_Presence <$> rn);
  rep_FetchRosterNotifications := fun contact => rns ← FetchRosterNotifications contact; mret (rn_Presence <$> rns);
  rep_DeleteRosterNotification := DeleteRosterNotification;
  rep_InTransaction := InTransaction;
  tx_TouchRosterVersion := TouchRosterVersion;
  tx_UpsertRosterItem := UpsertRosterItem;
  tx_DeleteRosterItem := DeleteRosterItem;
  tx_DeleteRosterNotifications := DeleteRosterNotifications;
  tx_DeleteRosterItems := DeleteRosterItems;
  ro_Route := BoltProofs.su_Route;
  ro_GetResources := BoltProofs.su_GetResources;
  ro_LocalStream := BoltProofs.su_LocalStream;
  ro_StreamInfo := BoltProofs.su_StreamInfo;
  ro_SetInfoBool := BoltProofs.su_SetInfoBool;
  ro_IsLocalHost := BoltProofs.su_IsLocalHost;
  ro_runHook := BoltProofs.su_runHook;
  ro_uuid := BoltProofs.su_uuid;
|}.

(** What else the module calls does not touch the database. *)
Definition same_db (w w' : W) : Prop := db w' = db w.
#[local] Instance same_db_preorder : PreOrder same_db.
Proof. split; [done|]. intros w1 w2 w3. unfold same_db. congruence. Qed.
Class SurroundOk : Prop := {
  sk_Route : ∀ e, keeps same_db (BoltProofs.su_Route e);
  sk_GetResources : ∀ u, keeps same_db (BoltProofs.su_GetResources u);
  sk_LocalStream : ∀ u r, keeps same_db (BoltProofs.su_LocalStream u r);
  sk_SetInfoBool : ∀ s k b, keeps same_db (BoltProofs.su_SetInfoBool s k b);
  sk_runHook : ∀ n u j s, keeps same_db (BoltProofs.su_runHook n u j s);
  sk_uuid : keeps same_db BoltProofs.su_uuid;
}.
Context `{HS : !SurroundOk}.

Definition item_of (r : row) : option Item :=
  g ← dec_array (get "groups" r); a ← text_bool (get "ask" r);
  Some (MkItem (get "username" r) (get "jid" r) (get "name" r) (get "subscription" r) g a).
Definition notif_of (r : row) : option Element :=
  match UnmarshalBinary (get "presence" r) with inr e => Some e | inl _ => None end.
Definition items_in (d : database) : gmap (string * string) Item := view "username" "jid" item_of (tbl rosterItemsTableName d).
Definition notifs_in (d : database) : gmap (string * string) Element := view "contact" "jid" notif_of (tbl rosterNotificationsTableName d).
#[local] Instance pg_roster_views : RosterViews := {| items := fun w => items_in (db w); notifs := fun w => notifs_in (db w) |}.

(** *** Reads *)
Definition reads_only (st : stmt) : Prop := ∀ stamp d, exec dec_array stamp st d = d.
Lemma queryRow_keeps st : reads_only st → keeps same_db (pg_QueryRow st).
Proof.
  intros Hst w. pose proof (ok_QueryRow st w) as Hq. destruct (pg_QueryRow st w) as [[o|e|c] w']; [|done..].
  destruct Hq as [[stamp E] _]. by rewrite Hst in E.
Qed.
Lemma query_keeps st : reads_only st → keeps same_db (pg_Query st).
Proof.
  intros Hst w. pose proof (ok_Query st w) as Hq. destruct (pg_Query st w) as [[[rows err]|e|c] w']; [|done..].
  destruct Hq as [[stamp E] _]. by rewrite Hst in E.
Qed.
Lemma ofO_keeps {A} (o : option A) : keeps same_db (ofO o).
Proof. by destruct o. Qed.
Lemma ofS_keeps {A} (r : goerror + A) : keeps same_db (ofS r).
Proof. by destruct r. Qed.
Lemma scanAll_keeps {A} (scan : list string → M W A) rows : (∀ r, keeps same_db (scan r)) → keeps same_db (scanAll scan rows).
Proof. intros Hs. induction rows as [|r rows IH]; simpl; [done|]. keeps_auto. Qed.
Lemma fetchRow_keeps {A} st (scan : list string → M W A) : reads_only st → (∀ r, keeps same_db (scan r)) → keeps same_db (fetchRow st scan).
Proof. intros Hst Hs. unfold fetchRow. keeps_auto; by apply queryRow_keeps. Qed.
Lemma fetchRows_keeps {A} st (scan : list string → M W A) : reads_only st → (∀ r, keeps same_db (scan r)) → keeps same_db (fetchRows st scan).
Proof. intros Hst Hs. unfold fetchRows. keeps_auto; [by apply query_keeps|by apply scanAll_keeps]. Qed.
Lemma scanInt_keeps r : keeps same_db (scanInt r).
Proof. unfold scanInt. keeps_auto; apply ofO_keeps. Qed.
Lemma scanItem_keeps r : keeps same_db (scanRosterItem r).
Proof. unfold scanRosterItem. keeps_auto; apply ofO_keeps. Qed.
Lemma scanNotif_keeps r : keeps same_db (scanRosterNotification r).
Proof. unfold scanRosterNotification. keeps_auto; apply ofS_keeps. Qed.

Lemma same_db_frame {A} (m : M W A) : keeps same_db m → frame m.
Proof. intros Hm. eapply keeps_weaken, Hm. intros w w' E. unfold same, items, notifs, pg_roster_views. by rewrite E. Qed.

(** A query by key scans the row of the key. *)
Lemma fetchRow_at {A V} cols t k1 k2 a b (scan : list string → M W A) (f : row → option V) (g : A → V) w o w' :
  (∀ r w x w1, scan (map (fun c => get c r) cols) w = (Ok x, w1) → f r = Some (g x)) →
  fetchRow (Select cols t [Eq k1 a; Eq k2 b] None) scan w = (Ok o, w') → g <$> o = view k1 k2 f (tbl t (db w)) !! (a, b).
Proof.
  intros Hscan E. unfold fetchRow in E. inv_bind E as r w1 Hr. pose proof (ok_QueryRow (Select cols t [Eq k1 a; Eq k2 b] None) w) as Hq.
  rewrite Hr in Hq. destruct Hq as [[stamp Hd] Hh]. simpl in Hd. rewrite Hd in Hh. simpl in Hh. rewrite view_lookup.
  assert (head (List.filter (matches dec_array (db w) [Eq k1 a; Eq k2 b]) (tbl t (db w))) = List.find (at_key k1 k2 a b) (tbl t (db w))) as Hf.
  { rewrite head_filter. generalize (tbl t (db w)). intros rows. induction rows as [|x rows IH]; [done|]. cbn [List.find].
    rewrite IH. unfold matches, at_key. simpl. by rewrite andb_true_r. }
  rewrite <-Hf. destruct (List.filter _ _) as [|x rows]; simpl in *; subst r; [by injection E as <- _|].
  inv_bind E as y w2 Hy. injection E as <- _. simpl. symmetry. by eapply Hscan.
Qed.

(** *** Writes *)
Lemma exec_ok (st : stmt) (w : W) (P : database → Prop) : (∀ stamp, P (exec dec_array stamp st (db w))) →
  match pg_Exec st w with (Ok _, w') => P (db w') | (_, w') => same w w' end.
Proof.
  intros HP'. pose proof (ok_Exec st w) as He. destruct (pg_Exec st w) as [[[]|e|c] w'].
  - destruct He as [stamp ->]. apply HP'.
  - unfold same, items, notifs, pg_roster_views. by rewrite He.
  - unfold same, items, notifs, pg_roster_views. by rewrite He.
Qed.
Lemma items_other t rows d : t ≠ rosterItemsTableName → items_in (<[t := rows]> d) = items_in d.
Proof. intros Ht. unfold items_in, tbl. by rewrite lookup_insert_ne by done. Qed.
Lemma notifs_other t rows d : t ≠ rosterNotificationsTableName → notifs_in (<[t := rows]> d) = notifs_in d.
Proof. intros Ht. unfold notifs_in, tbl. by rewrite lookup_insert_ne by done. Qed.
Lemma tbl_insert t rows d : tbl t (<[t := rows]> d) = rows.
Proof. unfold tbl. by rewrite lookup_insert_eq. Qed.

Lemma get_left c (m r : row) v : m !! c = Some v → get c (m ∪ r) = v.
Proof. intros E. unfold get. by rewrite (lookup_union_Some_l _ _ _ _ E). Qed.
Lemma get_right c (m r : row) : m !! c = None → get c (m ∪ r) = get c r.
Proof. intros E. unfold get. by rewrite lookup_union_r. Qed.

Lemma item_of_row ri r : get "username" r = Username ri → get "jid" r = Jid ri → get "name" r = ItemName ri →
  get "subscription" r = Subscription ri → get "groups" r = enc_array (Groups ri) → get "ask" r = bool_text (Ask ri) → item_of r = Some ri.
Proof. intros E1 E2 E3 E4 E5 E6. unfold item_of. rewrite E1, E2, E3, E4, E5, E6, ok_array. by destruct ri as [? ? ? ? ? []]. Qed.

Lemma scanItem_of r (w : W) x w1 : scanRosterItem (map (fun c => get c r) itemColumns) w = (Ok x, w1) → item_of r = Some (id x).
Proof.
  simpl. unfold item_of. destruct (dec_array (get "groups" r)) as [g|]; [|done]. simpl. destruct (text_bool (get "ask" r)) as [a|]; [|done].
  by intros [= <- _].
Qed.
Lemma scanNotif_of r (w : W) x w1 : scanRosterNotification (map (fun c => get c r) ["contact"; "jid"; "presence"]) w = (Ok x, w1) →
  notif_of r = Some (rn_Presence x).
Proof.
  simpl. unfold notif_of. destruct (UnmarshalBinary (get "presence" r)) as [e|e]; [done|]. by intros [= <- _].
Qed.

Lemma pg_touch_frame u : frame (tx_TouchRosterVersion u).
Proof.
  intros w. unfold tx_TouchRosterVersion, pg_roster_env, TouchRosterVersion, fetchInt, mbind, M_bind.
  match goal with |- context [pg_QueryRow ?st w] => pose proof (ok_QueryRow st w) as Hq; destruct (pg_QueryRow st w) as [[o|e|c] w1] end.
  - destruct Hq as [[stamp Hd] _]. assert (same w w1) as Hs.
    { unfold same, items, notifs, pg_roster_views. rewrite Hd. cbn [exec]. by rewrite items_other, notifs_other. }
    destruct o as [r|]; [|done]. simpl. unfold scanInt. destruct r as [|x [|]]; [done| |done]. unfold ofO. by destruct (text_int x).
  - unfold same, items, notifs, pg_roster_views. simpl. by rewrite Hq.
  - unfold same, items, notifs, pg_roster_views. simpl. by rewrite Hq.
Qed.

Lemma pg_transaction_ok m w :
  match InTransaction m w with
  | (Ok _, w') => ∃ w1, m w = (Ok tt, w1) ∧ same w1 w'
  | (_, w') => same w w'
  end.
Proof.
  assert (∀ w1 w2 : W, db w2 = db w1 → same w1 w2) as Hsame by (intros w1 w2 E; unfold same, items, notifs, pg_roster_views; by rewrite E).
  unfold InTransaction. pose proof (ok_Begin w) as Hb. destruct (pg_Begin w) as [[tx|e|c] w1]; [|by apply Hsame..]. destruct Hb as [-> Hs].
  destruct (m w) as [[[]|e|c] w2] eqn:Em.
  - pose proof (ok_Commit tx w2) as Hc. destruct (pg_Commit tx w2) as [[[]|e|c] w']; [|apply Hsame; congruence..].
    exists w2. split; [done|by apply Hsame].
  - apply Hsame. by rewrite ok_Rollback.
  - apply Hsame. by rewrite ok_Exit.
Qed.

Lemma pg_upsertItem_ok ri w :
  match UpsertRosterItem ri w with
  | (Ok _, w') => items w' = <[(Username ri, Jid ri) := ri]> (items w) ∧ notifs w' = notifs w
  | (_, w') => same w w'
  end.
Proof.
  unfold UpsertRosterItem. cbv zeta.
  apply (exec_ok _ w (fun d => items_in d = <[(Username ri, Jid ri) := ri]> (items_in (db w)) ∧ notifs_in d = notifs_in (db w))).
  intros stamp. cbn [exec]. split; [|by apply notifs_other]. unfold items_in at 1. rewrite tbl_insert.
  match goal with |- view _ _ _ (insert_row _ ?nr _) = _ => set (n := nr) end.
  assert (get "username" n = Username ri ∧ get "jid" n = Jid ri) as [Eu Ej] by (split; by apply get_left).
  rewrite <-Eu, <-Ej. apply view_upsert; [| |done|done].
  - apply item_of_row; [done..|by apply get_left| by apply get_left|by apply get_left|by apply get_left].
  - intros r [E1 E2]%at_key_true. apply item_of_row; [| |by apply get_left..]; (rewrite get_right by done); congruence.
Qed.

Lemma pg_upsertNotif_ok u j e w :
  match UpsertRosterNotification (MkNotification u j e) w with
  | (Ok _, w') => items w' = items w ∧ notifs w' = <[(u, j) := e]> (notifs w)
  | (_, w') => same w w'
  end.
Proof.
  unfold UpsertRosterNotification, mbind, M_bind, ofS. simpl. destruct (MarshalBinary e) as [er|b] eqn:Hb; [done|]. simpl.
  apply (exec_ok _ w (fun d => items_in d = items_in (db w) ∧ notifs_in d = <[(u, j) := e]> (notifs_in (db w)))).
  intros stamp. cbn [exec]. split; [by apply items_other|]. unfold notifs_in at 1. rewrite tbl_insert.
  match goal with |- view _ _ _ (insert_row _ ?nr _) = _ => set (n := nr) end.
  assert (get "contact" n = u ∧ get "jid" n = j) as [Eu Ej] by (split; by apply get_left).
  rewrite <-Eu, <-Ej. apply codec_roundtrip in Hb. apply view_upsert; [|intros r _|done|done]; unfold notif_of.
  - replace (get "presence" n) with b by (symmetry; by apply get_left). by rewrite Hb.
  - replace (get "presence" _) with b by (symmetry; by apply get_left). by rewrite Hb.
Qed.

(** A deletion by key and one of all rows of a user. *)
Lemma delete_ok t cs w (P : database → Prop) : P (<[t := List.filter (fun r => negb (matches dec_array (db w) cs r)) (tbl t (db w))]> (db w)) →
  match pg_Exec (Delete t cs) w with (Ok _, w') => P (db w') | (_, w') => same w w' end.
Proof. intros HP'. apply exec_ok. by intros stamp. Qed.

End roster.

(** ** What goes wrong *)
Section flaws.
Context `{XmlLib} {W : Type} `{!PG W} `{!Codec Element}.

(** The error that ends a result early is not asked for: the rows that came before it
    are taken for the whole roster. *)
Theorem truncated_roster_accepted (u : string) (w w1 : W) (rows : list (list string)) (e : goerror) (its : list Item)
    (Hq : pg_Query (Select itemColumns rosterItemsTableName [Eq "username" u] (Some ("created_at", true))) w = (Ok (rows, Some e), w1))
    (Hs : scanAll scanRosterItem rows w1 = (Ok its, w1)) :
  FetchRosterItems u w = (Ok its, w1).
Proof. unfold FetchRosterItems, fetchRows, mbind, M_bind. by rewrite Hq. Qed.

(** The epoch of a time is not monotone: the nanoseconds are printed without leading
    zeros, so that 1 s and 50 ns is taken for 1.5 s. *)
Theorem toEpoch_not_monotone : (1 * nanos + 50 < 1 * nanos + 100000000)%Z ∧ (toEpoch (1 * nanos + 100000000) < toEpoch (1 * nanos + 50))%Z.
Proof. vm_compute. done. Qed.

(** The error of a filter is lost: when the statement builder ignores nil predicates, a
    query with a JID that cannot be read asks for the messages of all archives. *)
Theorem unreadable_filter_asks_for_all (f : Filters) (a : string) (w : W) (Hw : pg_nilWhere w = (Ok [], w))
    (Hne : fi_With f ≠ "") (Hjid : NewWithString (fi_With f) false = None) :
  FetchArchiveMessages f a w =
    fetchRows (Select ["id"; "from"; "to"; "message"; "created_at"] archiveTableName [] (Some ("created_at", false))) (scanArchiveMessage a) w.
Proof.
  unfold FetchArchiveMessages, filtersToPred. rewrite (proj2 (String.eqb_neq _ _) Hne), Hjid. unfold mbind, M_bind. by rewrite Hw.
Qed.
End flaws.

(** ** A database in memory *)
Module PgDemo.
Import TreeLib.

(** Lists of strings as one string: every character is marked, and so is the end of a
    string. *)
Fixpoint enc_string (s : string) : string := match s with "" => "0" | String c s' => String "1"%char (String c (enc_string s')) end.
Fixpoint enc_list (l : list string) : string := match l with [] => "" | s :: l' => enc_string s +:+ enc_list l' end.
Fixpoint dec_list (cur : string) (s : string) : option (list string) :=
  match s with
  | "" => Some []
  | String "0"%char s' => cons cur <$> dec_list "" s'
  | String _ (String c s') => dec_list (cur +:+ String c "") s'
  | String _ "" => None
  end.
Lemma dec_enc_string s cur rest : dec_list cur (enc_string s +:+ rest) = cons (cur +:+ s) <$> dec_list "" rest.
Proof.
  revert cur. induction s as [|c s IH]; intros cur.
  - simpl. by rewrite string_app_nil.
  - cbn [enc_string]. rewrite !string_app_cons. cbn [dec_list]. rewrite IH. by rewrite <-string_app_assoc.
Qed.
Lemma dec_enc_list l : dec_list "" (enc_list l) = Some l.
Proof. induction l as [|s l IH]; [done|]. cbn [enc_list]. by rewrite dec_enc_string, IH. Qed.

(** A database with a clock, a pool of connections that are used in the order of
    [p_turn], the locks of each connection, and a network that may break. *)
Record pworld := MkPW { p_db : database; p_now : Z; p_next : Z; p_turn : list nat; p_locks : list (string * nat); p_cut : bool }.
Definition with_db (d : database) (w : pworld) : pworld := MkPW d (p_now w) (p_next w) (p_turn w) (p_locks w) (p_cut w).
Definition stamp (w : pworld) : row :=
  {["serial" := Itoa (p_next w); "id" := Itoa (p_next w); "created_at" := Itoa (p_now w); "ver" := "1"]}.
Definition session (w : pworld) : nat := default 0%nat (head (p_turn w)).
Definition next_session (w : pworld) : pworld := MkPW (p_db w) (p_now w) (p_next w) (tail (p_turn w)) (p_locks w) (p_cut w).
Definition set_locks (l : list (string * nat)) (w : pworld) : pworld := MkPW (p_db w) (p_now w) (p_next w) (p_turn w) l (p_cut w).
(** The locks of PostgreSQL belong to a connection: another one can neither take nor
    release them. *)
Definition try_lock (k : string) : M pworld bool := fun w =>
  if existsb (fun l => String.eqb l.1 k && negb (Nat.eqb l.2 (session w))) (p_locks w) then (Ok false, next_session w)
  else (Ok true, next_session (set_locks ((k, session w) :: p_locks w) w)).
Definition release (k : string) : M pworld unit := fun w =>
  (Ok tt, next_session (set_locks (List.filter (fun l => negb (String.eqb l.1 k && Nat.eqb l.2 (session w))) (p_locks w)) w)).

Definition run_stmt (st : stmt) (w : pworld) : pworld := with_db (exec (dec_list "") (stamp w) st (p_db w)) w.
#[local] Instance pg : PG pworld := {|
  TX := database;
  pg_Exec := fun st => modify (run_stmt st);
  pg_QueryRow := fun st w => (Ok (head (rows_of (dec_list "") st (p_db (run_stmt st w)))), run_stmt st w);
  pg_Query := fun st w =>
    let rows := rows_of (dec_list "") st (p_db (run_stmt st w)) in
    (Ok (if p_cut w then (take 1 rows, Some ErrStopped) else (rows, None)), run_stmt st w);
  pg_Begin := gets p_db; pg_Commit := fun _ => mret tt; pg_Rollback := fun d => modify (with_db d); pg_Exit := with_db;
  pg_TryLock := try_lock; pg_Unlock := release; enc_array := enc_list; dec_array := dec_list ""; pg_nilWhere := mret [] |}.
#[local] Instance pg_ok : PGOk pworld.
Proof.
  refine {| db := p_db; snap := fun d => d |}.
  - intros st w. by exists (stamp w).
  - intros st w. split; [by exists (stamp w)|done].
  - intros st w. simpl. destruct (p_cut w); (split; [by exists (stamp w)|done]).
  - done.
  - done.
  - done.
  - done.
  - apply dec_enc_list.
Defined.

#[local] Instance surround : @BoltProofs.RosterSurround tree_jid tree_xml pworld := {|
  BoltProofs.su_Route := fun _ => mret tt; BoltProofs.su_GetResources := fun _ => mret []; BoltProofs.su_LocalStream := fun _ _ => mret 1%Z;
  BoltProofs.su_StreamInfo := fun _ _ => ∅; BoltProofs.su_SetInfoBool := fun _ _ _ => mret tt;
  BoltProofs.su_IsLocalHost := fun d => String.eqb d "jackal.im"; BoltProofs.su_runHook := fun _ _ _ _ => mret tt;
  BoltProofs.su_uuid := mret "uuid" |}.
#[local] Instance surround_ok : SurroundOk.
Proof. split; done. Qed.
#[local] Existing Instance BoltProofs.MapBolt.tree_codec.
#[local] Existing Instance BoltProofs.MapBolt.tree_codec_ok.


(** *** What goes wrong, on data *)
Definition w0 : pworld := MkPW ∅ (3600 * nanos) 1 [1; 2; 2; 2; 2]%nat [] false.
Definition both (g : list string) : Item := MkItem "ana" "eve@jackal.im" "" "both" g false.

(** The groups of a request must all be groups of the item, where the other repository
    asks for one of them. *)
Theorem all_groups_required :
  ((UpsertRosterItem (both ["Friends"]);; FetchRosterItemsInGroups "ana" ["Friends"; "Work"]) w0).1 = Ok [] ∧
  ((UpsertRosterItem (both ["Friends"]);; FetchRosterItemsInGroups "ana" ["Friends"]) w0).1 = Ok [both ["Friends"]].
Proof. vm_compute. done. Qed.

(** A million seconds are added to the start of a query: a message that was archived an
    hour after it is not found. *)
Definition note : @Element tree_jid tree_xml := TNode "message" [] [] "" (Some KMessage).
Definition archived : M pworld unit := InsertArchiveMessage (MkArchive "ana" "1" "ana@jackal.im/a" "eve@jackal.im/b" note 0).
Definition found (start : option Z) : M pworld nat :=
  l ← FetchArchiveMessages (MkFilters start None "" "" "" []) "ana"; mret (length l).
Theorem start_of_query_shifted :
  ((archived;; found None) w0).1 = Ok 1%nat ∧ ((archived;; found (Some 0%Z)) w0).1 = Ok 0%nat.
Proof. vm_compute. done. Qed.

(** The calls of the pool use any connection: an unlock on another one than the lock does
    nothing, and the lock is not free again. *)
Theorem unlock_on_other_connection :
  is_ok ((Lock 1 "id";; Unlock "id") w0).1 = true ∧ is_ok ((Lock 1 "id";; Unlock "id";; Lock 3 "id") w0).1 = false.
Proof. vm_compute. done. Qed.
End PgDemo.
