(* ===== verification/ModuleHooks.v ===== *)
(** * The modules together on the hooks

    What every registered method does, on a state that holds the execution context of
    the hook, the state of the modules and the rest of the server, so that
    [Hooks.Run] runs the handlers of all modules that [HookTable] registers. *)

From stdpp Require Import base list strings gmap sorting.
From Stdlib Require Import ZArith Lia.
From S2P Require Import Prelude GoLib GoHoare Hooks Stravaganza C2SModel StreamQueue StreamMgmt Roster Storage Repository MemRep ModLib ModDemo Modules HookTable.
From S2P Require Blocklist Offline Mam Carbons Disco Caps Accounts Ping.

(** What a hook is run with besides the element and the targets
    ([hook.C2SStreamInfo], [hook.UserInfo], the sender). *)
Section info.
Context `{XmlLib}.
Record hookInfo := MkInfo {
  hi_Sender : Z; hi_ID : string; hi_JID : option JID; hi_Binded : bool; hi_Presence : option Element;
  hi_Object : option obj; hi_DisconnectError : goerror; hi_Username : string }.
End info.

Section modules.
Context `{XmlMore} `{!JidMore} `{!SortSlice} {W : Type} `{!ModEnv W} `{!Rep W} `{!RepMessages W}.
Context `{!RosterEnv W} `{!SMEnv W}.
(** the configuration of the modules *)
Context (smCfg : StreamMgmt.Config) (offlineSize mamSize : Z) (sendPings : bool) (Unix : Z → Z).
Context (AllComponents : W → list (string * string)) (mods : Modules.Modules W).

Record Srv := MkSrv {
  s_info : hookInfo; s_exec : ExecCtx; s_sm : smState; s_ping : Ping.Ping; s_caps : Caps.CapsModule W;
  s_disco : Disco.Disco W; s_w : W }.

(** A computation on one part of the state and the rest of the server. *)
Definition part {T A : Type} (get : Srv → T) (put : T → Srv → Srv) (m : M (T * W) A) : M Srv A := fun s =>
  let '(r, (t, w)) := m (get s, s_w s) in
  (r, put t (MkSrv (s_info s) (s_exec s) (s_sm s) (s_ping s) (s_caps s) (s_disco s) w)).

Definition onServer {A} (m : M W A) : M Srv A := part (fun _ => tt) (fun _ s => s) (onW m).
Definition onExec {A} : M (ExecCtx * W) A → M Srv A :=
  part s_exec (fun x s => MkSrv (s_info s) x (s_sm s) (s_ping s) (s_caps s) (s_disco s) (s_w s)).
Definition onSM {A} : M (smState * W) A → M Srv A :=
  part s_sm (fun x s => MkSrv (s_info s) (s_exec s) x (s_ping s) (s_caps s) (s_disco s) (s_w s)).
Definition onPing {A} : M (Ping.Ping * W) A → M Srv A :=
  part s_ping (fun x s => MkSrv (s_info s) (s_exec s) (s_sm s) x (s_caps s) (s_disco s) (s_w s)).
Definition onCaps {A} : M (Caps.CapsModule W * W) A → M Srv A :=
  part s_caps (fun x s => MkSrv (s_info s) (s_exec s) (s_sm s) (s_ping s) x (s_disco s) (s_w s)).
Definition onDisco {A} : M (Disco.Disco W * W) A → M Srv A :=
  part s_disco (fun x s => MkSrv (s_info s) (s_exec s) (s_sm s) (s_ping s) (s_caps s) x (s_w s)).

Definition info {A} (f : hookInfo → A) : M Srv A := gets (fun s => f (s_info s)).
Definition element : M Srv (option Element) := gets (fun s => ex_Element (s_exec s)).

(** The handlers, with what they take from the context. *)
Definition behaviour (m : method) : M Srv unit :=
  match m with
  | Roster_onPresenceRecv => e ← element; e ← deref e; onServer (Roster.onPresenceRecv e)
  | Roster_onUserDeleted => u ← info hi_Username; onServer (Roster.onUserDeleted u)
  | Offline_onMessageRouted => onExec (Offline.onMessageRouted offlineSize)
  | Offline_onC2SPresenceRecv =>
    stm ← info hi_Sender; e ← element;
    match stanza_as KPresence e with
    | Some pr => onServer (Offline.onC2SPresenceRecv stm pr)
    | None =>
      inf ← gets (fun s => me_StreamInfo stm (s_w s));
      if Info.Bool Offline.archiveRequestedCtxKey inf then mret tt else crash_with BadTypeAssertion
    end
  | Offline_onUserDeleted => u ← info hi_Username; onServer (Offline.onUserDeleted u)
  | Last_onElementRecv => onExec Accounts.LastActivity.onElementRecv
  | Last_onC2SPresenceRecv => e ← element; onServer (Accounts.LastActivity.onC2SPresenceRecv Unix e)
  | Last_onUserDeleted => u ← info hi_Username; onServer (Accounts.LastActivity.onUserDeleted u)
  | Disco_onModulesStarted => onDisco (Disco.onModulesStarted AllComponents mods)
  | Private_onUserDeleted => u ← info hi_Username; onServer (Accounts.Private.onUserDeleted u)
  | VCard_onUserDeleted => u ← info hi_Username; onServer (Accounts.VCard.onUserDeleted u)
  | Caps_onC2SPresenceRecv | Caps_onS2SPresenceRecv => e ← element; onCaps (Caps.onPresenceRecv e)
  | Caps_onC2SIQRecv | Caps_onS2SIQRecv => e ← element; onCaps (Caps.onIQRecv e)
  | Caps_onDiscoProvidersStarted => d ← gets s_disco; onCaps (Caps.onDiscoProvidersStarted d)
  | BlockList_onC2SElementRecv | BlockList_onS2SElementRecv => onExec Blocklist.onElementRecv
  | BlockList_onC2SElementWillRoute | BlockList_onS2SElementWillRoute => onExec Blocklist.onElementWillRoute
  | BlockList_onUserDeleted => u ← info hi_Username; onServer (Blocklist.onUserDeleted u)
  | Stream_onElementRecv =>
    stm ← info hi_Sender; e ← element; e ← deref e; onSM (StreamMgmt.onElementRecv smCfg stm e)
  | Stream_onElementSent =>
    stm ← info hi_Sender; o ← info hi_Object; o ← deref o; onSM (StreamMgmt.onElementSent smCfg stm o)
  | Stream_onDisconnect =>
    stm ← info hi_Sender; i ← info hi_ID; p ← info hi_Presence; e ← info hi_DisconnectError;
    onSM (StreamMgmt.onDisconnect stm i p e)
  | Stream_onTerminate => stm ← info hi_Sender; i ← info hi_ID; onSM (StreamMgmt.onTerminate stm i)
  | Ping_onBinded => j ← info hi_JID; j ← deref j; onPing (Ping.onBinded j)
  | Ping_onDisconnect => j ← info hi_JID; onPing (Ping.onDisconnect j)
  | Ping_onRecvElement =>
    b ← info hi_Binded; j ← info hi_JID;
    if b : bool then j ← deref j; onPing (Ping.onRecvElement b j) else mret tt
  | Carbons_onC2SElementWillRoute | Carbons_onS2SElementWillRoute => onExec Carbons.onElementWillRoute
  | Carbons_onC2SMessageRouted | Carbons_onS2SMessageRouted => onExec Carbons.onMessageRouted
  | Mam_onMessageReceived => onExec Mam.onMessageReceived
  | Mam_onMessageRouted => onExec (Mam.onMessageRouted mamSize)
  | Mam_onUserDeleted => u ← info hi_Username; onServer (Mam.onUserDeleted u)
  end.

(** [Run] of a hook on the server that started these modules. *)
Definition runHook (ms : list string) (hook : string) : M Srv bool :=
  Run hook (startModules behaviour sendPings ms NewHooks).

End modules.
Arguments Srv {_ _} _.

(** ** Calls that do not stop a hook *)
Definition unstopped {S A} (m : M S A) : Prop := ∀ s, (m s).1 ≠ Err ErrStopped.

Section unstopped_rules.
Context {S : Type}.
Lemma unstopped_ret {A} (a : A) : unstopped (mret a : M S A).
Proof. done. Qed.
Lemma unstopped_gets {A} (f : S → A) : unstopped (gets f).
Proof. done. Qed.
Lemma unstopped_modify f : unstopped (modify f : M S unit).
Proof. done. Qed.
Lemma unstopped_deref {A} (o : option A) : unstopped (deref o : M S A).
Proof. by destruct o. Qed.
Lemma unstopped_bind {A B} (m : M S A) (f : A → M S B) : unstopped m → (∀ a, unstopped (f a)) → unstopped (m ≫= f).
Proof.
  intros Hm Hf s. unfold mbind, M_bind. specialize (Hm s). destruct (m s) as [[a|e|c] s1]; [apply Hf|..]; simpl in *; congruence.
Qed.
Lemma unstopped_ignore {A} (m : M S A) : unstopped (ignore m).
Proof. intros s. unfold ignore, try, mbind, M_bind. by destruct (m s) as [[]]. Qed.
Lemma unstopped_for_each {A} (f : A → M S unit) (l : list A) : (∀ x, unstopped (f x)) → unstopped (for_each l f).
Proof. intros Hf. induction l as [|x l IH]; simpl; [done|]. by apply unstopped_bind. Qed.
Lemma unstopped_onW {T A} (m : M S A) : unstopped m → unstopped (onW m : M (T * S) A).
Proof. intros Hm [t s]. unfold onW. specialize (Hm s). by destruct (m s) as [[]]. Qed.
Lemma unstopped_fld {T A} (f : T → A) : unstopped (fld f : M (T * S) A).
Proof. done. Qed.
Lemma unstopped_setf {T} (f : T → T) : unstopped (setf f : M (T * S) unit).
Proof. by intros [t s]. Qed.
End unstopped_rules.
Create HintDb unstopped.
#[export] Hint Resolve unstopped_ret unstopped_gets unstopped_modify unstopped_deref unstopped_ignore unstopped_fld
  unstopped_setf : unstopped.
Ltac unstopped_step :=
  match goal with
  | |- unstopped (_ ≫= _) => apply unstopped_bind; [|intros ?]
  | |- unstopped (match ?x with _ => _ end) => destruct x
  | |- unstopped (onW _) => apply unstopped_onW
  | |- unstopped (for_each _ _) => apply unstopped_for_each; intros ?
  | |- unstopped _ => solve [eauto with unstopped]
  end.
Ltac unstopped_auto := repeat unstopped_step.

Section pipeline.
Context `{XmlMore} `{!JidMore} `{!SortSlice} {W : Type} `{!ModEnv W} `{!Rep W} `{!RepMessages W}.
Context `{!RosterEnv W} `{!SMEnv W}.
Context (smCfg : StreamMgmt.Config) (offlineSize mamSize : Z) (sendPings : bool) (Unix : Z → Z).
Context (AllComponents : W → list (string * string)) (mods : Modules.Modules W).

Abbreviation run := (runHook smCfg offlineSize mamSize sendPings Unix AllComponents mods).
Abbreviation does := (behaviour smCfg offlineSize mamSize Unix AllComponents mods).

(** *** The order on the hooks of routed messages *)
Definition routed_regs (hook : string) (carbons : method) : list registration :=
  [MkReg hook Mam_onMessageRouted (LowestPriority + 2); MkReg hook carbons (LowestPriority + 1);
   MkReg hook Offline_onMessageRouted LowestPriority].

Lemma c2s_routed_listed : lists sendPings C2SStreamMessageRouted (routed_regs C2SStreamMessageRouted Carbons_onC2SMessageRouted).
Proof. apply lists_table. destruct sendPings; repeat constructor. Qed.
Lemma s2s_routed_listed : lists sendPings S2SInStreamMessageRouted (routed_regs S2SInStreamMessageRouted Carbons_onS2SMessageRouted).
Proof. apply lists_table. destruct sendPings; repeat constructor. Qed.

Lemma routed_sorted hook m : StronglySorted above (routed_regs hook m).
Proof. repeat constructor. Qed.

(** The handlers on the hooks of routed messages, whatever the order of the modules:
    the archive, the carbon copies, the offline queue. *)
Lemma routed_run ms hook carbons : NoDup ms → "mam" ∈ ms → "carbons" ∈ ms → "offline" ∈ ms →
  (hook, carbons) ∈ [(C2SStreamMessageRouted, Carbons_onC2SMessageRouted); (S2SInStreamMessageRouted, Carbons_onS2SMessageRouted)] →
  run ms hook = run_handlers (map (hnd does) (routed_regs hook carbons)).
Proof.
  intros Hnd Hm Hc Ho Hh. unfold runHook, Run. f_equal.
  assert (lists sendPings hook (routed_regs hook carbons) ∧ owner carbons = "carbons") as [Hl Hown].
  { rewrite elem_of_cons, list_elem_of_singleton in Hh. destruct Hh as [[= -> ->]|[= -> ->]];
      (split; [|done]); [apply c2s_routed_listed|apply s2s_routed_listed]. }
  rewrite (handlers_in_order does sendPings hook (routed_regs hook carbons) ms Hnd Hl (routed_sorted _ _)).
  f_equal. apply filter_all. intros r Hr. unfold routed_regs in Hr. rewrite !elem_of_cons in Hr.
  destruct Hr as [->|[->|[->|Hr]]]; simpl; [done|by rewrite Hown|done|by apply not_elem_of_nil in Hr].
Qed.

(** One handler after the other. *)
Lemma run_cons (x : handler (Srv W)) hs s b s' : run_handlers (x :: hs) s = (Ok b, s') →
  (∃ s1, h x s = (Ok tt, s1) ∧ run_handlers hs s1 = (Ok b, s')) ∨ (h x s = (Err ErrStopped, s') ∧ b = true).
Proof.
  simpl. unfold try, mbind, M_bind. destruct (h x s) as [[[]|e|c] s1]; simpl; [by eauto| |done].
  case_decide; [subst; intros [= <- <-]; by right|done].
Qed.

Lemma onExec_inv (m : M (ExecCtx * W) unit) s r s' : onExec m s = (r, s') →
  ∃ x w, m (s_exec s, s_w s) = (r, (x, w)) ∧ s_exec s' = x ∧ s_w s' = w.
Proof. unfold onExec, part. destruct (m (s_exec s, s_w s)) as [r0 [x w]]. intros [= <- <-]. by exists x, w. Qed.

(** The collaborators of the modules do not stop hooks. *)
Class Unstopped : Prop := {
  us_Now : unstopped (me_Now : M W Z);
  us_uuid : unstopped (me_uuid : M W string);
  us_runHook : ∀ ev, unstopped (me_runHook ev : M W unit);
  us_Resources : ∀ u, unstopped (me_GetResources u : M W _);
  us_Lock : ∀ k, unstopped (rep_Lock k : M W unit);
  us_Count : ∀ u, unstopped (rep_CountOfflineMessages u : M W Z);
  us_Insert : ∀ m u, unstopped (rep_InsertOfflineMessage m u : M W unit);
  us_Archive : ∀ m, unstopped (rep_InsertArchiveMessage m : M W unit);
  us_Oldest : ∀ a n, unstopped (rep_DeleteArchiveOldestMessages a n : M W unit);
  us_Transaction : ∀ m, unstopped m → unstopped (rep_InTransaction m : M W unit);
}.
Context `{!Unstopped}.
#[local] Hint Resolve us_Now us_uuid us_runHook us_Resources us_Lock us_Count us_Insert us_Archive us_Oldest : unstopped.

Lemma mam_unstopped : unstopped (Mam.onMessageRouted mamSize).
Proof.
  assert (∀ m a i, unstopped (Mam.archiveMessage mamSize m a i)) as Ha.
  { intros m a i. unfold Mam.archiveMessage. unstopped_auto. apply us_Transaction. unstopped_auto. }
  unfold Mam.onMessageRouted, Mam.handleRoutedMessage, Mam.archiveSent, Mam.archiveReceived. unstopped_auto.
Qed.

Lemma carbons_unstopped : unstopped (Carbons.onMessageRouted (W := W)).
Proof.
  unfold Carbons.onMessageRouted, Carbons.processMessage, Carbons.routeSentCC, Carbons.routeReceivedCC,
    Carbons.getFilteredResources, Carbons.routeCC, Carbons.sentMsgCC, Carbons.receivedMsgCC, Carbons.msgCC, route.
  unstopped_auto.
Qed.

(** The archive changes the context only by its identifiers. *)
Definition same_message (x y : ExecCtx * W) : Prop :=
  ex_Element y.1 = ex_Element x.1 ∧ ex_Targets y.1 = ex_Targets x.1.
#[local] Instance same_message_preorder : PreOrder same_message.
Proof. split; [done|]. unfold same_message. intros x y z [] []. split; congruence. Qed.
Lemma onW_message {A} (m : M W A) : keeps same_message (onW m).
Proof. intros [x w]. unfold onW. by destruct (m w). Qed.
Lemma fld_message {A} (f : ExecCtx → A) : keeps same_message (fld f).
Proof. by intros [x w]. Qed.
Lemma sent_message i : keeps same_message (setf (set_sent_id i)).
Proof. by intros [x w]. Qed.
Lemma received_message i : keeps same_message (setf (set_received_id i)).
Proof. by intros [x w]. Qed.
#[local] Hint Resolve onW_message fld_message sent_message received_message : gomonad.

Lemma mam_message : keeps same_message (Mam.onMessageRouted mamSize).
Proof. unfold Mam.onMessageRouted, Mam.handleRoutedMessage, Mam.archiveSent, Mam.archiveReceived. keeps_auto. Qed.

Context `{!Mam.MamViews} `{!Mam.MamRepo} `{!RouteLog W} `{!RouteLaws W} `{!Carbons.ResourceView (W := W)}.
Context `{!Carbons.ResourceLaws (W := W)} `{!Offline.OfflineViews (W := W)} `{!Offline.OfflineRepo (W := W)}.

(** The last handler: it ends the hook for the messages that reached nobody. *)
Lemma offline_run x w r x' w' msg : stanza_as KMessage (ex_Element x) = Some msg →
  me_IsLocalHost (Domain (ToJID msg)) = true →
  Offline.onMessageRouted offlineSize (x, w) = (r, (x', w')) →
  if bool_decide (ex_Targets x = []) && Offline.isMessageArchievable msg
  then Offline.archiveMessage offlineSize msg w = (r, w') else r = Ok tt ∧ w' = w.
Proof.
  intros Hmsg Hlocal. unfold Offline.onMessageRouted, mbind, M_bind, fld, gets. simpl.
  destruct (ex_Targets x) as [|j js]; simpl; [|by intros [= <- _ <-]]. rewrite Hmsg.
  destruct (Offline.isMessageArchievable msg); simpl; [|by intros [= <- _ <-]]. rewrite Hlocal. simpl.
  intros E. by apply onW_inv in E as [_ E].
Qed.

(** It never returns without an error. *)
Definition never_ok {S A} (m : M S A) : Prop := ∀ s a s', m s ≠ (Ok a, s').
Lemma never_ok_bind {S A B} (m : M S A) (f : A → M S B) : (∀ a, never_ok (f a)) → never_ok (m ≫= f).
Proof. intros Hf s b s' E. inv_bind E as a s1 Ea. by apply Hf in E. Qed.
Lemma offline_never_ok msg : never_ok (Offline.archiveMessage offlineSize msg).
Proof.
  unfold Offline.archiveMessage, Offline.withLock. apply never_ok_bind. intros _ w a w'. unfold Offline.deferred.
  match goal with |- context [let '(_, _) := ?m w in _] => set (body := m) end.
  assert (never_ok body) as Hb.
  { apply never_ok_bind. intros n. destruct (Z.eqb n offlineSize); repeat (apply never_ok_bind; intros ?); by intros ? ? ?. }
  specialize (Hb w). destruct (body w) as [r w1]. destruct (Offline.releaseLock _ w1) as [[]]; congruence.
Qed.

Lemma routed_carbons hook carbons :
  (hook, carbons) ∈ [(C2SStreamMessageRouted, Carbons_onC2SMessageRouted); (S2SInStreamMessageRouted, Carbons_onS2SMessageRouted)] →
  does carbons = onExec Carbons.onMessageRouted.
Proof. rewrite elem_of_cons, list_elem_of_singleton. by intros [[= -> ->]|[= -> ->]]. Qed.

(** The stores and the surroundings are apart: the calls of the archive leave the
    queues alone and those of the queues the archives. *)
Class Apart : Prop := {
  ap_uuid : keeps Offline.same_mail (me_uuid : M W string);
  ap_Resources : ∀ u, keeps Offline.same_mail (me_GetResources u : M W _);
  ap_Archive : ∀ m, keeps Offline.same_mail (rep_InsertArchiveMessage m : M W unit);
  ap_Oldest : ∀ a n, keeps Offline.same_mail (rep_DeleteArchiveOldestMessages a n : M W unit);
  ap_Transaction : ∀ m, keeps Offline.same_mail m → keeps Offline.same_mail (rep_InTransaction m : M W unit);
  ap_Lock : ∀ k, keeps Mam.same_arch (rep_Lock k : M W unit);
  ap_Unlock : ∀ k, keeps Mam.same_arch (rep_Unlock k : M W unit);
  ap_Count : ∀ u, keeps Mam.same_arch (rep_CountOfflineMessages u : M W Z);
  ap_Insert : ∀ m u, keeps Mam.same_arch (rep_InsertOfflineMessage m u : M W unit);
}.
Context `{!Apart}.

Definition rest (R : W → W → Prop) (p q : ExecCtx * W) : Prop := R p.2 q.2.
#[local] Instance rest_preorder R : PreOrder R → PreOrder (rest R).
Proof. intros HR. split; [by intros p; unfold rest|]. intros p q r. unfold rest. apply HR. Qed.
Lemma rest_onW {A} R (m : M W A) : keeps R m → keeps (rest R) (onW m).
Proof. intros Hm [x w]. specialize (Hm w). unfold onW, rest. by destruct (m w). Qed.
Lemma rest_fld {A} R `{!PreOrder R} (f : ExecCtx → A) : keeps (rest R) (fld f).
Proof. by intros [x w]; unfold rest. Qed.
Lemma rest_setf R `{!PreOrder R} (f : ExecCtx → ExecCtx) : keeps (rest R) (setf f).
Proof. by intros [x w]; unfold rest. Qed.
#[local] Hint Resolve rest_onW rest_fld rest_setf : gomonad.
#[local] Hint Resolve ap_uuid ap_Resources ap_Archive ap_Oldest ap_Transaction ap_Lock ap_Unlock ap_Count ap_Insert
  Offline.of_Route Offline.of_runHook Offline.of_Now : gomonad.

Lemma mam_keeps_mail : keeps (rest Offline.same_mail) (Mam.onMessageRouted mamSize).
Proof.
  assert (∀ m a i, keeps Offline.same_mail (Mam.archiveMessage mamSize m a i)) as Ha.
  { intros m a i. unfold Mam.archiveMessage. keeps_auto. apply ap_Transaction. keeps_auto. }
  unfold Mam.onMessageRouted, Mam.handleRoutedMessage, Mam.archiveSent, Mam.archiveReceived. keeps_auto.
Qed.
Lemma carbons_keep (R : W → W → Prop) `{!PreOrder R} : (∀ e, keeps R (me_Route e)) → (∀ u, keeps R (me_GetResources u)) →
  keeps (rest R) Carbons.onMessageRouted.
Proof.
  intros Hr Hg. unfold Carbons.onMessageRouted, Carbons.processMessage, Carbons.routeSentCC, Carbons.routeReceivedCC,
    Carbons.getFilteredResources, Carbons.routeCC, Carbons.sentMsgCC, Carbons.receivedMsgCC, Carbons.msgCC, route.
  keeps_auto; apply rest_onW; keeps_auto.
Qed.
Lemma keeps_deferred {A} (R : W → W → Prop) `{!PreOrder R} cleanup (body : M W A) :
  keeps R cleanup → keeps R body → keeps R (Offline.deferred cleanup body).
Proof.
  intros Hc Hb w. specialize (Hb w). unfold Offline.deferred. destruct (body w) as [r w1]. specialize (Hc w1).
  destruct (cleanup w1) as [[]]; simpl in *; by etrans.
Qed.
Lemma offline_keeps_archive msg : keeps Mam.same_arch (Offline.archiveMessage offlineSize msg).
Proof.
  unfold Offline.archiveMessage, Offline.withLock, Offline.releaseLock, refuse, route. 
  pose proof (Mam.mr_env (W := W)) as He. keeps_auto.
  apply keeps_deferred; [typeclasses eauto|keeps_auto..].
Qed.

(** What the last handler does to the queue of the recipient [u]. *)
Definition queued (u : string) (msg : Element) (w w' : W) : Prop :=
  (Z.of_nat (length (Offline.queue w u)) = offlineSize ∧ Offline.same_mail w w') ∨
  ∃ t d, MakeDelayMessage me_FormatDelay msg t (Domain (ToJID msg)) "Offline Storage" = Some d ∧
    Offline.upd u (Offline.queue w u ++ [d]) (Offline.queue w) (Offline.queue w').

Lemma queued_same u msg w w1 w' : Offline.same_mail w w1 → queued u msg w1 w' → queued u msg w w'.
Proof.
  intros Hs [[Hl Hs']|(t & d & Hd & Hu)].
  - left. split; [by rewrite <-(proj1 Hs)|by etrans].
  - right. exists t, d. split; [done|]. intros v. rewrite Hu, !(proj1 Hs). done.
Qed.

(** The three handlers, one after the other. *)
Lemma archive_then_copies (x x1 x2 : ExecCtx) (w w1 w2 : W) (msg : Element) :
  stanza_as KMessage (ex_Element x) = Some msg → Mam.isMessageArchievable msg = true →
  me_IsLocalHost (Domain (ToJID msg)) = true →
  Mam.onMessageRouted mamSize (x, w) = (Ok tt, (x1, w1)) → Carbons.onMessageRouted (x1, w1) = (Ok tt, (x2, w2)) →
  x2 = x1 ∧ stanza_as KMessage (ex_Element x1) = Some msg ∧ ex_Targets x1 = ex_Targets x ∧
  Offline.same_mail w w2 ∧ Mam.same_arch w1 w2 ∧
  Carbons.copies x1 msg
    (Carbons.isEligibleMessage msg && negb (Carbons.isPrivateMessage msg) && negb (Carbons.isCCMessage msg)) w1 w2.
Proof.
  intros Hmsg Harch Hlocal Hmam Hcc.
  pose proof (keeps_run same_message _ _ _ _ mam_message Hmam) as [He Ht]. simpl in He, Ht.
  assert (stanza_as KMessage (ex_Element x1) = Some msg) as Hmsg1 by (by rewrite He).
  pose proof (Carbons.routed_copies _ _ _ _ msg Hmsg1 Hcc) as [-> Hcopies]. split_and!; [done..| | |done].
  - transitivity w1; [exact (keeps_run _ _ _ _ _ mam_keeps_mail Hmam)|].
    refine (keeps_run (rest Offline.same_mail) _ _ _ _ _ Hcc). apply carbons_keep; [typeclasses eauto|apply Offline.of_Route|apply ap_Resources].
  - pose proof (Mam.mr_env (W := W)). refine (keeps_run (rest Mam.same_arch) _ _ _ _ _ Hcc).
    apply carbons_keep; [typeclasses eauto|apply ek_Route|apply ek_Resources].
Qed.


End pipeline.

(** ** On the server in memory *)
Module HooksDemo.
Import TreeLib TreeMore.
Export Mam.MamDemo Carbons.CarbonsDemo Offline.OfflineDemo.

Definition unused {A} : M server A := fail (ErrText "not used").
#[export] Instance roster_env : @RosterEnv tree_jid tree_xml server := {|
  Roster.rep_FetchRosterVersion := fun _ => unused; Roster.rep_FetchRosterItem := fun _ _ => unused;
  Roster.rep_FetchRosterItems := fun _ => unused; Roster.rep_UpsertRosterNotification := fun _ _ _ => unused;
  Roster.rep_FetchRosterNotification := fun _ _ => unused; Roster.rep_FetchRosterNotifications := fun _ => unused;
  Roster.rep_DeleteRosterNotification := fun _ _ => unused; Roster.rep_InTransaction := fun m => m;
  tx_TouchRosterVersion := fun _ => unused; tx_UpsertRosterItem := fun _ => unused;
  tx_DeleteRosterItem := fun _ _ => unused; tx_DeleteRosterNotifications := fun _ => unused;
  tx_DeleteRosterItems := fun _ => unused; ro_Route := me_Route; ro_GetResources := me_GetResources;
  ro_LocalStream := me_LocalStream; ro_StreamInfo := me_StreamInfo; ro_SetInfoBool := me_SetInfoBool;
  ro_IsLocalHost := me_IsLocalHost; ro_runHook := fun _ _ _ _ => mret tt; ro_uuid := me_uuid |}.
#[export] Instance sm_env : @SMEnv tree_jid tree_xml server := {|
  stm_JID := fun i w => (fun p => (MkJid p.1 "jackal.im" p.2 : @JID tree_jid)) <$> (sv_streams w !! Z.to_nat i);
  stm_IsBinded := fun _ _ => true; stm_IsAuthenticated := fun _ _ => true; stm_Info := me_StreamInfo;
  stm_SetInfoBool := me_SetInfoBool; stm_SendElement := me_SendElement;
  stm_SendStanza := fun i o => me_SendElement i (content o); stm_Disconnect := fun _ _ => mret tt;
  stm_DisconnectWait := fun _ _ => mret tt; stm_Resume := fun _ _ _ _ => mret tt;
  rm_GetResource := fun _ _ => mret None; cl_GetConnection := fun _ => unused;
  cl_TransferQueue := fun _ _ => unused; rand_Intn := fun _ => mret 6%Z; sm_instance_ID := "i1" |}.

#[export] Instance server_unstopped : @Unstopped tree_jid tree_xml server server_env map_rep map_messages.
Proof.
  split; try done. intros m Hm w. specialize (Hm w). simpl. by destruct (m w) as [[]].
Qed.
#[export] Instance server_apart : @Apart tree_jid tree_xml server server_env map_rep map_messages
  Mam.MamDemo.demo_views Offline.OfflineDemo.demo_views.
Proof.
  split.
  - by intros [].
  - by intros u w.
  - by intros m [? []].
  - by intros a n [? []].
  - intros m Hm w. specialize (Hm w). simpl. destruct (m w) as [[[]|e|c] w'] eqn:E; simpl in *; [done|..].
    all: destruct w, w'; simpl in *; destruct Hm as [_ Hh]; by split.
  - by intros k [? []].
  - by intros k [? []].
  - by intros u w.
  - by intros m u [? []].
Qed.

Definition garden : @JID tree_jid := MkJid "romeo" "jackal.im" "garden".
Definition no_info : @hookInfo tree_jid tree_xml := MkInfo 0 "c2s:1" (Some garden) true None None ErrStreamClosedByPeer "".
Definition conf : StreamMgmt.Config := StreamMgmt.MkSMConfig 60 30 250.
Definition start (e : XElement) (targets : list (@JID tree_jid)) (sm : @smState tree_jid tree_xml) (w : server) : Srv server :=
  MkSrv no_info (MkExec (Some e) targets "" "") sm Ping.New Caps.New (Disco.MkDisco None None) w.
Definition no_sm : @smState tree_jid tree_xml := MkSM ∅ ∅ 0 ∅ ∅ 0.
Definition no_mods : Modules.Modules server := Modules.NewModules [].
Definition no_components (_ : server) : list (string * string) := [].
Definition run (ms : list string) (hook : string) (s : Srv server) : outcome bool * Srv server :=
  runHook conf 2 2 true (fun t => t) no_components no_mods ms hook s.

Definition chat : XElement := Mam.MamDemo.chat "a".
Definition messages : list string := ["offline"; "carbons"; "mam"].
Definition lost : Srv server := start chat [] no_sm Mam.MamDemo.romeo_server.
Definition after : Srv server := (run messages C2SStreamMessageRouted lost).2.


(** Stream 0 of juliet has stream management; romeo blocks her. *)
Definition sm_key : string := "juliet@jackal.im/b".
Definition with_sm : @smState tree_jid tree_xml :=
  MkSM {[ 0%nat := Queue.New 0 [7%Z] [] 0 0 60 30 ]} {[ sm_key := 0%nat ]} 1 ∅ ∅ 0.
Definition blocking : server :=
  MkServer (set_block (fun _ => {["romeo" := [MkBlockItem "romeo" "juliet@jackal.im"]]}) no_mem) no_mail [] [] ∅
    [("juliet", "b")] ∅ 0.
Definition counted (s : Srv server) : option Z := Queue.InboundH <$> (heap (s_sm s) !! 0%nat).

(** A stanza that its recipient blocks is answered, and not counted: the block list
    ends the hook before the counter of stream management, and the client is never
    told that the server has handled the stanza. *)
Theorem blocked_not_counted :
  let received ms := run ms C2SStreamElementReceived (start chat [] with_sm blocking) in
  counted (received ["stream_mgmt"]).2 = Some 1%Z ∧
  counted (received ["stream_mgmt"; "blocklist"]).2 = Some 0%Z ∧
  (received ["stream_mgmt"; "blocklist"]).1 = Ok true ∧
  length (sv_routed (s_w (received ["stream_mgmt"; "blocklist"]).2)) = 1%nat.
Proof.
  split; [vm_cast_no_check (eq_refl (Some 1%Z))|]. split; [vm_cast_no_check (eq_refl (Some 0%Z))|].
  split; [vm_cast_no_check (eq_refl (@Ok bool true))|vm_cast_no_check (eq_refl 1%nat)].
Qed.

End HooksDemo.
